(* ===== verification/_CoqProject ===== *)
-Q . S2P
Prelude.v
MapLayout.v
Crc32c.v
Superblock.v
HashFn.v
SuperTable.v
FileLayer.v
SBlock.v
SBlockInv.v
MapPrealloc.v
SBlockSafety.v
SBlockSpec.v
MapPreallocSpec.v
BufState.v
MapBuf.v
MapClock.v
PoolInv.v
MapPage.v
MapPageSpec.v
MapEntries.v
MapCheckpoint.v
MapCheckpointSpec.v
MapRange.v
MapRangeSpec.v
MapFaults.v
MapInflight.v
MapInflightSpec.v
MapReserve.v
WalRecord.v
WalRecordSpec.v
SmgrFiles.v
SmgrAccess.v
SmgrSpec.v
SmgrWriteSpec.v
UmbraXlog.v
SmgrExtend.v
SmgrExtendSpec.v
SmgrProgress.v
UmOs.v
SyncQueue.v
SyncSpec.v
MapCompact.v
MapCompactSpec.v
MapCompactPass.v
SmgrLife.v
SmgrLifeSpec.v
UmbraRedo.v
UmbraRedoSpec.v
UmFile.v
UmFileInv.v
UmFileSpec.v
UmFileOps.v
UmFileLaws.v
UmFileStore.v
