(* ===== verification/Prelude.v ===== *)
(** * Umbra: a verification development of the storage manager and its MAP

    Umbra is a storage manager for PostgreSQL that stores every relation block
    at a physical place of its choice.  A per-relation metadata fork holds a
    superblock (block 0) and map pages (arrays of physical block numbers).  The
    storage manager ([src/backend/storage/smgr/umbra.c]) translates logical
    blocks through the MAP layer ([src/backend/storage/map/]), which caches
    superblocks and map pages in shared memory, hands out fresh physical blocks
    and writes the caches back; both reach the disk through segment files
    ([src/backend/storage/smgr/umfile.c]).  Changes of the map are WAL-logged,
    either inside the record of a page or as records of their own
    ([access/transam/]).

    ** Files

    Foundations
    - [Prelude]: fixed-width integers, errors and the state and error monad
      the C code is written in, little-endian packing, flag words, block and
      fork numbers.

    Superblocks
    - [MapLayout]: address arithmetic of the metadata fork ([map.c],
      [include/storage/map.h], and the FSM page numbers of [freespace.c]).
    - [Crc32c]: the slicing-by-8 CRC of [port/pg_crc32c_sb8.c].
    - [Superblock]: the superblock record, checksum and sector image
      ([mapsuper.c]).
    - [HashFn], [SuperTable]: [hash_bytes] of [common/hashfn.c] and the
      partitioned open-addressing table of cached superblocks.  The class
      [SuperStore] with its laws is what the operations see of the table.
    - [SBlock]: every operation of [mapsuper.c] on cached superblocks, block
      reservation ([map.c]) and superblock writeback ([mapflush.c]), in the
      order of the code's state changes, failures included.
    - [SBlockInv], [SBlockSafety], [SBlockSpec]: the invariant of those
      operations, safety under arbitrary schedules, functional behaviour.
    - [MapPrealloc], [MapPreallocSpec]: preallocation ([mapbgproc.c]).

    Map pages
    - [BufState]: the atomic state word of a map buffer ([mapbuf.c]) and the
      interleavings of other backends.
    - [MapBuf], [MapClock], [PoolInv]: descriptors, pins, output I/O, cache
      table, replacement clock ([mapbuf.c], [mapclock.c], [mapinit.c]), and the
      invariant of the pool.
    - [MapPage], [MapPageSpec]: reading, writing back, looking up and updating
      map pages ([map.c], [mapflush.c], [mapbuf.c]) for one running backend,
      and the map these operations implement.
    - [MapEntries]: what lookups and updates do to the map; [MapFaults]: what a
      failed read or write leaves behind.
    - [MapRange], [MapRangeSpec]: runs of blocks, truncation, block counts.
    - [MapInflight], [MapInflightSpec], [MapReserve]: claims on map entries and
      the write barriers built on them ([mapinflight.c]), shared between
      backends, and reservation under them.
    - [MapCheckpoint], [MapCheckpointSpec]: writing back at checkpoints
      ([mapflush.c]).

    WAL
    - [WalRecord], [WalRecordSpec]: assembling and decoding a record with the
      block remap information ([xloginsert.c], [xlogreader.c]).
    - [UmbraXlog]: the map records of [umbra_xlog.c]; [UmbraRedo],
      [UmbraRedoSpec]: their replay, and that replaying the log of a compaction
      leads to the map and the blocks the compaction led to.

    Storage manager
    - [SmgrFiles]: the file operations on data forks.
    - [SmgrAccess]: policy of a relation handle, translation, vectored reads and
      writes, write-back, sizes, truncation ([umbra.c]); [SmgrSpec] and
      [SmgrWriteSpec]: what reads return and writes store; [SmgrProgress]: that
      waiting writers are served.
    - [SmgrExtend], [SmgrExtendSpec]: extension by pages and by zeros.
    - [SmgrLife], [SmgrLifeSpec]: creation of the metadata fork, the transition
      of a relation filled without WAL to mapped state, copying, removal,
      forgetting a relation or a database in the shared caches, and the
      clean-up at the exit of a backend ([umbra.c], [map.c], [mapbuf.c]).

    Background work
    - [MapCompact], [MapCompactSpec], [MapCompactPass]: one round of background
      preallocation and of compaction ([mapbgproc.c]): the scan for sparse
      extents and dead segments, the move of a block, the reclaim boundary and
      the requests to remove segments.
    - [SyncQueue], [SyncSpec]: the checkpointer's side of the request queue
      ([sync.c], [checkpointer.c]), through which segments are removed.

    Files
    - [FileLayer]: the class of file operations the MAP layer calls
      ([umfile_ctx_...]) with the behaviour it relies on, and a reference
      instance.  [SmgrFiles] adds the operations of the storage manager.
    - [UmOs]: the file system calls below [umfile.c], with failures and short
      transfers; [UmFile]: the operations of [umfile.c] on segment files.
    - [UmFileInv], [UmFileSpec], [UmFileOps], [UmFileLaws]: the invariant of
      files and open segments and what the operations do.
    - [UmFileStore]: segment files as an instance of the interfaces, so that
      every theorem stated over [FileLayer] and [DataFiles] holds of [umfile.c].

    ** Theorems

    Layout and formats: addresses are injective and exact, the table-driven CRC
    equals the bitwise one, images and records decode to what was encoded.
    Superblocks: the table refines a map, the operations keep their invariant
    under every schedule of backends, no physical block is handed out twice,
    and sizes move as the operations say.  Map pages: the buffer pool keeps its
    invariant, lookups and updates implement a map from logical to physical
    blocks whatever is evicted and written back, checkpoints leave the disk
    up to date.  Claims: at most one backend holds an entry, and a waiting
    writer is served.  Storage manager: reads return, writes store and
    extension appends logical blocks, leaving every other block alone; a
    forgotten relation leaves no trace in the caches.  Compaction: a pass keeps
    every logical block, asks for the removal of a segment only when no block
    lies in it, and its log replays to the same map; the checkpointer removes a
    file only after a checkpoint that began after the request.  Files:
    [umfile.c] keeps the contract these theorems assume.  The theorems marked
    as showing a defect are about inputs on which the code does not do what it
    means to.

    ** Conventions

    C unsigned integers are [Z] with the wrap of their width written out.
    Code that can raise an error runs in [M S A := S → result A * S]; the state
    reached when the error is raised is kept.  Locks are implicit in the order
    of steps: one operation of a schedule is what the code does between
    acquiring and releasing its locks, and theorems quantify over schedules.
    What other processes do while a backend sleeps is a parameter with the
    obligation to keep the shared invariant.

    ** Fuel

    Loops that are not structural take fuel.  The probe of the superblock table
    runs at most its capacity, the free-list loop one turn per buffer, the
    clock sweep 33 turns per buffer (a usage count is at most 31), and each is
    proved to finish within its fuel.  [MapReadBuffer] has two turns; in a
    state that satisfies the pool invariant the first one returns.  Loops over
    blocks, pages, entries, bytes or segments take the number of them:
    [lookup_run], [truncate_pages], [read_runs], [remap_chunks], [read_loop],
    [write_loop], [zeroextend_runs], [preallocate_segs], [flush_supers_loop],
    [decode_headers], [cleanup_loop].  [dense_size], [register_unlinks] and
    [unlink_segments] visit one existing segment per turn, so the number of
    files is enough.  The waiting loops of [um_claim_write_barrier] and
    [MapWaitForForeignInflightToClear] count down the retries of the code;
    the fuel of [get_new_pbkno] and of [MapInvalidateBuffer], the loops of
    unbounded waiting, bounds the remaps and pins of other backends they wait
    for.  [post_loop] visits a cell of the list of removals per turn, and
    [post_fuel] counts the cells that are there or can arrive; [sync_entry] has
    the two attempts after which the code gives up.

    ** Not modelled

    The main loops of the background processes (map writer and compactor), which
    call the modelled rounds; the asynchronous I/O handles; the shared ring
    buffer of sync requests; waking of processes, statistics views, memory
    contexts and assertions that only document.  The virtual file descriptors
    of [fd.c] are taken as handles of open files.  Of the callers of the storage
    manager in the rest of PostgreSQL (buffer manager, catalog, backup, WAL
    insertion and recovery drivers) only the layout of WAL records is modelled:
    they reach the map through the operations above. *)
From stdpp Require Export base tactics numbers list gmap strings option.
From Stdlib Require Export ZArith Lia.

#[global] Set Default Goal Selector "!".
#[global] Set Warnings "-notation-overridden,-clear-no-such-hyp".

Declare Scope umbra_scope.
Delimit Scope umbra_scope with umbra.

Local Open Scope Z_scope.

(** ** Fixed-width integers

    A C unsigned integer of width [w] is a [Z] in [0, 2^w); every C operation
    that can leave the range is written with the wrap of its width. *)

Definition u8 (z : Z) : Z := z mod 2 ^ 8.
Definition u16 (z : Z) : Z := z mod 2 ^ 16.
Definition u32 (z : Z) : Z := z mod 2 ^ 32.
Definition u64 (z : Z) : Z := z mod 2 ^ 64.

Definition is_u8 (z : Z) : Prop := 0 ≤ z < 2 ^ 8.
Definition is_u16 (z : Z) : Prop := 0 ≤ z < 2 ^ 16.
Definition is_u32 (z : Z) : Prop := 0 ≤ z < 2 ^ 32.
Definition is_u64 (z : Z) : Prop := 0 ≤ z < 2 ^ 64.

Notation "x +u32 y" := (u32 (x + y)) (at level 50, left associativity) : umbra_scope.
Notation "x -u32 y" := (u32 (x - y)) (at level 50, left associativity) : umbra_scope.
Notation "x *u64 y" := (u64 (x * y)) (at level 40, left associativity) : umbra_scope.
Notation "x +u64 y" := (u64 (x + y)) (at level 50, left associativity) : umbra_scope.

#[global] Instance is_u8_dec z : Decision (is_u8 z) := _.
#[global] Instance is_u16_dec z : Decision (is_u16 z) := _.
#[global] Instance is_u32_dec z : Decision (is_u32 z) := _.
#[global] Instance is_u64_dec z : Decision (is_u64 z) := _.

(** [Max] and [Min] of [c.h] are [Z.max] and [Z.min] on these values. *)

(** ** Results and the state monad

    A C function that can leave through [ereport(ERROR)] returns a [result];
    one that also changes shared state lives in [M S], which keeps the state
    reached when the error was raised: PostgreSQL does not undo shared-memory
    changes on an error. *)

Inductive elevel := ERROR | FATAL | PANIC.

Inductive sqlstate :=
  | ERRCODE_LOCK_NOT_AVAILABLE
  | ERRCODE_INTERNAL_ERROR
  | ERRCODE_DATA_CORRUPTED
  | ERRCODE_PROGRAM_LIMIT_EXCEEDED
  | ERRCODE_INSUFFICIENT_RESOURCES
  | ERRCODE_OUT_OF_MEMORY
  | ERRCODE_UNDEFINED_FILE
  | ERRCODE_DUPLICATE_FILE
  | ERRCODE_INSUFFICIENT_PRIVILEGE
  | ERRCODE_DISK_FULL
  | ERRCODE_IO_ERROR.

Record pg_error := PgError {
  err_level : elevel;
  err_code : sqlstate;
  err_msg : string;
}.

Inductive result (A : Type) :=
  | Ok (a : A)
  | Err (e : pg_error).
Arguments Ok {A} a.
Arguments Err {A} e.

#[global] Instance result_ret : MRet result := @Ok.
#[global] Instance result_bind : MBind result :=
  λ A B f r, match r with Ok a => f a | Err e => Err e end.

Definition M (S A : Type) : Type := S → result A * S.

#[global] Instance M_ret {S} : MRet (M S) := λ A a s, (Ok a, s).
#[global] Instance M_bind {S} : MBind (M S) := λ A B f m s,
  match m s with
  | (Ok a, s') => f a s'
  | (Err e, s') => (Err e, s')
  end.

Definition throw {S A} (e : pg_error) : M S A := λ s, (Err e, s).
Definition get {S} : M S S := λ s, (Ok s, s).
Definition gets {S A} (f : S → A) : M S A := λ s, (Ok (f s), s).
Definition put {S} (s : S) : M S unit := λ _, (Ok tt, s).
Definition modify {S} (f : S → S) : M S unit := λ s, (Ok tt, f s).
Definition lift {S A} (r : result A) : M S A := λ s, (r, s).
Definition when {S} (b : bool) (m : M S unit) : M S unit :=
  if b then m else mret tt.

(** [PG_TRY]/[PG_CATCH] around a body that does not leave it early. *)
Definition catch {S A} (m : M S A) (h : pg_error → M S A) : M S A := λ s,
  match m s with
  | (Ok a, s') => (Ok a, s')
  | (Err e, s') => h e s'
  end.

Definition elog {S A} (l : elevel) (msg : string) : M S A :=
  throw (PgError l ERRCODE_INTERNAL_ERROR msg).
Definition ereport {S A} (l : elevel) (c : sqlstate) (msg : string) : M S A :=
  throw (PgError l c msg).

(** Weakest precondition: [Q] for a normal return, [E] for an error. *)
Definition wp {S A} (m : M S A) (Q : A → S → Prop) (E : pg_error → S → Prop)
    (s : S) : Prop :=
  match m s with
  | (Ok a, s') => Q a s'
  | (Err e, s') => E e s'
  end.

Section wp_rules.
Context {S : Type}.
Implicit Types s : S.

Lemma wp_ret {A} (a : A) Q (E : pg_error → S → Prop) s :
  Q a s → wp (mret a) Q E s.
Proof. done. Qed.

Lemma wp_bind {A B} (m : M S A) (f : A → M S B) Q E s :
  wp m (λ a, wp (f a) Q E) E s → wp (m ≫= f) Q E s.
Proof.
  unfold wp, mbind, M_bind. destruct (m s) as [[a|e] s']; done.
Qed.

Lemma wp_bind_inv {A B} (m : M S A) (f : A → M S B) Q E s :
  wp (m ≫= f) Q E s → wp m (λ a, wp (f a) Q E) E s.
Proof.
  unfold wp, mbind, M_bind. destruct (m s) as [[a|e] s']; done.
Qed.

Lemma wp_mono {A} (m : M S A) (Q Q' : A → S → Prop) E E' s :
  wp m Q E s →
  (∀ a s', Q a s' → Q' a s') → (∀ e s', E e s' → E' e s') →
  wp m Q' E' s.
Proof. unfold wp. destruct (m s) as [[a|e] s']; eauto. Qed.

Lemma wp_throw {A} e (Q : A → S → Prop) (E : pg_error → S → Prop) s :
  E e s → wp (throw e) Q E s.
Proof. done. Qed.

Lemma wp_gets {A} (f : S → A) Q (E : pg_error → S → Prop) s :
  Q (f s) s → wp (gets f) Q E s.
Proof. done. Qed.

Lemma wp_modify (f : S → S) Q (E : pg_error → S → Prop) s :
  Q tt (f s) → wp (modify f) Q E s.
Proof. done. Qed.

Lemma wp_lift {A} (x : result A) a Q (E : pg_error → S → Prop) s :
  x = Ok a → Q a s → wp (lift x) Q E s.
Proof. by intros ->. Qed.

Lemma wp_when b (m : M S unit) Q (E : pg_error → S → Prop) s :
  (b = true → wp m Q E s) → (b = false → Q tt s) → wp (when b m) Q E s.
Proof. destruct b; intros H1 H2; [by apply H1 | by apply H2]. Qed.

Lemma wp_catch {A} (m : M S A) (h : pg_error → M S A) Q (E : pg_error → S → Prop) s :
  wp m Q (λ e s', wp (h e) Q E s') s → wp (catch m h) Q E s.
Proof. unfold wp, catch. destruct (m s) as [[a|e] s']; done. Qed.
End wp_rules.

Create HintDb umbra.
Create Rewrite HintDb umbra.
#[export] Hint Resolve wp_ret wp_throw wp_gets wp_modify : umbra.

(** [zbool] turns the boolean tests of the code into propositions. *)
Ltac zbool :=
  repeat match goal with
  | H : (_ =? _) = true |- _ => apply Z.eqb_eq in H
  | H : (_ =? _) = false |- _ => apply Z.eqb_neq in H
  | H : (_ <? _) = true |- _ => apply Z.ltb_lt in H
  | H : (_ <? _) = false |- _ => apply Z.ltb_ge in H
  | H : (_ <=? _) = true |- _ => apply Z.leb_le in H
  | H : (_ <=? _) = false |- _ => apply Z.leb_gt in H
  | H : _ && _ = true |- _ => apply andb_true_iff in H; destruct H
  | H : _ || _ = false |- _ => apply orb_false_iff in H; destruct H
  | H : negb _ = true |- _ => apply negb_true_iff in H
  | H : negb _ = false |- _ => apply negb_false_iff in H
  | H : bool_decide _ = true |- _ => apply bool_decide_eq_true in H
  | H : bool_decide _ = false |- _ => apply bool_decide_eq_false in H
  end.

(** [ulia] decides linear goals over wrapped integers and their quotients. *)
Ltac ulia :=
  unfold is_u8, is_u16, is_u32, is_u64, u8, u16, u32, u64 in *;
  Z.to_euclidean_division_equations; lia.

(** ** Generic integer lemmas *)

Lemma u32_small z : is_u32 z → u32 z = z.
Proof. intros H. apply Z.mod_small. exact H. Qed.

Lemma u64_small z : is_u64 z → u64 z = z.
Proof. intros H. apply Z.mod_small. exact H. Qed.

Lemma u32_range z : is_u32 (u32 z).
Proof. apply Z.mod_pos_bound. lia. Qed.

Lemma u64_range z : is_u64 (u64 z).
Proof. apply Z.mod_pos_bound. lia. Qed.

#[export] Hint Resolve u32_range u64_range : umbra.

(** ** Little-endian byte strings

    An integer stored in an on-disk or WAL structure is the list of its
    bytes, least significant first. *)

Fixpoint le_bytes (n : nat) (z : Z) : list Z :=
  match n with
  | O => []
  | S n => z mod 256 :: le_bytes n (z / 256)
  end.

Fixpoint le_val (bs : list Z) : Z :=
  match bs with
  | [] => 0
  | b :: bs => b + 256 * le_val bs
  end.

Definition is_byte (b : Z) : Prop := 0 ≤ b < 256.

Lemma length_le_bytes n z : length (le_bytes n z) = n.
Proof. revert z; induction n; intros z; simpl; auto. Qed.

Lemma le_bytes_is_byte n z : Forall is_byte (le_bytes n z).
Proof.
  revert z; induction n as [|n IH]; intros z; simpl; constructor; auto.
  unfold is_byte. apply Z.mod_pos_bound. lia.
Qed.

Lemma le_val_bytes n z : 0 ≤ z < 256 ^ Z.of_nat n → le_val (le_bytes n z) = z.
Proof.
  revert z; induction n as [|n IH]; intros z Hz; [simpl in *; lia|].
  cbn [le_bytes le_val]. rewrite IH.
  - pose proof (Z.div_mod z 256). lia.
  - rewrite Nat2Z.inj_succ, Z.pow_succ_r in Hz by lia.
    split; [apply Z.div_pos; lia | apply Z.div_lt_upper_bound; lia].
Qed.

Lemma le_bytes_val bs :
  Forall is_byte bs → le_bytes (length bs) (le_val bs) = bs.
Proof.
  induction 1 as [|b bs Hb Hbs IH]; [done|].
  cbn [length le_bytes le_val]. unfold is_byte in Hb. f_equal.
  - rewrite Z.mul_comm, Z_mod_plus_full. apply Z.mod_small. lia.
  - rewrite Z.mul_comm, Z_div_plus_full, Z.div_small by lia. exact IH.
Qed.

Lemma le_bytes_val' n bs :
  Forall is_byte bs → length bs = n → le_bytes n (le_val bs) = bs.
Proof. intros Hb <-. by apply le_bytes_val. Qed.

Lemma le_val_range bs :
  Forall is_byte bs → 0 ≤ le_val bs < 256 ^ Z.of_nat (length bs).
Proof.
  induction 1 as [|b bs Hb Hbs IH]; [simpl; lia|].
  cbn [length le_val]. rewrite Nat2Z.inj_succ, Z.pow_succ_r by lia.
  unfold is_byte in Hb. lia.
Qed.

#[export] Hint Resolve le_bytes_is_byte le_val_range : umbra.
#[export] Hint Rewrite length_le_bytes : umbra.

Lemma le_val_u32 z : is_u32 z → le_val (le_bytes 4 z) = z.
Proof. intros H. apply le_val_bytes. unfold is_u32 in H. simpl. lia. Qed.

Lemma le_val_u64 z : is_u64 z → le_val (le_bytes 8 z) = z.
Proof. intros H. apply le_val_bytes. unfold is_u64 in H. simpl. lia. Qed.

(** ** Packed structures

    A packed C structure is the concatenation of its fields; [ws] lists the
    field widths in bytes. *)

Fixpoint pack_fields (ws : list nat) (vs : list Z) : list Z :=
  match ws, vs with
  | w :: ws, v :: vs => le_bytes w v ++ pack_fields ws vs
  | _, _ => []
  end.

Fixpoint unpack_fields (ws : list nat) (bs : list Z) : list Z :=
  match ws with
  | [] => []
  | w :: ws => le_val (take w bs) :: unpack_fields ws (drop w bs)
  end.

Definition fits (w : nat) (v : Z) : Prop := 0 ≤ v < 256 ^ Z.of_nat w.

Lemma fits1 v : is_u8 v → fits 1 v.
Proof. done. Qed.
Lemma fits2 v : is_u16 v → fits 2 v.
Proof. done. Qed.
Lemma fits4 v : is_u32 v → fits 4 v.
Proof. done. Qed.

#[global] Instance fits_dec w v : Decision (fits w v) := _.

Lemma length_pack_fields ws vs :
  length ws = length vs → length (pack_fields ws vs) = sum_list ws.
Proof.
  revert vs; induction ws as [|w ws IH]; intros [|v vs] Hl; try done.
  cbn [pack_fields]. rewrite length_app, length_le_bytes, IH by (simpl in *; lia). done.
Qed.

Lemma pack_fields_is_byte ws vs : Forall is_byte (pack_fields ws vs).
Proof.
  revert vs; induction ws as [|w ws IH]; intros [|v vs]; simpl; auto.
  apply Forall_app; split; [apply le_bytes_is_byte | apply IH].
Qed.

Lemma unpack_pack_fields ws vs rest :
  Forall2 fits ws vs → unpack_fields ws (pack_fields ws vs ++ rest) = vs.
Proof.
  induction 1 as [|w v ws vs Hv Hvs IH]; [done|].
  cbn [pack_fields unpack_fields]. rewrite <-app_assoc.
  rewrite take_app_length', drop_app_length' by (by rewrite length_le_bytes).
  rewrite le_val_bytes by exact Hv. by rewrite IH.
Qed.

Lemma pack_unpack_fields ws bs :
  Forall is_byte bs → (sum_list ws ≤ length bs)%nat →
  pack_fields ws (unpack_fields ws bs) = take (sum_list ws) bs.
Proof.
  revert bs; induction ws as [|w ws IH]; intros bs Hb Hl; [done|].
  change (sum_list (w :: ws)) with (w + sum_list ws)%nat in *.
  cbn [pack_fields unpack_fields].
  rewrite IH by (rewrite ?length_drop; (lia || by apply Forall_drop)).
  rewrite <-take_take_drop. f_equal.
  rewrite <-(le_bytes_val (take w bs)) at 2 by (by apply Forall_take).
  f_equal. rewrite length_take. lia.
Qed.

Lemma unpack_fields_fits ws bs :
  Forall is_byte bs → (sum_list ws ≤ length bs)%nat →
  Forall2 fits ws (unpack_fields ws bs).
Proof.
  revert bs; induction ws as [|w ws IH]; intros bs Hb Hl; [constructor|].
  change (sum_list (w :: ws)) with (w + sum_list ws)%nat in *.
  cbn [unpack_fields]. constructor.
  - unfold fits. pose proof (le_val_range (take w bs) (Forall_take _ w bs Hb)) as H.
    rewrite length_take in H. by replace (w `min` length bs)%nat with w in H by lia.
  - apply IH; [by apply Forall_drop | rewrite length_drop; lia].
Qed.

#[export] Hint Resolve pack_fields_is_byte : umbra.

(** ** Flag words *)

Definition has_flag (v m : Z) : bool := bool_decide (Z.land v m ≠ 0).

Lemma lor_u32_range x y : is_u32 x → is_u32 y → is_u32 (Z.lor x y).
Proof.
  intros [Hx0 Hx] [Hy0 Hy]. assert (0 ≤ Z.lor x y) by (by apply Z.lor_nonneg).
  split; [done|]. rewrite (Z.bounded_iff_bits_nonneg 32) in Hx, Hy by lia.
  apply Z.bounded_iff_bits_nonneg; [lia..|]. intros l Hl.
  by rewrite Z.lor_spec, Hx, Hy by done.
Qed.

Lemma ldiff_u32_range x y : is_u32 x → is_u32 (Z.ldiff x y).
Proof.
  intros [Hx0 Hx]. assert (0 ≤ Z.ldiff x y) by (apply Z.ldiff_nonneg; by left).
  split; [done|]. rewrite (Z.bounded_iff_bits_nonneg 32) in Hx by lia.
  apply Z.bounded_iff_bits_nonneg; [lia..|]. intros l Hl. by rewrite Z.ldiff_spec, Hx.
Qed.

Lemma has_flag_bit v k : 0 ≤ k → has_flag v (2 ^ k) = Z.testbit v k.
Proof.
  intros Hk. unfold has_flag. destruct (Z.testbit v k) eqn:Hb.
  - apply bool_decide_eq_true. intros H0.
    apply (f_equal (λ z, Z.testbit z k)) in H0.
    by rewrite Z.land_spec, Hb, Z.pow2_bits_true, Z.bits_0 in H0.
  - apply bool_decide_eq_false. intros Hn. apply Hn. apply Z.bits_inj'. intros i Hi.
    rewrite Z.land_spec, Z.bits_0. destruct (decide (i = k)) as [->|Hne]; [by rewrite Hb|].
    rewrite Z.pow2_bits_false by done. apply andb_false_r.
Qed.

Lemma has_flag_zero v m : Z.land v m = 0 ↔ has_flag v m = false.
Proof.
  unfold has_flag. rewrite bool_decide_eq_false.
  destruct (decide (Z.land v m = 0)); naive_solver.
Qed.

(** ** Block numbers, forks and relations *)

(** [BlockNumber] is a [uint32] ([storage/block.h]). *)
Definition InvalidBlockNumber : Z := 0xFFFFFFFF.
Definition MaxBlockNumber : Z := 0xFFFFFFFE.
Definition BLCKSZ : Z := 8192.
Definition RELSEG_SIZE : Z := 131072.
Definition InvalidXLogRecPtr : Z := 0.

Definition BlockNumberIsValid (b : Z) : bool := bool_decide (b ≠ InvalidBlockNumber).

(** [ForkNumber] of [common/relpath.h], with Umbra's private metadata fork. *)
Inductive ForkNumber :=
  | InvalidForkNumber
  | MAIN_FORKNUM
  | FSM_FORKNUM
  | VISIBILITYMAP_FORKNUM
  | INIT_FORKNUM
  | UMBRA_METADATA_FORKNUM.

Definition fork_code (f : ForkNumber) : Z :=
  match f with
  | InvalidForkNumber => -1
  | MAIN_FORKNUM => 0
  | FSM_FORKNUM => 1
  | VISIBILITYMAP_FORKNUM => 2
  | INIT_FORKNUM => 3
  | UMBRA_METADATA_FORKNUM => 4
  end.

#[global] Instance ForkNumber_eq_dec : EqDecision ForkNumber.
Proof. solve_decision. Defined.

#[global] Instance ForkNumber_countable : Countable ForkNumber.
Proof.
  refine (inj_countable' fork_code
    (λ z, if decide (z = -1) then InvalidForkNumber
          else if decide (z = 0) then MAIN_FORKNUM
          else if decide (z = 1) then FSM_FORKNUM
          else if decide (z = 2) then VISIBILITYMAP_FORKNUM
          else if decide (z = 3) then INIT_FORKNUM
          else UMBRA_METADATA_FORKNUM) _).
  by intros [].
Defined.

(** The forks whose blocks are reached through the map. *)
Definition fork_mapped (f : ForkNumber) : Prop :=
  f = MAIN_FORKNUM ∨ f = FSM_FORKNUM ∨ f = VISIBILITYMAP_FORKNUM.

#[global] Instance fork_mapped_dec f : Decision (fork_mapped f) := _.

Record RelFileLocator := MkRel {
  spcOid : Z;
  dbOid : Z;
  relNumber : Z;
}.

#[global] Instance RelFileLocator_eq_dec : EqDecision RelFileLocator.
Proof. solve_decision. Defined.

#[global] Instance RelFileLocator_countable : Countable RelFileLocator.
Proof.
  refine (inj_countable' (λ r, (spcOid r, dbOid r, relNumber r))
    (λ t, MkRel t.1.1 t.1.2 t.2) _).
  by intros [].
Defined.
