(* ===== verification/MapLayout.v ===== *)
(** * Layout of the metadata fork

    Address arithmetic of [storage/map/map.c] and [include/storage/map.h]:
    where the map page of a fork lives in the metadata fork, which entry of it
    holds a logical block, how a metadata block is decoded back, which entries
    a truncation clears, and the preallocation settings of a fork. *)

From S2P Require Import Prelude.

Local Open Scope Z_scope.
Local Open Scope umbra_scope.

Definition MAP_ENTRIES_PER_PAGE : Z := BLCKSZ / 4.
Definition MAP_BLOCK_SUPER : Z := 0.
Definition MAP_BLOCK_FIRST_GROUP : Z := 1.
Definition MAP_GROUP_FSM_PAGES : Z := 1.
Definition MAP_GROUP_VM_PAGES : Z := 1.
Definition MAP_GROUP_MAIN_PAGES : Z := 8192.
Definition MAP_GROUP_TOTAL_PAGES : Z :=
  MAP_GROUP_FSM_PAGES + MAP_GROUP_VM_PAGES + MAP_GROUP_MAIN_PAGES.

(** ** Fork page to metadata block *)

Definition map_page_limit (fork_page_idx blkno64 : Z) : result Z :=
  if decide (blkno64 > MaxBlockNumber)
  then Err (PgError ERROR ERRCODE_PROGRAM_LIMIT_EXCEEDED "cannot address map page")
  else Ok (u32 blkno64).

Definition MapForkPageIndexToMapBlkno (forknum : ForkNumber) (fork_page_idx : Z)
    : result Z :=
  match forknum with
  | UMBRA_METADATA_FORKNUM =>
      Err (PgError ERROR ERRCODE_INTERNAL_ERROR
             "Umbra metadata fork should not call MapForkPageIndexToMapBlkno")
  | FSM_FORKNUM =>
      let group_no := fork_page_idx in
      map_page_limit fork_page_idx
        (MAP_BLOCK_FIRST_GROUP +u64 group_no *u64 MAP_GROUP_TOTAL_PAGES)
  | VISIBILITYMAP_FORKNUM =>
      let group_no := fork_page_idx in
      map_page_limit fork_page_idx
        (MAP_BLOCK_FIRST_GROUP +u64 group_no *u64 MAP_GROUP_TOTAL_PAGES
           +u64 MAP_GROUP_FSM_PAGES)
  | MAIN_FORKNUM =>
      let group_page_idx := fork_page_idx in
      let group_no := group_page_idx / MAP_GROUP_MAIN_PAGES in
      map_page_limit fork_page_idx
        (MAP_BLOCK_FIRST_GROUP +u64 group_no *u64 MAP_GROUP_TOTAL_PAGES
           +u64 MAP_GROUP_FSM_PAGES +u64 MAP_GROUP_VM_PAGES
           +u64 (group_page_idx mod MAP_GROUP_MAIN_PAGES))
  | _ =>
      Err (PgError ERROR ERRCODE_INTERNAL_ERROR "unsupported fork number in map lookup")
  end.

(** Linear index of the map entry of a logical block. *)
Definition MapLblknoToMapBlkno (forknum : ForkNumber) (lblkno : Z) : result Z :=
  let fork_page_idx := lblkno / MAP_ENTRIES_PER_PAGE in
  blk ← MapForkPageIndexToMapBlkno forknum fork_page_idx;
  let entry64 := blk *u64 MAP_ENTRIES_PER_PAGE +u64 (lblkno mod MAP_ENTRIES_PER_PAGE) in
  if decide (entry64 > MaxBlockNumber)
  then Err (PgError ERROR ERRCODE_PROGRAM_LIMIT_EXCEEDED "cannot address logical block")
  else Ok (u32 entry64).

(** ** Metadata block to fork page *)

Definition MapDecodeMapBlkno (map_blkno : Z) : option (ForkNumber * Z) :=
  if decide (map_blkno = MAP_BLOCK_SUPER ∨ map_blkno < MAP_BLOCK_FIRST_GROUP) then None
  else
    let offset := map_blkno -u32 MAP_BLOCK_FIRST_GROUP in
    let group_no := offset / MAP_GROUP_TOTAL_PAGES in
    let in_group := offset mod MAP_GROUP_TOTAL_PAGES in
    if decide (in_group < MAP_GROUP_FSM_PAGES) then Some (FSM_FORKNUM, u32 group_no)
    else
      let in_group := in_group - MAP_GROUP_FSM_PAGES in
      if decide (in_group < MAP_GROUP_VM_PAGES)
      then Some (VISIBILITYMAP_FORKNUM, u32 group_no)
      else
        let in_group := in_group - MAP_GROUP_VM_PAGES in
        if decide (in_group < MAP_GROUP_MAIN_PAGES)
        then Some (MAIN_FORKNUM, u32 (group_no *u64 MAP_GROUP_MAIN_PAGES +u64 in_group))
        else None.

(** The superblock-driven range test, on the logical size [n_lblknos] the
    superblock reports for [forknum] ([None] when it cannot be read). *)
Definition MapMapPageWithinLogicalRange (n_lblknos : option Z) (forknum : ForkNumber)
    (map_blkno : Z) : bool :=
  match n_lblknos with
  | None => true
  | Some n_lblknos =>
      match MapDecodeMapBlkno map_blkno with
      | None => false
      | Some (page_forknum, page_idx) =>
          if decide (page_forknum ≠ forknum) then false
          else
            let page_first_lblk := page_idx *u64 MAP_ENTRIES_PER_PAGE in
            negb (bool_decide (n_lblknos ≤ page_first_lblk))
      end
  end.

(** ** Truncation range *)

Record TruncRange := MkTruncRange {
  start_map_page : Z;
  start_entry_idx : Z;
  end_map_page : Z;
  end_entry_idx : Z;
}.

Definition MapTruncateEntryRange (forknum : ForkNumber) (n_lblknos old_n_lblknos : Z)
    : option TruncRange :=
  if decide (old_n_lblknos ≤ n_lblknos) then None
  else
    let start_page_idx := n_lblknos / MAP_ENTRIES_PER_PAGE in
    let end_page_idx := (old_n_lblknos -u32 1) / MAP_ENTRIES_PER_PAGE in
    Some (MkTruncRange start_page_idx (n_lblknos mod MAP_ENTRIES_PER_PAGE)
            end_page_idx ((old_n_lblknos -u32 1) mod MAP_ENTRIES_PER_PAGE)).

(** ** Preallocation settings *)

Record MapGucs := MkMapGucs {
  map_prealloc_main_low : Z;  map_prealloc_main_hard : Z;  map_prealloc_main_batch : Z;
  map_prealloc_fsm_low : Z;   map_prealloc_fsm_hard : Z;   map_prealloc_fsm_batch : Z;
  map_prealloc_vm_low : Z;    map_prealloc_vm_hard : Z;    map_prealloc_vm_batch : Z;
}.

(** [soft_low], [hard_low], [batch_blocks]; [None] is the C [false]. *)
Definition MapForkPreallocSettings (g : MapGucs) (forknum : ForkNumber)
    : option (Z * Z * Z) :=
  let settings :=
    match forknum with
    | MAIN_FORKNUM => Some (map_prealloc_main_low g, map_prealloc_main_hard g,
                            map_prealloc_main_batch g)
    | FSM_FORKNUM => Some (map_prealloc_fsm_low g, map_prealloc_fsm_hard g,
                           map_prealloc_fsm_batch g)
    | VISIBILITYMAP_FORKNUM => Some (map_prealloc_vm_low g, map_prealloc_vm_hard g,
                                     map_prealloc_vm_batch g)
    | _ => None
    end in
  match settings with
  | None => None
  | Some (low, hard, batch) =>
      if decide (low ≤ 0 ∨ batch ≤ 0) then None
      else
        let hard := if decide (hard ≤ 0) then 1 else hard in
        let hard := if decide (hard > low) then low else hard in
        Some (u32 low, u32 hard, u32 batch)
  end.

(** ** Free-space-map addressing

    [freespace.c] decides which block of the FSM fork records the free space
    of a heap block; the FSM fork is itself addressed through the map. *)

Definition SizeOfPageHeaderData : Z := 24.
Definition NodesPerPage : Z := BLCKSZ - SizeOfPageHeaderData - 4.
Definition NonLeafNodesPerPage : Z := BLCKSZ / 2 - 1.
Definition SlotsPerFSMPage : Z := NodesPerPage - NonLeafNodesPerPage.
Definition FSM_TREE_DEPTH : nat := if decide (1626 ≤ SlotsPerFSMPage) then 3 else 4.

Record FSMAddress := MkFSMAddress { fsm_level : nat; logpageno : Z }.

Definition fsm_get_location (heapblk : Z) : FSMAddress * Z :=
  (MkFSMAddress 0 (heapblk / SlotsPerFSMPage), heapblk mod SlotsPerFSMPage).

Fixpoint fsm_first_leaf (level : nat) (leafno : Z) : Z :=
  match level with
  | O => leafno
  | S l => fsm_first_leaf l (leafno * SlotsPerFSMPage)
  end.

Fixpoint fsm_count_pages (depth : nat) (pages leafno : Z) : Z :=
  match depth with
  | O => pages
  | S d => fsm_count_pages d (pages +u32 (leafno + 1)) (leafno / SlotsPerFSMPage)
  end.

Definition fsm_logical_to_physical (addr : FSMAddress) : Z :=
  let leafno := fsm_first_leaf (fsm_level addr) (logpageno addr) in
  let pages := fsm_count_pages FSM_TREE_DEPTH 0 leafno in
  let pages := pages -u32 Z.of_nat (fsm_level addr) in
  pages -u32 1.

(** ** Lemmas *)

Ltac unfold_layout :=
  unfold MAP_BLOCK_SUPER, MAP_BLOCK_FIRST_GROUP, MAP_GROUP_FSM_PAGES,
    MAP_GROUP_VM_PAGES, MAP_GROUP_MAIN_PAGES, MAP_GROUP_TOTAL_PAGES,
    MAP_GROUP_FSM_PAGES, MAP_GROUP_VM_PAGES, MAP_GROUP_MAIN_PAGES,
    MaxBlockNumber, InvalidBlockNumber in *;
  change MAP_ENTRIES_PER_PAGE with 2048 in *.

(** Position of a fork page as plain arithmetic, where nothing overflows. *)
Definition page_pos (f : ForkNumber) (idx : Z) : Z :=
  match f with
  | FSM_FORKNUM => 1 + idx * 8194
  | VISIBILITYMAP_FORKNUM => 2 + idx * 8194
  | _ => 3 + idx / 8192 * 8194 + idx mod 8192
  end.

Lemma page_index_spec f idx :
  fork_mapped f → is_u32 idx →
  MapForkPageIndexToMapBlkno f idx =
    if decide (page_pos f idx > MaxBlockNumber)
    then Err (PgError ERROR ERRCODE_PROGRAM_LIMIT_EXCEEDED "cannot address map page")
    else Ok (page_pos f idx).
Proof.
  intros Hf Hi. unfold MapForkPageIndexToMapBlkno, map_page_limit, page_pos.
  destruct Hf as [-> | [-> | ->]]; unfold_layout;
    repeat (rewrite u64_small by ulia);
    repeat case_decide; try done; try (exfalso; ulia);
    f_equal; try rewrite u32_small; ulia.
Qed.

Lemma page_index_ok f idx b :
  fork_mapped f → is_u32 idx → MapForkPageIndexToMapBlkno f idx = Ok b →
  b = page_pos f idx ∧ 1 ≤ b ≤ MaxBlockNumber.
Proof.
  intros Hf Hi. rewrite page_index_spec by done. case_decide; [done|].
  intros [= <-]. split; [done|]. unfold page_pos in *.
  destruct Hf as [-> | [-> | ->]]; unfold_layout; ulia.
Qed.

(** The inverse of [page_pos], as plain arithmetic. *)
Definition page_of_pos (b : Z) : ForkNumber * Z :=
  let off := b - 1 in
  let g := off / 8194 in
  let i := off mod 8194 in
  if decide (i < 1) then (FSM_FORKNUM, g)
  else if decide (i < 2) then (VISIBILITYMAP_FORKNUM, g)
  else (MAIN_FORKNUM, g * 8192 + (i - 2)).

Lemma decode_spec b :
  1 ≤ b ≤ MaxBlockNumber → MapDecodeMapBlkno b = Some (page_of_pos b).
Proof.
  intros Hb. unfold MapDecodeMapBlkno, page_of_pos. unfold_layout.
  change (1 + 1 + 8192) with 8194.
  rewrite decide_False by lia. rewrite (u32_small (b - 1)) by ulia.
  repeat case_decide; try (exfalso; ulia);
    repeat (rewrite u64_small by ulia); rewrite u32_small by ulia;
    do 2 f_equal; ulia.
Qed.

Lemma page_of_pos_pos f idx :
  fork_mapped f → is_u32 idx → page_of_pos (page_pos f idx) = (f, idx).
Proof.
  intros Hf Hi. unfold page_of_pos, page_pos.
  destruct Hf as [-> | [-> | ->]]; repeat case_decide;
    try (exfalso; ulia); f_equal; ulia.
Qed.

Lemma page_pos_of_pos b :
  1 ≤ b ≤ MaxBlockNumber →
  fork_mapped (page_of_pos b).1 ∧ is_u32 (page_of_pos b).2 ∧
  page_pos (page_of_pos b).1 (page_of_pos b).2 = b.
Proof.
  intros Hb. unfold page_of_pos, page_pos, fork_mapped. unfold_layout.
  repeat case_decide; simpl; (split; [tauto | split; ulia]).
Qed.

(** Largest logical block of each fork whose entry index is addressable. *)
Definition max_mapped_lblk (f : ForkNumber) : Z :=
  match f with
  | MAIN_FORKNUM => 4293916670
  | _ => 524287
  end.

Lemma entry_index_spec f l :
  fork_mapped f → is_u32 l →
  (l ≤ max_mapped_lblk f →
     MapLblknoToMapBlkno f l = Ok (page_pos f (l / 2048) * 2048 + l mod 2048)) ∧
  (max_mapped_lblk f < l →
     ∃ e, MapLblknoToMapBlkno f l = Err e ∧ err_code e = ERRCODE_PROGRAM_LIMIT_EXCEEDED).
Proof.
  intros Hf Hl. unfold MapLblknoToMapBlkno. unfold_layout.
  rewrite page_index_spec by (done || ulia). unfold_layout.
  assert (Hpos : 0 ≤ page_pos f (l / 2048) < 2 ^ 35).
  { unfold page_pos. destruct Hf as [-> | [-> | ->]]; ulia. }
  unfold mbind, result_bind.
  case_decide as Hbig.
  - split; intros Hm; [|eexists; split; reflexivity].
    exfalso. unfold page_pos, max_mapped_lblk in *.
    destruct Hf as [-> | [-> | ->]]; ulia.
  - rewrite (u64_small (_ * 2048)) by ulia. rewrite u64_small by ulia.
    split; intros Hm; case_decide as He; try (eexists; split; reflexivity).
    + exfalso. unfold page_pos, max_mapped_lblk in *.
      destruct Hf as [-> | [-> | ->]]; ulia.
    + f_equal. apply u32_small. ulia.
    + exfalso. unfold page_pos, max_mapped_lblk in *.
      destruct Hf as [-> | [-> | ->]]; ulia.
Qed.

Lemma entry_index_cases f l e :
  fork_mapped f → is_u32 l → MapLblknoToMapBlkno f l = Ok e →
  e = page_pos f (l / 2048) * 2048 + l mod 2048 ∧ l ≤ max_mapped_lblk f.
Proof.
  intros Hf Hl He. destruct (entry_index_spec f l Hf Hl) as [Hok Herr].
  destruct (Z.le_gt_cases l (max_mapped_lblk f)) as [Hle|Hgt].
  - split; [|done]. rewrite Hok in He by done. congruence.
  - destruct (Herr Hgt) as (e' & He' & _). congruence.
Qed.

(** The FSM page of a heap block, counted over the three tree levels. *)
Lemma fsm_physical_spec h :
  0 ≤ h < 2 ^ 32 →
  fsm_logical_to_physical (fsm_get_location h).1 =
    h / 4069 + h / 4069 / 4069 + h / 4069 / 4069 / 4069 + 2.
Proof.
  intros Hh. unfold fsm_logical_to_physical, fsm_get_location.
  change SlotsPerFSMPage with 4069. change FSM_TREE_DEPTH with 3%nat.
  cbn [fst fsm_level logpageno fsm_first_leaf fsm_count_pages].
  change SlotsPerFSMPage with 4069.
  rewrite !u32_small; try ulia.
Qed.

(** ** Properties *)

(** The metadata block computed for a page of the MAIN, FSM or VM
    fork decodes back to that fork and page index. *)
Theorem map_page_roundtrip f idx b :
  fork_mapped f → is_u32 idx → MapForkPageIndexToMapBlkno f idx = Ok b →
  MapDecodeMapBlkno b = Some (f, idx).
Proof.
  intros Hf Hi Hb. destruct (page_index_ok f idx b Hf Hi Hb) as [-> Hr].
  rewrite decode_spec by done. f_equal. by apply page_of_pos_pos.
Qed.

Lemma map_page_roundtrip_witness :
  MapDecodeMapBlkno 8197 = Some (MAIN_FORKNUM, 8192).
Proof.
  apply map_page_roundtrip; [by left | by vm_compute | by vm_compute].
Defined.

(** Every metadata block other than the superblock is the map
    page of exactly one fork page, and encoding that page gives the block
    back: the layout leaves no hole and no block has two owners. *)
Theorem map_block_owner b :
  1 ≤ b ≤ MaxBlockNumber →
  ∃ f idx, MapDecodeMapBlkno b = Some (f, idx) ∧ fork_mapped f ∧ is_u32 idx ∧
    MapForkPageIndexToMapBlkno f idx = Ok b.
Proof.
  intros Hb. destruct (page_pos_of_pos b Hb) as (Hf & Hi & Hp).
  exists (page_of_pos b).1, (page_of_pos b).2. rewrite decode_spec by done.
  split; [by rewrite <-surjective_pairing|]. split; [done|]. split; [done|].
  rewrite page_index_spec by done. rewrite Hp. rewrite decide_False by lia. done.
Qed.

Lemma map_block_owner_witness :
  ∃ f idx, MapDecodeMapBlkno 16390 = Some (f, idx) ∧ fork_mapped f ∧ is_u32 idx ∧
    MapForkPageIndexToMapBlkno f idx = Ok 16390.
Proof. apply map_block_owner. by vm_compute. Defined.

(** The entry index of a logical block succeeds exactly up to
    block 4293916670 of MAIN and block 524287 of FSM and VM; beyond that the
    address computation reports a program limit instead of wrapping. *)
Theorem map_entry_addressable f l :
  fork_mapped f → is_u32 l →
  (∃ e, MapLblknoToMapBlkno f l = Ok e) ↔ l ≤ max_mapped_lblk f.
Proof.
  intros Hf Hl. destruct (entry_index_spec f l Hf Hl) as [Hok Herr]. split.
  - intros [e He]. destruct (Z.le_gt_cases l (max_mapped_lblk f)) as [?|Hgt]; [done|].
    destruct (Herr Hgt) as (e' & He' & _). congruence.
  - eauto.
Qed.

Lemma map_entry_addressable_witness :
  (∃ e, MapLblknoToMapBlkno FSM_FORKNUM 524288 = Ok e) ↔ 524288 ≤ 524287.
Proof.
  apply (map_entry_addressable FSM_FORKNUM 524288); [by right; left | by vm_compute].
Defined.

(** No two (fork, logical block) pairs share a map entry. *)
Theorem map_entry_injective f1 f2 l1 l2 e :
  fork_mapped f1 → fork_mapped f2 → is_u32 l1 → is_u32 l2 →
  MapLblknoToMapBlkno f1 l1 = Ok e → MapLblknoToMapBlkno f2 l2 = Ok e →
  f1 = f2 ∧ l1 = l2.
Proof.
  intros Hf1 Hf2 Hl1 Hl2 H1 H2.
  destruct (entry_index_cases f1 l1 e Hf1 Hl1 H1) as [He1 _].
  destruct (entry_index_cases f2 l2 e Hf2 Hl2 H2) as [He2 _].
  assert (Hp : page_pos f1 (l1 / 2048) = page_pos f2 (l2 / 2048)) by ulia.
  assert (Hpq : (f1, l1 / 2048) = (f2, l2 / 2048)).
  { rewrite <-(page_of_pos_pos f1), <-(page_of_pos_pos f2) by (done || ulia).
    by rewrite Hp. }
  injection Hpq as -> Hq. split; [done|]. ulia.
Qed.

Lemma map_entry_injective_witness :
  MAIN_FORKNUM = MAIN_FORKNUM ∧ 5000 = 5000.
Proof.
  apply (map_entry_injective MAIN_FORKNUM MAIN_FORKNUM 5000 5000 (5 * 2048 + 904));
    first [by left | by vm_compute].
Defined.

(** The page/entry rectangle computed for a truncation covers
    exactly the entries of the logical blocks [n, old): an entry of page [p] is
    inside it iff its logical block is dropped. *)
Theorem truncate_range_exact f n old r p i :
  is_u32 n → is_u32 old → MapTruncateEntryRange f n old = Some r →
  0 ≤ i < MAP_ENTRIES_PER_PAGE →
  (n ≤ p * MAP_ENTRIES_PER_PAGE + i < old ↔
   (start_map_page r ≤ p ≤ end_map_page r ∧
    (p = start_map_page r → start_entry_idx r ≤ i) ∧
    (p = end_map_page r → i ≤ end_entry_idx r))).
Proof.
  intros Hn Ho. unfold MapTruncateEntryRange. case_decide; [done|].
  intros [= <-]. simpl. unfold_layout. rewrite u32_small by ulia. intros Hi.
  ulia.
Qed.

Lemma truncate_range_exact_witness :
  (3000 ≤ 1 * MAP_ENTRIES_PER_PAGE + 952 < 9000 ↔
   (1 ≤ 1 ≤ 4 ∧ (1 = 1 → 952 ≤ 952) ∧ (1 = 4 → 952 ≤ 807))).
Proof.
  apply (truncate_range_exact MAIN_FORKNUM 3000 9000 (MkTruncRange 1 952 4 807) 1 952);
    by vm_compute.
Defined.

(** C36: from heap block 2132798902 on (about 16 TiB) the heap block
    itself is addressable through the map, but the FSM page that records its
    free space is not: the address computation raises an error. *)
Theorem fsm_page_unaddressable h :
  2132798902 ≤ h ≤ max_mapped_lblk MAIN_FORKNUM →
  (∃ e, MapLblknoToMapBlkno MAIN_FORKNUM h = Ok e) ∧
  (∃ e, MapLblknoToMapBlkno FSM_FORKNUM
          (fsm_logical_to_physical (fsm_get_location h).1) = Err e ∧
        err_code e = ERRCODE_PROGRAM_LIMIT_EXCEEDED).
Proof.
  intros Hh. split.
  - eexists. apply entry_index_spec; [by left | simpl in Hh; ulia | lia].
  - apply entry_index_spec; [by right; left | |];
      rewrite fsm_physical_spec by (simpl in *; ulia); simpl in *; ulia.
Qed.

Lemma fsm_page_unaddressable_witness :
  (∃ e, MapLblknoToMapBlkno MAIN_FORKNUM 2132798902 = Ok e) ∧
  (∃ e, MapLblknoToMapBlkno FSM_FORKNUM
          (fsm_logical_to_physical (fsm_get_location 2132798902).1) = Err e ∧
        err_code e = ERRCODE_PROGRAM_LIMIT_EXCEEDED).
Proof. apply fsm_page_unaddressable. by vm_compute. Defined.
