(* ===== verification/Superblock.v ===== *)
(** * The map superblock

    The 512-byte superblock of [include/storage/mapsuper.h] and the operations
    of [storage/map/mapsuper.c] that work on one superblock: initialisation,
    identity and checksum tests, the per-fork accessors and the sector image
    written to block 0 of the metadata fork.  The target is little-endian. *)

From S2P Require Import Prelude Crc32c.

Local Open Scope Z_scope.

Definition MAP_SUPERBLOCK_MAGIC : Z := 0x554D4252.
Definition MAP_SUPERBLOCK_VERSION : Z := 1.
Definition MAP_SUPERBLOCK_SIZE : nat := 512.
Definition MAP_SUPERBLOCK_PAYLOAD_SIZE : nat := 64.
Definition MAP_SUPERBLOCK_FLAG_SKIP_WAL_PENDING : Z := 0x00000001.

(** The packed payload, and the bytes of the union that lie behind it. *)
Record MapSuperblock := MkSuper {
  magic : Z;
  version : Z;
  blcksz : Z;
  flags : Z;
  next_free_phys_block_main : Z;
  phys_capacity_main : Z;
  next_free_phys_block_fsm : Z;
  phys_capacity_fsm : Z;
  next_free_phys_block_vm : Z;
  phys_capacity_vm : Z;
  logical_nblocks_main : Z;
  logical_nblocks_fsm : Z;
  logical_nblocks_vm : Z;
  last_updated_lsn : Z;
  crc : Z;
  padding : list Z;
}.

#[global] Instance MapSuperblock_eq_dec : EqDecision MapSuperblock.
Proof. solve_decision. Defined.

(** Fields before [crc], in declaration order, and their widths. *)
Definition super_widths : list nat := replicate 13 4%nat ++ [8%nat].

Definition super_fields (s : MapSuperblock) : list Z :=
  [magic s; version s; blcksz s; flags s;
   next_free_phys_block_main s; phys_capacity_main s;
   next_free_phys_block_fsm s; phys_capacity_fsm s;
   next_free_phys_block_vm s; phys_capacity_vm s;
   logical_nblocks_main s; logical_nblocks_fsm s; logical_nblocks_vm s;
   last_updated_lsn s].

(** The [offsetof(MapSuperblockData, crc)] bytes the checksum covers. *)
Definition super_crc_bytes (s : MapSuperblock) : list Z :=
  pack_fields super_widths (super_fields s).

Definition set_crc (c : Z) (s : MapSuperblock) : MapSuperblock :=
  {| magic := magic s; version := version s; blcksz := blcksz s; flags := flags s;
     next_free_phys_block_main := next_free_phys_block_main s;
     phys_capacity_main := phys_capacity_main s;
     next_free_phys_block_fsm := next_free_phys_block_fsm s;
     phys_capacity_fsm := phys_capacity_fsm s;
     next_free_phys_block_vm := next_free_phys_block_vm s;
     phys_capacity_vm := phys_capacity_vm s;
     logical_nblocks_main := logical_nblocks_main s;
     logical_nblocks_fsm := logical_nblocks_fsm s;
     logical_nblocks_vm := logical_nblocks_vm s;
     last_updated_lsn := last_updated_lsn s; crc := c; padding := padding s |}.

(** The macros [INIT_CRC32C], [COMP_CRC32C], [FIN_CRC32C] in sequence. *)
Definition super_crc (s : MapSuperblock) : Z :=
  FIN_CRC32C (pg_comp_crc32c_sb8 0 INIT_CRC32C (super_crc_bytes s)).

Definition MapSuperblockRefreshCRC (s : MapSuperblock) : MapSuperblock :=
  set_crc (super_crc s) s.

Definition MapSuperblockCheckCRC (s : MapSuperblock) : bool :=
  bool_decide (super_crc s = crc s).

Definition MapSuperblockInit (fl : Z) : MapSuperblock :=
  {| magic := MAP_SUPERBLOCK_MAGIC;
     version := MAP_SUPERBLOCK_VERSION;
     blcksz := BLCKSZ;
     flags := fl;
     next_free_phys_block_main := 0;
     phys_capacity_main := 0;
     next_free_phys_block_fsm := InvalidBlockNumber;
     phys_capacity_fsm := InvalidBlockNumber;
     next_free_phys_block_vm := InvalidBlockNumber;
     phys_capacity_vm := InvalidBlockNumber;
     logical_nblocks_main := 0;
     logical_nblocks_fsm := InvalidBlockNumber;
     logical_nblocks_vm := InvalidBlockNumber;
     last_updated_lsn := InvalidXLogRecPtr;
     crc := 0;
     padding := replicate (MAP_SUPERBLOCK_SIZE - MAP_SUPERBLOCK_PAYLOAD_SIZE) 0 |}.

Definition MapSuperblockHasValidIdentity (s : MapSuperblock) : bool :=
  if decide (magic s ≠ MAP_SUPERBLOCK_MAGIC) then false
  else if decide (version s ≠ MAP_SUPERBLOCK_VERSION) then false
  else if decide (blcksz s ≠ BLCKSZ) then false
  else true.

Definition MapSuperblockIsValid (s : MapSuperblock) : bool :=
  if negb (MapSuperblockHasValidIdentity s) then false
  else MapSuperblockCheckCRC s.

(** ** Accessors *)

(** A field update that leaves every other field alone. *)
Definition set_flags (v : Z) (s : MapSuperblock) : MapSuperblock :=
  let '(MkSuper a b c _ e f g h i j k l m n o p) := s in
  MkSuper a b c v e f g h i j k l m n o p.
Definition set_lsn (v : Z) (s : MapSuperblock) : MapSuperblock :=
  let '(MkSuper a b c d e f g h i j k l m _ o p) := s in
  MkSuper a b c d e f g h i j k l m v o p.

Definition MapSuperblockSetFlags (s : MapSuperblock) (fl : Z) : MapSuperblock :=
  set_flags fl s.
Definition MapSuperblockGetFlags (s : MapSuperblock) : Z := flags s.
Definition MapSuperblockSetLastUpdatedLSN (s : MapSuperblock) (lsn : Z) : MapSuperblock :=
  set_lsn lsn s.
Definition MapSuperblockGetLastUpdatedLSN (s : MapSuperblock) : Z := last_updated_lsn s.

Definition super_bad_fork {A} : result A :=
  Err (PgError ERROR ERRCODE_INTERNAL_ERROR "unsupported fork number for superblock").

Definition MapSuperblockGetNextFreePhysBlock (s : MapSuperblock) (f : ForkNumber)
    : result Z :=
  match f with
  | MAIN_FORKNUM => Ok (next_free_phys_block_main s)
  | FSM_FORKNUM => Ok (next_free_phys_block_fsm s)
  | VISIBILITYMAP_FORKNUM => Ok (next_free_phys_block_vm s)
  | _ => super_bad_fork
  end.

Definition MapSuperblockSetNextFreePhysBlock (s : MapSuperblock) (fn : ForkNumber)
    (blkno : Z) : result MapSuperblock :=
  let '(MkSuper a b c d e f g h i j k l m n o p) := s in
  match fn with
  | MAIN_FORKNUM => Ok (MkSuper a b c d blkno f g h i j k l m n o p)
  | FSM_FORKNUM => Ok (MkSuper a b c d e f blkno h i j k l m n o p)
  | VISIBILITYMAP_FORKNUM => Ok (MkSuper a b c d e f g h blkno j k l m n o p)
  | _ => super_bad_fork
  end.

Definition MapSuperblockGetPhysCapacity (s : MapSuperblock) (f : ForkNumber) : result Z :=
  match f with
  | MAIN_FORKNUM => Ok (phys_capacity_main s)
  | FSM_FORKNUM => Ok (phys_capacity_fsm s)
  | VISIBILITYMAP_FORKNUM => Ok (phys_capacity_vm s)
  | _ => super_bad_fork
  end.

Definition MapSuperblockSetPhysCapacity (s : MapSuperblock) (fn : ForkNumber)
    (blkno : Z) : result MapSuperblock :=
  let '(MkSuper a b c d e f g h i j k l m n o p) := s in
  match fn with
  | MAIN_FORKNUM => Ok (MkSuper a b c d e blkno g h i j k l m n o p)
  | FSM_FORKNUM => Ok (MkSuper a b c d e f g blkno i j k l m n o p)
  | VISIBILITYMAP_FORKNUM => Ok (MkSuper a b c d e f g h i blkno k l m n o p)
  | _ => super_bad_fork
  end.

Definition MapSuperblockGetLogicalNblocks (s : MapSuperblock) (f : ForkNumber)
    : result Z :=
  match f with
  | MAIN_FORKNUM => Ok (logical_nblocks_main s)
  | FSM_FORKNUM => Ok (logical_nblocks_fsm s)
  | VISIBILITYMAP_FORKNUM => Ok (logical_nblocks_vm s)
  | _ => super_bad_fork
  end.

Definition MapSuperblockSetLogicalNblocks (s : MapSuperblock) (fn : ForkNumber)
    (nblocks : Z) : result MapSuperblock :=
  let '(MkSuper a b c d e f g h i j k l m n o p) := s in
  match fn with
  | MAIN_FORKNUM => Ok (MkSuper a b c d e f g h i j nblocks l m n o p)
  | FSM_FORKNUM => Ok (MkSuper a b c d e f g h i j k nblocks m n o p)
  | VISIBILITYMAP_FORKNUM => Ok (MkSuper a b c d e f g h i j k l nblocks n o p)
  | _ => super_bad_fork
  end.

(** ** Sector image *)

Definition MapSuperblockPackSector (s : MapSuperblock) : list Z :=
  super_crc_bytes s ++ le_bytes 4 (crc s) ++ padding s.

Definition MapSuperblockUnpackSector (sector : list Z) : MapSuperblock :=
  let v k := unpack_fields super_widths sector !!! k in
  {| magic := v 0%nat; version := v 1%nat; blcksz := v 2%nat; flags := v 3%nat;
     next_free_phys_block_main := v 4%nat; phys_capacity_main := v 5%nat;
     next_free_phys_block_fsm := v 6%nat; phys_capacity_fsm := v 7%nat;
     next_free_phys_block_vm := v 8%nat; phys_capacity_vm := v 9%nat;
     logical_nblocks_main := v 10%nat; logical_nblocks_fsm := v 11%nat;
     logical_nblocks_vm := v 12%nat; last_updated_lsn := v 13%nat;
     crc := le_val (take 4 (drop 60 sector));
     padding := drop 64 sector |}.

(** ** Well-formedness *)

Definition super_wf (s : MapSuperblock) : Prop :=
  Forall2 fits super_widths (super_fields s) ∧ is_u32 (crc s) ∧
  Forall is_byte (padding s) ∧
  length (padding s) = (MAP_SUPERBLOCK_SIZE - MAP_SUPERBLOCK_PAYLOAD_SIZE)%nat.

#[global] Instance super_wf_dec s : Decision (super_wf s) := _.

Lemma length_super_crc_bytes s : length (super_crc_bytes s) = 60%nat.
Proof. apply length_pack_fields. done. Qed.

Lemma super_crc_bytes_is_byte s : Forall is_byte (super_crc_bytes s).
Proof. apply pack_fields_is_byte. Qed.

#[export] Hint Resolve super_crc_bytes_is_byte : umbra.

Lemma init_crc_u32 : is_u32 INIT_CRC32C.
Proof. done. Qed.

Lemma super_crc_ref s :
  super_crc s = FIN_CRC32C (crc32c_ref INIT_CRC32C (super_crc_bytes s)).
Proof.
  unfold super_crc. rewrite sb8_comp_ref; auto using init_crc_u32 with umbra.
Qed.

Lemma super_crc_u32 s : is_u32 (super_crc s).
Proof.
  rewrite super_crc_ref. apply lxor_u32_range; [|done].
  apply crc32c_ref_range; auto using init_crc_u32 with umbra.
Qed.

Lemma super_fields_unpack sector :
  super_fields (MapSuperblockUnpackSector sector) = unpack_fields super_widths sector.
Proof. reflexivity. Qed.

Lemma unpack_super_crc_bytes sector :
  Forall is_byte sector → length sector = MAP_SUPERBLOCK_SIZE →
  super_crc_bytes (MapSuperblockUnpackSector sector) = take 60 sector.
Proof.
  intros Hb Hl. unfold super_crc_bytes. rewrite super_fields_unpack.
  rewrite pack_unpack_fields; [done | done | rewrite Hl; by apply Nat.leb_le].
Qed.

Lemma length_pack_sector s :
  super_wf s → length (MapSuperblockPackSector s) = MAP_SUPERBLOCK_SIZE.
Proof.
  intros (_ & _ & _ & Hp). unfold MapSuperblockPackSector.
  rewrite !length_app, length_super_crc_bytes, length_le_bytes, Hp. done.
Qed.

Lemma pack_sector_is_byte s : super_wf s → Forall is_byte (MapSuperblockPackSector s).
Proof.
  intros (_ & _ & Hp & _). unfold MapSuperblockPackSector.
  rewrite !Forall_app. auto with umbra.
Qed.

Lemma pack_sector_take s : take 60 (MapSuperblockPackSector s) = super_crc_bytes s.
Proof. apply take_app_length'. by rewrite length_super_crc_bytes. Qed.

Lemma pack_sector_crc s :
  is_u32 (crc s) → le_val (take 4 (drop 60 (MapSuperblockPackSector s))) = crc s.
Proof.
  intros Hc. unfold MapSuperblockPackSector.
  rewrite drop_app_length' by (by rewrite length_super_crc_bytes).
  rewrite take_app_length' by (by rewrite length_le_bytes).
  by apply le_val_u32.
Qed.

Lemma set_crc_wf c s : super_wf s → is_u32 c → super_wf (set_crc c s).
Proof. intros (? & _ & ? & ?) ?. exact (conj H (conj H2 (conj H0 H1))). Qed.

Lemma refresh_crc_wf s : super_wf s → super_wf (MapSuperblockRefreshCRC s).
Proof. intros. apply set_crc_wf; [done | apply super_crc_u32]. Qed.

Lemma check_crc_ref s : MapSuperblockCheckCRC s = true ↔ super_crc s = crc s.
Proof. apply bool_decide_eq_true. Qed.

Lemma super_crc_set_crc c s : super_crc (set_crc c s) = super_crc s.
Proof.
  unfold super_crc. change (super_crc_bytes (set_crc c s)) with (super_crc_bytes s). done.
Qed.

Lemma refresh_crc_checks s : MapSuperblockCheckCRC (MapSuperblockRefreshCRC s) = true.
Proof. apply check_crc_ref. apply super_crc_set_crc. Qed.

Lemma sector_roundtrip s :
  super_wf s → MapSuperblockUnpackSector (MapSuperblockPackSector s) = s.
Proof.
  intros Hwf. destruct Hwf as (Hf & Hc & Hp & Hl).
  pose proof (pack_sector_crc s Hc) as Hcrc.
  unfold MapSuperblockUnpackSector.
  rewrite Hcrc. unfold MapSuperblockPackSector, super_crc_bytes.
  rewrite (unpack_pack_fields super_widths (super_fields s)) by done.
  rewrite app_assoc, drop_app_length'.
  - by destruct s.
  - rewrite length_app, length_le_bytes, length_pack_fields by done. done.
Qed.

Lemma unpack_sector_wf sector :
  Forall is_byte sector → length sector = MAP_SUPERBLOCK_SIZE →
  super_wf (MapSuperblockUnpackSector sector).
Proof.
  intros Hb Hl. split_and!; cbn [crc padding MapSuperblockUnpackSector].
  - rewrite super_fields_unpack.
    apply unpack_fields_fits; [done|]. rewrite Hl. by apply Nat.leb_le.
  - pose proof (le_val_range (take 4 (drop 60 sector))) as Hr.
    rewrite length_take, length_drop, Hl in Hr.
    apply Hr. by apply Forall_take, Forall_drop.
  - by apply Forall_drop.
  - by rewrite length_drop, Hl.
Qed.

Lemma fin_crc_inj c1 c2 : FIN_CRC32C c1 = FIN_CRC32C c2 → c1 = c2.
Proof.
  unfold FIN_CRC32C. intros H. apply (f_equal (λ z, Z.lxor z 0xFFFFFFFF)) in H.
  by rewrite !Z.lxor_assoc, !Z.lxor_nilpotent, !Z.lxor_0_r in H.
Qed.

(** ** Properties *)

(** The sector image holds every field: unpacking a packed
    superblock gives back all of its fields, checksum and padding. *)
Theorem super_sector_roundtrip s :
  super_wf s → MapSuperblockUnpackSector (MapSuperblockPackSector s) = s.
Proof. apply sector_roundtrip. Qed.

Lemma super_sector_roundtrip_witness :
  MapSuperblockUnpackSector (MapSuperblockPackSector (MapSuperblockInit 1))
  = MapSuperblockInit 1.
Proof. apply super_sector_roundtrip. by apply (bool_decide_unpack _); vm_compute. Defined.

(** Every 512-byte sector is the image of what it unpacks to, so
    reading a superblock loses no byte of the sector. *)
Theorem super_sector_unpack_pack sector :
  Forall is_byte sector → length sector = MAP_SUPERBLOCK_SIZE →
  MapSuperblockPackSector (MapSuperblockUnpackSector sector) = sector.
Proof.
  intros Hb Hl. unfold MapSuperblockPackSector.
  rewrite unpack_super_crc_bytes by done. cbn [crc padding MapSuperblockUnpackSector].
  rewrite le_bytes_val' by
    (try (by apply Forall_take, Forall_drop); rewrite length_take, length_drop, Hl; done).
  change 64%nat with (60 + 4)%nat. rewrite <-drop_drop, take_drop. apply take_drop.
Qed.

Lemma super_sector_unpack_pack_witness :
  MapSuperblockPackSector (MapSuperblockUnpackSector (replicate 512 7)) = replicate 512 7.
Proof.
  apply super_sector_unpack_pack; [|reflexivity].
  apply Forall_replicate. by vm_compute.
Defined.

(** A superblock with the identity fields of this build whose
    checksum was refreshed is accepted after the sector is written and read
    back. *)
Theorem super_write_read_valid s :
  super_wf s → MapSuperblockHasValidIdentity s = true →
  MapSuperblockIsValid
    (MapSuperblockUnpackSector (MapSuperblockPackSector (MapSuperblockRefreshCRC s)))
  = true.
Proof.
  intros Hwf Hid.
  rewrite sector_roundtrip by (by apply refresh_crc_wf).
  unfold MapSuperblockIsValid.
  replace (MapSuperblockHasValidIdentity (MapSuperblockRefreshCRC s)) with true by done.
  apply refresh_crc_checks.
Qed.

Lemma super_write_read_valid_witness :
  MapSuperblockIsValid (MapSuperblockUnpackSector (MapSuperblockPackSector
    (MapSuperblockRefreshCRC (MapSuperblockInit 0)))) = true.
Proof.
  apply super_write_read_valid; [|reflexivity].
  by apply (bool_decide_unpack _); vm_compute.
Defined.

(** If up to four consecutive bytes of the checksummed part of a
    valid sector are changed, the superblock read back fails its checksum. *)
Theorem super_corruption_detected s pre w w' post :
  super_wf s → MapSuperblockCheckCRC s = true →
  take 60 (MapSuperblockPackSector s) = pre ++ w ++ post →
  Forall is_byte w' → length w' = length w → (length w ≤ 4)%nat → w' ≠ w →
  MapSuperblockCheckCRC (MapSuperblockUnpackSector
    (pre ++ w' ++ post ++ drop 60 (MapSuperblockPackSector s))) = false.
Proof.
  intros Hwf Hck Hsplit Hw' Hlen Hle Hne.
  pose proof (length_pack_sector s Hwf) as HL.
  pose proof (pack_sector_is_byte s Hwf) as HB.
  assert (H60 : length (pre ++ w' ++ post) = 60%nat).
  { transitivity (length (pre ++ w ++ post)); [rewrite !length_app; lia|].
    rewrite <-Hsplit, length_take, HL. done. }
  assert (Hb60 : Forall is_byte (pre ++ w ++ post))
    by (rewrite <-Hsplit; by apply Forall_take).
  rewrite !Forall_app in Hb60. destruct Hb60 as (Hbp & Hbw & Hbq).
  apply bool_decide_eq_false. intros Heq. cbn [crc MapSuperblockUnpackSector] in Heq.
  rewrite !app_assoc, <-(app_assoc pre) in Heq.
  rewrite super_crc_ref, unpack_super_crc_bytes in Heq.
  - rewrite take_app_length' in Heq by done.
    rewrite drop_app_length' in Heq by done.
    rewrite pack_sector_crc in Heq by apply Hwf.
    apply check_crc_ref in Hck. rewrite <-Hck, super_crc_ref in Heq.
    rewrite <-pack_sector_take, Hsplit in Heq. apply fin_crc_inj in Heq.
    revert Heq. apply crc32c_window_detect; auto using init_crc_u32. lia.
  - rewrite !Forall_app. split; [done|]. by apply Forall_drop.
  - rewrite length_app, H60, length_drop, HL. done.
Qed.

Lemma super_corruption_detected_witness :
  let s := MapSuperblockRefreshCRC (MapSuperblockInit 0) in
  MapSuperblockCheckCRC (MapSuperblockUnpackSector
    (take 16 (MapSuperblockPackSector s) ++ [9; 0; 0; 0] ++
     take 40 (drop 20 (MapSuperblockPackSector s)) ++
     drop 60 (MapSuperblockPackSector s))) = false.
Proof.
  apply (super_corruption_detected (MapSuperblockRefreshCRC (MapSuperblockInit 0))
           _ [0; 0; 0; 0]).
  - by apply (bool_decide_unpack _); vm_compute.
  - by vm_compute.
  - by vm_compute.
  - repeat constructor; by vm_compute.
  - done.
  - simpl; lia.
  - done.
Defined.
