(* ===== verification/HashFn.v ===== *)
(** * The key hash

    [hash_bytes] of [common/hashfn.c] on the word-aligned, little-endian path,
    and the hash code of a relation it gives to the superblock table. *)

From S2P Require Import Prelude.

Local Open Scope Z_scope.
Local Open Scope umbra_scope.

Definition rot (x k : Z) : Z := Z.lor (u32 (Z.shiftl x k)) (Z.shiftr x (32 - k)).

Definition hash_mix (abc : Z * Z * Z) : Z * Z * Z :=
  let '(a, b, c) := abc in
  let a := a -u32 c in let a := Z.lxor a (rot c 4) in let c := c +u32 b in
  let b := b -u32 a in let b := Z.lxor b (rot a 6) in let a := a +u32 c in
  let c := c -u32 b in let c := Z.lxor c (rot b 8) in let b := b +u32 a in
  let a := a -u32 c in let a := Z.lxor a (rot c 16) in let c := c +u32 b in
  let b := b -u32 a in let b := Z.lxor b (rot a 19) in let a := a +u32 c in
  let c := c -u32 b in let c := Z.lxor c (rot b 4) in let b := b +u32 a in
  (a, b, c).

Definition hash_final (abc : Z * Z * Z) : Z :=
  let '(a, b, c) := abc in
  let c := Z.lxor c b in let c := c -u32 rot b 14 in
  let a := Z.lxor a c in let a := a -u32 rot c 11 in
  let b := Z.lxor b a in let b := b -u32 rot a 25 in
  let c := Z.lxor c b in let c := c -u32 rot b 16 in
  let a := Z.lxor a c in let a := a -u32 rot c 4 in
  let b := Z.lxor b a in let b := b -u32 rot a 14 in
  let c := Z.lxor c b in c -u32 rot b 24.

(** The last 0 to 11 bytes: up to four go to [a], four to [b], and the rest to
    [c] above its lowest byte, which is reserved for the length. *)
Definition hash_tail (abc : Z * Z * Z) (k : list Z) : Z * Z * Z :=
  let '(a, b, c) := abc in
  (a +u32 le_val (take 4 k),
   b +u32 le_val (take 4 (drop 4 k)),
   c +u32 Z.shiftl (le_val (drop 8 k)) 8).

Fixpoint hash_words (abc : Z * Z * Z) (k : list Z) : Z * Z * Z :=
  match k with
  | k0 :: k1 :: k2 :: k3 :: k4 :: k5 :: k6 :: k7 :: k8 :: k9 :: k10 :: k11 :: rest =>
      let '(a, b, c) := abc in
      hash_words (hash_mix (a +u32 le_val [k0; k1; k2; k3],
                            b +u32 le_val [k4; k5; k6; k7],
                            c +u32 le_val [k8; k9; k10; k11])) rest
  | _ => hash_tail abc k
  end.

Definition hash_bytes (k : list Z) : Z :=
  let init := u32 (0x9e3779b9 + Z.of_nat (length k) + 3923095) in
  hash_final (hash_words (init, init, init) k).

Definition MapSuperHashCode (rnode : RelFileLocator) : Z :=
  hash_bytes (le_bytes 4 (spcOid rnode) ++ le_bytes 4 (dbOid rnode)
                ++ le_bytes 4 (relNumber rnode)).

Lemma MapSuperHashCode_u32 rnode : is_u32 (MapSuperHashCode rnode).
Proof.
  unfold MapSuperHashCode, hash_bytes, hash_final.
  destruct (hash_words _ _) as [[a b] c]. apply u32_range.
Qed.

#[export] Hint Resolve MapSuperHashCode_u32 : umbra.
#[global] Opaque MapSuperHashCode.
