(* ===== verification/SuperTable.v ===== *)
(** * The shared superblock table

    The shared-memory table of [storage/map/mapsuper.c]: entries in a fixed
    array, a free list threaded through [next_free], and 128 open-addressing
    index partitions with linear probing and tombstones.  The table is shown
    to implement a finite map from relations to entries; that map is the
    interface the superblock operations are written against. *)

From S2P Require Import Prelude Superblock HashFn.

Local Open Scope Z_scope.

(** ** Data *)

(** The per-fork runtime counters of an entry ([..._main], [..._fsm],
    [..._vm]). *)
Record PerFork := MkPerFork { pf_main : Z; pf_fsm : Z; pf_vm : Z }.

#[global] Instance PerFork_eq_dec : EqDecision PerFork.
Proof. solve_decision. Defined.

Definition pf_get (p : PerFork) (f : ForkNumber) : option Z :=
  match f with
  | MAIN_FORKNUM => Some (pf_main p)
  | FSM_FORKNUM => Some (pf_fsm p)
  | VISIBILITYMAP_FORKNUM => Some (pf_vm p)
  | _ => None
  end.

Definition pf_set (p : PerFork) (f : ForkNumber) (v : Z) : option PerFork :=
  match f with
  | MAIN_FORKNUM => Some (MkPerFork v (pf_fsm p) (pf_vm p))
  | FSM_FORKNUM => Some (MkPerFork (pf_main p) v (pf_vm p))
  | VISIBILITYMAP_FORKNUM => Some (MkPerFork (pf_main p) (pf_fsm p) v)
  | _ => None
  end.

Record MapSuperEntry := MkEntry {
  key : RelFileLocator;
  super : MapSuperblock;
  page_lsn : Z;
  eflags : Z;
  runtime_flags : Z;
  reserved_next_free : PerFork;
  extending_target : PerFork;
  reclaim_boundary : PerFork;
  next_free : Z;
  in_use : bool;
}.

#[global] Instance MapSuperEntry_eq_dec : EqDecision MapSuperEntry.
Proof. solve_decision. Defined.

Definition MAPSUPER_FLAG_VALID : Z := 0x01.
Definition MAPSUPER_FLAG_DIRTY : Z := 0x02.
Definition MAPSUPER_FLAG_CORRUPT : Z := 0x04.

Definition MAP_SUPER_NPARTITIONS : Z := 128.
Definition MAP_SUPER_NPARTITION_BITS : Z := 7.
Definition MAPSUPER_INDEX_EMPTY : Z := -1.
Definition MAPSUPER_INDEX_DELETED : Z := -2.
Definition MAPSUPER_FREENEXT_END : Z := -1.
Definition MAPSUPER_FREENEXT_NOT_IN_LIST : Z := -2.

Record MapSuperTable := MkTable {
  entries : list MapSuperEntry;   (* MapSuperEntries, MapSuperCapacity long *)
  index : list Z;                 (* MapSuperIndex[].slot_id *)
  free_head : Z;                  (* MapSuperCtlData->free_head *)
  cap : Z;                        (* MapSuperIndexCapacityPerPartition *)
}.

Definition zero_pf : PerFork := MkPerFork 0 0 0.
Definition invalid_pf : PerFork :=
  MkPerFork InvalidBlockNumber InvalidBlockNumber InvalidBlockNumber.

(** An all-zero superblock, as [MemSet] leaves it. *)
Definition zero_super : MapSuperblock :=
  MkSuper 0 0 0 0 0 0 0 0 0 0 0 0 0 0 0
    (replicate (MAP_SUPERBLOCK_SIZE - MAP_SUPERBLOCK_PAYLOAD_SIZE) 0).

(** ** Sizing and initialisation *)

Fixpoint index_capacity_loop (fuel : nat) (index_capacity target : Z) : Z :=
  match fuel with
  | O => index_capacity
  | S fuel =>
      if decide (index_capacity < target)
      then index_capacity_loop fuel (Z.shiftl index_capacity 1) target
      else index_capacity
  end.

Definition MapSuperIndexCapacityForPartition (capacity : Z) : Z :=
  let total_target := capacity * 2 in
  let per_partition_target :=
    (total_target + MAP_SUPER_NPARTITIONS - 1) / MAP_SUPER_NPARTITIONS in
  index_capacity_loop 64 1 per_partition_target.

Definition MAP_SUPERBLOCK_MIN_ENTRIES : Z := 50000.

Definition MapSuperTableRefreshDerivedState (map_superblocks : Z) : Z * Z :=
  let capacity := Z.max map_superblocks MAP_SUPERBLOCK_MIN_ENTRIES in
  (capacity, MapSuperIndexCapacityForPartition capacity).

Definition init_entry (capacity i : Z) : MapSuperEntry :=
  {| key := MkRel 0 0 0; super := zero_super; page_lsn := 0; eflags := 0;
     runtime_flags := 0; reserved_next_free := zero_pf;
     extending_target := invalid_pf; reclaim_boundary := zero_pf;
     next_free := if decide (i = capacity - 1) then MAPSUPER_FREENEXT_END else i + 1;
     in_use := false |}.

(** The table as shared-memory initialisation leaves it, for [capacity]
    entries and [icap] index slots per partition. *)
Definition MapSuperTableShmemInit (capacity icap : Z) : MapSuperTable :=
  {| entries := map (λ i, init_entry capacity (Z.of_nat i)) (seq 0 (Z.to_nat capacity));
     index := replicate (Z.to_nat (icap * MAP_SUPER_NPARTITIONS)) MAPSUPER_INDEX_EMPTY;
     free_head := 0;
     cap := icap |}.

(** ** Lookup *)

Definition MapSuperPartitionForHash (hashcode : Z) : Z :=
  Z.land hashcode (MAP_SUPER_NPARTITIONS - 1).

Definition idx (t : MapSuperTable) (g : Z) : Z :=
  default MAPSUPER_INDEX_EMPTY (index t !! Z.to_nat g).

Definition MapSuperEntryBySlot (t : MapSuperTable) (slot_id : Z) : option MapSuperEntry :=
  entries t !! Z.to_nat slot_id.

(** The test of one probed slot: an in-use entry of this relation. *)
Definition slot_matches (t : MapSuperTable) (rnode : RelFileLocator) (slot_id : Z) : bool :=
  match MapSuperEntryBySlot t slot_id with
  | Some e => in_use e && bool_decide (key e = rnode)
  | None => false
  end.

(** The probe loop; [n] counts the remaining iterations.  The result is the
    returned slot (or -1) and the value left in [*insert_bucket]. *)
Fixpoint probe_loop (t : MapSuperTable) (rnode : RelFileLocator) (mask base : Z)
    (n : nat) (bucket first_deleted : Z) : Z * Z :=
  match n with
  | O => (-1, if decide (0 ≤ first_deleted) then base + first_deleted else -1)
  | S n =>
      let slot_id := idx t (base + bucket) in
      if decide (slot_id = MAPSUPER_INDEX_EMPTY)
      then (-1, if decide (0 ≤ first_deleted) then base + first_deleted else base + bucket)
      else if decide (slot_id = MAPSUPER_INDEX_DELETED)
      then probe_loop t rnode mask base n (Z.land (bucket + 1) mask)
             (if decide (first_deleted < 0) then bucket else first_deleted)
      else if slot_matches t rnode slot_id
      then (slot_id, base + bucket)
      else probe_loop t rnode mask base n (Z.land (bucket + 1) mask) first_deleted
  end.

Definition MapSuperLookupSlotLocked (t : MapSuperTable) (rnode : RelFileLocator)
    (hashcode partition : Z) : Z * Z :=
  let mask := cap t - 1 in
  let base := partition * cap t in
  let bucket := Z.land (Z.shiftr hashcode MAP_SUPER_NPARTITION_BITS) mask in
  probe_loop t rnode mask base (Z.to_nat (cap t)) bucket (-1).

Definition lookup_slot (t : MapSuperTable) (rnode : RelFileLocator) : Z * Z :=
  let hashcode := MapSuperHashCode rnode in
  MapSuperLookupSlotLocked t rnode hashcode (MapSuperPartitionForHash hashcode).

(** The entry found and locked, if any. *)
Definition MapSuperFindEntryLocked (t : MapSuperTable) (rnode : RelFileLocator)
    : option MapSuperEntry :=
  let slot_id := (lookup_slot t rnode).1 in
  if decide (0 ≤ slot_id) then MapSuperEntryBySlot t slot_id else None.

(** The conditional variant; [lock_free] is what
    [LWLockConditionalAcquire] answers for the entry found. *)
Definition MapSuperFindEntryTryLocked (lock_free : bool) (t : MapSuperTable)
    (rnode : RelFileLocator) : option MapSuperEntry :=
  let slot_id := (lookup_slot t rnode).1 in
  if decide (0 ≤ slot_id)
  then if lock_free then MapSuperEntryBySlot t slot_id else None
  else None.

(** ** Insertion and deletion *)

Definition set_entry (slot : Z) (e : MapSuperEntry) (t : MapSuperTable) : MapSuperTable :=
  MkTable (<[Z.to_nat slot := e]> (entries t)) (index t) (free_head t) (cap t).
Definition set_index (g slot : Z) (t : MapSuperTable) : MapSuperTable :=
  MkTable (entries t) (<[Z.to_nat g := slot]> (index t)) (free_head t) (cap t).
Definition set_free_head (h : Z) (t : MapSuperTable) : MapSuperTable :=
  MkTable (entries t) (index t) h (cap t).

Definition fresh_entry (rnode : RelFileLocator) : MapSuperEntry :=
  {| key := rnode; super := zero_super; page_lsn := InvalidXLogRecPtr; eflags := 0;
     runtime_flags := 0; reserved_next_free := zero_pf;
     extending_target := invalid_pf; reclaim_boundary := zero_pf;
     next_free := MAPSUPER_FREENEXT_NOT_IN_LIST; in_use := true |}.

Definition index_full : pg_error :=
  PgError ERROR ERRCODE_INTERNAL_ERROR "map superblock index table is full".
Definition slots_full : pg_error :=
  PgError ERROR ERRCODE_INTERNAL_ERROR "map superblock slot table is full".

(** Returns the slot of the entry, creating it when absent. *)
Definition MapSuperEnsureEntryLocked (t : MapSuperTable) (rnode : RelFileLocator)
    : result (Z * MapSuperTable) :=
  let '(slot_id, insert_bucket) := lookup_slot t rnode in
  if decide (0 ≤ slot_id) then Ok (slot_id, t)
  else if decide (insert_bucket < 0) then Err index_full
  else
    let slot_id := free_head t in
    if decide (slot_id = MAPSUPER_FREENEXT_END) then Err slots_full
    else
      match MapSuperEntryBySlot t slot_id with
      | None => Err slots_full
      | Some entry =>
          let t := set_free_head (next_free entry) t in
          let t := set_entry slot_id (fresh_entry rnode) t in
          Ok (slot_id, set_index insert_bucket slot_id t)
      end.

Definition cleared_entry (e : MapSuperEntry) (head : Z) : MapSuperEntry :=
  {| key := key e; super := super e; page_lsn := InvalidXLogRecPtr; eflags := 0;
     runtime_flags := 0; reserved_next_free := zero_pf;
     extending_target := invalid_pf; reclaim_boundary := zero_pf;
     next_free := head; in_use := false |}.

Definition MapSuperDeleteEntry (t : MapSuperTable) (rnode : RelFileLocator)
    : MapSuperTable :=
  let '(slot_id, bucket) := lookup_slot t rnode in
  if decide (0 ≤ slot_id)
  then match MapSuperEntryBySlot t slot_id with
       | None => t
       | Some entry =>
           let t := set_entry slot_id (cleared_entry entry (free_head t)) t in
           let t := set_free_head slot_id t in
           set_index bucket MAPSUPER_INDEX_DELETED t
       end
  else t.

(** ** Invariant *)

(** Home bucket of a relation, and the bucket its [i]-th probe visits. *)
Definition home (t : MapSuperTable) (r : RelFileLocator) : Z :=
  Z.land (Z.shiftr (MapSuperHashCode r) MAP_SUPER_NPARTITION_BITS) (cap t - 1).
Definition part (r : RelFileLocator) : Z := MapSuperPartitionForHash (MapSuperHashCode r).
Definition pos (t : MapSuperTable) (r : RelFileLocator) (i : Z) : Z :=
  part r * cap t + (home t r + i) mod cap t.

(** [free_chain es h fl]: following [next_free] from [h] visits exactly [fl]. *)
Fixpoint free_chain (es : list MapSuperEntry) (h : Z) (fl : list nat) : Prop :=
  match fl with
  | [] => h = MAPSUPER_FREENEXT_END
  | s :: fl => h = Z.of_nat s ∧ ∃ e, es !! s = Some e ∧ free_chain es (next_free e) fl
  end.

Record table_wf (t : MapSuperTable) : Prop := {
  wf_cap : ∃ k, 0 ≤ k ∧ cap t = 2 ^ k;
  wf_index_len : length (index t) = Z.to_nat (MAP_SUPER_NPARTITIONS * cap t);
  wf_index : ∀ g s, index t !! g = Some s →
    s = MAPSUPER_INDEX_EMPTY ∨ s = MAPSUPER_INDEX_DELETED ∨
    (0 ≤ s ∧ ∃ e, entries t !! Z.to_nat s = Some e ∧ in_use e = true);
  wf_index_inj : ∀ g1 g2 s, index t !! g1 = Some s → index t !! g2 = Some s →
    0 ≤ s → g1 = g2;
  wf_path : ∀ s e, entries t !! s = Some e → in_use e = true →
    ∃ i, 0 ≤ i < cap t ∧ idx t (pos t (key e) i) = Z.of_nat s ∧
      ∀ i', 0 ≤ i' < i → idx t (pos t (key e) i') ≠ MAPSUPER_INDEX_EMPTY;
  wf_keys : ∀ s1 s2 e1 e2, entries t !! s1 = Some e1 → entries t !! s2 = Some e2 →
    in_use e1 = true → in_use e2 = true → key e1 = key e2 → s1 = s2;
  wf_free : ∃ fl, free_chain (entries t) (free_head t) fl ∧ NoDup fl ∧
    ∀ s, s ∈ fl ↔ ∃ e, entries t !! s = Some e ∧ in_use e = false;
}.

(** ** Arithmetic of probe positions *)

Lemma land_mask c x : (∃ k, 0 ≤ k ∧ c = 2 ^ k) → Z.land x (c - 1) = x mod c.
Proof.
  intros (k & Hk & ->). rewrite <-Z.land_ones by done. f_equal.
  rewrite Z.ones_equiv. lia.
Qed.

Lemma wf_cap_pos t : table_wf t → 0 < cap t.
Proof. intros [(k & Hk & ->)]. apply Z.pow_pos_nonneg; lia. Qed.

Lemma part_range r : 0 ≤ part r < 128.
Proof.
  unfold part, MapSuperPartitionForHash, MAP_SUPER_NPARTITIONS.
  rewrite land_mask by (exists 7; lia). apply Z.mod_pos_bound. lia.
Qed.

Lemma pos_range t r i : table_wf t → 0 ≤ pos t r i < 128 * cap t.
Proof.
  intros Hwf. pose proof (wf_cap_pos t Hwf). pose proof (part_range r).
  unfold pos. pose proof (Z.mod_pos_bound (home t r + i) (cap t) ltac:(lia)).
  assert (part r * cap t ≤ 127 * cap t) by (apply Z.mul_le_mono_nonneg_r; lia).
  assert (0 ≤ part r * cap t) by (apply Z.mul_nonneg_nonneg; lia). lia.
Qed.

Lemma pos_succ t r i :
  table_wf t →
  Z.land ((home t r + i) mod cap t + 1) (cap t - 1) = (home t r + (i + 1)) mod cap t.
Proof.
  intros Hwf. rewrite land_mask by apply Hwf.
  rewrite Zplus_mod_idemp_l. f_equal. lia.
Qed.

Lemma home_mod t r : table_wf t → home t r = (home t r + 0) mod cap t.
Proof.
  intros Hwf. rewrite Z.add_0_r. unfold home. rewrite land_mask by apply Hwf.
  by rewrite Zmod_mod.
Qed.

Lemma pos_inj t r i j :
  table_wf t → 0 ≤ i < cap t → 0 ≤ j < cap t → pos t r i = pos t r j → i = j.
Proof.
  intros Hwf Hi Hj Heq. unfold pos in Heq.
  assert (Hm : (home t r + i) mod cap t = (home t r + j) mod cap t) by lia.
  pose proof (wf_cap_pos t Hwf).
  assert (Hd : (i - j) mod cap t = 0).
  { replace (i - j) with ((home t r + i) - (home t r + j)) by lia.
    rewrite Zminus_mod, Hm, Z.sub_diag. apply Z.mod_0_l. lia. }
  apply Z.mod_divide in Hd; [|lia]. destruct Hd as [q Hq].
  assert (-1 < q < 1) by (split; apply (Z.mul_lt_mono_pos_r (cap t)); lia).
  assert (q = 0) as -> by lia. lia.
Qed.

Lemma index_at t r i :
  table_wf t → index t !! Z.to_nat (pos t r i) = Some (idx t (pos t r i)).
Proof.
  intros Hwf. pose proof (pos_range t r i Hwf). unfold idx.
  destruct (index t !! Z.to_nat (pos t r i)) eqn:E; [done|].
  apply lookup_ge_None in E. rewrite (wf_index_len t Hwf) in E.
  unfold MAP_SUPER_NPARTITIONS in E. lia.
Qed.

Lemma idx_cases t r i :
  table_wf t →
  idx t (pos t r i) = MAPSUPER_INDEX_EMPTY ∨
  idx t (pos t r i) = MAPSUPER_INDEX_DELETED ∨
  (0 ≤ idx t (pos t r i) ∧ ∃ e,
     entries t !! Z.to_nat (idx t (pos t r i)) = Some e ∧ in_use e = true).
Proof. intros Hwf. eapply wf_index; [done|]. by apply index_at. Qed.

(** ** The probe loop *)

(** A bucket [b] where an insertion may go: its probe offset is [i] at most. *)
Definition insertable (t : MapSuperTable) (r : RelFileLocator) (b : Z) : Prop :=
  ∃ i, 0 ≤ i < cap t ∧ b = pos t r i ∧
    (idx t b = MAPSUPER_INDEX_EMPTY ∨ idx t b = MAPSUPER_INDEX_DELETED) ∧
    ∀ i', 0 ≤ i' < i → idx t (pos t r i') ≠ MAPSUPER_INDEX_EMPTY.

(** What the loop answers: a match, or no match on the whole probe path. *)
Definition probe_found (t : MapSuperTable) (r : RelFileLocator) (res : Z * Z) : Prop :=
  0 ≤ res.1 ∧ slot_matches t r res.1 = true ∧
  ∃ i, 0 ≤ i < cap t ∧ res.2 = pos t r i ∧ idx t (pos t r i) = res.1.

Definition probe_absent (t : MapSuperTable) (r : RelFileLocator) (res : Z * Z) : Prop :=
  res.1 = -1 ∧ (res.2 = -1 ∨ insertable t r res.2) ∧
  ∃ n, 0 ≤ n ≤ cap t ∧ (n < cap t → idx t (pos t r n) = MAPSUPER_INDEX_EMPTY) ∧
    ∀ i, 0 ≤ i < n → ¬ (0 ≤ idx t (pos t r i) ∧ slot_matches t r (idx t (pos t r i)) = true).

Lemma probe_loop_spec t r n i fd :
  table_wf t → 0 ≤ i → i + Z.of_nat n = cap t →
  (∀ i', 0 ≤ i' < i → idx t (pos t r i') ≠ MAPSUPER_INDEX_EMPTY ∧
     ¬ (0 ≤ idx t (pos t r i') ∧ slot_matches t r (idx t (pos t r i')) = true)) →
  (0 ≤ fd → insertable t r (part r * cap t + fd)) →
  let res := probe_loop t r (cap t - 1) (part r * cap t) n ((home t r + i) mod cap t) fd in
  probe_found t r res ∨ probe_absent t r res.
Proof.
  intros Hwf. revert i fd.
  induction n as [|n IH]; intros i fd Hi Hn Hpre Hfd; cbn [probe_loop]; cbv zeta.
  { right. split; [done|]. split.
    - simpl. case_decide; [right; auto | by left].
    - exists i. split; [lia|]. split; [lia|]. intros i' Hi'. by apply Hpre. }
  fold (pos t r i).
  assert (Hhere : idx t (pos t r i) = MAPSUPER_INDEX_EMPTY ∨
                  idx t (pos t r i) = MAPSUPER_INDEX_DELETED →
                  insertable t r (pos t r i)).
  { intros Hx. exists i. split; [lia|]. split; [done|]. split; [done|].
    intros i' Hi'. by apply Hpre. }
  case_decide as He; [|case_decide as Hd; [|destruct (slot_matches t r _) eqn:Hm]].
  - right. split; [done|]. split.
    + right. simpl. case_decide; [auto|]. apply Hhere. by left.
    + exists i. split; [lia|]. split; [done|]. intros i' Hi'. by apply Hpre.
  - rewrite pos_succ by done. apply IH; [lia|lia| |].
    + intros i' Hi'. destruct (decide (i' = i)) as [->|]; [|apply Hpre; lia].
      rewrite Hd. split; [done|]. unfold MAPSUPER_INDEX_DELETED. lia.
    + case_decide; [|auto]. intros _. apply Hhere. by right.
  - left. destruct (idx_cases t r i Hwf) as [?|[?|[Hs _]]]; [done|done|].
    split; [done|]. split; [done|]. exists i. split; [lia|]. done.
  - rewrite pos_succ by done. apply IH; [lia|lia| |done].
    intros i' Hi'. destruct (decide (i' = i)) as [->|]; [|apply Hpre; lia].
    split; [done|]. rewrite Hm. by intros [_ ?].
Qed.

Lemma lookup_slot_spec t r :
  table_wf t →
  probe_found t r (lookup_slot t r) ∨ probe_absent t r (lookup_slot t r).
Proof.
  intros Hwf. unfold lookup_slot, MapSuperLookupSlotLocked.
  fold (home t r). rewrite (home_mod t r Hwf) at 1 2. fold (part r).
  pose proof (wf_cap_pos t Hwf).
  apply probe_loop_spec; [done|lia|lia|intros; lia|lia].
Qed.

(** The in-use slot of a relation. *)
Definition holds (t : MapSuperTable) (r : RelFileLocator) (s : nat) (e : MapSuperEntry) : Prop :=
  entries t !! s = Some e ∧ in_use e = true ∧ key e = r.

Lemma lookup_slot_found t r s e :
  table_wf t → holds t r s e →
  ∃ i, 0 ≤ i < cap t ∧ lookup_slot t r = (Z.of_nat s, pos t r i) ∧
       idx t (pos t r i) = Z.of_nat s.
Proof.
  intros Hwf (He & Hu & <-).
  destruct (lookup_slot_spec t (key e) Hwf) as [Hf|Ha].
  - destruct Hf as (Hs & Hm & i & Hi & Hb & Hx).
    unfold slot_matches, MapSuperEntryBySlot in Hm.
    destruct (entries t !! Z.to_nat _) as [e'|] eqn:He'; [|done]. zbool.
    assert (Z.to_nat (lookup_slot t (key e)).1 = s)
      by (eapply wf_keys; eauto).
    exists i. split; [done|]. rewrite (surjective_pairing (lookup_slot _ _)).
    split; [f_equal; [lia|done]|lia].
  - exfalso. destruct Ha as (_ & _ & n & Hn & Hend & Hno).
    destruct (wf_path t Hwf s e He Hu) as (i & Hi & Hx & Hpath).
    destruct (Z.lt_ge_cases i n) as [Hlt|Hge].
    + apply (Hno i); [lia|]. rewrite Hx. split; [lia|].
      unfold slot_matches, MapSuperEntryBySlot. rewrite Nat2Z.id, He, Hu.
      by rewrite bool_decide_true.
    + destruct (Z.eq_dec i n) as [->|].
      * rewrite Hend in Hx by lia. unfold MAPSUPER_INDEX_EMPTY in Hx. lia.
      * apply (Hpath n); [lia|]. apply Hend; lia.
Qed.

Lemma lookup_slot_absent t r :
  table_wf t → (∀ s e, ¬ holds t r s e) →
  (lookup_slot t r).1 = -1 ∧
  ((lookup_slot t r).2 = -1 ∨ insertable t r (lookup_slot t r).2).
Proof.
  intros Hwf Hno. destruct (lookup_slot_spec t r Hwf) as [Hf|(H1 & H2 & _)]; [|done].
  exfalso. destruct Hf as (Hs & Hm & _).
  unfold slot_matches, MapSuperEntryBySlot in Hm.
  destruct (entries t !! Z.to_nat _) as [e'|] eqn:He'; [|done]. zbool.
  by eapply (Hno _ e').
Qed.

Lemma holds_dec t r :
  (∃ s e, holds t r s e) ∨ (∀ s e, ¬ holds t r s e).
Proof.
  destruct (list_find (λ e, in_use e = true ∧ key e = r) (entries t)) as [[s e]|] eqn:E.
  - left. apply list_find_Some in E as (He & (Hu & Hk) & _). by exists s, e.
  - right. apply list_find_None in E. rewrite Forall_lookup in E.
    intros s e (He & Hu & Hk). by apply (E s e).
Qed.

(** ** The finite map a table implements *)

Definition used_pair (e : MapSuperEntry) : option (RelFileLocator * MapSuperEntry) :=
  if in_use e then Some (key e, e) else None.

Definition table_map (t : MapSuperTable) : gmap RelFileLocator MapSuperEntry :=
  list_to_map (omap used_pair (entries t)).

Lemma used_pair_elem (es : list MapSuperEntry) r e :
  (r, e) ∈ omap used_pair es ↔ ∃ s, es !! s = Some e ∧ in_use e = true ∧ key e = r.
Proof.
  rewrite list_elem_of_omap. split.
  - intros (e' & [s Hs]%list_elem_of_lookup & Hu). unfold used_pair in Hu.
    case_match; simplify_eq. eauto.
  - intros (s & Hs & Hu & <-). exists e. unfold used_pair. rewrite Hu.
    split; [|done]. apply list_elem_of_lookup. eauto.
Qed.

Lemma used_pair_nodup (es : list MapSuperEntry) :
  (∀ s1 s2 e1 e2, es !! s1 = Some e1 → es !! s2 = Some e2 →
     in_use e1 = true → in_use e2 = true → key e1 = key e2 → s1 = s2) →
  NoDup (omap used_pair es).*1.
Proof.
  induction es as [|e es IH]; intros Hk; [constructor|].
  assert (Htl : NoDup (omap used_pair es).*1).
  { apply IH. intros s1 s2 e1 e2 H1 H2 ? ? ?.
    assert (S s1 = S s2) by (by eapply Hk). lia. }
  cbn [omap list_omap]. unfold used_pair at 1. destruct (in_use e) eqn:Hu; [|done].
  cbn [fmap list_fmap fst]. constructor; [|done].
  intros ([r e'] & Hr & Hin)%list_elem_of_fmap. simpl in Hr. subst r.
  apply used_pair_elem in Hin as (s & Hs & Hu' & Hkey).
  assert (0%nat = S s) by (by eapply (Hk 0%nat (S s) e e')). lia.
Qed.

Lemma table_map_lookup t r e :
  table_wf t → table_map t !! r = Some e ↔ ∃ s, holds t r s e.
Proof.
  intros Hwf. unfold table_map. rewrite <-elem_of_list_to_map.
  - apply used_pair_elem.
  - apply used_pair_nodup. apply Hwf.
Qed.

Lemma table_map_absent t r :
  table_wf t → table_map t !! r = None ↔ ∀ s e, ¬ holds t r s e.
Proof.
  intros Hwf. split.
  - intros Hn s e Hh. assert (Hs : table_map t !! r = Some e)
      by (apply table_map_lookup; eauto). congruence.
  - intros Hn. destruct (table_map t !! r) as [e|] eqn:E; [|done].
    apply table_map_lookup in E as [s Hs]; [|done]. by apply Hn in Hs.
Qed.

Lemma holds_slot_unique t r s1 s2 e1 e2 :
  table_wf t → holds t r s1 e1 → holds t r s2 e2 → s1 = s2 ∧ e1 = e2.
Proof.
  intros Hwf (H1 & Hu1 & Hk1) (H2 & Hu2 & Hk2).
  assert (s1 = s2) as -> by (eapply wf_keys; eauto; congruence).
  split; [done|]. congruence.
Qed.

(** ** Index updates *)

Lemma idx_set_index t g b s :
  table_wf t → 0 ≤ g < 128 * cap t → 0 ≤ b < 128 * cap t →
  idx (set_index b s t) g = if decide (g = b) then s else idx t g.
Proof.
  intros Hwf Hg Hb. unfold idx, set_index. simpl.
  pose proof (wf_index_len t Hwf) as Hl. unfold MAP_SUPER_NPARTITIONS in Hl.
  case_decide as E.
  - subst. rewrite list_lookup_insert_eq by lia. done.
  - rewrite list_lookup_insert_ne by lia. done.
Qed.

Lemma index_lookup_set_index t (g : nat) b s s' :
  index (set_index b s t) !! g = Some s' →
  (g = Z.to_nat b ∧ s' = s) ∨ (g ≠ Z.to_nat b ∧ index t !! g = Some s').
Proof.
  unfold set_index. simpl. destruct (decide (g = Z.to_nat b)) as [->|Hne].
  - intros H. left. split; [done|]. destruct (decide (Z.to_nat b < length (index t))%nat).
    + rewrite list_lookup_insert_eq in H by done. congruence.
    + rewrite list_insert_ge in H by lia. apply lookup_lt_Some in H. lia.
  - rewrite list_lookup_insert_ne by done. auto.
Qed.

(** ** Free list *)

Lemma free_chain_frame es h (fl : list nat) (s : nat) e' :
  s ∉ fl → free_chain es h fl → free_chain (<[s:=e']> es) h fl.
Proof.
  revert h; induction fl as [|x fl IH]; intros h Hs Hc; [done|].
  destruct Hc as (-> & e & He & Hc). apply not_elem_of_cons in Hs as [Hne Hs].
  split; [done|]. exists e. rewrite list_lookup_insert_ne by done. auto.
Qed.

(** ** Preservation *)

Lemma lookup_set_entry t s e' (x : nat) :
  (s < length (entries t))%nat →
  entries (set_entry (Z.of_nat s) e' t) !! x =
    if decide (x = s) then Some e' else entries t !! x.
Proof.
  intros Hs. unfold set_entry. simpl. rewrite Nat2Z.id. case_decide as E.
  - subst. by apply list_lookup_insert_eq.
  - by apply list_lookup_insert_ne.
Qed.

(** Changing the contents of an entry in place. *)
Lemma set_entry_wf t r s e e' :
  table_wf t → holds t r s e → key e' = r → in_use e' = true →
  table_wf (set_entry (Z.of_nat s) e' t).
Proof.
  intros Hwf (He & Hu & Hk) Hk' Hu'.
  assert (Hs : (s < length (entries t))%nat) by (by eapply lookup_lt_Some).
  pose proof (lookup_set_entry t s e') as Hlk.
  destruct Hwf as [Hcap Hlen Hidx Hinj Hpath Hkeys (fl & Hc & Hnd & Hfl)].
  split; [exact Hcap | exact Hlen | | exact Hinj | | | ].
  - intros g s0 Hg. destruct (Hidx g s0 Hg) as [?|[?|(H0 & e0 & He0 & Hu0)]]; auto.
    right; right. split; [done|]. rewrite Hlk by done. case_decide; eauto.
  - intros x ex. rewrite Hlk by done. case_decide as E.
    + intros [= <-] _. subst x. rewrite Hk', <-Hk. by apply (Hpath s e).
    + apply Hpath.
  - intros s1 s2 e1 e2. rewrite !Hlk by done.
    repeat case_decide; subst; intros; simplify_eq; try done.
    + eapply (Hkeys s s2 e e2); eauto; congruence.
    + eapply (Hkeys s1 s e1 e); eauto; congruence.
    + by eapply (Hkeys s1 s2 e1 e2).
  - assert (s ∉ fl) by (intros (e0 & He0 & Hu0)%Hfl; congruence).
    exists fl. split; [|split; [done|]].
    + unfold set_entry. simpl. rewrite Nat2Z.id. by apply free_chain_frame.
    + intros x. rewrite Hlk by done. case_decide as E; [subst|apply Hfl].
      split; [done|]. intros (? & [= <-] & ?). congruence.
Qed.

Section insertion.
Context (t : MapSuperTable) (r : RelFileLocator) (b : Z) (s : nat)
  (e : MapSuperEntry) (fl : list nat).
Context (Hwf : table_wf t) (Habs : ∀ s e, ¬ holds t r s e) (Hins : insertable t r b).
Context (Hhead : free_head t = Z.of_nat s) (He : entries t !! s = Some e)
  (Hchain : free_chain (entries t) (next_free e) fl) (Hnd : NoDup (s :: fl))
  (Hfl : ∀ x, x ∈ s :: fl ↔ ∃ e, entries t !! x = Some e ∧ in_use e = false).

Definition inserted : MapSuperTable :=
  set_index b (Z.of_nat s)
    (set_entry (Z.of_nat s) (fresh_entry r) (set_free_head (next_free e) t)).

Lemma inserted_bucket_range : 0 ≤ b < 128 * cap t.
Proof. destruct Hins as (i & _ & -> & _). by apply pos_range. Qed.

Lemma inserted_entry (x : nat) :
  entries inserted !! x = if decide (x = s) then Some (fresh_entry r) else entries t !! x.
Proof.
  apply (lookup_set_entry (set_free_head (next_free e) t)).
  by eapply lookup_lt_Some.
Qed.

Lemma inserted_idx g :
  0 ≤ g < 128 * cap t → idx inserted g = if decide (g = b) then Z.of_nat s else idx t g.
Proof. intros Hg. apply (idx_set_index t); auto using inserted_bucket_range. Qed.

Lemma inserted_free_slot e0 : entries t !! s = Some e0 → in_use e0 = false.
Proof.
  intros H0. destruct (proj1 (Hfl s)) as (e1 & H1 & Hu); [left|]. congruence.
Qed.

Lemma inserted_path (x : nat) ex :
  entries inserted !! x = Some ex → in_use ex = true →
  ∃ i, 0 ≤ i < cap inserted ∧ idx inserted (pos inserted (key ex) i) = Z.of_nat x ∧
    ∀ i', 0 ≤ i' < i → idx inserted (pos inserted (key ex) i') ≠ MAPSUPER_INDEX_EMPTY.
Proof.
  rewrite inserted_entry. change (cap inserted) with (cap t).
  change (pos inserted) with (pos t). destruct Hins as (ib & Hib & Hb & Hbv & Hbp).
  assert (Hne : ∀ r' i', idx t (pos t r' i') ≠ MAPSUPER_INDEX_EMPTY →
            idx inserted (pos t r' i') ≠ MAPSUPER_INDEX_EMPTY).
  { intros r' i' Hi'. rewrite inserted_idx by (by apply pos_range).
    case_decide; [unfold MAPSUPER_INDEX_EMPTY; lia | done]. }
  case_decide as E.
  - intros [= <-] _. subst x. exists ib. split; [done|]. split.
    + rewrite inserted_idx by (by apply pos_range). by rewrite decide_True.
    + intros i' Hi'. apply Hne. by apply Hbp.
  - intros Hx Hu. destruct (wf_path t Hwf x ex Hx Hu) as (i & Hi & Hv & Hp).
    exists i. split; [done|]. split; [|intros i' Hi'; by apply Hne, Hp].
    rewrite inserted_idx by (by apply pos_range). rewrite decide_False; [done|].
    intros Heq. rewrite <-Heq, Hv in Hbv.
    unfold MAPSUPER_INDEX_EMPTY, MAPSUPER_INDEX_DELETED in Hbv. lia.
Qed.

Lemma inserted_wf : table_wf inserted.
Proof.
  split.
  - apply Hwf.
  - simpl. rewrite length_insert. apply Hwf.
  - intros g s0 [[-> ->]|[Hg H0]]%index_lookup_set_index.
    + right; right. split; [lia|]. rewrite inserted_entry, Nat2Z.id, decide_True by done.
      eauto.
    + destruct (wf_index t Hwf g s0 H0) as [?|[?|(Hp & e0 & He0 & Hu0)]]; auto.
      right; right. split; [done|]. rewrite inserted_entry. case_decide; eauto.
  - intros g1 g2 s0 [[-> ->]|[Hg1 H1]]%index_lookup_set_index
      [[-> Hs0]|[Hg2 H2]]%index_lookup_set_index Hpos; [done| | |].
    + destruct (wf_index t Hwf _ _ H2) as [Hx|[Hx|(_ & e0 & He0 & Hu0)]];
        [unfold MAPSUPER_INDEX_EMPTY in Hx; lia
        |unfold MAPSUPER_INDEX_DELETED in Hx; lia|].
      rewrite Nat2Z.id in He0. apply inserted_free_slot in He0. congruence.
    + subst s0. destruct (wf_index t Hwf _ _ H1) as [Hx|[Hx|(_ & e0 & He0 & Hu0)]];
        [unfold MAPSUPER_INDEX_EMPTY in Hx; lia
        |unfold MAPSUPER_INDEX_DELETED in Hx; lia|].
      rewrite Nat2Z.id in He0. apply inserted_free_slot in He0. congruence.
    + by eapply (wf_index_inj t Hwf).
  - apply inserted_path.
  - intros s1 s2 e1 e2. rewrite !inserted_entry.
    repeat case_decide; subst; intros H1 H2 Hu1 Hu2 Hk; simplify_eq; try done.
    + by destruct (Habs s2 e2).
    + by destruct (Habs s1 e1).
    + by eapply (wf_keys t Hwf).
  - exists fl. inversion Hnd as [|? ? Hsn Hnd']; subst. split; [|split; [done|]].
    + simpl. rewrite Nat2Z.id. by apply free_chain_frame.
    + intros x. rewrite inserted_entry. case_decide as E.
      * subst x. split; [done|]. intros (? & [= <-] & ?). done.
      * rewrite <-Hfl, elem_of_cons. naive_solver.
Qed.

Lemma inserted_holds r' x ex :
  holds inserted r' x ex ↔
    (r' = r ∧ x = s ∧ ex = fresh_entry r) ∨ (r' ≠ r ∧ holds t r' x ex).
Proof.
  unfold holds. rewrite inserted_entry. case_decide as E.
  - subst x. split.
    + intros ([= <-] & _ & <-). by left.
    + intros [(-> & _ & ->)|(Hne & H0 & Hu & _)]; [done|].
      apply inserted_free_slot in H0. congruence.
  - split.
    + intros H. right. split; [|done]. intros ->. by apply (Habs x ex).
    + intros [(_ & -> & _)|[_ H]]; done.
Qed.
End insertion.

Section deletion.
Context (t : MapSuperTable) (r : RelFileLocator) (s : nat) (e : MapSuperEntry) (b : Z).
Context (Hwf : table_wf t) (Hold : holds t r s e)
  (Hb : 0 ≤ b < 128 * cap t) (Hbs : idx t b = Z.of_nat s).

Definition deleted : MapSuperTable :=
  set_index b MAPSUPER_INDEX_DELETED
    (set_free_head (Z.of_nat s)
      (set_entry (Z.of_nat s) (cleared_entry e (free_head t)) t)).

Lemma deleted_entry (x : nat) :
  entries deleted !! x =
    if decide (x = s) then Some (cleared_entry e (free_head t)) else entries t !! x.
Proof. apply lookup_set_entry. eapply lookup_lt_Some. apply Hold. Qed.

Lemma deleted_idx g :
  0 ≤ g < 128 * cap t →
  idx deleted g = if decide (g = b) then MAPSUPER_INDEX_DELETED else idx t g.
Proof. intros Hg. by apply (idx_set_index t). Qed.

Lemma deleted_index_at : index t !! Z.to_nat b = Some (Z.of_nat s).
Proof.
  unfold idx in Hbs. destruct (index t !! Z.to_nat b) eqn:E; simpl in Hbs; [congruence|].
  unfold MAPSUPER_INDEX_EMPTY in Hbs. lia.
Qed.

Lemma deleted_path (x : nat) ex :
  entries deleted !! x = Some ex → in_use ex = true →
  ∃ i, 0 ≤ i < cap deleted ∧ idx deleted (pos deleted (key ex) i) = Z.of_nat x ∧
    ∀ i', 0 ≤ i' < i → idx deleted (pos deleted (key ex) i') ≠ MAPSUPER_INDEX_EMPTY.
Proof.
  rewrite deleted_entry. change (cap deleted) with (cap t).
  change (pos deleted) with (pos t). case_decide as E; [intros [= <-] Hu; done|].
  intros Hx Hu. destruct (wf_path t Hwf x ex Hx Hu) as (i & Hi & Hv & Hp).
  exists i. split; [done|]. split.
  - rewrite deleted_idx by (by apply pos_range). rewrite decide_False; [done|].
    intros Heq. rewrite Heq, Hbs in Hv. lia.
  - intros i' Hi'. rewrite deleted_idx by (by apply pos_range).
    case_decide; [done|by apply Hp].
Qed.

Lemma deleted_wf : table_wf deleted.
Proof.
  destruct Hold as (He & Hu & Hk). split.
  - apply Hwf.
  - simpl. rewrite length_insert. apply Hwf.
  - intros g s0 [[-> ->]|[Hg H0]]%index_lookup_set_index; [by right; left|].
    destruct (wf_index t Hwf g s0 H0) as [?|[?|(Hp & e0 & He0 & Hu0)]]; auto.
    right; right. split; [done|]. rewrite deleted_entry. case_decide as E; [|eauto].
    destruct Hg. eapply (wf_index_inj t Hwf); [exact H0| |done].
    rewrite deleted_index_at. f_equal. lia.
  - intros g1 g2 s0 [[-> ->]|[Hg1 H1]]%index_lookup_set_index
      [[-> Hs0]|[Hg2 H2]]%index_lookup_set_index Hpos; [done| | |].
    + by vm_compute in Hpos.
    + subst s0. by vm_compute in Hpos.
    + by eapply (wf_index_inj t Hwf).
  - apply deleted_path.
  - intros s1 s2 e1 e2. rewrite !deleted_entry.
    repeat case_decide; subst; intros H1 H2 Hu1 Hu2 Hkk; simplify_eq; try done.
    by eapply (wf_keys t Hwf).
  - destruct (wf_free t Hwf) as (fl & Hc & Hnd & Hfl).
    assert (Hsn : s ∉ fl) by (intros (e0 & He0 & Hu0)%Hfl; congruence).
    exists (s :: fl). split; [|split; [by constructor|]].
    + split; [done|]. exists (cleared_entry e (free_head t)).
      split; [rewrite deleted_entry; by rewrite decide_True|].
      simpl. rewrite Nat2Z.id. by apply free_chain_frame.
    + intros x. rewrite deleted_entry, elem_of_cons, Hfl. case_decide as E.
      * split; [eauto|by left].
      * naive_solver.
Qed.

Lemma deleted_holds r' x ex : holds deleted r' x ex ↔ r' ≠ r ∧ holds t r' x ex.
Proof.
  unfold holds. rewrite deleted_entry. case_decide as E.
  - subst x. split; [intros ([= <-] & Hu & _); done|].
    intros (Hne & H0 & _ & Hk). destruct Hold as (H1 & _ & Hk1). congruence.
  - split; [|naive_solver]. intros (Hx & Hu & Hk). split; [|done].
    intros ->. apply E. by eapply (holds_slot_unique t r x s ex e).
Qed.
End deletion.

(** ** The table after initialisation *)

Lemma init_free_chain n k :
  (k ≤ n)%nat →
  free_chain (map (λ i, init_entry (Z.of_nat n) (Z.of_nat i)) (seq 0 n))
    (if decide (k = n) then MAPSUPER_FREENEXT_END else Z.of_nat k) (seq k (n - k)).
Proof.
  intros Hk. remember (n - k)%nat as d eqn:Hd. revert k Hk Hd.
  induction d as [|d IH]; intros k Hk Hd.
  - rewrite decide_True by lia. done.
  - rewrite decide_False by lia. split; [done|].
    exists (init_entry (Z.of_nat n) (Z.of_nat k)). split.
    + rewrite list_lookup_fmap, lookup_seq_lt by lia. done.
    + specialize (IH (S k) ltac:(lia) ltac:(lia)).
      cbn [next_free init_entry]. case_decide as E.
      * rewrite decide_True by lia. exact IH.
      * rewrite decide_False by lia.
        replace (Z.of_nat k + 1) with (Z.of_nat (S k)) by lia. exact IH.
Qed.

Lemma init_table_wf capacity k :
  0 < capacity → 0 ≤ k → table_wf (MapSuperTableShmemInit capacity (2 ^ k)).
Proof.
  intros Hc Hk. split; simpl.
  - by exists k.
  - rewrite length_replicate. f_equal. lia.
  - intros g s [-> _]%lookup_replicate. by left.
  - intros g1 g2 s [-> _]%lookup_replicate _ Hs. by vm_compute in Hs.
  - intros s e [x [-> Hx]]%list_lookup_fmap_Some Hu. done.
  - intros s1 s2 e1 e2 [x [-> Hx]]%list_lookup_fmap_Some _ Hu. done.
  - exists (seq 0 (Z.to_nat capacity)). split; [|split; [apply NoDup_seq|]].
    + pose proof (init_free_chain (Z.to_nat capacity) 0 ltac:(lia)) as H.
      rewrite decide_False, Z2Nat.id, Nat.sub_0_r in H by lia. exact H.
    + intros s. rewrite elem_of_seq. split.
      * intros Hs. eexists. rewrite list_lookup_fmap, lookup_seq_lt by lia.
        split; [reflexivity|done].
      * intros (e & [x [-> Hx]]%list_lookup_fmap_Some & _).
        apply lookup_lt_Some in Hx. rewrite length_seq in Hx. lia.
Qed.

Lemma index_capacity_loop_spec fuel k target :
  0 ≤ k → target ≤ 2 ^ (k + Z.of_nat fuel) →
  ∃ k', k ≤ k' ∧ index_capacity_loop fuel (2 ^ k) target = 2 ^ k' ∧ target ≤ 2 ^ k'.
Proof.
  revert k; induction fuel as [|fuel IH]; intros k Hk Ht.
  - exists k. rewrite Z.add_0_r in Ht. split; [lia|]. done.
  - cbn [index_capacity_loop]. case_decide as Hlt; [|exists k; split; [lia|]; split; [done|lia]].
    rewrite Z.shiftl_mul_pow2, <-Z.pow_add_r by lia.
    destruct (IH (k + 1)) as (k' & ? & ? & ?); [lia| |exists k'; split; [lia|done]].
    replace (k + 1 + Z.of_nat fuel) with (k + Z.of_nat (S fuel)) by lia. done.
Qed.

Lemma index_capacity_spec capacity :
  0 < capacity < 2 ^ 31 →
  ∃ k, 0 ≤ k ∧ MapSuperIndexCapacityForPartition capacity = 2 ^ k ∧
       2 * capacity ≤ MAP_SUPER_NPARTITIONS * 2 ^ k.
Proof.
  intros Hc. unfold MapSuperIndexCapacityForPartition, MAP_SUPER_NPARTITIONS.
  destruct (index_capacity_loop_spec 64 0 ((capacity * 2 + 128 - 1) / 128))
    as (k & Hk & Heq & Ht); [lia| |].
  - simpl. Z.to_euclidean_division_equations. lia.
  - exists k. split; [lia|]. split; [exact Heq|]. clear Heq.
    set (p := 2 ^ k) in *. Z.to_euclidean_division_equations. lia.
Qed.

(** ** What the operations do, on the map *)

Definition table_put (t : MapSuperTable) (r : RelFileLocator) (e : MapSuperEntry)
    : MapSuperTable :=
  let slot_id := (lookup_slot t r).1 in
  if decide (0 ≤ slot_id) then set_entry slot_id e t else t.

Lemma find_entry_map t r :
  table_wf t → MapSuperFindEntryLocked t r = table_map t !! r.
Proof.
  intros Hwf. unfold MapSuperFindEntryLocked. destruct (holds_dec t r) as [(s & e & Hh)|Hn].
  - destruct (lookup_slot_found t r s e Hwf Hh) as (i & Hi & -> & _). simpl.
    rewrite decide_True by lia. unfold MapSuperEntryBySlot. rewrite Nat2Z.id.
    symmetry. destruct Hh as (He & Hh). rewrite He.
    apply table_map_lookup; [done|]. exists s. done.
  - destruct (lookup_slot_absent t r Hwf Hn) as [-> _]. simpl. symmetry.
    by apply table_map_absent.
Qed.

Lemma ensure_present t r e :
  table_wf t → table_map t !! r = Some e →
  ∃ s, MapSuperEnsureEntryLocked t r = Ok (Z.of_nat s, t) ∧ holds t r s e.
Proof.
  intros Hwf [s Hh]%table_map_lookup; [|done]. exists s. split; [|done].
  destruct (lookup_slot_found t r s e Hwf Hh) as (i & Hi & Hl & _).
  unfold MapSuperEnsureEntryLocked. rewrite Hl, decide_True by lia. done.
Qed.

(** The two ways a creation can fail, and what a success does. *)
Lemma ensure_absent t r :
  table_wf t → table_map t !! r = None →
  (∃ s t', MapSuperEnsureEntryLocked t r = Ok (Z.of_nat s, t') ∧ table_wf t' ∧
     holds t' r s (fresh_entry r) ∧ table_map t' = <[r := fresh_entry r]> (table_map t)) ∨
  (MapSuperEnsureEntryLocked t r = Err index_full ∧ (lookup_slot t r).2 = -1) ∨
  (MapSuperEnsureEntryLocked t r = Err slots_full ∧ free_head t = MAPSUPER_FREENEXT_END).
Proof.
  intros Hwf Hn. pose proof (proj1 (table_map_absent t r Hwf) Hn) as Habs.
  destruct (lookup_slot_absent t r Hwf Habs) as [Hs Hb].
  unfold MapSuperEnsureEntryLocked. rewrite (surjective_pairing (lookup_slot t r)).
  rewrite Hs, decide_False by lia. destruct Hb as [Hb|Hins]; [by rewrite Hb; auto|].
  assert (Hb0 : 0 ≤ (lookup_slot t r).2)
    by (destruct Hins as (i & _ & -> & _); by apply pos_range).
  rewrite decide_False by lia. case_decide as Hf; [by auto|]. left.
  destruct (wf_free t Hwf) as ([|s fl] & Hc & Hnd & Hfl); [done|].
  destruct Hc as (Hh & e & He & Hc). rewrite Hh. unfold MapSuperEntryBySlot.
  rewrite Nat2Z.id, He.
  pose proof (inserted_wf t r _ s e fl Hwf Habs Hins He Hc Hnd Hfl) as Hwf'.
  pose proof (inserted_holds t r (lookup_slot t r).2 s e fl Habs He Hfl) as Hh'.
  exists s. eexists. split; [reflexivity|]. split; [exact Hwf'|].
  split; [apply Hh'; by left|]. apply map_eq. intros r'. apply option_eq. intros e'.
  rewrite table_map_lookup by exact Hwf'. setoid_rewrite Hh'.
  destruct (decide (r' = r)) as [->|Hne].
  - rewrite lookup_insert_eq. naive_solver.
  - rewrite lookup_insert_ne, table_map_lookup by done. naive_solver.
Qed.

Lemma delete_map t r :
  table_wf t →
  table_wf (MapSuperDeleteEntry t r) ∧
  table_map (MapSuperDeleteEntry t r) = delete r (table_map t).
Proof.
  intros Hwf. unfold MapSuperDeleteEntry. destruct (holds_dec t r) as [(s & e & Hh)|Hn].
  - destruct (lookup_slot_found t r s e Hwf Hh) as (i & Hi & -> & Hx).
    rewrite decide_True by lia. unfold MapSuperEntryBySlot. rewrite Nat2Z.id.
    pose proof Hh as (-> & _).
    pose proof (pos_range t r i Hwf) as Hr.
    pose proof (deleted_wf t r s e _ Hwf Hh Hr Hx) as Hwf'.
    split; [exact Hwf'|]. apply map_eq. intros r'. apply option_eq. intros e'.
    rewrite table_map_lookup by exact Hwf'.
    setoid_rewrite (deleted_holds t r s e (pos t r i) Hwf Hh).
    destruct (decide (r' = r)) as [->|Hne].
    + rewrite lookup_delete_eq. split; [intros (x & Hne & _); done|done].
    + rewrite lookup_delete_ne, table_map_lookup by done.
      split; [intros (x & _ & Hx'); eauto | intros (x & Hx'); eauto].
  - destruct (lookup_slot t r) as [s0 b0] eqn:E.
    destruct (lookup_slot_absent t r Hwf Hn) as [Hs _]. rewrite E in Hs. simpl in Hs.
    rewrite decide_False by lia. split; [done|]. symmetry.
    apply delete_id. by apply table_map_absent.
Qed.

Lemma put_map t r e e' :
  table_wf t → table_map t !! r = Some e → key e' = r → in_use e' = true →
  table_wf (table_put t r e') ∧ table_map (table_put t r e') = <[r := e']> (table_map t).
Proof.
  intros Hwf [s Hh]%table_map_lookup Hk Hu; [|done]. unfold table_put.
  destruct (lookup_slot_found t r s e Hwf Hh) as (i & Hi & -> & Hx). simpl.
  rewrite decide_True by lia.
  pose proof (set_entry_wf t r s e e' Hwf Hh Hk Hu) as Hwf'. split; [done|].
  apply map_eq. intros r'. apply option_eq. intros e0.
  rewrite table_map_lookup by done.
  assert (Hlt : (s < length (entries t))%nat) by (eapply lookup_lt_Some; apply Hh).
  destruct (decide (r' = r)) as [->|Hne].
  - rewrite lookup_insert_eq. unfold holds. split.
    + intros (x & Hx' & Hu' & Hk'). rewrite lookup_set_entry in Hx' by done.
      case_decide; [congruence|].
      destruct (holds_slot_unique t r x s e0 e) as [-> _]; done.
    + intros [= <-]. exists s. by rewrite lookup_set_entry, decide_True.
  - rewrite lookup_insert_ne, table_map_lookup by done. unfold holds.
    setoid_rewrite lookup_set_entry; [|done]. split.
    + intros (x & Hx' & Hu' & Hk'). case_decide; [congruence|]. eauto.
    + intros (x & Hx' & Hu' & Hk'). exists x. rewrite decide_False; [done|].
      intros ->. destruct Hh as (He & _ & Hk0). congruence.
Qed.

(** Once a tombstone was seen there is an insertion bucket. *)
Lemma probe_loop_deleted t r mask base n bucket fd :
  0 ≤ fd → 0 ≤ base → (probe_loop t r mask base n bucket fd) ≠ (-1, -1).
Proof.
  intros Hfd Hb. revert bucket. induction n as [|n IH]; intros bucket; cbn [probe_loop].
  - rewrite decide_True by lia. injection 1. lia.
  - case_decide; [rewrite decide_True by lia; injection 1; lia|].
    case_decide; [rewrite decide_False by lia; apply IH|].
    destruct (slot_matches _ _ _) eqn:Hs; [|apply IH].
    injection 1. unfold MAPSUPER_INDEX_EMPTY in *. lia.
Qed.

(** With no insertion bucket, the whole partition is live. *)
Lemma probe_loop_full t r n i :
  table_wf t → 0 ≤ i → i + Z.of_nat n = cap t →
  (probe_loop t r (cap t - 1) (part r * cap t) n ((home t r + i) mod cap t) (-1)) = (-1, -1) →
  ∀ j, i ≤ j < cap t → 0 ≤ idx t (pos t r j).
Proof.
  intros Hwf. revert i. induction n as [|n IH]; intros i Hi Hn Hp j Hj; [lia|].
  cbn [probe_loop] in Hp. fold (pos t r i) in Hp.
  pose proof (pos_range t r i Hwf) as Hr.
  pose proof (wf_cap_pos t Hwf).
  pose proof (Z.mod_pos_bound (home t r + i) (cap t) ltac:(lia)) as Hm.
  case_decide as He; [rewrite decide_False in Hp by lia; apply (f_equal snd) in Hp;
    cbn [snd] in Hp; clear - Hp Hr; lia|].
  case_decide as Hd.
  { exfalso. rewrite pos_succ in Hp by done. rewrite decide_True in Hp by lia.
    revert Hp. apply probe_loop_deleted; [lia|].
    pose proof (part_range r). apply Z.mul_nonneg_nonneg; lia. }
  destruct (slot_matches t r _) eqn:Hs; [apply (f_equal fst) in Hp; by destruct He|].
  rewrite pos_succ in Hp by done.
  destruct (decide (j = i)) as [->|]; [|by apply (IH (i + 1)); lia || done].
  destruct (idx_cases t r i Hwf) as [?|[?|[? _]]]; done.
Qed.

Lemma lookup_full t r :
  table_wf t → table_map t !! r = None → (lookup_slot t r).2 = -1 →
  ∀ i, 0 ≤ i < cap t → 0 ≤ idx t (pos t r i).
Proof.
  intros Hwf Hn Hb. pose proof (proj1 (table_map_absent t r Hwf) Hn) as Habs.
  destruct (lookup_slot_absent t r Hwf Habs) as [Hs _].
  pose proof (wf_cap_pos t Hwf).
  apply (probe_loop_full t r (Z.to_nat (cap t)) 0); [done|lia|lia|].
  rewrite <-(home_mod t r Hwf). unfold lookup_slot, MapSuperLookupSlotLocked in *.
  fold (home t r) in *. fold (part r) in *.
  rewrite (surjective_pairing (probe_loop _ _ _ _ _ _ _)). by rewrite Hs, Hb.
Qed.

(** ** Interface

    What the superblock operations may rely on: a store of entries that
    behaves as a finite map, with creation as its only fallible operation. *)

Class SuperStore (T : Type) := {
  ss_find : T → RelFileLocator → option MapSuperEntry;
  ss_ensure : T → RelFileLocator → result T;
  ss_put : T → RelFileLocator → MapSuperEntry → T;
  ss_delete : T → RelFileLocator → T;
  (** all slots in order, those not in use included *)
  ss_slots : T → list MapSuperEntry;
}.

Class SuperStoreLaws (T : Type) `{SuperStore T} := {
  ss_wf : T → Prop;
  ss_map : T → gmap RelFileLocator MapSuperEntry;
  ss_key : ∀ t r e, ss_wf t → ss_map t !! r = Some e → key e = r ∧ in_use e = true;
  ss_find_spec : ∀ t r, ss_wf t → ss_find t r = ss_map t !! r;
  ss_ensure_present : ∀ t r e, ss_wf t → ss_map t !! r = Some e → ss_ensure t r = Ok t;
  ss_ensure_absent : ∀ t r t', ss_wf t → ss_map t !! r = None → ss_ensure t r = Ok t' →
    ss_wf t' ∧ ss_map t' = <[r := fresh_entry r]> (ss_map t);
  ss_put_spec : ∀ t r e e', ss_wf t → ss_map t !! r = Some e → key e' = r →
    in_use e' = true → ss_wf (ss_put t r e') ∧ ss_map (ss_put t r e') = <[r := e']> (ss_map t);
  ss_delete_spec : ∀ t r, ss_wf t →
    ss_wf (ss_delete t r) ∧ ss_map (ss_delete t r) = delete r (ss_map t);
  ss_slots_spec : ∀ t r e, ss_wf t →
    ss_map t !! r = Some e ↔ e ∈ ss_slots t ∧ in_use e = true ∧ key e = r;
}.

#[global] Instance table_store : SuperStore MapSuperTable := {
  ss_find := MapSuperFindEntryLocked;
  ss_ensure t r := match MapSuperEnsureEntryLocked t r with
                   | Ok (_, t') => Ok t'
                   | Err e => Err e
                   end;
  ss_put := table_put;
  ss_delete := MapSuperDeleteEntry;
  ss_slots := entries;
}.

#[global] Instance table_store_laws : SuperStoreLaws MapSuperTable.
Proof.
  refine {| ss_wf := table_wf; ss_map := table_map |}.
  - intros t r e Hwf [s (_ & Hu & Hk)]%table_map_lookup; done.
  - apply find_entry_map.
  - intros t r e Hwf Hm. destruct (ensure_present t r e Hwf Hm) as (s & He & _).
    simpl. by rewrite He.
  - intros t r t' Hwf Hm. simpl.
    destruct (ensure_absent t r Hwf Hm) as [(s & t1 & He & H1 & _ & H2)|[[He _]|[He _]]];
      rewrite He; [|done|done]. intros [= <-]. done.
  - apply put_map.
  - apply delete_map.
  - intros t r e Hwf. rewrite (table_map_lookup t r e Hwf). unfold holds.
    change (ss_slots t) with (entries t). rewrite list_elem_of_lookup. naive_solver.
Defined.

(** ** Properties *)

(** With the sizes the code derives from [map_superblocks], the
    table starts well-formed and empty, and its index has at least twice as
    many buckets as there are entries. *)
Theorem super_table_init map_superblocks :
  map_superblocks < 2 ^ 31 →
  let '(capacity, icap) := MapSuperTableRefreshDerivedState map_superblocks in
  let t := MapSuperTableShmemInit capacity icap in
  table_wf t ∧ table_map t = ∅ ∧
  2 * Z.of_nat (length (entries t)) ≤ Z.of_nat (length (index t)).
Proof.
  intros Hm. unfold MapSuperTableRefreshDerivedState, MAP_SUPERBLOCK_MIN_ENTRIES.
  set (c := Z.max map_superblocks 50000).
  destruct (index_capacity_spec c ltac:(lia)) as (k & Hk & -> & Hcap).
  assert (Hwf : table_wf (MapSuperTableShmemInit c (2 ^ k)))
    by (apply init_table_wf; lia).
  split; [done|]. split.
  - apply map_eq. intros r. rewrite lookup_empty. apply table_map_absent; [done|].
    intros s e (He & Hu & _). simpl in He.
    apply list_lookup_fmap_Some in He as [x [-> _]]. done.
  - simpl. rewrite length_fmap, length_seq, length_replicate.
    unfold MAP_SUPER_NPARTITIONS in *. lia.
Qed.

Lemma super_table_init_witness :
  let '(capacity, icap) := MapSuperTableRefreshDerivedState 60000 in
  let t := MapSuperTableShmemInit capacity icap in
  table_wf t ∧ table_map t = ∅ ∧
  2 * Z.of_nat (length (entries t)) ≤ Z.of_nat (length (index t)).
Proof. apply (super_table_init 60000). lia. Defined.

(** C29: on a well-formed table, lookup, creation and deletion are
    those of a finite map from relations to entries, and each leaves the table
    well-formed; no probe sequence misses a stored relation. *)
Theorem super_table_refines_map t r :
  table_wf t →
  MapSuperFindEntryLocked t r = table_map t !! r ∧
  (∀ s t', MapSuperEnsureEntryLocked t r = Ok (s, t') →
     table_wf t' ∧ MapSuperEntryBySlot t' s = table_map t' !! r ∧
     table_map t' = <[r := default (fresh_entry r) (table_map t !! r)]> (table_map t)) ∧
  table_wf (MapSuperDeleteEntry t r) ∧
  table_map (MapSuperDeleteEntry t r) = delete r (table_map t).
Proof.
  intros Hwf. split; [by apply find_entry_map|]. split; [|by apply delete_map].
  intros s t' Hok. destruct (table_map t !! r) as [e|] eqn:E.
  - destruct (ensure_present t r e Hwf E) as (s0 & Hs & Hh). rewrite Hs in Hok.
    injection Hok as <- <-. split; [done|]. split; [|by rewrite insert_id].
    unfold MapSuperEntryBySlot. rewrite Nat2Z.id, E. apply Hh.
  - destruct (ensure_absent t r Hwf E) as [(s0 & t1 & He & Hw & Hh & Hm)|[[He _]|[He _]]];
      rewrite He in Hok; [|done|done]. injection Hok as <- <-.
    split; [done|]. split; [|done].
    unfold MapSuperEntryBySlot. rewrite Nat2Z.id, Hm, lookup_insert_eq. apply Hh.
Qed.

Lemma super_table_refines_map_witness :
  let t := MapSuperTableShmemInit 4 2 in
  let r := MkRel 1663 5 16384 in
  MapSuperFindEntryLocked t r = table_map t !! r ∧
  (∀ s t', MapSuperEnsureEntryLocked t r = Ok (s, t') →
     table_wf t' ∧ MapSuperEntryBySlot t' s = table_map t' !! r ∧
     table_map t' = <[r := default (fresh_entry r) (table_map t !! r)]> (table_map t)) ∧
  table_wf (MapSuperDeleteEntry t r) ∧
  table_map (MapSuperDeleteEntry t r) = delete r (table_map t).
Proof. apply super_table_refines_map. apply (init_table_wf 4 1); lia. Defined.

(** Creating an entry fails only when the relation is absent and
    either every bucket of its index partition holds a live entry, or every
    entry of the table is in use; a relation already stored never fails. *)
Theorem super_table_ensure_errors t r err :
  table_wf t → MapSuperEnsureEntryLocked t r = Err err →
  table_map t !! r = None ∧
  ((err = index_full ∧ ∀ i, 0 ≤ i < cap t → 0 ≤ idx t (pos t r i)) ∨
   (err = slots_full ∧ ∀ s e, entries t !! s = Some e → in_use e = true)).
Proof.
  intros Hwf Herr. destruct (table_map t !! r) as [e|] eqn:E.
  { destruct (ensure_present t r e Hwf E) as (s & Hs & _). congruence. }
  split; [done|].
  destruct (ensure_absent t r Hwf E) as [(s & t1 & He & _)|[[He Hb]|[He Hb]]];
    [congruence| |]; rewrite He in Herr; injection Herr as <-.
  - left. split; [done|]. by apply lookup_full.
  - right. split; [done|]. intros s e Hs. destruct (in_use e) eqn:Hu; [done|].
    destruct (wf_free t Hwf) as ([|x fl] & Hc & _ & Hfl).
    + assert (s ∈ @nil nat) as Hin by (apply Hfl; eauto). by apply not_elem_of_nil in Hin.
    + destruct Hc as [Hc _]. rewrite Hb in Hc. unfold MAPSUPER_FREENEXT_END in Hc. lia.
Qed.

Definition full_table : MapSuperTable :=
  match MapSuperEnsureEntryLocked (MapSuperTableShmemInit 1 2) (MkRel 1663 5 16384) with
  | Ok (_, t) => t
  | Err _ => MapSuperTableShmemInit 1 2
  end.

Lemma super_table_ensure_errors_witness :
  table_map full_table !! MkRel 1663 5 16385 = None ∧
  ((slots_full = index_full ∧
    ∀ i, 0 ≤ i < cap full_table → 0 ≤ idx full_table (pos full_table (MkRel 1663 5 16385) i)) ∨
   (slots_full = slots_full ∧ ∀ s e, entries full_table !! s = Some e → in_use e = true)).
Proof.
  apply (super_table_ensure_errors full_table); [|by vm_compute].
  assert (Hwf : table_wf (MapSuperTableShmemInit 1 2)) by (apply (init_table_wf 1 1); lia).
  destruct (ensure_absent _ (MkRel 1663 5 16384) Hwf) as [(s & t1 & He & Hw & _)|[[He _]|[He _]]].
  - by vm_compute.
  - unfold full_table. by rewrite He.
  - by vm_compute in He.
  - by vm_compute in He.
Defined.
