(* ===== verification/FileLayer.v ===== *)
(** * What the map layer relies on from the file layer

    The map code reaches files only through the [umfile_ctx_...] calls of
    [storage/smgr/umfile.c].  This interface names those calls and the
    behaviour the map layer uses: a fork is a partial map from block numbers
    to 8 kB blocks, a read returns the bytes of an existing block, a write
    changes one block and may materialise missing blocks as zeros. *)

From S2P Require Import Prelude.

Local Open Scope Z_scope.

Definition zero_block : list Z := replicate (Z.to_nat BLCKSZ) 0.

Class FileLayer (F : Type) := {
  (** [umfile_ctx_fork_exists], dense and sparse *)
  fl_exists : F → RelFileLocator → ForkNumber → bool;
  fl_exists_sparse : F → RelFileLocator → ForkNumber → bool;
  (** [umfile_ctx_get_nblocks], dense *)
  fl_nblocks : F → RelFileLocator → ForkNumber → Z;
  (** [umfile_ctx_read], first [n] bytes of a block *)
  fl_read : F → RelFileLocator → ForkNumber → Z → nat → result (list Z);
  (** [umfile_ctx_write] with [umfile_ctx_register_dirty] *)
  fl_write : F → RelFileLocator → ForkNumber → Z → list Z → result F;
  (** [umfile_zeroextend] *)
  fl_zeroextend : F → RelFileLocator → ForkNumber → Z → Z → result F;
  (** [umfile_ctx_block_exists] *)
  fl_block_exists : F → RelFileLocator → ForkNumber → Z → bool;
  (** [umfile_ctx_preallocate_blocks] up to a number of blocks *)
  fl_preallocate : F → RelFileLocator → ForkNumber → Z → result (F * bool);
  (** [umfile_open_or_create]; the second result is [created] *)
  fl_create : F → RelFileLocator → ForkNumber → bool → result (F * bool);
}.

(** Block [b] of a fork is untouched, or was missing and is now zero. *)
Definition block_kept (old new : option (list Z)) : Prop :=
  new = old ∨ (old = None ∧ new = Some zero_block).

Class FileLayerLaws (F : Type) `{FileLayer F} := {
  fl_content : F → RelFileLocator → ForkNumber → Z → option (list Z);
  fl_content_wf : ∀ f r k b d, fl_content f r k b = Some d →
    length d = Z.to_nat BLCKSZ ∧ Forall is_byte d;
  fl_read_spec : ∀ f r k b n d, (0 < n ≤ Z.to_nat BLCKSZ)%nat →
    fl_read f r k b n = Ok d ↔ ∃ d0, fl_content f r k b = Some d0 ∧ d = take n d0;
  fl_nblocks_spec : ∀ f r b d, fl_content f r UMBRA_METADATA_FORKNUM b = Some d → 0 ≤ b →
    b < fl_nblocks f r UMBRA_METADATA_FORKNUM;
  fl_write_block : ∀ f r k b data f', (length data ≤ Z.to_nat BLCKSZ)%nat →
    Forall is_byte data → fl_write f r k b data = Ok f' →
    ∃ d, fl_content f' r k b = Some d ∧ take (length data) d = data;
  fl_write_frame : ∀ f r k b data f' r' k' b', fl_write f r k b data = Ok f' →
    (r', k', b') ≠ (r, k, b) → block_kept (fl_content f r' k' b') (fl_content f' r' k' b');
  fl_write_frame_fork : ∀ f r k b data f' r' k' b', fl_write f r k b data = Ok f' →
    (r', k') ≠ (r, k) → fl_content f' r' k' b' = fl_content f r' k' b';
  fl_write_exists : ∀ f r k b data f' r', fl_write f r k b data = Ok f' →
    fl_exists f' r' UMBRA_METADATA_FORKNUM = fl_exists f r' UMBRA_METADATA_FORKNUM;
  fl_zeroextend_frame : ∀ f r k b n f' r' k' b', fl_zeroextend f r k b n = Ok f' →
    (r', k') ≠ (r, k) → fl_content f' r' k' b' = fl_content f r' k' b';
  fl_zeroextend_exists : ∀ f r k b n f' r', fl_zeroextend f r k b n = Ok f' →
    fl_exists f' r' UMBRA_METADATA_FORKNUM = fl_exists f r' UMBRA_METADATA_FORKNUM;
  fl_zeroextend_block : ∀ f r k b n f' b', fl_zeroextend f r k b n = Ok f' →
    b ≤ b' < b + n → is_Some (fl_content f' r k b');
  fl_zeroextend_keep : ∀ f r k b n f' b', fl_zeroextend f r k b n = Ok f' →
    is_Some (fl_content f r k b') → is_Some (fl_content f' r k b');
  fl_zeroextend_fresh : ∀ f r k b n f' b', fl_zeroextend f r k b n = Ok f' →
    b ≤ b' < b + n → fl_content f r k b' = None → fl_content f' r k b' = Some zero_block;
  fl_zeroextend_other : ∀ f r k b n f' b', fl_zeroextend f r k b n = Ok f' →
    ¬ (b ≤ b' < b + n) → block_kept (fl_content f r k b') (fl_content f' r k b');
  (** a positive answer is reliable; a negative one need not be *)
  fl_block_exists_sound : ∀ f r k b, fl_block_exists f r k b = true →
    is_Some (fl_content f r k b);
  (** preallocation writes no page content *)
  fl_preallocate_frame : ∀ f r k n f' ok r' k' b', fl_preallocate f r k n = Ok (f', ok) →
    (r', k') ≠ (r, k) → fl_content f' r' k' b' = fl_content f r' k' b';
  fl_preallocate_exists : ∀ f r k n f' ok r', fl_preallocate f r k n = Ok (f', ok) →
    fl_exists f' r' UMBRA_METADATA_FORKNUM = fl_exists f r' UMBRA_METADATA_FORKNUM;
  fl_preallocate_keep : ∀ f r k n f' ok b', fl_preallocate f r k n = Ok (f', ok) →
    0 ≤ b' → block_kept (fl_content f r k b') (fl_content f' r k b');
  (** a created fork is empty, an existing one is left alone *)
  fl_create_content : ∀ f r k redo f' c r' k' b', fl_create f r k redo = Ok (f', c) →
    fl_content f' r' k' b' = fl_content f r' k' b';
  fl_create_exists : ∀ f r k redo f' c r' k', fl_create f r k redo = Ok (f', c) →
    fl_exists f' r' k' = fl_exists f r' k' || bool_decide ((r', k') = (r, k));
}.

Lemma block_kept_trans o1 o2 o3 : block_kept o1 o2 → block_kept o2 o3 → block_kept o1 o3.
Proof. unfold block_kept. intuition congruence. Qed.

(** Zero-extending past the end of a fork only adds zero blocks. *)
Lemma zeroextend_kept `{FileLayerLaws F} f r n f' r' k' b' :
  fl_zeroextend f r UMBRA_METADATA_FORKNUM (fl_nblocks f r UMBRA_METADATA_FORKNUM) n = Ok f' → 0 ≤ b' →
  block_kept (fl_content f r' k' b') (fl_content f' r' k' b').
Proof.
  set (k := UMBRA_METADATA_FORKNUM) in *. intros Hz Hb. destruct (decide ((r', k') = (r, k))) as [[= -> ->]|Hne].
  2: { left. by eapply fl_zeroextend_frame. }
  destruct (decide (fl_nblocks f r k ≤ b' < fl_nblocks f r k + n)) as [Hin|Hout].
  2: { by eapply fl_zeroextend_other. }
  destruct (fl_content f r k b') as [d|] eqn:Hc.
  - pose proof (fl_nblocks_spec f r b' d Hc Hb) as Hlt. fold k in Hlt. lia.
  - right. split; [done|]. by eapply fl_zeroextend_fresh.
Qed.

(** A full-block write is read back exactly. *)
Lemma write_full_block `{FileLayerLaws F} f r k b data f' :
  length data = Z.to_nat BLCKSZ → Forall is_byte data →
  fl_write f r k b data = Ok f' → fl_content f' r k b = Some data.
Proof.
  intros Hl Hb Hw.
  destruct (fl_write_block f r k b data f') as (d & Hd & Ht); [lia|done|done|].
  destruct (fl_content_wf _ _ _ _ _ Hd) as [Hdl _].
  rewrite Hl, <-Hdl, firstn_all in Ht. by rewrite Hd, Ht.
Qed.

(** ** A reference file system

    Forks as maps from block numbers to blocks; an out-of-range write fails. *)

Record RefFiles := MkRefFiles {
  rf_forks : gmap (RelFileLocator * ForkNumber) (gmap Z (list Z));
}.

Definition rf_block (f : RefFiles) (r : RelFileLocator) (k : ForkNumber) (b : Z)
    : option (list Z) :=
  match rf_forks f !! (r, k) with Some m => m !! b | None => None end.

Definition rf_no_file : pg_error :=
  PgError ERROR ERRCODE_UNDEFINED_FILE "could not open file".
Definition rf_short_read : pg_error :=
  PgError ERROR ERRCODE_DATA_CORRUPTED "could not read file".
Definition rf_bad_write : pg_error :=
  PgError ERROR ERRCODE_INTERNAL_ERROR "could not write file".

Definition rf_set (f : RefFiles) (r : RelFileLocator) (k : ForkNumber) (b : Z)
    (d : list Z) : RefFiles :=
  MkRefFiles (alter (λ m, <[b := d]> m) (r, k) (rf_forks f)).

Definition rf_store_block (old : option (list Z)) (data : list Z) : list Z :=
  data ++ drop (length data) (default zero_block old).

Definition rf_block_ok (d : list Z) : bool :=
  bool_decide (length d = Z.to_nat BLCKSZ) && forallb (λ b, (0 <=? b) && (b <? 256)) d.

Definition rf_content (f : RefFiles) (r : RelFileLocator) (k : ForkNumber) (b : Z)
    : option (list Z) :=
  match rf_block f r k b with
  | Some d => if rf_block_ok d then Some d else None
  | None => None
  end.

Definition rf_nblocks (m : gmap Z (list Z)) : Z := map_fold (λ b _ acc, Z.max acc (b + 1)) 0 m.

Definition rf_zeroextend (m : gmap Z (list Z)) (b n : Z) : gmap Z (list Z) :=
  foldr (λ i, <[b + Z.of_nat i := zero_block]>) m (seq 0 (Z.to_nat n)).

#[global] Instance ref_file_layer : FileLayer RefFiles := {
  fl_exists f r k := bool_decide (is_Some (rf_forks f !! (r, k)));
  fl_exists_sparse f r k := bool_decide (is_Some (rf_forks f !! (r, k)));
  fl_nblocks f r k :=
    match rf_forks f !! (r, k) with
    | Some m => rf_nblocks m
    | None => 0
    end;
  fl_read f r k b n :=
    match rf_block f r k b with
    | Some d => if rf_block_ok d then Ok (take n d) else Err rf_short_read
    | None => Err rf_short_read
    end;
  fl_write f r k b data :=
    match rf_forks f !! (r, k) with
    | None => Err rf_no_file
    | Some m =>
        let d := rf_store_block (m !! b) data in
        if rf_block_ok d then Ok (rf_set f r k b d) else Err rf_bad_write
    end;
  fl_zeroextend f r k b n :=
    match rf_forks f !! (r, k) with
    | None => Err rf_no_file
    | Some m =>
        Ok (MkRefFiles (<[(r, k) := rf_zeroextend m b n]> (rf_forks f)))
    end;
  fl_block_exists f r k b := bool_decide (is_Some (rf_content f r k b));
  fl_preallocate f r k n :=
    match rf_forks f !! (r, k) with
    | None => Ok (f, false)
    | Some m =>
        Ok (MkRefFiles (<[(r, k) := rf_zeroextend m (rf_nblocks m) (n - rf_nblocks m)]>
              (rf_forks f)), true)
    end;
  fl_create f r k redo :=
    match rf_forks f !! (r, k) with
    | Some _ => if (redo : bool) then Ok (f, false) else Err rf_no_file
    | None => Ok (MkRefFiles (<[(r, k) := ∅]> (rf_forks f)), true)
    end;
}.

Lemma rf_block_ok_spec d :
  rf_block_ok d = true ↔ length d = Z.to_nat BLCKSZ ∧ Forall is_byte d.
Proof.
  unfold rf_block_ok. rewrite andb_true_iff, bool_decide_eq_true, forallb_forall, Forall_forall.
  unfold is_byte. setoid_rewrite andb_true_iff.
  setoid_rewrite Z.leb_le. setoid_rewrite Z.ltb_lt. done.
Qed.

Lemma rf_block_set f r k b d r' k' b' :
  is_Some (rf_forks f !! (r, k)) →
  rf_block (rf_set f r k b d) r' k' b' =
    if decide ((r', k', b') = (r, k, b)) then Some d else rf_block f r' k' b'.
Proof.
  intros [m Hm]. unfold rf_block, rf_set. simpl.
  destruct (decide ((r', k') = (r, k))) as [Heq|Hne].
  - injection Heq as -> ->. rewrite lookup_alter_eq, Hm. simpl.
    destruct (decide (b' = b)) as [->|].
    + rewrite lookup_insert_eq. by rewrite decide_True.
    + rewrite lookup_insert_ne by done. rewrite decide_False by congruence. done.
  - rewrite lookup_alter_ne by congruence. rewrite decide_False by congruence. done.
Qed.

Lemma rf_nblocks_bound (m : gmap Z (list Z)) b d :
  m !! b = Some d → b < rf_nblocks m.
Proof.
  unfold rf_nblocks. revert b d. apply (map_fold_weak_ind (λ acc m, ∀ b d, m !! b = Some d → b < acc)).
  - intros b d. by rewrite lookup_empty.
  - intros i x m' acc Hi IH b d Hb.
    apply lookup_insert_Some in Hb as [[<- _]|[_ Hb]]; [lia|].
    specialize (IH b d Hb). lia.
Qed.

Lemma rf_zeroed (m : gmap Z (list Z)) b n b' :
  rf_zeroextend m b n !! b' =
    if bool_decide (b ≤ b' < b + n) then Some zero_block else m !! b'.
Proof.
  assert (∀ l, foldr (λ i, <[b + Z.of_nat i := zero_block]>) m l !! b' =
    if decide (Exists (λ i, b' = b + Z.of_nat i) l) then Some zero_block else m !! b') as Hf.
  { induction l as [|i l IH]; cbn [foldr].
    - rewrite decide_False; [done|]. intros Hn. inversion Hn.
    - destruct (decide (b' = b + Z.of_nat i)) as [->|Hne].
      + rewrite lookup_insert_eq, decide_True; [done|]. by left.
      + rewrite lookup_insert_ne, IH by done.
        apply decide_ext. split; [by right|]. by inversion 1. }
  unfold rf_zeroextend. rewrite Hf. case_bool_decide as Hb.
  - rewrite decide_True; [done|]. apply Exists_exists. exists (Z.to_nat (b' - b)).
    rewrite in_seq. split; lia.
  - rewrite decide_False; [done|]. intros (i & Hi%in_seq & ->)%Exists_exists. lia.
Qed.

#[global] Instance ref_file_laws : FileLayerLaws RefFiles.
Proof.
  refine {| fl_content := rf_content |}.
  - intros f r k b d. unfold rf_content. repeat case_match; intros; simplify_eq.
    by apply rf_block_ok_spec.
  - intros f r k b n d Hn. simpl. unfold rf_content.
    repeat case_match; naive_solver.
  - intros f r b d. unfold rf_content, rf_block. simpl.
    destruct (rf_forks f !! (r, UMBRA_METADATA_FORKNUM)) as [m|]; [|done].
    destruct (m !! b) as [d0|] eqn:Hb; [|done]. intros _ _. by eapply rf_nblocks_bound.
  - intros f r k b data f' Hl Hb. simpl.
    destruct (rf_forks f !! (r, k)) as [m|] eqn:Hm; [|done].
    destruct (rf_block_ok _) eqn:Hok; [|done]. intros [= <-].
    exists (rf_store_block (m !! b) data). split; [|by apply take_app_length'].
    unfold rf_content. rewrite rf_block_set by eauto. by rewrite decide_True, Hok.
  - intros f r k b data f' r' k' b'. simpl.
    destruct (rf_forks f !! (r, k)) as [m|] eqn:Hm; [|done].
    destruct (rf_block_ok _) eqn:Hok; [|done]. intros [= <-] Hne. left.
    unfold rf_content. rewrite rf_block_set by eauto. by rewrite decide_False.
  - intros f r k b data f' r' k' b'. simpl.
    destruct (rf_forks f !! (r, k)) as [m|] eqn:Hm; [|done].
    destruct (rf_block_ok _) eqn:Hok; [|done]. intros [= <-] Hne.
    unfold rf_content. rewrite rf_block_set by eauto. rewrite decide_False; [done|congruence].
  - intros f r k b data f' r'. simpl.
    destruct (rf_forks f !! (r, k)) as [m|] eqn:Hm; [|done].
    destruct (rf_block_ok _) eqn:Hok; [|done]. intros [= <-].
    apply bool_decide_ext. simpl. rewrite lookup_alter_is_Some. done.
  - intros f r k b n f' r' k' b'. simpl.
    destruct (rf_forks f !! (r, k)) as [m|] eqn:Hm; [|done]. intros [= <-] Hne.
    unfold rf_content, rf_block. simpl. by rewrite lookup_insert_ne by congruence.
  - intros f r k b n f' r'. simpl.
    destruct (rf_forks f !! (r, k)) as [m|] eqn:Hm; [|done]. intros [= <-].
    apply bool_decide_ext. simpl. rewrite lookup_insert_is_Some'.
    destruct (decide ((r, k) = (r', UMBRA_METADATA_FORKNUM))) as [Heq|Hne].
    + injection Heq as <- ->. rewrite Hm. naive_solver.
    + naive_solver.
  - intros f r k b n f' b'. simpl.
    destruct (rf_forks f !! (r, k)) as [m|] eqn:Hm; [|done]. intros [= <-] Hb.
    unfold rf_content, rf_block. simpl. rewrite lookup_insert_eq, rf_zeroed.
    rewrite bool_decide_eq_true_2 by lia. done.
  - intros f r k b n f' b'. simpl.
    destruct (rf_forks f !! (r, k)) as [m|] eqn:Hm; [|done]. intros [= <-].
    unfold rf_content, rf_block. simpl. rewrite Hm, lookup_insert_eq, rf_zeroed.
    case_bool_decide; done.
  - intros f r k b n f' b'. simpl.
    destruct (rf_forks f !! (r, k)) as [m|] eqn:Hm; [|done]. intros [= <-] Hb _.
    unfold rf_content, rf_block. simpl. rewrite lookup_insert_eq, rf_zeroed.
    rewrite bool_decide_eq_true_2 by lia. done.
  - intros f r k b n f' b'. simpl.
    destruct (rf_forks f !! (r, k)) as [m|] eqn:Hm; [|done]. intros [= <-] Hb. left.
    unfold rf_content, rf_block. simpl. rewrite Hm, lookup_insert_eq, rf_zeroed.
    by rewrite bool_decide_eq_false_2.
  - intros f r k b. simpl. by rewrite bool_decide_eq_true.
  - intros f r k n f' ok r' k' b'. simpl.
    destruct (rf_forks f !! (r, k)) as [m|] eqn:Hm; intros [= <- <-] Hne; [|done].
    unfold rf_content, rf_block. simpl. by rewrite lookup_insert_ne by congruence.
  - intros f r k n f' ok r'. simpl.
    destruct (rf_forks f !! (r, k)) as [m|] eqn:Hm; intros [= <- <-]; [|done].
    apply bool_decide_ext. simpl. rewrite lookup_insert_is_Some'.
    destruct (decide ((r, k) = (r', UMBRA_METADATA_FORKNUM))) as [Heq|Hne].
    + injection Heq as <- ->. rewrite Hm. naive_solver.
    + naive_solver.
  - intros f r k n f' ok b'. simpl.
    destruct (rf_forks f !! (r, k)) as [m|] eqn:Hm; intros [= <- <-] Hb; [|by left].
    unfold rf_content, rf_block. simpl. rewrite Hm, lookup_insert_eq, rf_zeroed.
    case_bool_decide as Hin; [|by left]. right. split; [|done].
    destruct (m !! b') as [d|] eqn:Hd; [|done]. apply rf_nblocks_bound in Hd. lia.
  - intros f r k redo f' c r' k' b'. simpl.
    destruct (rf_forks f !! (r, k)) as [m|] eqn:Hm; [by destruct redo; intros [= <- <-]|].
    intros [= <- <-]. unfold rf_content, rf_block. simpl.
    destruct (decide ((r', k') = (r, k))) as [[= -> ->]|Hne].
    + by rewrite lookup_insert_eq, Hm, lookup_empty.
    + by rewrite lookup_insert_ne by congruence.
  - intros f r k redo f' c r' k'. simpl.
    destruct (rf_forks f !! (r, k)) as [m|] eqn:Hm.
    + destruct redo; intros [= <- <-]. case_bool_decide as Hs; [done|].
      rewrite bool_decide_eq_false_2; [done|]. intros [= -> ->]. apply Hs. by rewrite Hm.
    + intros [= <- <-]. simpl. rewrite <-bool_decide_or. apply bool_decide_ext.
      rewrite lookup_insert_is_Some'. naive_solver.
Defined.
