(* ===== verification/SBlock.v ===== *)
(** * Superblock operations

    The operations of [storage/map/mapsuper.c] on the shared superblock of a
    relation, written against the entry store ([SuperTable]) and the file
    layer ([FileLayer]), and the writeback of a dirty superblock of
    [storage/map/mapflush.c].  Each operation runs as one critical section
    under the lock of its entry. *)

From S2P Require Import Prelude MapLayout Superblock SuperTable FileLayer.

Local Open Scope Z_scope.

(** ** State *)

Record World (T F : Type) := MkWorld {
  w_store : T;                          (* shared superblock table *)
  w_files : F;                          (* metadata and data files *)
  w_missing : gset RelFileLocator;      (* XLOG missing-metadata table *)
  w_flushed : Z;                        (* WAL flushed up to this point *)
  w_exc : Z;                            (* PG_exception_stack, a frame id *)
}.
Arguments MkWorld {T F} _ _ _ _ _.
Arguments w_store {T F} _.
Arguments w_files {T F} _.
Arguments w_missing {T F} _.
Arguments w_flushed {T F} _.
Arguments w_exc {T F} _.

Definition set_store {T F} (t : T) (w : World T F) : World T F :=
  MkWorld t (w_files w) (w_missing w) (w_flushed w) (w_exc w).
Definition set_files {T F} (f : F) (w : World T F) : World T F :=
  MkWorld (w_store w) f (w_missing w) (w_flushed w) (w_exc w).
Definition add_missing {T F} (r : RelFileLocator) (w : World T F) : World T F :=
  MkWorld (w_store w) (w_files w) ({[r]} ∪ w_missing w) (w_flushed w) (w_exc w).
Definition set_flushed {T F} (l : Z) (w : World T F) : World T F :=
  MkWorld (w_store w) (w_files w) (w_missing w) (Z.max l (w_flushed w)) (w_exc w).
Definition set_exc {T F} (x : Z) (w : World T F) : World T F :=
  MkWorld (w_store w) (w_files w) (w_missing w) (w_flushed w) x.

Record Env := MkEnv {
  InRecovery : bool;
  ReplayRecPtr : Z;     (* GetXLogReplayRecPtr(NULL) *)
  WriteRecPtr : Z;      (* GetXLogWriteRecPtr() *)
}.

(** Entry field updates. *)
Definition with_super (s : MapSuperblock) (e : MapSuperEntry) : MapSuperEntry :=
  MkEntry (key e) s (page_lsn e) (eflags e) (runtime_flags e) (reserved_next_free e)
    (extending_target e) (reclaim_boundary e) (next_free e) (in_use e).
Definition with_lsn (l : Z) (e : MapSuperEntry) : MapSuperEntry :=
  MkEntry (key e) (super e) l (eflags e) (runtime_flags e) (reserved_next_free e)
    (extending_target e) (reclaim_boundary e) (next_free e) (in_use e).
Definition with_eflags (v : Z) (e : MapSuperEntry) : MapSuperEntry :=
  MkEntry (key e) (super e) (page_lsn e) v (runtime_flags e) (reserved_next_free e)
    (extending_target e) (reclaim_boundary e) (next_free e) (in_use e).
Definition with_runtime (v : Z) (e : MapSuperEntry) : MapSuperEntry :=
  MkEntry (key e) (super e) (page_lsn e) (eflags e) v (reserved_next_free e)
    (extending_target e) (reclaim_boundary e) (next_free e) (in_use e).
Definition with_reserved (p : PerFork) (e : MapSuperEntry) : MapSuperEntry :=
  MkEntry (key e) (super e) (page_lsn e) (eflags e) (runtime_flags e) p
    (extending_target e) (reclaim_boundary e) (next_free e) (in_use e).
Definition with_target (p : PerFork) (e : MapSuperEntry) : MapSuperEntry :=
  MkEntry (key e) (super e) (page_lsn e) (eflags e) (runtime_flags e) (reserved_next_free e)
    p (reclaim_boundary e) (next_free e) (in_use e).
Definition with_boundary (p : PerFork) (e : MapSuperEntry) : MapSuperEntry :=
  MkEntry (key e) (super e) (page_lsn e) (eflags e) (runtime_flags e) (reserved_next_free e)
    (extending_target e) p (next_free e) (in_use e).

(** ** Fork helpers *)

Definition MapForkHasMappedState (f : ForkNumber) : bool :=
  match f with
  | MAIN_FORKNUM | FSM_FORKNUM | VISIBILITYMAP_FORKNUM => true
  | _ => false
  end.

Definition MapForkUsesAbsentSentinel (f : ForkNumber) : bool :=
  match f with
  | FSM_FORKNUM | VISIBILITYMAP_FORKNUM => true
  | _ => false
  end.

Definition MapNormalizeForkBlockCount (f : ForkNumber) (raw : Z) : Z :=
  if MapForkUsesAbsentSentinel f && bool_decide (raw = InvalidBlockNumber) then 0 else raw.

Definition MapSuperForkExists (s : MapSuperblock) (f : ForkNumber) : result bool :=
  if negb (MapForkHasMappedState f) then Ok false
  else if negb (MapForkUsesAbsentSentinel f) then Ok true
  else n ← MapSuperblockGetLogicalNblocks s f; Ok (bool_decide (n ≠ InvalidBlockNumber)).

Definition MapSuperPreallocFlag (f : ForkNumber) : Z :=
  match f with
  | MAIN_FORKNUM => 0x01
  | FSM_FORKNUM => 0x02
  | VISIBILITYMAP_FORKNUM => 0x04
  | _ => 0
  end.

Definition MapSuperExtendingFlag (f : ForkNumber) : Z :=
  match f with
  | MAIN_FORKNUM => 0x08
  | FSM_FORKNUM => 0x10
  | VISIBILITYMAP_FORKNUM => 0x20
  | _ => 0
  end.

(** ** Entry runtime fields *)

Definition bad_fork {A} (msg : string) : result A :=
  Err (PgError ERROR ERRCODE_INTERNAL_ERROR msg).

Definition MapSuperGetReservedNextFree (e : MapSuperEntry) (f : ForkNumber) : result Z :=
  match pf_get (reserved_next_free e) f with
  | Some v => Ok v
  | None => bad_fork "unsupported fork number for reservation frontier"
  end.

Definition MapSuperSetReservedNextFree (e : MapSuperEntry) (f : ForkNumber) (blkno : Z)
    : result MapSuperEntry :=
  let blkno := MapNormalizeForkBlockCount f blkno in
  match pf_set (reserved_next_free e) f blkno with
  | Some p => Ok (with_reserved p e)
  | None => bad_fork "unsupported fork number for reservation frontier"
  end.

Definition MapSuperMaybeBumpReservedNextFree (e : MapSuperEntry) (f : ForkNumber)
    (blkno : Z) : result MapSuperEntry :=
  let blkno := MapNormalizeForkBlockCount f blkno in
  current ← MapSuperGetReservedNextFree e f;
  if decide (current < blkno) then MapSuperSetReservedNextFree e f blkno else Ok e.

Definition MapSuperResetReservedNextFrees (e : MapSuperEntry) : result MapSuperEntry :=
  n ← MapSuperblockGetNextFreePhysBlock (super e) MAIN_FORKNUM;
  e ← MapSuperSetReservedNextFree e MAIN_FORKNUM n;
  n ← MapSuperblockGetNextFreePhysBlock (super e) FSM_FORKNUM;
  e ← MapSuperSetReservedNextFree e FSM_FORKNUM n;
  n ← MapSuperblockGetNextFreePhysBlock (super e) VISIBILITYMAP_FORKNUM;
  MapSuperSetReservedNextFree e VISIBILITYMAP_FORKNUM n.

Definition MapSuperGetExtendingTarget (e : MapSuperEntry) (f : ForkNumber) : Z :=
  default InvalidBlockNumber (pf_get (extending_target e) f).

Definition MapSuperSetExtendingTarget (e : MapSuperEntry) (f : ForkNumber) (nblocks : Z)
    : result MapSuperEntry :=
  match pf_set (extending_target e) f nblocks with
  | Some p => Ok (with_target p e)
  | None => bad_fork "unsupported fork number for extend target"
  end.

Definition MapSuperGetReclaimBoundary (e : MapSuperEntry) (f : ForkNumber) : result Z :=
  match pf_get (reclaim_boundary e) f with
  | Some v => Ok v
  | None => bad_fork "unsupported fork number for reclaim boundary"
  end.

Definition MapSuperSetReclaimBoundary (e : MapSuperEntry) (f : ForkNumber) (b : Z)
    : result MapSuperEntry :=
  match pf_set (reclaim_boundary e) f b with
  | Some p => Ok (with_boundary p e)
  | None => bad_fork "unsupported fork number for reclaim boundary"
  end.

Definition MapSuperResetReclaimBoundaries (e : MapSuperEntry) : MapSuperEntry :=
  with_boundary
    (MkPerFork
       (MapNormalizeForkBlockCount MAIN_FORKNUM (next_free_phys_block_main (super e)))
       (MapNormalizeForkBlockCount FSM_FORKNUM (next_free_phys_block_fsm (super e)))
       (MapNormalizeForkBlockCount VISIBILITYMAP_FORKNUM (next_free_phys_block_vm (super e))))
    e.

(** The two tests of an entry's superblock before it is used. *)
Definition entry_untrusted (e : MapSuperEntry) : bool :=
  has_flag (eflags e) MAPSUPER_FLAG_CORRUPT ||
  negb (MapSuperblockHasValidIdentity (super e)) ||
  (negb (has_flag (eflags e) MAPSUPER_FLAG_DIRTY) && negb (MapSuperblockCheckCRC (super e))).

(** Stamp an update: LSN on superblock and entry, and the dirty flag. *)
Definition mark_super_dirty (map_lsn : Z) (e : MapSuperEntry) : MapSuperEntry :=
  let e := with_super (MapSuperblockSetLastUpdatedLSN (super e) map_lsn) e in
  let e := with_lsn map_lsn e in
  with_eflags (Z.lor (eflags e) MAPSUPER_FLAG_DIRTY) e.

(** ** Operations *)

Inductive MapSBlockReadStatus :=
  | MAP_SBLOCK_READ_OK (s : MapSuperblock)
  | MAP_SBLOCK_READ_MISSING
  | MAP_SBLOCK_READ_CORRUPT.

(** The outcome of one pass of [MapSBlockEnsurePhysicalNblocks]; [EnsureWait]
    is the sleep before [goto retry] while another backend extends. *)
Inductive EnsureOutcome := EnsureDone (b : bool) | EnsureWait.

Inductive ExtendClaim := ClaimReturn (b : bool) | ClaimWait | Claimed (current : Z).

(** How control leaves the body of a PG_TRY block. *)
Inductive flow (A : Type) := FallThrough | ReturnValue (a : A).
Arguments FallThrough {A}.
Arguments ReturnValue {A} a.

Definition sblock_corrupt (reason : string) : pg_error :=
  PgError ERROR ERRCODE_DATA_CORRUPTED reason.

Section ops.
Context {T F : Type} `{SuperStore T} `{FileLayer F} (env : Env).
Local Abbreviation W := (World T F).

(** [PG_TRY], [PG_CATCH] and [PG_END_TRY]: [frame] is the local jump buffer.
    Both the handler and the fall-through path restore the saved pointer; a
    [return] inside the block does not pass through [PG_END_TRY]. *)
Definition pg_try {A} (frame : Z) (body : M W (flow A)) (handler : pg_error → M W A)
    (after : M W A) : M W A := λ w,
  let saved := w_exc w in
  match body (set_exc frame w) with
  | (Ok FallThrough, w') => after (set_exc saved w')
  | (Ok (ReturnValue a), w') => (Ok a, w')
  | (Err e, w') => handler e (set_exc saved w')
  end.

Definition XLogFlush (lsn : Z) : M W unit := modify (set_flushed lsn).

Definition find_entry (r : RelFileLocator) : M W (option MapSuperEntry) :=
  gets (λ w, ss_find (w_store w) r).

Definition put_entry (r : RelFileLocator) (e : MapSuperEntry) : M W unit :=
  modify (λ w, set_store (ss_put (w_store w) r e) w).

Definition ensure_entry (r : RelFileLocator) : M W MapSuperEntry :=
  w ← get;
  t ← lift (ss_ensure (w_store w) r);
  put (set_store t w);;
  match ss_find t r with
  | Some e => mret e
  | None => elog ERROR "map superblock entry vanished"
  end.

Definition delete_entry (r : RelFileLocator) : M W unit :=
  modify (λ w, set_store (ss_delete (w_store w) r) w).

Definition MapSBlockReportCorrupt {A} (reason : string) : M W A :=
  throw (sblock_corrupt reason).

(** [umfile_ctx_write] of a superblock sector. *)
Definition write_super_sector (r : RelFileLocator) (sector : list Z) : M W unit :=
  w ← get;
  f ← lift (fl_write (w_files w) r UMBRA_METADATA_FORKNUM MAP_BLOCK_SUPER sector);
  put (set_files f w).

Definition MapSuperLoadFromDisk (r : RelFileLocator) : M W MapSBlockReadStatus :=
  f ← gets w_files;
  if negb (fl_exists f r UMBRA_METADATA_FORKNUM) then mret MAP_SBLOCK_READ_MISSING
  else
    sector ← lift (fl_read f r UMBRA_METADATA_FORKNUM MAP_BLOCK_SUPER MAP_SUPERBLOCK_SIZE);
    let s := MapSuperblockUnpackSector sector in
    if negb (MapSuperblockHasValidIdentity s) || negb (MapSuperblockCheckCRC s)
    then mret MAP_SBLOCK_READ_CORRUPT
    else mret (MAP_SBLOCK_READ_OK s).

(** Fill an entry from what was read ([MISSING] never gets here). *)
Definition populate_entry (status : MapSBlockReadStatus) (e : MapSuperEntry)
    : result MapSuperEntry :=
  let e := match status with
           | MAP_SBLOCK_READ_OK s =>
               with_eflags MAPSUPER_FLAG_VALID
                 (with_lsn (MapSuperblockGetLastUpdatedLSN s) (with_super s e))
           | _ =>
               with_eflags (Z.lor MAPSUPER_FLAG_VALID MAPSUPER_FLAG_CORRUPT)
                 (with_lsn InvalidXLogRecPtr (with_super (MapSuperblockInit 0) e))
           end in
  e ← MapSuperResetReservedNextFrees e;
  Ok (MapSuperResetReclaimBoundaries e).

(** Ensure the entry exists and, when it is not valid yet, fill it. *)
Definition load_entry (r : RelFileLocator) (status : MapSBlockReadStatus)
    : M W (MapSuperEntry * bool) :=
  e ← ensure_entry r;
  if negb (has_flag (eflags e) MAPSUPER_FLAG_VALID) then
    e ← lift (populate_entry status e);
    put_entry r e;; mret (e, true)
  else mret (e, false).

Definition entry_status (e : MapSuperEntry) : MapSBlockReadStatus :=
  if has_flag (eflags e) MAPSUPER_FLAG_CORRUPT then MAP_SBLOCK_READ_CORRUPT
  else MAP_SBLOCK_READ_OK (super e).

(** The slow path of a read: fetch block 0 and install it. *)
Definition MapSBlockReadSlow (r : RelFileLocator) : M W MapSBlockReadStatus :=
  status ← MapSuperLoadFromDisk r;
  match status with
  | MAP_SBLOCK_READ_MISSING => mret MAP_SBLOCK_READ_MISSING
  | _ =>
      ef ← load_entry r status;
      match ef.2, status with
      | true, MAP_SBLOCK_READ_OK _ => mret (MAP_SBLOCK_READ_OK (super ef.1))
      | true, _ => mret MAP_SBLOCK_READ_CORRUPT
      | false, _ => mret (entry_status ef.1)
      end
  end.

Definition MapSBlockRead (r : RelFileLocator) : M W MapSBlockReadStatus :=
  oe ← find_entry r;
  match oe with
  | None => MapSBlockReadSlow r
  | Some e =>
      if negb (has_flag (eflags e) MAPSUPER_FLAG_VALID) then MapSBlockReadSlow r
      else mret (entry_status e)
  end.

(** [None] is the [false] return of the recovery path. *)
Definition MapSuperPrepareEntryForUpdate (r : RelFileLocator) (map_lsn : Z)
    (missing_errmsg : string) : M W (option MapSuperEntry) :=
  oe ← find_entry r;
  oe ← match oe with
       | Some e => mret (Some e)
       | None =>
           status ← MapSuperLoadFromDisk r;
           match status with
           | MAP_SBLOCK_READ_MISSING =>
               if InRecovery env then modify (add_missing r);; mret None
               else elog ERROR missing_errmsg
           | _ => ef ← load_entry r status; mret (Some ef.1)
           end
       end;
  match oe with
  | None => mret None
  | Some e =>
      if entry_untrusted e then
        if negb (InRecovery env) || bool_decide (map_lsn = InvalidXLogRecPtr)
        then MapSBlockReportCorrupt "invalid identity or CRC"
        else
          let e := with_eflags MAPSUPER_FLAG_VALID (with_super (MapSuperblockInit 0) e) in
          e ← lift (MapSuperResetReservedNextFrees e);
          let e := MapSuperResetReclaimBoundaries e in
          put_entry r e;; mret (Some e)
      else mret (Some e)
  end.

Definition update_lsn (map_lsn : Z) : Z :=
  if decide (map_lsn = InvalidXLogRecPtr)
  then if InRecovery env then ReplayRecPtr env else WriteRecPtr env
  else map_lsn.

Definition MapSBlockUpdateLogicalNblocks (r : RelFileLocator) (f : ForkNumber)
    (nblocks map_lsn : Z) (bump_only : bool) : M W unit :=
  if negb (MapForkHasMappedState f) then mret tt
  else
    oe ← MapSuperPrepareEntryForUpdate r map_lsn
           "MAP fork is missing while updating superblock";
    match oe with
    | None => mret tt
    | Some e =>
        current ← lift (MapSuperblockGetLogicalNblocks (super e) f);
        let current := MapNormalizeForkBlockCount f current in
        if negb bump_only || bool_decide (current < nblocks) then
          s ← lift (MapSuperblockSetLogicalNblocks (super e) f nblocks);
          put_entry r (mark_super_dirty (update_lsn map_lsn) (with_super s e))
        else mret tt
    end.

Definition MapSBlockSetPendingFlag (r : RelFileLocator) (pending : bool) (map_lsn : Z)
    : M W unit :=
  oe ← MapSuperPrepareEntryForUpdate r map_lsn
         "MAP fork is missing while updating superblock state";
  match oe with
  | None => mret tt
  | Some e =>
      let old := MapSuperblockGetFlags (super e) in
      let super_flags :=
        if pending then Z.lor old MAP_SUPERBLOCK_FLAG_SKIP_WAL_PENDING
        else Z.ldiff old MAP_SUPERBLOCK_FLAG_SKIP_WAL_PENDING in
      if bool_decide (super_flags ≠ old) then
        put_entry r (mark_super_dirty (update_lsn map_lsn)
                       (with_super (MapSuperblockSetFlags (super e) super_flags) e))
      else mret tt
  end.

(** The frontier part of the physical bump, on the locked entry. *)
Definition bump_next_free_entry (e : MapSuperEntry) (f : ForkNumber) (nblocks : Z)
    : result MapSuperEntry :=
  s ← MapSuperblockSetNextFreePhysBlock (super e) f nblocks;
  e ← MapSuperMaybeBumpReservedNextFree (with_super s e) f nblocks;
  if InRecovery env then MapSuperSetReclaimBoundary e f nblocks else Ok e.

Definition MapSBlockBumpPhysicalState (r : RelFileLocator) (f : ForkNumber)
    (nblocks : Z) (bump_next_free bump_capacity : bool) (map_lsn : Z) : M W unit :=
  if negb (MapForkHasMappedState f) then mret tt
  else
    oe ← MapSuperPrepareEntryForUpdate r map_lsn
           "MAP fork is missing while updating superblock";
    match oe with
    | None => mret tt
    | Some e =>
        current_next ← lift (MapSuperblockGetNextFreePhysBlock (super e) f);
        current_capacity ← lift (MapSuperblockGetPhysCapacity (super e) f);
        let current_next := MapNormalizeForkBlockCount f current_next in
        let current_capacity := MapNormalizeForkBlockCount f current_capacity in
        let do_next := bump_next_free && bool_decide (current_next < nblocks) in
        let do_cap := bump_capacity && bool_decide (current_capacity < nblocks) in
        e ← lift (if do_next then bump_next_free_entry e f nblocks else Ok e);
        s ← lift (if do_cap then MapSuperblockSetPhysCapacity (super e) f nblocks
                  else Ok (super e));
        let e := with_super s e in
        if do_next || do_cap then put_entry r (mark_super_dirty (update_lsn map_lsn) e)
        else mret tt
    end.

Definition MapSBlockEnsureLoaded (r : RelFileLocator) : M W bool :=
  f ← gets w_files;
  if negb (fl_exists f r UMBRA_METADATA_FORKNUM) then mret false
  else
    oe ← find_entry r;
    match oe with
    | Some _ => mret true
    | None =>
        status ← MapSuperLoadFromDisk r;
        match status with
        | MAP_SBLOCK_READ_MISSING => mret false
        | _ => load_entry r status;; mret true
        end
    end.

(** Materialise the blocks [blk .. blk + n) that do not exist yet. *)
Fixpoint materialize_blocks (r : RelFileLocator) (f : ForkNumber) (n : nat) (blk : Z)
    : M W unit :=
  match n with
  | O => mret tt
  | S n =>
      fs ← gets w_files;
      (if fl_block_exists fs r f blk then mret tt
       else
         w ← get;
         fs' ← lift (fl_zeroextend (w_files w) r f blk 1);
         put (set_files fs' w));;
      materialize_blocks r f n (blk + 1)
  end.

(** One iteration of the extension loop: the next [(current, desired)], or
    [None] when the capacity covers the target and the loop returns. *)
Definition extend_iteration (r : RelFileLocator) (f : ForkNumber) (extend_flag : Z)
    (current desired : Z) : M W (option (Z * Z)) :=
  materialize_blocks r f (Z.to_nat (desired - current)) current;;
  oe ← MapSuperPrepareEntryForUpdate r InvalidXLogRecPtr
         "MAP fork is missing while materializing physical blocks";
  match oe with
  | None => elog ERROR "MAP fork disappeared while materializing relation"
  | Some e =>
      current ← lift (MapSuperblockGetPhysCapacity (super e) f);
      let current := MapNormalizeForkBlockCount f current in
      e ← lift (if decide (current < desired) then
                  s ← MapSuperblockSetPhysCapacity (super e) f desired;
                  Ok (mark_super_dirty (update_lsn InvalidXLogRecPtr) (with_super s e))
                else Ok e);
      let current := if decide (current < desired) then desired else current in
      let desired := Z.max desired (MapSuperGetExtendingTarget e f) in
      if decide (desired ≤ current) then
        e ← lift (MapSuperSetExtendingTarget
                    (with_runtime (Z.ldiff (runtime_flags e) extend_flag) e)
                    f InvalidBlockNumber);
        put_entry r e;; mret None
      else
        e ← lift (MapSuperSetExtendingTarget e f desired);
        put_entry r e;; mret (Some (current, desired))
  end.

Fixpoint extend_loop (r : RelFileLocator) (f : ForkNumber) (extend_flag : Z)
    (fuel : nat) (current desired : Z) : M W (flow EnsureOutcome) :=
  match fuel with
  | O => elog ERROR "extension loop still running"
  | S fuel =>
      next ← extend_iteration r f extend_flag current desired;
      match next with
      | None => mret (ReturnValue (EnsureDone true))
      | Some cd => extend_loop r f extend_flag fuel cd.1 cd.2
      end
  end.

(** The handler of the extension: drop the claim and rethrow. *)
Definition extend_abort {A} (r : RelFileLocator) (f : ForkNumber) (extend_flag : Z)
    (err : pg_error) : M W A :=
  oe ← find_entry r;
  (match oe with
   | None => mret tt
   | Some e =>
       e ← lift (MapSuperSetExtendingTarget
                   (with_runtime (Z.ldiff (runtime_flags e) extend_flag) e)
                   f InvalidBlockNumber);
       put_entry r e
   end);;
  throw err.

(** The part before the PG_TRY block: [ClaimReturn] and [ClaimWait] leave the
    function or sleep and retry, [Claimed current] owns the extension flag. *)
Definition claim_extension (r : RelFileLocator) (f : ForkNumber) (nblocks : Z)
    : M W ExtendClaim :=
  let extend_flag := MapSuperExtendingFlag f in
  oe ← MapSuperPrepareEntryForUpdate r InvalidXLogRecPtr
         "MAP fork is missing while materializing physical blocks";
  match oe with
  | None => mret (ClaimReturn false)
  | Some e =>
      current ← lift (MapSuperblockGetPhysCapacity (super e) f);
      let current := MapNormalizeForkBlockCount f current in
      if decide (nblocks ≤ current) then mret (ClaimReturn true)
      else if has_flag (runtime_flags e) extend_flag then
        e ← lift (if decide (MapSuperGetExtendingTarget e f < nblocks)
                  then MapSuperSetExtendingTarget e f nblocks else Ok e);
        put_entry r e;; mret ClaimWait
      else
        e ← lift (MapSuperSetExtendingTarget
                    (with_runtime (Z.lor (runtime_flags e) extend_flag) e) f nblocks);
        put_entry r e;; mret (Claimed current)
  end.

Definition MapSBlockEnsurePhysicalNblocks (frame : Z) (fuel : nat) (r : RelFileLocator)
    (f : ForkNumber) (nblocks : Z) : M W EnsureOutcome :=
  if negb (MapForkHasMappedState f) then mret (EnsureDone false)
  else if decide (nblocks = 0) then mret (EnsureDone true)
  else
    loaded ← MapSBlockEnsureLoaded r;
    match loaded with
    | false => mret (EnsureDone false)
    | true =>
        let extend_flag := MapSuperExtendingFlag f in
        claim ← claim_extension r f nblocks;
        match claim with
        | ClaimReturn b => mret (EnsureDone b)
        | ClaimWait => mret EnsureWait
        | Claimed current =>
            pg_try frame
              (extend_loop r f extend_flag fuel current nblocks)
              (extend_abort r f extend_flag)
              (mret (EnsureDone false))
        end
    end.

Definition MapSBlockInit (r : RelFileLocator) (map_lsn : Z) : M W unit :=
  f ← gets w_files;
  if negb (fl_exists f r UMBRA_METADATA_FORKNUM)
  then elog ERROR "MAP fork is missing while initializing superblock"
  else
    e ← ensure_entry r;
    let lsn := if decide (map_lsn ≠ InvalidXLogRecPtr) then map_lsn else WriteRecPtr env in
    let e := with_lsn lsn (with_super (MapSuperblockInit 0) e) in
    let e := with_super (MapSuperblockSetLastUpdatedLSN (super e) (page_lsn e)) e in
    let e := with_eflags (Z.lor MAPSUPER_FLAG_VALID MAPSUPER_FLAG_DIRTY) e in
    e ← lift (MapSuperResetReservedNextFrees e);
    let e := MapSuperResetReclaimBoundaries e in
    put_entry r e;;
    when (negb (InRecovery env) && bool_decide (page_lsn e ≠ InvalidXLogRecPtr))
      (XLogFlush (page_lsn e));;
    write_super_sector r (MapSuperblockPackSector (MapSuperblockRefreshCRC (super e))).

(** The common shape of the [MapSBlockTryGet...] readers. *)
Definition read_super_field (r : RelFileLocator) (f : ForkNumber)
    (field : MapSuperblock → ForkNumber → result Z) : M W (option Z) :=
  if negb (MapForkHasMappedState f) then mret None
  else
    status ← MapSBlockRead r;
    match status with
    | MAP_SBLOCK_READ_MISSING => mret None
    | MAP_SBLOCK_READ_CORRUPT =>
        if negb (InRecovery env)
        then MapSBlockReportCorrupt "invalid identity/CRC or short file"
        else mret None
    | MAP_SBLOCK_READ_OK s =>
        if negb (MapSuperblockHasValidIdentity s) then mret None
        else
          v ← lift (field s f);
          mret (Some (MapNormalizeForkBlockCount f v))
    end.

Definition MapSBlockTryGetLogicalNblocks (r : RelFileLocator) (f : ForkNumber)
    : M W (option Z) := read_super_field r f MapSuperblockGetLogicalNblocks.
Definition MapSBlockTryGetPhysicalNblocks (r : RelFileLocator) (f : ForkNumber)
    : M W (option Z) := read_super_field r f MapSuperblockGetPhysCapacity.
Definition MapSBlockTryGetNextFreePhysBlock (r : RelFileLocator) (f : ForkNumber)
    : M W (option Z) := read_super_field r f MapSuperblockGetNextFreePhysBlock.

Definition MapSBlockForkExists (r : RelFileLocator) (f : ForkNumber) : M W bool :=
  if negb (MapForkHasMappedState f) then mret false
  else
    status ← MapSBlockRead r;
    match status with
    | MAP_SBLOCK_READ_OK s =>
        if negb (MapSuperblockHasValidIdentity s) then mret false
        else lift (MapSuperForkExists s f)
    | _ => mret false
    end.

Definition MapSBlockIsSkipWalPending (r : RelFileLocator) : M W bool :=
  status ← MapSBlockRead r;
  match status with
  | MAP_SBLOCK_READ_OK s =>
      if negb (MapSuperblockHasValidIdentity s) then mret false
      else mret (has_flag (MapSuperblockGetFlags s) MAP_SUPERBLOCK_FLAG_SKIP_WAL_PENDING)
  | _ => mret false
  end.

Definition MapSBlockTryGetReclaimBoundary (r : RelFileLocator) (f : ForkNumber)
    : M W (option Z) :=
  if negb (MapForkHasMappedState f) then mret None
  else
    loaded ← MapSBlockEnsureLoaded r;
    match loaded with
    | false => mret None
    | true =>
        oe ← find_entry r;
        match oe with
        | None => mret None
        | Some e =>
            if entry_untrusted e then
              if negb (InRecovery env) then MapSBlockReportCorrupt "invalid identity or CRC"
              else mret None
            else
              b ← lift (MapSuperGetReclaimBoundary e f);
              mret (Some (MapNormalizeForkBlockCount f b))
        end
    end.

Definition MapSBlockAdvanceReclaimBoundary (r : RelFileLocator) (f : ForkNumber)
    (boundary_pblk : Z) : M W unit :=
  if negb (MapForkHasMappedState f) then mret tt
  else if decide (boundary_pblk = InvalidBlockNumber) then mret tt
  else
    loaded ← MapSBlockEnsureLoaded r;
    match loaded with
    | false => mret tt
    | true =>
        oe ← find_entry r;
        match oe with
        | None => mret tt
        | Some e =>
            if negb (in_use e) || negb (has_flag (eflags e) MAPSUPER_FLAG_VALID)
               || entry_untrusted e
            then mret tt
            else
              b ← lift (MapSuperGetReclaimBoundary e f);
              n ← lift (MapSuperblockGetNextFreePhysBlock (super e) f);
              let current := MapNormalizeForkBlockCount f b in
              let next_free := MapNormalizeForkBlockCount f n in
              let boundary := if decide (boundary_pblk > next_free)
                              then next_free else boundary_pblk in
              if decide (boundary > current) then
                e ← lift (MapSuperSetReclaimBoundary e f boundary);
                put_entry r e
              else mret tt
        end
    end.

(** The critical section of [MapTryReserveFreshPblknoInternal] ([map.c]):
    take the next block of the reservation frontier.  [got_lock] is whether
    the conditional lock of the [nowait] path was obtained. *)
Definition reserve_frontier (r : RelFileLocator) (f : ForkNumber) (got_lock : bool)
    : M W (option Z) :=
  oe ← find_entry r;
  match oe, got_lock with
  | Some e, true =>
      if entry_untrusted e then
        if negb (InRecovery env) then MapSBlockReportCorrupt "invalid identity or CRC"
        else mret None
      else
        next ← lift (MapSuperGetReservedNextFree e f);
        if decide (next = InvalidBlockNumber - 1)
        then ereport ERROR ERRCODE_PROGRAM_LIMIT_EXCEEDED
               "cannot allocate more physical blocks"
        else
          e ← lift (MapSuperSetReservedNextFree e f (u32 (next + 1)));
          put_entry r e;; mret (Some next)
  | _, _ => mret None
  end.

(** ** Wrappers *)

Definition MapSBlockBumpLogicalNblocks r f nblocks map_lsn : M W unit :=
  MapSBlockUpdateLogicalNblocks r f nblocks map_lsn true.
Definition MapSBlockSetLogicalNblocks r f nblocks map_lsn : M W unit :=
  MapSBlockUpdateLogicalNblocks r f nblocks map_lsn false.
Definition MapSBlockBumpPhysicalNblocks r f nblocks map_lsn : M W unit :=
  MapSBlockBumpPhysicalState r f nblocks false true map_lsn.
Definition MapSBlockBumpNextFreePhysBlock r f next_free_pblk map_lsn : M W unit :=
  MapSBlockBumpPhysicalState r f next_free_pblk true false map_lsn.
Definition MapSBlockSetSkipWalPending r pending map_lsn : M W unit :=
  MapSBlockSetPendingFlag r pending map_lsn.

(** ** Writeback ([mapflush.c]) *)

(** WAL first, then the entry's own superblock is checksummed in place and
    its sector written; a failed write leaves the entry dirty. *)
Definition MapFlushWriteSuperblockEntry (r : RelFileLocator) (e : MapSuperEntry)
    : M W MapSuperEntry :=
  when (negb (InRecovery env) && bool_decide (page_lsn e ≠ InvalidXLogRecPtr))
    (XLogFlush (page_lsn e));;
  let s := MapSuperblockRefreshCRC
             (MapSuperblockSetLastUpdatedLSN (super e) (page_lsn e)) in
  put_entry r (with_super s e);;
  write_super_sector r (MapSuperblockPackSector s);;
  mret (with_super s e).

Definition MapFlushRelationSuperblocks (r : RelFileLocator) : M W Z :=
  oe ← find_entry r;
  match oe with
  | None => mret 0
  | Some e =>
      if negb (has_flag (eflags e) MAPSUPER_FLAG_DIRTY) then mret 0
      else if negb (MapSuperblockHasValidIdentity (super e))
      then MapSBlockReportCorrupt "invalid identity while flushing"
      else
        e ← MapFlushWriteSuperblockEntry r e;
        put_entry r (with_eflags (Z.ldiff (eflags e) MAPSUPER_FLAG_DIRTY) e);; mret 1
  end.

End ops.
