(* ===== verification/SBlockInv.v ===== *)
(** * Invariants of the superblock operations

    The allocator frontiers of every cached superblock stay ordered
    (reclaim boundary, committed frontier, reservation frontier), frontiers
    only move forward outside recovery, and no superblock reaches disk before
    the WAL it depends on.  The invariant is proved for each operation of
    [SBlock] on its normal and its error outcome, over any entry store and
    file layer that satisfy their interfaces, and then for every interleaving
    of operations. *)

From S2P Require Import Prelude MapLayout Crc32c Superblock SuperTable FileLayer SBlock.

Local Open Scope Z_scope.

(** ** Frontiers of an entry *)

Definition fork_next (s : MapSuperblock) (f : ForkNumber) : Z :=
  match MapSuperblockGetNextFreePhysBlock s f with
  | Ok v => MapNormalizeForkBlockCount f v
  | Err _ => 0
  end.

Definition fork_reserved (e : MapSuperEntry) (f : ForkNumber) : Z :=
  default 0 (pf_get (reserved_next_free e) f).

Definition fork_boundary (e : MapSuperEntry) (f : ForkNumber) : Z :=
  MapNormalizeForkBlockCount f (default 0 (pf_get (reclaim_boundary e) f)).

Definition frontier_ordered (e : MapSuperEntry) : Prop :=
  ∀ f, fork_mapped f →
    0 ≤ fork_boundary e f ≤ fork_next (super e) f ∧
    fork_next (super e) f ≤ fork_reserved e f ≤ MaxBlockNumber.

(** The LSN and the extension targets stay within their widths. *)
Definition regs_ok (e : MapSuperEntry) : Prop :=
  is_u64 (page_lsn e) ∧
  ∀ f, fork_mapped f → is_u32 (MapSuperGetExtendingTarget e f).

Definition entry_ok (r : RelFileLocator) (e : MapSuperEntry) : Prop :=
  key e = r ∧ in_use e = true ∧ super_wf (super e) ∧ regs_ok e ∧
  frontier_ordered e ∧
  (has_flag (eflags e) MAPSUPER_FLAG_VALID = false → e = fresh_entry r).

(** Neither the committed nor the reservation frontier moves back. *)
Definition grows (e e' : MapSuperEntry) : Prop :=
  ∀ f, fork_mapped f →
    fork_next (super e) f ≤ fork_next (super e') f ∧ fork_reserved e f ≤ fork_reserved e' f.

Lemma grows_refl e : grows e e.
Proof. intros f _. lia. Qed.

Lemma grows_trans e1 e2 e3 : grows e1 e2 → grows e2 e3 → grows e1 e3.
Proof. intros H1 H2 f Hf. specialize (H1 f Hf). specialize (H2 f Hf). lia. Qed.

#[export] Hint Resolve grows_refl grows_trans : umbra.

(** ** Field updates *)

Ltac super_wf_tac :=
  unfold super_wf, super_fields, super_widths; simpl; intros (Hf & Hrest);
  split; [|done];
  repeat match goal with H : Forall2 _ (_ :: _) (_ :: _) |- _ => inversion_clear H end;
  repeat (apply Forall2_cons; [unfold fits, is_u32, is_u64 in *; simpl in *; lia|]);
  apply Forall2_nil; done.

Lemma set_lsn_wf s l : is_u64 l → super_wf s → super_wf (set_lsn l s).
Proof. destruct s. intros Hl. super_wf_tac. Qed.

Lemma set_flags_wf s v : is_u32 v → super_wf s → super_wf (set_flags v s).
Proof. destruct s. intros Hl. super_wf_tac. Qed.

Lemma set_next_wf s f v s' :
  MapSuperblockSetNextFreePhysBlock s f v = Ok s' → is_u32 v → super_wf s → super_wf s'.
Proof. destruct s, f; simpl; intros [= <-] Hv; super_wf_tac. Qed.

Lemma set_capacity_wf s f v s' :
  MapSuperblockSetPhysCapacity s f v = Ok s' → is_u32 v → super_wf s → super_wf s'.
Proof. destruct s, f; simpl; intros [= <-] Hv; super_wf_tac. Qed.

Lemma set_logical_wf s f v s' :
  MapSuperblockSetLogicalNblocks s f v = Ok s' → is_u32 v → super_wf s → super_wf s'.
Proof. destruct s, f; simpl; intros [= <-] Hv; super_wf_tac. Qed.

Lemma set_next_next s f v s' f' :
  MapSuperblockSetNextFreePhysBlock s f v = Ok s' →
  fork_next s' f' =
    if decide (f' = f) then MapNormalizeForkBlockCount f v else fork_next s f'.
Proof. destruct s, f; simpl; intros [= <-]; destruct f'; done. Qed.

Lemma set_capacity_next s f v s' f' :
  MapSuperblockSetPhysCapacity s f v = Ok s' → fork_next s' f' = fork_next s f'.
Proof. destruct s, f; simpl; intros [= <-]; destruct f'; done. Qed.

Lemma set_logical_next s f v s' f' :
  MapSuperblockSetLogicalNblocks s f v = Ok s' → fork_next s' f' = fork_next s f'.
Proof. destruct s, f; simpl; intros [= <-]; destruct f'; done. Qed.

Lemma set_lsn_next s l f : fork_next (set_lsn l s) f = fork_next s f.
Proof. by destruct s. Qed.

Lemma set_flags_next s v f : fork_next (set_flags v s) f = fork_next s f.
Proof. by destruct s. Qed.

Lemma set_crc_next s c f : fork_next (set_crc c s) f = fork_next s f.
Proof. by destruct s. Qed.

Lemma set_lsn_get s l : last_updated_lsn (set_lsn l s) = l.
Proof. by destruct s. Qed.

Lemma set_crc_lsn s c : last_updated_lsn (set_crc c s) = last_updated_lsn s.
Proof. by destruct s. Qed.

#[export] Hint Resolve set_lsn_wf set_flags_wf refresh_crc_wf : umbra.
#[export] Hint Rewrite set_lsn_next set_flags_next set_crc_next : umbra.

Lemma normalize_u32 f v : is_u32 v → is_u32 (MapNormalizeForkBlockCount f v).
Proof. unfold MapNormalizeForkBlockCount. case_match; ulia. Qed.

Lemma normalize_small f v : v ≤ MaxBlockNumber → MapNormalizeForkBlockCount f v = v.
Proof.
  unfold MapNormalizeForkBlockCount, MaxBlockNumber, InvalidBlockNumber. intros Hv.
  rewrite bool_decide_eq_false_2 by lia. by rewrite andb_false_r.
Qed.

Lemma normalize_idem f v :
  MapNormalizeForkBlockCount f (MapNormalizeForkBlockCount f v) =
  MapNormalizeForkBlockCount f v.
Proof.
  unfold MapNormalizeForkBlockCount at 2 3. case_match; [|].
  - by apply normalize_small.
  - unfold MapNormalizeForkBlockCount. by rewrite H.
Qed.

Lemma fork_next_range s f : super_wf s → is_u32 (fork_next s f).
Proof.
  intros (Hf & _). unfold super_fields, super_widths in Hf. simpl in Hf.
  repeat match goal with H : Forall2 _ (_ :: _) (_ :: _) |- _ => inversion_clear H end.
  unfold fits in *. simpl in *.
  destruct f; unfold fork_next; simpl; try apply normalize_u32; unfold is_u32; lia.
Qed.

(** ** Flags *)

Lemma valid_bit v : has_flag v MAPSUPER_FLAG_VALID = Z.testbit v 0.
Proof. by apply (has_flag_bit v 0). Qed.

Lemma dirty_bit v : has_flag v MAPSUPER_FLAG_DIRTY = Z.testbit v 1.
Proof. by apply (has_flag_bit v 1). Qed.

Lemma corrupt_bit v : has_flag v MAPSUPER_FLAG_CORRUPT = Z.testbit v 2.
Proof. by apply (has_flag_bit v 2). Qed.

#[export] Hint Rewrite valid_bit dirty_bit corrupt_bit : umbra.
Lemma valid_lor_dirty v :
  has_flag (Z.lor v MAPSUPER_FLAG_DIRTY) MAPSUPER_FLAG_VALID = has_flag v MAPSUPER_FLAG_VALID.
Proof. by rewrite !valid_bit, Z.lor_spec, orb_false_r. Qed.

Lemma valid_ldiff_dirty v :
  has_flag (Z.ldiff v MAPSUPER_FLAG_DIRTY) MAPSUPER_FLAG_VALID = has_flag v MAPSUPER_FLAG_VALID.
Proof. by rewrite !valid_bit, Z.ldiff_spec, andb_true_r. Qed.

(** ** Entries *)

Lemma regs_ok_lsn e e' :
  regs_ok e → is_u64 (page_lsn e') → extending_target e' = extending_target e → regs_ok e'.
Proof.
  intros [_ Ht] Hl He. split; [done|]. intros f Hf.
  unfold MapSuperGetExtendingTarget. rewrite He. by apply Ht.
Qed.

Lemma regs_ok_same e e' :
  regs_ok e → page_lsn e' = page_lsn e → extending_target e' = extending_target e → regs_ok e'.
Proof. intros Hr Hl. apply regs_ok_lsn; [done|]. rewrite Hl. apply Hr. Qed.

#[local] Hint Resolve regs_ok_same : umbra.

Lemma fresh_entry_ok r : entry_ok r (fresh_entry r).
Proof.
  split_and!; try done.
  - apply (bool_decide_unpack _). by vm_compute.
  - split; [done|]. intros f [->|[->| ->]]; done.
  - intros f Hf. destruct f; done.
Qed.

(** An update that leaves the runtime frontiers of the entry alone. *)
Lemma entry_ok_same_frontier r e e' :
  entry_ok r e → key e' = key e → in_use e' = in_use e →
  super_wf (super e') → regs_ok e' →
  (∀ f, fork_next (super e') f = fork_next (super e) f) →
  reserved_next_free e' = reserved_next_free e →
  reclaim_boundary e' = reclaim_boundary e →
  (has_flag (eflags e') MAPSUPER_FLAG_VALID = true) →
  entry_ok r e' ∧ grows e e'.
Proof.
  intros (Hk & Hu & _ & _ & Hfr & _) Hk' Hu' Hwf Hl Hn Hr Hb Hv.
  split; [split_and!; try congruence|].
  - intros f Hf. unfold fork_reserved, fork_boundary. rewrite Hr, Hb, Hn. by apply Hfr.
  - intros f Hf. unfold fork_reserved. rewrite Hn, Hr. lia.
Qed.

Lemma reset_spec e e' :
  super_wf (super e) → next_free_phys_block_main (super e) ≤ MaxBlockNumber →
  MapSuperResetReservedNextFrees e = Ok e' →
  let e2 := MapSuperResetReclaimBoundaries e' in
  frontier_ordered e2 ∧ super e2 = super e ∧ key e2 = key e ∧ in_use e2 = in_use e ∧
  page_lsn e2 = page_lsn e ∧ eflags e2 = eflags e ∧ runtime_flags e2 = runtime_flags e ∧
  extending_target e2 = extending_target e ∧
  ∀ f, fork_mapped f → fork_reserved e2 f = fork_next (super e) f.
Proof.
  intros Hwf Hmax Hreset. injection Hreset as <-. simpl.
  assert (∀ f, fork_mapped f → 0 ≤ fork_next (super e) f ≤ MaxBlockNumber) as Hr.
  { intros f Hf. pose proof (fork_next_range (super e) f Hwf) as Hr.
    unfold fork_next, MapNormalizeForkBlockCount, MaxBlockNumber, InvalidBlockNumber in *.
    destruct f; try done; simpl in *; try lia;
      repeat case_bool_decide; unfold is_u32 in Hr; simpl in *; lia. }
  split_and!; try done.
  - intros f Hf. specialize (Hr f Hf).
    unfold fork_boundary, fork_reserved. destruct f; try done; simpl;
      unfold fork_next in *; simpl in *; rewrite ?normalize_idem; lia.
  - intros f Hf. unfold fork_reserved, fork_next. destruct f; try done; simpl;
      by rewrite ?normalize_idem.
Qed.

Section inv.
Context {T F : Type} `{SuperStoreLaws T} `{FileLayerLaws F} (env : Env).
Context (exempt : RelFileLocator → Prop).
Local Abbreviation W := (World T F).

(** The superblock a restart would read for a relation. *)
Definition disk_super (f : F) (r : RelFileLocator) : option MapSuperblock :=
  match fl_content f r UMBRA_METADATA_FORKNUM MAP_BLOCK_SUPER with
  | Some d =>
      let s := MapSuperblockUnpackSector (take MAP_SUPERBLOCK_SIZE d) in
      if MapSuperblockIsValid s then Some s else None
  | None => None
  end.

(** What is on disk is usable and, outside recovery, covered by flushed WAL. *)
Definition disk_ok (w : W) : Prop :=
  ∀ r s, disk_super (w_files w) r = Some s →
    next_free_phys_block_main s ≤ MaxBlockNumber ∧
    (InRecovery env = false → last_updated_lsn s ≤ w_flushed w).

Definition world_inv (w : W) : Prop :=
  ss_wf (w_store w) ∧ (∀ r e, ss_map (w_store w) !! r = Some e → entry_ok r e) ∧
  0 ≤ w_flushed w ∧ disk_ok w.

Definition has (r : RelFileLocator) (e : MapSuperEntry) (w : W) : Prop :=
  ss_map (w_store w) !! r = Some e.

(** Outside recovery no entry disappears and every frontier grows, except for
    the relations that are being created or dropped. *)
Definition advances (w w' : W) : Prop :=
  InRecovery env = false → ∀ r e, ¬ exempt r → has r e w →
  ∃ e', has r e' w' ∧ grows e e'.

Lemma advances_refl w : advances w w.
Proof. intros _ r e _ He. eauto with umbra. Qed.

Lemma advances_trans w1 w2 w3 : advances w1 w2 → advances w2 w3 → advances w1 w3.
Proof.
  intros H1' H2' Hr r e Hx He. destruct (H1' Hr r e Hx He) as (e2 & He2 & G1).
  destruct (H2' Hr r e2 Hx He2) as (e3 & He3 & G2). eauto with umbra.
Qed.

(** [m] keeps the invariant on both outcomes, and ends in [Q]. *)
Definition triple {A} (P : W → Prop) (m : M W A) (Q : A → W → Prop) : Prop :=
  ∀ w, world_inv w → P w →
    wp m (λ a w', world_inv w' ∧ advances w w' ∧ Q a w')
         (λ _ w', world_inv w' ∧ advances w w') w.

Lemma triple_ret {A} (P : W → Prop) (a : A) Q :
  (∀ w, P w → Q a w) → triple P (mret a) Q.
Proof. intros HQ w Hi HP. split_and!; eauto using advances_refl. Qed.

Lemma triple_bind {A B} P (m : M W A) R (k : A → M W B) Q :
  triple P m R → (∀ a, triple (R a) (k a) Q) → triple P (m ≫= k) Q.
Proof.
  intros Hm Hk w Hi HP. apply wp_bind.
  eapply wp_mono; [by apply (Hm w)| |naive_solver].
  intros a w' (Hi' & Ha & HR). eapply wp_mono; [by apply (Hk a w')| |]; simpl;
    intros; intuition eauto using advances_trans.
Qed.

Lemma triple_mono {A} (P P' : W → Prop) (m : M W A) (Q Q' : A → W → Prop) :
  triple P m Q → (∀ w, P' w → P w) → (∀ a w, Q a w → Q' a w) → triple P' m Q'.
Proof.
  intros Hm HP HQ w Hi HP'. eapply wp_mono; [by apply (Hm w); auto| |naive_solver].
  naive_solver.
Qed.

Lemma triple_throw {A} (P : W → Prop) e (Q : A → W → Prop) : triple P (throw e) Q.
Proof. intros w Hi HP. split; auto using advances_refl. Qed.

Lemma triple_lift {A B} (P : W → Prop) (x : result A) (k : A → M W B) Q :
  (∀ a, x = Ok a → triple P (k a) Q) → triple P (lift x ≫= k) Q.
Proof.
  intros Hk. destruct x as [a|e]; [by apply (Hk a)|].
  intros w Hi HP. split; auto using advances_refl.
Qed.

Lemma triple_gets {A B} (P : W → Prop) (g : W → A) (k : A → M W B) Q :
  (∀ a, triple (λ w, P w ∧ g w = a) (k a) Q) → triple P (gets g ≫= k) Q.
Proof. intros Hk w Hi HP. by apply (Hk (g w)). Qed.

Lemma triple_pure {A} (φ : Prop) (P : W → Prop) (m : M W A) Q :
  (φ → triple P m Q) → triple (λ w, φ ∧ P w) m Q.
Proof. intros Hm w Hi [Hφ HP]. by apply Hm. Qed.

Lemma triple_has_ok {A} (P : W → Prop) r e (m : M W A) Q :
  (∀ w, P w → has r e w) → (entry_ok r e → triple P m Q) → triple P m Q.
Proof.
  intros HP Hm w Hi Hw. apply Hm; [|done|done]. destruct Hi as (_ & Hok & _).
  eapply Hok. by apply HP.
Qed.

(** ** Primitive operations *)

Lemma triple_find {A} P r (k : option MapSuperEntry → M W A) Q :
  triple P (k None) Q → (∀ e, triple (λ w, P w ∧ has r e w) (k (Some e)) Q) →
  triple P (find_entry r ≫= k) Q.
Proof.
  intros Hn Hs w Hi HP. apply wp_bind, wp_gets.
  rewrite ss_find_spec by apply Hi.
  destruct (ss_map (w_store w) !! r) as [e|] eqn:He; [by apply Hs | by apply Hn].
Qed.

Lemma triple_put r e e' :
  entry_ok r e' → (InRecovery env = false → ¬ exempt r → grows e e') →
  triple (has r e) (put_entry r e') (λ _, has r e').
Proof.
  intros Hok Hg w (Hwf & Hes & Hd) He. apply wp_modify.
  destruct (ss_put_spec (w_store w) r e e') as [Hwf' Hm]; try done; [apply Hok..|].
  unfold world_inv, has, advances. simpl. rewrite Hm.
  split_and!; [done| |apply Hd..| |by rewrite lookup_insert_eq].
  - intros r' x [[<- <-]|[_ Hx]]%lookup_insert_Some; eauto.
  - intros Hr r' x Hex Hx. unfold has. simpl. rewrite Hm.
    destruct (decide (r = r')) as [<-|Hne].
    + rewrite lookup_insert_eq. unfold has in *. exists e'. by simplify_eq; auto.
    + rewrite lookup_insert_ne by done. eauto using grows_refl.
Qed.

Lemma triple_ensure r : triple (λ _, True) (ensure_entry r) (λ e w, has r e w).
Proof.
  intros w (Hwf & Hes & Hd) _. unfold wp, ensure_entry, get, mbind, M_bind, lift, put.
  destruct (ss_ensure (w_store w) r) as [t|err] eqn:Ht.
  2:{ split; [done|apply advances_refl]. }
  destruct (ss_map (w_store w) !! r) as [e|] eqn:He.
  - rewrite (ss_ensure_present _ _ e) in Ht by done. injection Ht as <-.
    rewrite ss_find_spec, He by done. destruct w as [st fs mi fl ex]. simpl in *.
    split_and!; try done. apply advances_refl.
  - destruct (ss_ensure_absent _ _ _ Hwf He Ht) as [Hwf' Hm].
    rewrite ss_find_spec, Hm, lookup_insert_eq by done.
    unfold world_inv, has. simpl. rewrite Hm. split_and!; [done| |apply Hd..| |by rewrite lookup_insert_eq].
    + intros r' x [[<- <-]|[_ Hx]]%lookup_insert_Some; eauto using fresh_entry_ok.
    + intros _ r' x _ Hx. exists x. unfold has in *. simpl. rewrite Hm.
      rewrite lookup_insert_ne by congruence. auto using grows_refl.
Qed.

(** A file operation leaves the store alone and only puts acceptable
    superblocks on disk; it changes nothing when it fails. *)
Definition file_step (m : M W unit) (w : W) : Prop :=
  match m w with
  | (Ok _, w') => w_store w' = w_store w ∧ w_flushed w ≤ w_flushed w' ∧
      ∀ r s, disk_super (w_files w') r = Some s → disk_super (w_files w) r = Some s ∨
        (next_free_phys_block_main s ≤ MaxBlockNumber ∧
         (InRecovery env = false → last_updated_lsn s ≤ w_flushed w'))
  | (Err _, w') => w' = w
  end.

Lemma triple_files (P Q : W → Prop) (m : M W unit) :
  (∀ w, P w → file_step m w) →
  (∀ w w', w_store w' = w_store w → P w → w_flushed w ≤ w_flushed w' → Q w') →
  triple P m (λ _, Q).
Proof.
  intros Hm HQ w Hi HP. specialize (Hm w HP). unfold wp, file_step in *.
  destruct (m w) as [[[]|err] w'].
  - destruct Hm as (Hst & Hfl & Hdisk). destruct Hi as (Hwf & Hes & H0' & Hd).
    unfold world_inv. rewrite Hst. split_and!; [done|done|lia| | |by eapply HQ].
    + intros r' s Hs. destruct (Hdisk r' s Hs) as [Hold|Hnew]; [|done].
      destruct (Hd r' s Hold) as [? Hl]. split; [done|]. intros Hr. specialize (Hl Hr). lia.
    + intros _ r' x _ Hx. exists x. unfold has. rewrite Hst. auto using grows_refl.
  - subst. split; [done|apply advances_refl].
Qed.

Lemma disk_super_wf f r s : disk_super f r = Some s → super_wf s.
Proof.
  unfold disk_super. destruct (fl_content _ _ _ _) as [d|] eqn:Hc; [|done].
  destruct (fl_content_wf _ _ _ _ _ Hc) as [Hl Hb].
  case_match; [|done]. intros [= <-]. apply unpack_sector_wf; [by apply Forall_take|].
  rewrite length_take, Hl. done.
Qed.

Lemma disk_super_next f r s f' :
  disk_super f r = Some s → next_free_phys_block_main s ≤ MaxBlockNumber →
  fork_mapped f' → 0 ≤ fork_next s f' ≤ MaxBlockNumber.
Proof.
  intros Hs%disk_super_wf Hmax Hf. pose proof (fork_next_range s f' Hs).
  unfold fork_next, MapNormalizeForkBlockCount, MaxBlockNumber, InvalidBlockNumber in *.
  destruct f'; try done; simpl in *; repeat case_bool_decide;
    unfold is_u32 in *; simpl in *; lia.
Qed.

Definition status_ok (st : MapSBlockReadStatus) : Prop :=
  match st with
  | MAP_SBLOCK_READ_OK s => super_wf s ∧ next_free_phys_block_main s ≤ MaxBlockNumber
  | _ => True
  end.

Lemma triple_load_disk P r :
  triple P (MapSuperLoadFromDisk r) (λ st w, P w ∧ status_ok st).
Proof.
  intros w Hi HP. unfold MapSuperLoadFromDisk. apply wp_bind, wp_gets.
  destruct (fl_exists _ _ _); simpl; [|by split_and!; try apply advances_refl].
  unfold wp, mbind, M_bind, lift.
  destruct (fl_read _ _ _ _ _) as [d|] eqn:Hrd; [|split; auto using advances_refl].
  apply fl_read_spec in Hrd as (d0 & Hc & ->); [|by split; apply Nat.leb_le].
  destruct (_ || _) eqn:Hv; (split; [done|split; [apply advances_refl|split; [done|]]]); [done|].
  apply orb_false_iff in Hv as [Hid Hcrc]. apply negb_false_iff in Hid, Hcrc.
  assert (disk_super (w_files w) r = Some (MapSuperblockUnpackSector (take 512 d0))) as Hs.
  { unfold disk_super. rewrite Hc. unfold MapSuperblockIsValid. cbv zeta.
    change MAP_SUPERBLOCK_SIZE with 512%nat in *. by rewrite Hid, Hcrc. }
  split; [by eapply disk_super_wf|]. by eapply Hi.
Qed.

(** ** Loading *)

Lemma populate_ok r st e e' :
  entry_ok r e → has_flag (eflags e) MAPSUPER_FLAG_VALID = false → status_ok st →
  populate_entry st e = Ok e' →
  entry_ok r e' ∧ grows e e' ∧ has_flag (eflags e') MAPSUPER_FLAG_VALID = true.
Proof.
  intros (Hk & Hu & _ & _ & _ & Hfresh) Hv Hst Hp. specialize (Hfresh Hv). subst e.
  unfold populate_entry in Hp.
  set (s := match st with MAP_SBLOCK_READ_OK s => s | _ => MapSuperblockInit 0 end).
  set (e0 := match st with MAP_SBLOCK_READ_OK _ => _ | _ => _ end) in Hp.
  assert (super_wf s ∧ next_free_phys_block_main s ≤ MaxBlockNumber) as [Hwf Hmax].
  { destruct st; try done; (split; [|done]); apply (bool_decide_unpack _); by vm_compute. }
  assert (super e0 = s ∧ key e0 = r ∧ in_use e0 = true ∧ regs_ok e0 ∧
          has_flag (eflags e0) MAPSUPER_FLAG_VALID = true) as (Hs & Hk0 & Hu0 & Hl0 & Hv0).
  { destruct st; split_and!; try done;
      apply (regs_ok_lsn (fresh_entry r)); try done; try apply fresh_entry_ok. simpl.
    destruct Hwf as (Hf & _). unfold super_fields, super_widths in Hf. simpl in Hf.
    repeat match goal with H : Forall2 _ (_ :: _) (_ :: _) |- _ => inversion_clear H end.
    done. }
  rewrite <-Hs in Hwf, Hmax. unfold mbind, result_bind in Hp.
  destruct (MapSuperResetReservedNextFrees e0) as [e1|] eqn:He1; [|done].
  injection Hp as <-.
  destruct (reset_spec _ _ Hwf Hmax He1) as (Hfr & Hs2 & Hk2 & Hu2 & Hl2 & Hv2 & _ & Ht2 & Hr2).
  assert (has_flag (eflags (MapSuperResetReclaimBoundaries e1)) MAPSUPER_FLAG_VALID = true)
    as Hv3 by (by rewrite Hv2).
  split_and!; [|intros f Hf|done].
  - unfold entry_ok. rewrite Hk2, Hu2, Hs2. split_and!; try done; [|congruence].
    by apply (regs_ok_same e0).
  - rewrite Hr2, Hs2 by done. specialize (Hfr f Hf). rewrite Hs2 in Hfr.
    assert (fork_next (super (fresh_entry r)) f = 0 ∧ fork_reserved (fresh_entry r) f = 0)
      as [-> ->] by (by destruct f). lia.
Qed.

Lemma triple_load_entry r st :
  status_ok st →
  triple (λ _, True) (load_entry r st)
    (λ ef w, has r ef.1 w ∧ has_flag (eflags ef.1) MAPSUPER_FLAG_VALID = true).
Proof.
  intros Hst. eapply triple_bind; [apply triple_ensure|]. intros e. simpl.
  apply (triple_has_ok _ r e); [done|]. intros Hok.
  destruct (has_flag (eflags e) MAPSUPER_FLAG_VALID) eqn:Hv; simpl.
  { by apply triple_ret. }
  apply triple_lift. intros e' He'.
  destruct (populate_ok r st e e') as (Hok' & Hg & Hv'); [done..|].
  eapply triple_bind; [by apply triple_put|]. intros []. by apply triple_ret.
Qed.

Lemma triple_true {A} (P : W → Prop) (m : M W A) Q :
  triple (λ _, True) m Q → triple P m Q.
Proof. intros Hm. eapply triple_mono; [done|done|done]. Qed.

Lemma triple_load {A} P r (k : MapSBlockReadStatus → M W A) Q :
  (∀ st, status_ok st → triple P (k st) Q) → triple P (MapSuperLoadFromDisk r ≫= k) Q.
Proof.
  intros Hk. eapply triple_bind; [apply (triple_load_disk P)|].
  intros st w Hi [HP Hst]. by apply Hk.
Qed.

Lemma triple_read_slow r : triple (λ _, True) (MapSBlockReadSlow r) (λ _ _, True).
Proof.
  apply triple_load. intros st Hst.
  destruct st; [|by apply triple_ret|];
    (eapply triple_bind; [by apply triple_load_entry|]; intros [e []]; by apply triple_ret).
Qed.

Lemma triple_read r : triple (λ _, True) (MapSBlockRead r) (λ _ _, True).
Proof.
  apply triple_find; [apply triple_read_slow|]. intros e. apply triple_true.
  destruct (has_flag _ _); simpl; [by apply triple_ret | apply triple_read_slow].
Qed.

Lemma triple_ensure_loaded r : triple (λ _, True) (MapSBlockEnsureLoaded r) (λ _ _, True).
Proof.
  apply triple_gets. intros f. destruct (fl_exists _ _ _); simpl; [|by apply triple_ret].
  apply triple_true, triple_find; [|by intros; apply triple_ret].
  apply triple_load. intros st Hst.
  destruct st; [|by apply triple_ret|];
    (eapply triple_bind; [by apply triple_load_entry|]; intros; by apply triple_ret).
Qed.

Lemma trusted_valid r e :
  entry_ok r e → entry_untrusted e = false → has_flag (eflags e) MAPSUPER_FLAG_VALID = true.
Proof.
  intros (_ & _ & _ & _ & _ & Hf) Hu.
  destruct (has_flag _ MAPSUPER_FLAG_VALID) eqn:Hv; [done|]. by rewrite Hf in Hu.
Qed.

Lemma triple_add_missing (P : W → Prop) r :
  (∀ w, P w → P (add_missing r w)) → triple P (modify (add_missing r)) (λ _, P).
Proof. intros HP w Hi Hw. split_and!; [apply Hi..| |by apply HP]. exact (advances_refl w). Qed.

(** The recovery repair of an untrusted entry. *)
Lemma repair_ok r e e' :
  entry_ok r e →
  MapSuperResetReservedNextFrees
    (with_eflags MAPSUPER_FLAG_VALID (with_super (MapSuperblockInit 0) e)) = Ok e' →
  entry_ok r (MapSuperResetReclaimBoundaries e') ∧
  has_flag (eflags (MapSuperResetReclaimBoundaries e')) MAPSUPER_FLAG_VALID = true.
Proof.
  intros (Hk & Hu & _ & Hl & _) He'.
  assert (super_wf (MapSuperblockInit 0)) as Hwf
    by (apply (bool_decide_unpack _); by vm_compute).
  destruct (reset_spec (with_eflags MAPSUPER_FLAG_VALID (with_super (MapSuperblockInit 0) e))
              e' Hwf) as
    (Hfr & Hs2 & Hk2 & Hu2 & Hl2 & Hv2 & _ & Ht2 & _); [done|done|].
  split; [|by rewrite Hv2].
  unfold entry_ok. rewrite Hk2, Hu2, Hs2, Hv2. split_and!; try done.
  by apply (regs_ok_same e).
Qed.

Definition prepared (r : RelFileLocator) (oe : option MapSuperEntry) (w : W) : Prop :=
  match oe with
  | Some e => has r e w ∧ has_flag (eflags e) MAPSUPER_FLAG_VALID = true
  | None => True
  end.

Lemma triple_prepare r lsn msg :
  triple (λ _, True) (MapSuperPrepareEntryForUpdate env r lsn msg)
    (prepared r).
Proof.
  unfold MapSuperPrepareEntryForUpdate.
  eapply (triple_bind _ _ (λ oe w, oe = ss_map (w_store w) !! r)).
  { intros w Hi _. apply wp_gets. split_and!; [done|apply advances_refl|].
    apply ss_find_spec, Hi. }
  intros oe. apply (triple_bind _ _ (λ oe w, ∀ e, oe = Some e → has r e w)).
  - destruct oe as [e|]; [apply triple_ret; unfold has; naive_solver|].
    apply triple_true, triple_load. intros st Hst.
    destruct st; [|destruct (InRecovery env); [|apply triple_throw]|].
    2:{ eapply triple_bind; [by apply (triple_add_missing (λ _, True))|].
        intros. by apply triple_ret. }
    all: eapply triple_bind; [by apply triple_load_entry|]; intros ef;
      apply triple_ret; naive_solver.
  - clear oe. intros [e|]; [|by apply triple_ret].
    apply (triple_has_ok _ r e); [auto|]. intros Hok.
    destruct (entry_untrusted e) eqn:Hu.
    2:{ apply triple_ret. intros w Hw. split; eauto using trusted_valid. }
    destruct (negb (InRecovery env) || _) eqn:Hrec; [apply triple_throw|].
    apply triple_lift. intros e' He'. destruct (repair_ok r e e' Hok He') as [Hok' Hv'].
    eapply triple_bind.
    + eapply triple_mono; [apply (triple_put r e); [done|] | naive_solver | done].
      intros Hr. by rewrite Hr in Hrec.
    + intros []. by apply triple_ret.
Qed.

(** ** Updates *)

Definition env_ok : Prop := is_u64 (ReplayRecPtr env) ∧ is_u64 (WriteRecPtr env).

Context (Henv : env_ok).

Lemma update_lsn_u64 l : is_u64 l → is_u64 (update_lsn env l).
Proof. unfold update_lsn. destruct Henv. repeat case_match; done. Qed.

Lemma dirty_ok r e s l :
  entry_ok r e → has_flag (eflags e) MAPSUPER_FLAG_VALID = true →
  super_wf s → is_u64 l → (∀ f, fork_next s f = fork_next (super e) f) →
  entry_ok r (mark_super_dirty l (with_super s e)) ∧
  grows e (mark_super_dirty l (with_super s e)).
Proof.
  intros Hok Hv Hwf Hl Hn. apply entry_ok_same_frontier; try done; simpl.
  - by apply set_lsn_wf.
  - apply (regs_ok_lsn e); [apply Hok|done|done].
  - intros f. rewrite <-Hn. apply set_lsn_next.
  - by rewrite valid_lor_dirty.
Qed.

Lemma triple_update_logical r f n lsn bump :
  is_u32 n → is_u64 lsn →
  triple (λ _, True) (MapSBlockUpdateLogicalNblocks env r f n lsn bump) (λ _ _, True).
Proof.
  intros Hn Hl. unfold MapSBlockUpdateLogicalNblocks.
  destruct (MapForkHasMappedState f); simpl; [|by apply triple_ret].
  eapply triple_bind; [apply triple_prepare|]. intros [e|]; [|by apply triple_ret].
  apply (triple_has_ok _ r e); [by intros w []|]. intros Hok.
  apply triple_lift. intros cur _. case_match; [|by apply triple_ret].
  apply triple_lift. intros s Hs w Hi [He Hv].
  destruct (dirty_ok r e s (update_lsn env lsn)) as [Hok' Hg]; eauto using update_lsn_u64.
  { eapply set_logical_wf; [done|done|apply Hok]. }
  { intros f'. by eapply set_logical_next. }
  eapply (triple_mono _ _ _ _ _ (triple_put r e _ Hok' (λ _ _, Hg))); eauto.
Qed.

Lemma pending_flag_u32 old (pending : bool) :
  is_u32 old →
  is_u32 (if pending then Z.lor old MAP_SUPERBLOCK_FLAG_SKIP_WAL_PENDING
          else Z.ldiff old MAP_SUPERBLOCK_FLAG_SKIP_WAL_PENDING).
Proof. destruct pending; [intros; by apply lor_u32_range | apply ldiff_u32_range]. Qed.

Lemma super_flags_u32 s : super_wf s → is_u32 (flags s).
Proof.
  intros (Hf & _). unfold super_fields, super_widths in Hf. simpl in Hf.
  repeat match goal with H : Forall2 _ (_ :: _) (_ :: _) |- _ => inversion_clear H end. done.
Qed.

Lemma triple_set_pending r pending lsn :
  is_u64 lsn →
  triple (λ _, True) (MapSBlockSetPendingFlag env r pending lsn) (λ _ _, True).
Proof.
  intros Hl. eapply triple_bind; [apply triple_prepare|].
  intros [e|]; [|by apply triple_ret].
  apply (triple_has_ok _ r e); [by intros w []|]. intros Hok.
  simpl. case_bool_decide; [|by apply triple_ret]. intros w Hi [He Hv].
  destruct (dirty_ok r e (MapSuperblockSetFlags (super e)
     (if pending then Z.lor (flags (super e)) MAP_SUPERBLOCK_FLAG_SKIP_WAL_PENDING
      else Z.ldiff (flags (super e)) MAP_SUPERBLOCK_FLAG_SKIP_WAL_PENDING))
     (update_lsn env lsn)) as [Hok' Hg]; eauto using update_lsn_u64.
  { apply set_flags_wf; [|apply Hok]. apply pending_flag_u32, super_flags_u32, Hok. }
  { intros f. apply set_flags_next. }
  eapply (triple_mono _ _ _ _ _ (triple_put r e _ Hok' (λ _ _, Hg))); eauto.
Qed.

Lemma mapped_state_mapped f : MapForkHasMappedState f = true → fork_mapped f.
Proof. unfold fork_mapped. destruct f; simpl; auto; discriminate. Qed.

(** What moving the committed frontier of [f] to [n] changes. *)
Lemma bump_next_spec e f n e' :
  fork_mapped f → 0 ≤ n ≤ MaxBlockNumber → bump_next_free_entry env e f n = Ok e' →
  MapSuperblockSetNextFreePhysBlock (super e) f n = Ok (super e') ∧
  key e' = key e ∧ in_use e' = in_use e ∧ page_lsn e' = page_lsn e ∧ eflags e' = eflags e ∧
  runtime_flags e' = runtime_flags e ∧ extending_target e' = extending_target e ∧
  ∀ f', fork_mapped f' →
    fork_reserved e' f' =
      (if decide (f' = f) then Z.max n (fork_reserved e f') else fork_reserved e f') ∧
    fork_boundary e' f' =
      (if decide (f' = f ∧ InRecovery env = true) then n else fork_boundary e f').
Proof.
  intros Hf Hn Hb. unfold bump_next_free_entry, mbind, result_bind in Hb.
  destruct (MapSuperblockSetNextFreePhysBlock (super e) f n) as [s|] eqn:Hs; [|done].
  unfold MapSuperMaybeBumpReservedNextFree, MapSuperSetReservedNextFree,
    MapSuperSetReclaimBoundary in Hb.
  rewrite !(normalize_small f n) in Hb by lia.
  destruct e as [k s0 l fl rf [rm rs rv] tg [bm bs bv] nf iu].
  unfold fork_reserved, fork_boundary.
  destruct Hf as [->|[->| ->]]; simpl in Hb; unfold mbind, result_bind in Hb;
    case_decide; simpl in Hb; destruct (InRecovery env); simplify_eq/=;
    (split_and!; [done..|]); intros f' [->|[->| ->]]; simpl; split; try done; try lia;
    by apply normalize_small; lia.
Qed.

Lemma bump_next_ok r e f n e' :
  entry_ok r e → has_flag (eflags e) MAPSUPER_FLAG_VALID = true → fork_mapped f →
  fork_next (super e) f < n → 0 ≤ n ≤ MaxBlockNumber →
  bump_next_free_entry env e f n = Ok e' →
  entry_ok r e' ∧ grows e e' ∧ has_flag (eflags e') MAPSUPER_FLAG_VALID = true.
Proof.
  intros (Hk & Hu & Hwf & Hl & Hfr & _) Hv Hf Hlt Hn Hb.
  assert (is_u32 n) as Hn32 by (unfold is_u32, MaxBlockNumber in *; lia).
  destruct (bump_next_spec e f n e' Hf Hn Hb) as (Hs & Hk' & Hu' & Hl' & Hv' & _ & Ht' & Hfk).
  assert (∀ f', fork_next (super e') f' = if decide (f' = f) then n else fork_next (super e) f')
    as Hnx.
  { intros f'. rewrite (set_next_next _ _ _ _ f' Hs). by rewrite normalize_small by lia. }
  split_and!; [| |congruence].
  - unfold entry_ok. rewrite Hk', Hu', Hv'. split_and!; try done; [|..].
    + by eapply set_next_wf.
    + by apply (regs_ok_same e).
    + intros f' Hf'. destruct (Hfk f' Hf') as [-> ->]. rewrite Hnx.
      specialize (Hfr f' Hf'). repeat case_decide; naive_solver lia.
    + congruence.
  - intros f' Hf'. destruct (Hfk f' Hf') as [-> _]. rewrite Hnx. repeat case_decide; subst; lia.
Qed.

Lemma triple_put_dirty r e e1 s l :
  entry_ok r e1 → grows e e1 → has_flag (eflags e1) MAPSUPER_FLAG_VALID = true →
  super_wf s → is_u64 l → (∀ f, fork_next s f = fork_next (super e1) f) →
  triple (has r e) (put_entry r (mark_super_dirty l (with_super s e1))) (λ _ _, True).
Proof.
  intros Hok Hg Hv Hwf Hl Hn. destruct (dirty_ok r e1 s l) as [Hok' Hg']; [done..|].
  eapply triple_mono; [apply (triple_put r e); eauto using grows_trans|done|done].
Qed.

Lemma super_set_self e : with_super (super e) e = e.
Proof. by destruct e. Qed.

Lemma triple_bump_physical r f n bn bc lsn :
  0 ≤ n ≤ MaxBlockNumber → is_u64 lsn →
  triple (λ _, True) (MapSBlockBumpPhysicalState env r f n bn bc lsn) (λ _ _, True).
Proof.
  intros Hn Hl. unfold MapSBlockBumpPhysicalState.
  destruct (MapForkHasMappedState f) eqn:Hf; simpl; [|by apply triple_ret].
  apply mapped_state_mapped in Hf.
  assert (is_u32 n) as Hn32 by (unfold is_u32, MaxBlockNumber in *; lia).
  eapply triple_bind; [apply triple_prepare|]. intros [e|]; [|by apply triple_ret].
  apply (triple_has_ok _ r e); [by intros w []|]. intros Hok.
  apply triple_lift. intros nx Hnx. apply triple_lift. intros cap _. simpl.
  intros w Hi [He Hv]. revert w Hi He. apply triple_lift. intros e1 He1.
  assert (entry_ok r e1 ∧ grows e e1 ∧ has_flag (eflags e1) MAPSUPER_FLAG_VALID = true)
    as (Hok1 & Hg1 & Hv1).
  { destruct bn; simpl in He1; [|by simplify_eq; auto using grows_refl].
    case_bool_decide; [|by simplify_eq; auto using grows_refl].
    eapply bump_next_ok; eauto. unfold fork_next. by rewrite Hnx. }
  apply triple_lift. intros s Hs.
  assert (super_wf s ∧ ∀ f', fork_next s f' = fork_next (super e1) f') as [Hwf Hn1].
  { case_match; [|simplify_eq; split; [apply Hok1|done]].
    split; [eapply set_capacity_wf; [done|done|apply Hok1] |]. intros. by eapply set_capacity_next. }
  destruct (_ || _); [|by apply triple_ret]. apply triple_put_dirty; auto using update_lsn_u64.
Qed.

(** ** Readers, boundary and reservation *)

Lemma triple_read_field r f field :
  triple (λ _, True) (read_super_field env r f field) (λ _ _, True).
Proof.
  unfold read_super_field. destruct (MapForkHasMappedState f); simpl; [|by apply triple_ret].
  eapply triple_bind; [apply triple_read|]. intros []; [|by apply triple_ret|].
  - case_match; [by apply triple_ret|]. apply triple_lift. intros. by apply triple_ret.
  - case_match; [apply triple_throw|by apply triple_ret].
Qed.

Lemma triple_get_boundary r f :
  triple (λ _, True) (MapSBlockTryGetReclaimBoundary env r f) (λ _ _, True).
Proof.
  unfold MapSBlockTryGetReclaimBoundary.
  destruct (MapForkHasMappedState f); simpl; [|by apply triple_ret].
  eapply triple_bind; [apply triple_ensure_loaded|]. intros []; [|by apply triple_ret].
  apply triple_find; [by apply triple_ret|]. intros e.
  case_match; [case_match; [apply triple_throw|by apply triple_ret]|].
  apply triple_lift. intros. by apply triple_ret.
Qed.

(** Setting the boundary of [f] anywhere up to the committed frontier. *)
Lemma set_boundary_ok r e f b e' :
  entry_ok r e → has_flag (eflags e) MAPSUPER_FLAG_VALID = true →
  fork_mapped f → 0 ≤ b ≤ fork_next (super e) f →
  MapSuperSetReclaimBoundary e f b = Ok e' → entry_ok r e' ∧ grows e e'.
Proof.
  intros (Hk & Hu & Hwf & Hl & Hfr & _) Hv Hf Hb He'.
  unfold MapSuperSetReclaimBoundary in He'.
  destruct (pf_set (reclaim_boundary e) f b) as [p|] eqn:Hp; simplify_eq.
  split; [|intros f' Hf'; simpl; unfold fork_reserved; simpl; lia].
  split_and!; try done; [|simpl; congruence]. intros f' Hf'.
  pose proof (Hfr f Hf) as Hff. specialize (Hfr f' Hf').
  assert (fork_boundary (with_boundary p e) f' = b ∧ f' = f ∨
          fork_boundary (with_boundary p e) f' = fork_boundary e f') as Hcase.
  { unfold fork_boundary. destruct Hf as [->|[->| ->]]; simpl in Hp; simplify_eq;
      destruct Hf' as [->|[->| ->]]; simpl; auto; left; split; auto;
      apply normalize_small; lia. }
  unfold fork_reserved in *. simpl in *. destruct Hcase as [[-> ->]| ->]; lia.
Qed.

Lemma triple_advance_boundary r f b :
  is_u32 b → triple (λ _, True) (MapSBlockAdvanceReclaimBoundary r f b) (λ _ _, True).
Proof.
  intros Hb. unfold MapSBlockAdvanceReclaimBoundary.
  destruct (MapForkHasMappedState f) eqn:Hf; simpl; [|by apply triple_ret].
  apply mapped_state_mapped in Hf. case_decide; [by apply triple_ret|].
  eapply triple_bind; [apply triple_ensure_loaded|]. intros []; [|by apply triple_ret].
  apply triple_find; [by apply triple_ret|]. intros e.
  apply (triple_has_ok _ r e); [by intros w []|]. intros Hok.
  destruct (_ || _) eqn:Hg; [by apply triple_ret|].
  apply orb_false_iff in Hg as [[_ Hv]%orb_false_iff _]. apply negb_false_iff in Hv.
  apply triple_lift. intros c Hc. apply triple_lift. intros n Hn. simpl.
  case_decide as Hadv; [|by apply triple_ret].
  apply triple_lift. intros e' He'.
  assert (fork_next (super e) f = MapNormalizeForkBlockCount f n) as Hnx.
  { unfold fork_next. by rewrite Hn. }
  destruct (set_boundary_ok r e f (if decide (b > MapNormalizeForkBlockCount f n)
    then MapNormalizeForkBlockCount f n else b) e') as [Hok' Hg']; try done.
  { rewrite Hnx. destruct Hok as (_ & _ & Hwf & _).
    pose proof (fork_next_range (super e) f Hwf) as Hr. rewrite Hnx in Hr.
    unfold is_u32 in *. case_decide; lia. }
  eapply triple_mono; [apply (triple_put r e); auto|by intros w []|done].
Qed.

(** A reservation returns the frontier it moves past. *)
Lemma reserve_ok r e f e' :
  entry_ok r e → has_flag (eflags e) MAPSUPER_FLAG_VALID = true → fork_mapped f →
  fork_reserved e f ≠ MaxBlockNumber →
  MapSuperSetReservedNextFree e f (u32 (fork_reserved e f + 1)) = Ok e' →
  entry_ok r e' ∧ grows e e' ∧ fork_reserved e' f = fork_reserved e f + 1.
Proof.
  intros (Hk & Hu & Hwf & Hl & Hfr & _) Hv Hf Hne He'.
  pose proof (Hfr f Hf) as Hff.
  unfold MapSuperSetReservedNextFree in He'.
  rewrite u32_small in He' by (unfold is_u32, MaxBlockNumber in *; lia).
  rewrite normalize_small in He' by lia.
  destruct (pf_set _ f _) as [p|] eqn:Hp; simplify_eq.
  assert (∀ f', fork_mapped f' → fork_reserved (with_reserved p e) f' =
            if decide (f' = f) then fork_reserved e f + 1 else fork_reserved e f') as Hr.
  { intros f' Hf'. unfold fork_reserved in *. destruct Hf as [->|[->| ->]]; simpl in Hp;
      simplify_eq; destruct Hf' as [->|[->| ->]]; done. }
  split_and!; [split_and!; try done; [|simpl; congruence]|..].
  - intros f' Hf'. rewrite Hr by done. specialize (Hfr f' Hf').
    unfold fork_boundary in *. simpl. case_decide; subst; lia.
  - intros f' Hf'. rewrite Hr by done. simpl. case_decide; subst; lia.
  - rewrite Hr by done. by rewrite decide_True.
Qed.

Lemma reserved_get e f n : MapSuperGetReservedNextFree e f = Ok n → fork_reserved e f = n.
Proof.
  unfold MapSuperGetReservedNextFree, fork_reserved, bad_fork.
  destruct (pf_get _ f); simpl; congruence.
Qed.

Lemma triple_reserve r f got :
  MapForkHasMappedState f = true →
  triple (λ _, True) (reserve_frontier env r f got) (λ on w, ∀ n, on = Some n →
    ∃ e, has r e w ∧ fork_reserved e f = n + 1).
Proof.
  intros Hf%mapped_state_mapped.
  apply triple_find; [by apply triple_ret|]. intros e. destruct got; [|by apply triple_ret].
  apply (triple_has_ok _ r e); [by intros w []|]. intros Hok.
  destruct (entry_untrusted e) eqn:Hu; [case_match; [apply triple_throw|by apply triple_ret]|].
  pose proof (trusted_valid r e Hok Hu) as Hv.
  apply triple_lift. intros n Hn%reserved_get. case_decide as Hmax; [apply triple_throw|].
  apply triple_lift. intros e' He'. subst n.
  destruct (reserve_ok r e f e') as (Hok' & Hg & Hr); [done..|].
  eapply (triple_bind _ _ (λ _, has r e')).
  { eapply triple_mono; [by apply (triple_put r e)|by intros w []|done]. }
  intros []. apply triple_ret. intros w Hw n [= <-]. eauto.
Qed.

(** ** Extension *)

Lemma zeroextend_step r f b n w :
  fork_mapped f →
  file_step (w ← get; fs ← lift (fl_zeroextend (w_files w) r f b n); put (set_files fs w)) w.
Proof.
  intros Hf. unfold file_step, get, mbind, M_bind, lift, put.
  destruct (fl_zeroextend _ _ _ _ _) as [fs|] eqn:Hz; [|done]. simpl.
  split_and!; [done|done|]. intros r' s Hs. left. revert Hs. unfold disk_super.
  erewrite fl_zeroextend_frame; [done|done|].
  intros [= -> <-]. by destruct Hf as [?|[?|?]].
Qed.

Lemma triple_materialize r f n blk :
  fork_mapped f → triple (λ _, True) (materialize_blocks r f n blk) (λ _ _, True).
Proof.
  intros Hf. revert blk. induction n as [|n IH]; intros blk; [by apply triple_ret|].
  apply triple_gets. intros fs. eapply (triple_bind _ _ (λ _ _, True)); [|intros []; apply IH].
  apply triple_true. destruct (fl_block_exists _ _ _ _); [by apply triple_ret|].
  apply (triple_files _ (λ _, True)); [|done]. intros w _. by apply zeroextend_step.
Qed.

(** Updates of the extension claim leave the frontiers alone. *)
Lemma claim_ok r e rf f n e' :
  entry_ok r e → is_u32 n → has_flag (eflags e) MAPSUPER_FLAG_VALID = true →
  MapSuperSetExtendingTarget (with_runtime rf e) f n = Ok e' →
  entry_ok r e' ∧ grows e e' ∧ has_flag (eflags e') MAPSUPER_FLAG_VALID = true.
Proof.
  intros Hok Hn Hv He'. unfold MapSuperSetExtendingTarget in He'.
  destruct (pf_set _ _ _) as [p|] eqn:Hp; simplify_eq.
  destruct (entry_ok_same_frontier r e (with_target p (with_runtime rf e)))
    as [Hok' Hg']; try done; [apply Hok|].
  destruct Hok as (_ & _ & _ & [Hl Ht] & _). split; [done|]. intros f' Hf'.
  specialize (Ht f' Hf'). unfold MapSuperGetExtendingTarget in *. simpl in *.
  destruct f; simpl in Hp; simplify_eq; destruct Hf' as [->|[->| ->]]; done.
Qed.

Lemma runtime_self e : with_runtime (runtime_flags e) e = e.
Proof. by destruct e. Qed.

Lemma triple_claim r f n :
  is_u32 n →
  triple (λ _, True) (claim_extension env r f n) (λ _ _, True).
Proof.
  intros Hn.
  eapply triple_bind; [apply triple_prepare|]. intros [e|]; [|by apply triple_ret].
  apply (triple_has_ok _ r e); [by intros w []|]. intros Hok.
  apply triple_lift. intros cap _. simpl. case_decide; [by apply triple_ret|].
  intros w Hi [He Hv]. revert w Hi He. case_match; apply triple_lift; intros e' He'.
  - assert (entry_ok r e' ∧ grows e e') as [Hok' Hg'].
    { case_decide; [|by simplify_eq; auto using grows_refl].
      rewrite <-(runtime_self e) in He'. by eapply claim_ok in He' as (? & ? & _). }
    eapply triple_bind; [by apply (triple_put r e)|]. intros. by apply triple_ret.
  - eapply claim_ok in He' as (Hok' & Hg' & _); [|done..].
    eapply triple_bind; [by apply (triple_put r e)|]. intros. by apply triple_ret.
Qed.

Lemma triple_extend_iteration r f fl cur des :
  fork_mapped f → is_u32 des →
  triple (λ _, True) (extend_iteration env r f fl cur des)
    (λ next _, ∀ cd, next = Some cd → is_u32 cd.2).
Proof.
  intros Hf Hd. eapply triple_bind; [by apply triple_materialize|]. intros [].
  eapply triple_bind; [apply triple_prepare|]. intros [e|]; [|apply triple_throw].
  apply (triple_has_ok _ r e); [by intros w []|]. intros Hok.
  apply triple_lift. intros cap _. simpl. intros w Hi [He Hv]. revert w Hi He.
  apply triple_lift. intros e1 He1.
  assert (entry_ok r e1 ∧ grows e e1 ∧ has_flag (eflags e1) MAPSUPER_FLAG_VALID = true)
    as (Hok1 & Hg1 & Hv1).
  { case_decide; [|by simplify_eq; auto using grows_refl].
    unfold mbind, result_bind in He1.
    destruct (MapSuperblockSetPhysCapacity (super e) f des) as [s|] eqn:Hs; simplify_eq.
    destruct (dirty_ok r e s (update_lsn env InvalidXLogRecPtr)) as [? ?];
      eauto using update_lsn_u64.
    - eapply set_capacity_wf; [done|done|apply Hok].
    - by apply update_lsn_u64.
    - intros. by eapply set_capacity_next.
    - split_and!; [done|done|]. simpl. by rewrite valid_lor_dirty. }
  assert (is_u32 (Z.max des (MapSuperGetExtendingTarget e1 f))) as Hmax.
  { destruct Hok1 as (_ & _ & _ & [_ Ht] & _). specialize (Ht f Hf).
    unfold is_u32 in *. lia. }
  destruct (decide (_ ≤ _)); apply triple_lift; intros e2 He2.
  2: rewrite <-(runtime_self e1) in He2.
  all: eapply claim_ok in He2 as (Hok2 & Hg2 & _); [|done..];
    eapply triple_bind; [apply (triple_put r e); eauto using grows_trans|];
    intros; apply triple_ret; naive_solver.
Qed.

Lemma triple_extend_loop r f fl fuel cur des :
  fork_mapped f → is_u32 des →
  triple (λ _, True) (extend_loop env r f fl fuel cur des) (λ _ _, True).
Proof.
  intros Hf. revert cur des. induction fuel as [|fuel IH]; intros cur des Hd;
    [apply triple_throw|].
  eapply triple_bind; [by apply triple_extend_iteration|].
  intros [cd|]; [|by apply triple_ret].
  intros w Hi Hcd. apply IH; [|done|done]. by apply Hcd.
Qed.

Lemma triple_extend_abort {A} r f fl err (Q : A → W → Prop) :
  fork_mapped f → triple (λ _, True) (extend_abort r f fl err) Q.
Proof.
  intros Hf. apply triple_find.
  { eapply (triple_bind _ _ (λ _ _, True)); [by apply triple_ret|].
    intros. apply triple_throw. }
  intros e. eapply (triple_bind _ _ (λ _ _, True)); [|intros; apply triple_throw].
  apply (triple_has_ok _ r e); [by intros w []|]. intros Hok.
  apply triple_lift. intros e' He'.
  assert (entry_ok r e' ∧ grows e e') as [Hok' Hg'].
  { destruct (has_flag (eflags e) MAPSUPER_FLAG_VALID) eqn:Hv.
    - eapply claim_ok in He' as (? & ? & _); done.
    - assert (e = fresh_entry r) as -> by (by apply Hok).
      assert (e' = fresh_entry r) as ->; [|by auto using grows_refl].
      destruct Hf as [->|[->| ->]]; vm_compute in He'; by injection He' as <-. }
  eapply triple_mono; [apply (triple_put r e); auto|by intros w []|done].
Qed.

Lemma triple_pg_try {A} frame (body : M W (flow A)) h (after : M W A) :
  triple (λ _, True) body (λ _ _, True) →
  (∀ e, triple (λ _, True) (h e) (λ _ _, True)) →
  triple (λ _, True) after (λ _ _, True) →
  triple (λ _, True) (pg_try frame body h after) (λ _ _, True).
Proof.
  intros Hb Hh Ha w Hi _. specialize (Hb (set_exc frame w) Hi I).
  unfold wp, pg_try in *.
  destruct (body (set_exc frame w)) as [[[|a]|e] w'].
  - destruct Hb as (Hi' & Hadv & _).
    specialize (Ha (set_exc (w_exc w) w') Hi' I). unfold wp in Ha.
    destruct (after _) as [[a|e] w2]; naive_solver eauto using advances_trans.
  - naive_solver.
  - destruct Hb as (Hi' & Hadv).
    specialize (Hh e (set_exc (w_exc w) w') Hi' I). unfold wp in Hh.
    destruct (h e _) as [[a|e2] w2]; naive_solver eauto using advances_trans.
Qed.

Lemma triple_ensure_physical frame fuel r f n :
  is_u32 n →
  triple (λ _, True) (MapSBlockEnsurePhysicalNblocks env frame fuel r f n) (λ _ _, True).
Proof.
  intros Hn. unfold MapSBlockEnsurePhysicalNblocks.
  destruct (MapForkHasMappedState f) eqn:Hf; simpl; [|by apply triple_ret].
  apply mapped_state_mapped in Hf. case_decide; [by apply triple_ret|].
  eapply triple_bind; [apply triple_ensure_loaded|]. intros []; [|by apply triple_ret].
  eapply triple_bind; [by apply triple_claim|]. intros []; [by apply triple_ret..|].
  apply triple_pg_try; [by apply triple_extend_loop| |by apply triple_ret].
  intros e. by apply triple_extend_abort.
Qed.

(** ** Writing superblocks *)

Lemma xlog_flush_step lsn (w : W) : file_step (XLogFlush lsn) w.
Proof. unfold file_step, XLogFlush, modify. simpl. split_and!; [done|lia|]. auto. Qed.

(** The guarded [XLogFlush] of the writers covers [lsn]. *)
Lemma triple_wal_first lsn (P : W → Prop) :
  (∀ w w', w_store w' = w_store w → P w → P w') →
  triple P (when (negb (InRecovery env) && bool_decide (lsn ≠ InvalidXLogRecPtr))
              (XLogFlush lsn))
    (λ _ w, P w ∧ (InRecovery env = false → lsn ≤ w_flushed w)).
Proof.
  intros HP. destruct (InRecovery env) eqn:Hr; simpl; [by apply triple_ret|].
  case_bool_decide as Hl; simpl.
  - intros w Hi Hw. apply wp_modify.
    assert (triple P (XLogFlush lsn) (λ _, P)) as Ht.
    { apply triple_files; [intros; apply xlog_flush_step|eauto]. }
    destruct (Ht w Hi Hw) as (Hi' & Ha & Hw'). split_and!; try done. simpl. lia.
  - intros w Hi Hw. split_and!; [done|apply advances_refl|done|].
    intros _. unfold InvalidXLogRecPtr in Hl.
    assert (lsn = 0) as -> by (destruct (decide (lsn = 0)); naive_solver). apply Hi.
Qed.

Lemma write_super_step r s w :
  super_wf s → next_free_phys_block_main s ≤ MaxBlockNumber →
  (InRecovery env = false → last_updated_lsn s ≤ w_flushed w) →
  file_step (write_super_sector r (MapSuperblockPackSector s)) w.
Proof.
  intros Hwf Hmax Hl. unfold file_step, write_super_sector, get, mbind, M_bind, lift, put.
  destruct (fl_write _ _ _ _ _) as [fs|] eqn:Hw; [|done]. simpl. split_and!; [done..|].
  intros r' s'. unfold disk_super. destruct (decide (r' = r)) as [->|Hne].
  - destruct (fl_write_block _ _ _ _ _ _ ltac:(by rewrite length_pack_sector; [apply Nat.leb_le|])
      (pack_sector_is_byte s Hwf) Hw) as (d & Hd & Ht).
    rewrite length_pack_sector in Ht by done. rewrite Hd, Ht, sector_roundtrip by done.
    case_match; [|done]. intros [= <-]. auto.
  - erewrite fl_write_frame_fork; [by left|done|congruence].
Qed.

Lemma triple_write_super r s (P : W → Prop) :
  super_wf s → next_free_phys_block_main s ≤ MaxBlockNumber →
  (∀ w w', w_store w' = w_store w → P w → P w') →
  triple (λ w, P w ∧ (InRecovery env = false → last_updated_lsn s ≤ w_flushed w))
    (write_super_sector r (MapSuperblockPackSector s)) (λ _, P).
Proof.
  intros Hwf Hmax HP. apply triple_files.
  - intros w [_ Hl]. by apply write_super_step.
  - intros w w' Hst [Hw _] _. eauto.
Qed.

Lemma entry_main_max r e :
  entry_ok r e → next_free_phys_block_main (super e) ≤ MaxBlockNumber.
Proof.
  intros (_ & _ & _ & _ & Hfr & _). destruct (Hfr MAIN_FORKNUM) as [_ Hm]; [by left|].
  change (fork_next (super e) MAIN_FORKNUM) with (next_free_phys_block_main (super e)) in Hm.
  lia.
Qed.

Lemma refresh_main s :
  next_free_phys_block_main (MapSuperblockRefreshCRC s) = next_free_phys_block_main s.
Proof. by destruct s. Qed.

Lemma set_lsn_main s l :
  next_free_phys_block_main (MapSuperblockSetLastUpdatedLSN s l) = next_free_phys_block_main s.
Proof. by destruct s. Qed.

Lemma has_store r e (w w' : W) : w_store w' = w_store w → has r e w → has r e w'.
Proof. unfold has. by intros ->. Qed.

Lemma triple_flush_entry r e :
  entry_ok r e → has_flag (eflags e) MAPSUPER_FLAG_VALID = true →
  triple (has r e) (MapFlushWriteSuperblockEntry env r e)
    (λ e' w, has r e' w ∧ entry_ok r e' ∧ has_flag (eflags e') MAPSUPER_FLAG_VALID = true).
Proof.
  intros Hok Hv. eapply triple_bind; [apply triple_wal_first, has_store|]. intros []. simpl.
  set (s := MapSuperblockRefreshCRC _).
  assert (super_wf s) as Hwf by (apply refresh_crc_wf, set_lsn_wf; apply Hok).
  assert (next_free_phys_block_main s ≤ MaxBlockNumber) as Hmax.
  { unfold s. rewrite refresh_main, set_lsn_main. by eapply entry_main_max. }
  assert (last_updated_lsn s = page_lsn e) as Hlsn.
  { unfold s, MapSuperblockRefreshCRC. rewrite set_crc_lsn. apply set_lsn_get. }
  destruct (entry_ok_same_frontier r e (with_super s e)) as [Hok' Hg']; try done.
  { eapply regs_ok_same; [apply Hok|done|done]. }
  { intros f. unfold s, MapSuperblockRefreshCRC. simpl. rewrite set_crc_next. apply set_lsn_next. }
  eapply (triple_bind _ _ (λ _ w, has r (with_super s e) w ∧
            (InRecovery env = false → last_updated_lsn s ≤ w_flushed w))).
  { intros w Hi [He Hl]. destruct (triple_put r e _ Hok' (λ _ _, Hg') w Hi He) as (? & ? & ?).
    split_and!; try done. intros Hr. rewrite Hlsn. exact (Hl Hr). }
  intros []. eapply triple_bind; [apply triple_write_super; [done|done|apply has_store]|].
  intros []. apply triple_ret. auto.
Qed.

Lemma dirty_valid r e :
  entry_ok r e → has_flag (eflags e) MAPSUPER_FLAG_DIRTY = true →
  has_flag (eflags e) MAPSUPER_FLAG_VALID = true.
Proof.
  intros Hok Hd. destruct (has_flag _ MAPSUPER_FLAG_VALID) eqn:Hv; [done|].
  assert (e = fresh_entry r) as -> by (by apply Hok). done.
Qed.

Lemma triple_flush_relation r :
  triple (λ _, True) (MapFlushRelationSuperblocks env r) (λ _ _, True).
Proof.
  apply triple_find; [by apply triple_ret|]. intros e.
  apply (triple_has_ok _ r e); [by intros w []|]. intros Hok.
  destruct (has_flag (eflags e) MAPSUPER_FLAG_DIRTY) eqn:Hd; simpl; [|by apply triple_ret].
  pose proof (dirty_valid r e Hok Hd) as Hv.
  case_match; [apply triple_throw|].
  eapply triple_bind.
  { eapply triple_mono; [by apply triple_flush_entry|by intros w []|done]. }
  intros e' w Hi (He' & Hok' & Hv'). revert w Hi He'.
  destruct (entry_ok_same_frontier r e'
    (with_eflags (Z.ldiff (eflags e') MAPSUPER_FLAG_DIRTY) e')) as [Hok2 Hg2]; try done.
  { apply Hok'. }
  { eapply regs_ok_same; [apply Hok'|done|done]. }
  { simpl. by rewrite valid_ldiff_dirty. }
  eapply triple_bind; [by apply (triple_put r e')|]. intros. by apply triple_ret.
Qed.

Lemma triple_init r lsn :
  exempt r → is_u64 lsn → triple (λ _, True) (MapSBlockInit env r lsn) (λ _ _, True).
Proof.
  intros Hex Hl. apply triple_gets. intros fs.
  destruct (fl_exists _ _ _); cbn [negb]; [|apply triple_throw].
  apply triple_true. eapply triple_bind; [apply triple_ensure|]. intros e. cbv zeta.
  set (l := if decide (lsn ≠ InvalidXLogRecPtr) then lsn else WriteRecPtr env).
  assert (is_u64 l) as Hl' by (unfold l; case_decide; [done|apply Henv]).
  set (s := MapSuperblockSetLastUpdatedLSN (MapSuperblockInit 0) l).
  assert (super_wf s) as Hwf.
  { apply set_lsn_wf; [done|]. apply (bool_decide_unpack _). by vm_compute. }
  apply (triple_has_ok _ r e); [done|]. intros (Hk & Hu & _ & Hregs & _).
  apply triple_lift. intros e1 He1.
  eapply reset_spec in He1 as (Hfr & Hs2 & Hk2 & Hu2 & Hl2 & Hv2 & _ & Ht2 & _);
    [|exact Hwf|done].
  set (e2 := MapSuperResetReclaimBoundaries e1) in *.
  assert (entry_ok r e2) as Hok2.
  { unfold entry_ok. rewrite Hk2, Hu2, Hs2, Hv2. split_and!; try done.
    apply (regs_ok_lsn e); [done|by rewrite Hl2|done]. }
  eapply triple_bind; [apply (triple_put r e); [done|done]|]. intros [].
  eapply triple_bind; [apply triple_wal_first, has_store|]. intros [].
  assert (last_updated_lsn (MapSuperblockRefreshCRC (super e2)) = page_lsn e2) as Hlsn.
  { unfold MapSuperblockRefreshCRC. by rewrite set_crc_lsn, Hs2, Hl2. }
  eapply triple_mono; [apply (triple_write_super r _ (has r e2))| |done].
  - by apply refresh_crc_wf, Hok2.
  - rewrite refresh_main. by eapply entry_main_max.
  - apply has_store.
  - intros w [He Hw]. by rewrite Hlsn.
Qed.

Lemma triple_delete r :
  exempt r → triple (λ _, True) (delete_entry r) (λ _ _, True).
Proof.
  intros Hex w (Hwf & Hes & Hd) _. apply wp_modify.
  destruct (ss_delete_spec (w_store w) r Hwf) as [Hwf' Hm].
  unfold world_inv, has. simpl. rewrite Hm. split_and!; [done| |apply Hd..| |done].
  - intros r' x [_ Hx]%lookup_delete_Some. eauto.
  - intros _ r' x Hne Hx. exists x. unfold has in *. simpl. rewrite Hm.
    rewrite lookup_delete_ne by naive_solver. auto using grows_refl.
Qed.
End inv.
