(* ===== verification/MapPrealloc.v ===== *)
(** * Preallocation of physical blocks

    [MapMaybePreallocateFork] of [storage/map/mapbgproc.c]: when the blocks
    left between the reservation frontier and the physical capacity of a fork
    fall under its low-water mark, the fork is grown by a batch, by the map
    writer or, under the hard mark, by the backend itself.  The entry lock is
    not held during the file operation; a flag in the entry keeps a second
    backend out. *)

From S2P Require Import Prelude MapLayout Crc32c Superblock SuperTable FileLayer SBlock SBlockInv.

Local Open Scope Z_scope.

(** How the first critical section ends: nothing to do, with or without
    waking the map writer, or the flag is ours. *)
Inductive PreallocClaim :=
  | PreallocSkip (wake : bool)
  | PreallocClaimed (target_nblocks : Z).

Section ops.
Context {T F : Type} `{SuperStore T} `{FileLayer F} (env : Env) (gucs : MapGucs).
Local Abbreviation W := (World T F).

Definition prealloc_claim (r : RelFileLocator) (f : ForkNumber) (background_mode : bool)
    (soft_low hard_low batch_blocks : Z) : M W PreallocClaim :=
  let prealloc_flag := MapSuperPreallocFlag f in
  oe ← find_entry r;
  match oe with
  | None => mret (PreallocSkip false)
  | Some e =>
      if negb (in_use e) || negb (has_flag (eflags e) MAPSUPER_FLAG_VALID)
      then mret (PreallocSkip false)
      else if entry_untrusted e then
        if negb (InRecovery env) then MapSBlockReportCorrupt "invalid identity or CRC"
        else mret (PreallocSkip false)
      else
        next ← lift (MapSuperGetReservedNextFree e f);
        capacity ← lift (MapSuperblockGetPhysCapacity (super e) f);
        let capacity := MapNormalizeForkBlockCount f capacity in
        if decide (next < soft_low) then mret (PreallocSkip false)
        else
          let remaining := if decide (next < capacity) then capacity - next else 0 in
          if decide (soft_low < remaining) then mret (PreallocSkip false)
          else if negb background_mode && bool_decide (hard_low < remaining)
          then mret (PreallocSkip true)
          else if has_flag (runtime_flags e) prealloc_flag
          then mret (PreallocSkip (negb background_mode))
          else
            let target64 := Z.max (u64 (capacity + batch_blocks)) (u64 (next + batch_blocks)) in
            if decide (InvalidBlockNumber - 1 < target64)
            then ereport ERROR ERRCODE_PROGRAM_LIMIT_EXCEEDED
                   "cannot preallocate physical blocks"
            else
              let target_nblocks := u32 target64 in
              if decide (target_nblocks ≤ capacity) then mret (PreallocSkip false)
              else
                put_entry r (with_runtime (Z.lor (runtime_flags e) prealloc_flag) e);;
                mret (PreallocClaimed target_nblocks)
  end.

(** The file operation, without the entry lock. *)
Definition prealloc_files (r : RelFileLocator) (f : ForkNumber) (target_nblocks : Z) : M W bool :=
  w ← get;
  if fl_exists_sparse (w_files w) r f then
    fo ← lift (fl_preallocate (w_files w) r f target_nblocks);
    put (set_files fo.1 w);; mret fo.2
  else mret false.

Definition clear_prealloc (f : ForkNumber) (e : MapSuperEntry) : MapSuperEntry :=
  with_runtime (Z.ldiff (runtime_flags e) (MapSuperPreallocFlag f)) e.

(** The handler: drop the flag and rethrow. *)
Definition prealloc_abort {A} (r : RelFileLocator) (f : ForkNumber) (err : pg_error) : M W A :=
  oe ← find_entry r;
  (match oe with
   | None => mret tt
   | Some e => put_entry r (clear_prealloc f e)
   end);;
  throw err.

(** The second critical section: publish the capacity, drop the flag. *)
Definition prealloc_publish (r : RelFileLocator) (f : ForkNumber) (target_nblocks : Z)
    (prealloc_ok : bool) : M W unit :=
  oe ← find_entry r;
  match oe with
  | None => mret tt
  | Some e =>
      e ← (if prealloc_ok && in_use e && has_flag (eflags e) MAPSUPER_FLAG_VALID then
             capacity ← lift (MapSuperblockGetPhysCapacity (super e) f);
             if decide (MapNormalizeForkBlockCount f capacity < target_nblocks) then
               s ← lift (MapSuperblockSetPhysCapacity (super e) f target_nblocks);
               mret (mark_super_dirty (WriteRecPtr env) (with_super s e))
             else mret e
           else mret e);
      put_entry r (clear_prealloc f e)
  end.

(** The result and whether [MapWakeWriter] is called. *)
Definition prealloc_run (r : RelFileLocator) (f : ForkNumber) (background_mode : bool)
    (target_nblocks : Z) : M W (bool * bool) :=
  prealloc_ok ← catch (prealloc_files r f target_nblocks) (prealloc_abort r f);
  prealloc_publish r f target_nblocks prealloc_ok;;
  mret (prealloc_ok, negb background_mode && negb prealloc_ok).

Definition MapMaybePreallocateFork (r : RelFileLocator) (f : ForkNumber) (background_mode : bool)
    : M W (bool * bool) :=
  if negb (MapForkHasMappedState f) then mret (false, false)
  else
    match MapForkPreallocSettings gucs f with
    | None => mret (false, false)
    | Some (soft_low, hard_low, batch_blocks) =>
        loaded ← MapSBlockEnsureLoaded r;
        match loaded with
        | false => mret (false, false)
        | true =>
            claim ← prealloc_claim r f background_mode soft_low hard_low batch_blocks;
            match claim with
            | PreallocSkip wake => mret (false, wake)
            | PreallocClaimed target_nblocks => prealloc_run r f background_mode target_nblocks
            end
        end
    end.
End ops.

(** ** Invariant *)

Section inv.
Context {T F : Type} `{SuperStoreLaws T} `{FileLayerLaws F} (env : Env) (gucs : MapGucs).
Context (exempt : RelFileLocator → Prop).
Local Abbreviation W := (World T F).

Lemma triple_catch {A} P (m : M W A) (h : pg_error → M W A) Q :
  triple env exempt P m Q → (∀ e, triple env exempt (λ _, True) (h e) Q) →
  triple env exempt P (catch m h) Q.
Proof.
  intros Hm Hh w Hi HP. apply wp_catch. eapply wp_mono; [by apply (Hm w)|done|].
  cbn. intros e w' [Hi' Ha]. eapply wp_mono; [by apply (Hh e w')| |]; cbn;
    intros; intuition eauto using advances_trans.
Qed.

(** The flag bits of an entry play no part in the invariant. *)
Lemma runtime_ok r e v :
  entry_ok r e → has_flag (eflags e) MAPSUPER_FLAG_VALID = true ∨ v = runtime_flags e →
  entry_ok r (with_runtime v e) ∧ grows e (with_runtime v e).
Proof.
  intros Hok [Hv| ->]; [|rewrite runtime_self; auto with umbra].
  apply entry_ok_same_frontier; try done; [apply Hok|].
  apply (regs_ok_same e); [apply Hok|done|done].
Qed.

Lemma clear_ok r e f :
  entry_ok r e → entry_ok r (clear_prealloc f e) ∧ grows e (clear_prealloc f e).
Proof.
  intros Hok. apply runtime_ok; [done|].
  destruct (has_flag (eflags e) MAPSUPER_FLAG_VALID) eqn:Hv; [by left|right].
  assert (e = fresh_entry r) as -> by (by apply Hok). by destruct f.
Qed.

Lemma triple_prealloc_claim r f bg soft hard batch :
  triple env exempt (λ _, True) (prealloc_claim env r f bg soft hard batch)
    (λ c _, ∀ n, c = PreallocClaimed n → is_u32 n).
Proof.
  apply triple_find; [by apply triple_ret|]. intros e.
  apply (triple_has_ok _ _ _ r e); [by intros w []|]. intros Hok.
  destruct (negb (in_use e) || _) eqn:Hg; [by apply triple_ret|].
  apply orb_false_iff in Hg as [_ Hv%negb_false_iff].
  destruct (entry_untrusted e); [case_match; [apply triple_throw|by apply triple_ret]|].
  apply triple_lift. intros next _. apply triple_lift. intros cap _. cbv zeta.
  destruct (decide (next < soft)); [by apply triple_ret|].
  destruct (decide (soft < _)); [by apply triple_ret|].
  destruct (negb bg && _); [by apply triple_ret|].
  destruct (has_flag (runtime_flags e) _); [by apply triple_ret|].
  destruct (decide (InvalidBlockNumber - 1 < _)); [apply triple_throw|].
  destruct (decide (u32 _ ≤ _)); [by apply triple_ret|].
  destruct (runtime_ok r e (Z.lor (runtime_flags e) (MapSuperPreallocFlag f))) as [Hok' Hg'];
    [done|by left|].
  eapply triple_bind.
  { eapply triple_mono; [by apply (triple_put env exempt r e)|by intros w []|done]. }
  intros []. apply triple_ret. intros w _ k [= <-]. apply u32_range.
Qed.

Lemma prealloc_step r f n (w : W) :
  fork_mapped f → file_step env (prealloc_files r f n;; mret tt) w.
Proof.
  intros Hf. unfold file_step, prealloc_files, get, mbind, M_bind, lift, put.
  destruct (fl_exists_sparse _ _ _); [|cbn; split_and!; [done|lia|by left]].
  destruct (fl_preallocate _ _ _ _) as [[fs ok]|] eqn:Hz; [|done]. cbn.
  split_and!; [done|done|]. intros r' s Hs. left. revert Hs. unfold disk_super.
  erewrite fl_preallocate_frame; [done|done|].
  intros [= -> <-]. by destruct Hf as [?|[?|?]].
Qed.

Lemma triple_prealloc_files r f n :
  fork_mapped f → triple env exempt (λ _, True) (prealloc_files r f n) (λ _ _, True).
Proof.
  intros Hf w Hi _.
  assert (triple env exempt (λ _, True) (prealloc_files r f n;; mret tt) (λ _ _, True)) as Ht.
  { apply (triple_files env exempt _ (λ _, True)); [|done]. intros; by apply prealloc_step. }
  specialize (Ht w Hi I). unfold wp, mbind, M_bind in *.
  by destruct (prealloc_files r f n w) as [[ok|err] w'].
Qed.

Lemma triple_clear r f e (P : W → Prop) :
  (∀ w, P w → has r e w) → triple env exempt P (put_entry r (clear_prealloc f e)) (λ _ _, True).
Proof.
  intros HP. apply (triple_has_ok _ _ _ r e); [done|]. intros Hok.
  destruct (clear_ok r e f Hok) as [Hok' Hg].
  eapply triple_mono; [by apply (triple_put env exempt r e)|done|done].
Qed.

Lemma triple_prealloc_abort {A} r f err (Q : A → W → Prop) :
  triple env exempt (λ _, True) (prealloc_abort r f err) Q.
Proof.
  apply triple_find.
  { eapply (triple_bind _ _ _ _ (λ _ _, True)); [by apply triple_ret|].
    intros. apply triple_throw. }
  intros e. eapply (triple_bind _ _ _ _ (λ _ _, True)); [|intros; apply triple_throw].
  apply triple_clear. by intros w [].
Qed.

Lemma triple_prealloc_publish r f n ok :
  env_ok env → is_u32 n →
  triple env exempt (λ _, True) (prealloc_publish env r f n ok) (λ _ _, True).
Proof.
  intros Henv Hn. apply triple_find; [by apply triple_ret|]. intros e.
  apply (triple_has_ok _ _ _ r e); [by intros w []|]. intros Hok.
  apply (triple_bind _ _ _ _ (λ e' w, has r e w ∧ entry_ok r e' ∧ grows e e')).
  - destruct (ok && in_use e && has_flag (eflags e) MAPSUPER_FLAG_VALID) eqn:Hv.
    2: { apply triple_ret. intros w []. auto using grows_refl. }
    apply andb_true_iff in Hv as [_ Hv].
    apply triple_lift. intros cap _. case_decide.
    2: { apply triple_ret. intros w []. auto using grows_refl. }
    apply triple_lift. intros s Hs. apply triple_ret. intros w []. split; [done|].
    apply dirty_ok; [done|done|by eapply set_capacity_wf; [| |apply Hok]|apply Henv|].
    intros. by eapply set_capacity_next.
  - intros e'. intros w Hi (He & Hok' & Hg').
    destruct (clear_ok r e' f Hok') as [Hok2 Hg2].
    eapply (triple_mono _ _ (has r e)); [|done|done|done|done].
    eapply triple_mono; [apply (triple_put env exempt r e); eauto using grows_trans|done|done].
Qed.

Lemma triple_prealloc r f bg :
  env_ok env →
  triple env exempt (λ _, True) (MapMaybePreallocateFork env gucs r f bg) (λ _ _, True).
Proof.
  intros Henv. unfold MapMaybePreallocateFork.
  destruct (MapForkHasMappedState f) eqn:Hf; [|by apply triple_ret].
  apply mapped_state_mapped in Hf.
  destruct (MapForkPreallocSettings gucs f) as [[[soft hard] batch]|]; [|by apply triple_ret].
  eapply triple_bind; [apply triple_ensure_loaded|]. intros []; [|by apply triple_ret].
  eapply triple_bind.
  { eapply triple_mono; [apply triple_prealloc_claim|done|]. intros a w. exact id. }
  intros [wake|n]; [by apply triple_ret|].
  intros w Hi Hn. specialize (Hn n eq_refl). pose proof I as HP. revert w Hi HP.
  eapply (triple_bind _ _ (λ _, True) _ (λ _ _, True)).
  { apply triple_catch; [by apply triple_prealloc_files|]. intros. by apply triple_prealloc_abort. }
  intros ok. eapply (triple_bind _ _ _ _ (λ _ _, True)); [by apply triple_prealloc_publish|].
  intros. by apply triple_ret.
Qed.
End inv.
