(* ===== verification/SBlockSafety.v ===== *)
(** * Superblock operations under interleaving

    Backends run the operations of [SBlock] one critical section at a time,
    in any order and on any relations; an error ends only the operation that
    raised it.  A schedule is the list of operations with the environment each
    one saw.  The theorems below hold for every schedule. *)

From Stdlib Require Import Sorting.Sorted.
From S2P Require Import Prelude MapLayout Crc32c Superblock SuperTable FileLayer SBlock SBlockInv.
From S2P Require Import MapPrealloc.

Local Open Scope Z_scope.

Inductive sb_op :=
  | OpRead (r : RelFileLocator)
  | OpEnsureLoaded (r : RelFileLocator)
  | OpTryGetLogical (r : RelFileLocator) (f : ForkNumber)
  | OpTryGetPhysical (r : RelFileLocator) (f : ForkNumber)
  | OpTryGetNextFree (r : RelFileLocator) (f : ForkNumber)
  | OpTryGetBoundary (r : RelFileLocator) (f : ForkNumber)
  | OpUpdateLogical (r : RelFileLocator) (f : ForkNumber) (n lsn : Z) (bump_only : bool)
  | OpSetPending (r : RelFileLocator) (pending : bool) (lsn : Z)
  | OpBumpPhysical (r : RelFileLocator) (f : ForkNumber) (n : Z) (bn bc : bool) (lsn : Z)
  | OpEnsurePhysical (frame : Z) (fuel : nat) (r : RelFileLocator) (f : ForkNumber) (n : Z)
  | OpClaimExtend (r : RelFileLocator) (f : ForkNumber) (n : Z)
  | OpExtendIteration (r : RelFileLocator) (f : ForkNumber) (current desired : Z)
  | OpExtendAbort (r : RelFileLocator) (f : ForkNumber) (err : pg_error)
  | OpAdvanceBoundary (r : RelFileLocator) (f : ForkNumber) (b : Z)
  | OpReserve (r : RelFileLocator) (f : ForkNumber) (got_lock : bool)
  | OpPreallocate (g : MapGucs) (r : RelFileLocator) (f : ForkNumber) (background : bool)
  | OpPreallocClaim (r : RelFileLocator) (f : ForkNumber) (background : bool) (soft hard batch : Z)
  | OpPreallocFiles (r : RelFileLocator) (f : ForkNumber) (n : Z)
  | OpPreallocPublish (r : RelFileLocator) (f : ForkNumber) (n : Z) (ok : bool)
  | OpPreallocAbort (r : RelFileLocator) (f : ForkNumber) (err : pg_error)
  | OpFlush (r : RelFileLocator)
  | OpInit (r : RelFileLocator) (lsn : Z)
  | OpDelete (r : RelFileLocator).

(** Arguments are block counts and LSNs of the code's types. *)
Definition op_ok (op : sb_op) : Prop :=
  match op with
  | OpUpdateLogical _ _ n lsn _ => is_u32 n ∧ is_u64 lsn
  | OpSetPending _ _ lsn | OpInit _ lsn => is_u64 lsn
  | OpBumpPhysical _ _ n _ _ lsn => 0 ≤ n ≤ MaxBlockNumber ∧ is_u64 lsn
  | OpEnsurePhysical _ _ _ _ n | OpClaimExtend _ _ n => is_u32 n
  | OpExtendIteration _ f _ desired => fork_mapped f ∧ is_u32 desired
  | OpExtendAbort _ f _ | OpPreallocFiles _ f _ => fork_mapped f
  | OpPreallocPublish _ _ n _ => is_u32 n
  | OpAdvanceBoundary _ _ b => is_u32 b
  | OpReserve _ f _ => MapForkHasMappedState f = true
  | _ => True
  end.

#[global] Instance op_ok_dec op : Decision (op_ok op).
Proof. destruct op; simpl; apply _. Defined.

(** Creation and removal replace the state of their relation. *)
Definition op_replaces (op : sb_op) (r : RelFileLocator) : Prop :=
  match op with
  | OpInit r' _ | OpDelete r' => r = r'
  | _ => False
  end.

#[global] Instance op_replaces_dec op r : Decision (op_replaces op r).
Proof. destruct op; simpl; apply _. Defined.

Section steps.
Context {T F : Type} `{SuperStoreLaws T} `{FileLayerLaws F}.
Local Abbreviation W := (World T F).

Definition quiet {A} (m : M W A) : M W (option Z) := m;; mret None.

Definition run_op (env : Env) (op : sb_op) : M W (option Z) :=
  match op with
  | OpRead r => quiet (MapSBlockRead r)
  | OpEnsureLoaded r => quiet (MapSBlockEnsureLoaded r)
  | OpTryGetLogical r f => quiet (MapSBlockTryGetLogicalNblocks env r f)
  | OpTryGetPhysical r f => quiet (MapSBlockTryGetPhysicalNblocks env r f)
  | OpTryGetNextFree r f => quiet (MapSBlockTryGetNextFreePhysBlock env r f)
  | OpTryGetBoundary r f => quiet (MapSBlockTryGetReclaimBoundary env r f)
  | OpUpdateLogical r f n lsn b => quiet (MapSBlockUpdateLogicalNblocks env r f n lsn b)
  | OpSetPending r p lsn => quiet (MapSBlockSetPendingFlag env r p lsn)
  | OpBumpPhysical r f n bn bc lsn => quiet (MapSBlockBumpPhysicalState env r f n bn bc lsn)
  | OpEnsurePhysical fr fuel r f n => quiet (MapSBlockEnsurePhysicalNblocks env fr fuel r f n)
  | OpClaimExtend r f n => quiet (claim_extension env r f n)
  | OpExtendIteration r f c d => quiet (extend_iteration env r f (MapSuperExtendingFlag f) c d)
  | OpExtendAbort r f err =>
      quiet (extend_abort (A := unit) r f (MapSuperExtendingFlag f) err)
  | OpAdvanceBoundary r f b => quiet (MapSBlockAdvanceReclaimBoundary r f b)
  | OpReserve r f got => reserve_frontier env r f got
  | OpPreallocate g r f bg => quiet (MapMaybePreallocateFork env g r f bg)
  | OpPreallocClaim r f bg soft hard batch => quiet (prealloc_claim env r f bg soft hard batch)
  | OpPreallocFiles r f n => quiet (prealloc_files r f n)
  | OpPreallocPublish r f n ok => quiet (prealloc_publish env r f n ok)
  | OpPreallocAbort r f err => quiet (prealloc_abort (A := unit) r f err)
  | OpFlush r => quiet (MapFlushRelationSuperblocks env r)
  | OpInit r lsn => quiet (MapSBlockInit env r lsn)
  | OpDelete r => quiet (delete_entry r)
  end.

Definition grants (op : sb_op) (res : result (option Z))
    : list (RelFileLocator * ForkNumber * Z) :=
  match op, res with
  | OpReserve r f _, Ok (Some n) => [(r, f, n)]
  | _, _ => []
  end.

(** The blocks a schedule hands out, and the state it ends in. *)
Fixpoint run_schedule (ops : list (Env * sb_op)) (w : W)
    : list (RelFileLocator * ForkNumber * Z) * W :=
  match ops with
  | [] => ([], w)
  | (env, op) :: ops =>
      let '(res, w') := run_op env op w in
      let '(g, w'') := run_schedule ops w' in
      (grants op res ++ g, w'')
  end.

(** Every step sees the same recovery mode and arguments in range. *)
Definition schedule_ok (rec : bool) (ops : list (Env * sb_op)) : Prop :=
  Forall (λ eo, InRecovery eo.1 = rec ∧ env_ok eo.1 ∧ op_ok eo.2) ops.

Lemma triple_quiet {A} env ex (m : M W A) :
  triple env ex (λ _, True) m (λ _ _, True) →
  triple env ex (λ _, True) (quiet m) (λ _ _, True).
Proof. intros Hm. eapply triple_bind; [done|]. intros. by apply triple_ret. Qed.

Lemma run_op_triple env op :
  env_ok env → op_ok op →
  triple env (op_replaces op) (λ _, True) (run_op env op) (λ _ _, True).
Proof.
  intros He Hop. destruct op; simpl in *; try apply triple_quiet.
  - apply triple_read.
  - apply triple_ensure_loaded.
  - apply triple_read_field.
  - apply triple_read_field.
  - apply triple_read_field.
  - apply triple_get_boundary.
  - apply triple_update_logical; naive_solver.
  - by apply triple_set_pending.
  - apply triple_bump_physical; naive_solver.
  - by apply triple_ensure_physical.
  - by apply triple_claim.
  - eapply triple_mono; [apply triple_extend_iteration; naive_solver|done|done].
  - by apply triple_extend_abort.
  - by apply triple_advance_boundary.
  - eapply triple_mono; [by apply triple_reserve|done|done].
  - by apply triple_prealloc.
  - eapply triple_mono; [apply triple_prealloc_claim|done|done].
  - by apply triple_prealloc_files.
  - by apply triple_prealloc_publish.
  - by apply triple_prealloc_abort.
  - by apply triple_flush_relation.
  - by apply triple_init.
  - by apply triple_delete.
Qed.

Lemma run_op_inv env op w :
  env_ok env → op_ok op → world_inv env w →
  world_inv env (run_op env op w).2 ∧
  advances env (op_replaces op) w (run_op env op w).2.
Proof.
  intros He Hop Hi. pose proof (run_op_triple env op He Hop w Hi I) as Ht.
  unfold wp in Ht. destruct (run_op env op w) as [[?|?] w']; naive_solver.
Qed.

Lemma world_inv_env env env' w :
  InRecovery env = InRecovery env' → world_inv env w → world_inv env' w.
Proof.
  unfold world_inv, disk_ok. by intros ->.
Qed.

Lemma schedule_inv rec ops w env0 :
  schedule_ok rec ops → InRecovery env0 = rec → world_inv env0 w →
  world_inv env0 (run_schedule ops w).2.
Proof.
  intros Hops <-. revert w. induction Hops as [|[env op] ops (Hr & He & Hop) Hops IH];
    intros w Hi; [done|]. simpl in *.
  apply (world_inv_env env0 env) in Hi; [|done].
  destruct (run_op_inv env op w He Hop Hi) as [Hi' _].
  destruct (run_op env op w) as [res w']. simpl in *.
  specialize (IH w' (world_inv_env env env0 w' Hr Hi')).
  by destruct (run_schedule ops w').
Qed.

(** A reservation hands out the frontier it found. *)
Lemma reserve_value env r f got w n w' :
  world_inv env w → reserve_frontier env r f got w = (Ok (Some n), w') →
  ∃ e, has r e w ∧ fork_reserved e f = n.
Proof.
  intros Hi. unfold reserve_frontier, find_entry, gets, mbind, M_bind. simpl.
  rewrite ss_find_spec by apply Hi. unfold has.
  destruct (ss_map (w_store w) !! r) as [e|] eqn:He; [|done].
  destruct got; [|done]. destruct (entry_untrusted e); [by case_match|].
  unfold lift. destruct (MapSuperGetReservedNextFree e f) as [m|] eqn:Hm; [|done].
  apply reserved_get in Hm. case_decide; [done|].
  destruct (MapSuperSetReservedNextFree _ _ _) as [e'|]; [|done].
  intros [= <- _]. eauto.
Qed.

Definition granted (r : RelFileLocator) (f : ForkNumber)
    (g : list (RelFileLocator * ForkNumber * Z)) : list Z :=
  omap (λ x, if decide (x.1 = (r, f)) then Some x.2 else None) g.

(** One step: what it grants lies between the frontiers around it. *)
Lemma step_frontier env op w r e f :
  InRecovery env = false → env_ok env → op_ok op → world_inv env w → fork_mapped f →
  ¬ op_replaces op r → has r e w →
  let '(res, w') := run_op env op w in
  (∃ e', has r e' w' ∧ fork_reserved e f ≤ fork_reserved e' f ∧
    granted r f (grants op res) = []) ∨
  ∃ e', has r e' w' ∧
    granted r f (grants op res) = [fork_reserved e f] ∧
    fork_reserved e' f = fork_reserved e f + 1.
Proof.
  intros Hrec He Hop Hi Hf Hnr Hhas.
  destruct (run_op_inv env op w He Hop Hi) as [Hi' Hadv].
  pose proof (Hadv Hrec r e Hnr Hhas) as (e1 & He1 & Hg). specialize (Hg f Hf).
  destruct (run_op env op w) as [res w'] eqn:Hrun. simpl in *.
  destruct (decide (granted r f (grants op res) = [])) as [Hnil|Hgr].
  { left. exists e1. naive_solver. }
  right. destruct op; try done. destruct res as [[n|]|]; try done.
  unfold granted in Hgr |- *. simpl in Hgr |- *.
  destruct (decide ((r0, f0) = (r, f))) as [Heq|]; [|done].
  injection Heq as -> ->.
  destruct (reserve_value _ _ _ _ _ _ _ Hi Hrun) as (e0 & He0 & <-).
  unfold has in *. simplify_eq. exists e1. split_and!; [done|done|].
  pose proof (triple_reserve env (λ _, False) r f got_lock Hop w Hi I) as Ht.
  unfold wp in Ht. simpl in Hrun. rewrite Hrun in Ht.
  destruct Ht as (_ & _ & Hn). destruct (Hn _ eq_refl) as (e2 & He2 & Hr2).
  unfold has in He2. by simplify_eq.
Qed.

Lemma granted_app r f g1 g2 : granted r f (g1 ++ g2) = granted r f g1 ++ granted r f g2.
Proof. apply omap_app. Qed.

Lemma schedule_grants ops w r e f env0 :
  schedule_ok false ops → InRecovery env0 = false → world_inv env0 w → fork_mapped f →
  Forall (λ eo, ¬ op_replaces eo.2 r) ops → has r e w →
  StronglySorted Z.lt (granted r f (run_schedule ops w).1) ∧
  Forall (λ n, fork_reserved e f ≤ n) (granted r f (run_schedule ops w).1) ∧
  ∃ e', has r e' (run_schedule ops w).2 ∧
    Forall (λ n, n < fork_reserved e' f) (granted r f (run_schedule ops w).1) ∧
    fork_reserved e f ≤ fork_reserved e' f.
Proof.
  intros Hops Hr0. revert w e. induction Hops as [|[env op] ops (Hr & He & Hop) Hops IH];
    intros w e Hi Hf Hnr Hhas.
  { simpl. split_and!; [constructor..|]. exists e. split_and!; [done|constructor|lia]. }
  inversion_clear Hnr as [|? ? Hnr1 Hnr2]. simpl in *.
  apply (world_inv_env env0 env) in Hi; [|congruence].
  pose proof (step_frontier env op w r e f Hr He Hop Hi Hf Hnr1 Hhas) as Hstep.
  destruct (run_op_inv env op w He Hop Hi) as [Hi' _].
  destruct (run_op env op w) as [res w'] eqn:Hrun. simpl in *.
  apply (world_inv_env env env0) in Hi'; [|congruence].
  destruct Hstep as [(e1 & He1 & Hle & Hg)|(e1 & He1 & Hg & Hinc)];
    destruct (IH w' e1 Hi' Hf Hnr2 He1) as (Hs & Hlo & e2 & He2 & Hhi & Hle2);
    destruct (run_schedule ops w') as [g w2]; simpl in *; rewrite granted_app, Hg; simpl.
  - split_and!; [done| |exists e2; split_and!; [done|done|lia]].
    eapply Forall_impl; [|exact Hlo]. intros x Hx. simpl in Hx. lia.
  - split_and!.
    + constructor; [done|]. eapply Forall_impl; [|exact Hlo]. intros x Hx. simpl in Hx. lia.
    + constructor; [lia|]. eapply Forall_impl; [|exact Hlo]. intros x Hx. simpl in Hx. lia.
    + exists e2. split_and!; [done|constructor; [lia|done]|lia].
Qed.
End steps.

(** After a restart the table is empty and the disk is acceptable. *)
Definition booted `{SuperStoreLaws T} `{FileLayerLaws F} (env : Env) (w : World T F) : Prop :=
  ss_wf (w_store w) ∧ ss_map (w_store w) = ∅ ∧ 0 ≤ w_flushed w ∧ disk_ok env w.

Lemma booted_inv `{SuperStoreLaws T} `{FileLayerLaws F} env (w : World T F) :
  booted env w → world_inv env w.
Proof.
  intros (Hwf & Hm & H0' & Hd). split_and!; try done. intros r e. by rewrite Hm.
Qed.

(** ** A concrete system: the code's table over the reference files *)

Definition demo_rel : RelFileLocator := MkRel 1663 5 16384.
Definition demo_env : Env := MkEnv false 0 100.

Definition demo_world : World MapSuperTable RefFiles :=
  MkWorld (MapSuperTableShmemInit 4 2)
    (MkRefFiles {[ (demo_rel, UMBRA_METADATA_FORKNUM) := ∅;
                   (demo_rel, MAIN_FORKNUM) := ∅ ]}) ∅ 0 0.

Lemma demo_booted : booted demo_env demo_world.
Proof.
  split_and!; [by apply (init_table_wf 4 1)|by vm_compute|done|].
  intros r s. unfold disk_super. simpl.
  assert (∀ k, rf_content (w_files demo_world) r k 0 = None) as Hnone.
  { intros k. unfold rf_content, rf_block. simpl.
    destruct (_ !! (r, k)) as [m|] eqn:Hm; [|done].
    assert (m = ∅) as ->.
    { apply lookup_insert_Some in Hm as [[_ <-]|[_ [_ <-]%lookup_singleton_Some]]; done. }
    by rewrite lookup_empty. }
  change (fl_content (w_files demo_world) r UMBRA_METADATA_FORKNUM MAP_BLOCK_SUPER)
    with (rf_content (w_files demo_world) r UMBRA_METADATA_FORKNUM 0). by rewrite Hnone.
Qed.

Definition demo_schedule : list (Env * sb_op) :=
  (demo_env,.) <$>
    [OpInit demo_rel 90; OpReserve demo_rel MAIN_FORKNUM true;
     OpReserve demo_rel MAIN_FORKNUM true; OpBumpPhysical demo_rel MAIN_FORKNUM 2 true true 95;
     OpAdvanceBoundary demo_rel MAIN_FORKNUM 1; OpReserve demo_rel MAIN_FORKNUM false;
     OpFlush demo_rel; OpReserve demo_rel MAIN_FORKNUM true].

(** ** Properties *)

(** C1: from a restart on, whatever operations run in whatever
    order, and whether or not they fail, each cached fork keeps
    reclaim boundary <= committed frontier <= reservation frontier, all of them
    valid block numbers: the assertions of [mapsuper.c] and [map.c] hold. *)
Theorem frontier_order_invariant `{SuperStoreLaws T} `{FileLayerLaws F}
    (env0 : Env) (w : World T F) ops r e f :
  booted env0 w → schedule_ok (InRecovery env0) ops → fork_mapped f →
  ss_map (w_store (run_schedule ops w).2) !! r = Some e →
  0 ≤ fork_boundary e f ≤ fork_next (super e) f ∧
  fork_next (super e) f ≤ fork_reserved e f ≤ MaxBlockNumber.
Proof.
  intros Hb%booted_inv Hops Hf He.
  destruct (schedule_inv _ _ _ _ Hops eq_refl Hb) as (_ & Hes & _).
  by apply (Hes r e He).
Qed.

Lemma frontier_order_invariant_witness :
  ∃ e, ss_map (w_store (run_schedule demo_schedule demo_world).2) !! demo_rel = Some e ∧
    (fork_boundary e MAIN_FORKNUM, fork_next (super e) MAIN_FORKNUM,
     fork_reserved e MAIN_FORKNUM) = (1, 2, 3) ∧
    0 ≤ fork_boundary e MAIN_FORKNUM ≤ fork_next (super e) MAIN_FORKNUM ∧
    fork_next (super e) MAIN_FORKNUM ≤ fork_reserved e MAIN_FORKNUM ≤ MaxBlockNumber.
Proof.
  eexists. split; [by vm_compute|]. split; [by vm_compute|].
  apply (frontier_order_invariant demo_env demo_world demo_schedule demo_rel);
    [exact demo_booted| |by left|by vm_compute].
  repeat (constructor; [split_and!; by vm_compute|]). constructor.
Defined.

(** C2: outside recovery, while a relation is neither recreated nor
    dropped, the blocks that reservations hand out for one of its forks are
    pairwise distinct: each is larger than all handed out before, none lies
    below the committed frontier, and a failed or interleaved operation never
    lets a block be handed out twice. *)
Theorem reservation_unique `{SuperStoreLaws T} `{FileLayerLaws F}
    (env0 : Env) (w : World T F) pre ops r e f :
  booted env0 w → InRecovery env0 = false →
  schedule_ok false pre → schedule_ok false ops → fork_mapped f →
  Forall (λ eo, ¬ op_replaces eo.2 r) ops →
  let w0 := (run_schedule pre w).2 in
  ss_map (w_store w0) !! r = Some e →
  let blocks := granted r f (run_schedule ops w0).1 in
  StronglySorted Z.lt blocks ∧ Forall (λ n, fork_next (super e) f ≤ n < MaxBlockNumber) blocks.
Proof.
  intros Hb%booted_inv Hr Hpre Hops Hf Hnr w0 He blocks.
  pose proof (schedule_inv _ _ _ env0 Hpre Hr Hb) as Hi. fold w0 in Hi.
  pose proof (schedule_inv _ _ _ env0 Hops Hr Hi) as (_ & Hes' & _).
  destruct (schedule_grants ops w0 r e f env0 Hops Hr Hi Hf Hnr He)
    as (Hs & Hlo & e' & He' & Hhi & _).
  split; [done|]. destruct Hi as (_ & Hes & _).
  destruct (Hes r e He) as (_ & _ & _ & _ & Hfr & _). specialize (Hfr f Hf).
  destruct (Hes' r e' He') as (_ & _ & _ & _ & Hfr' & _). specialize (Hfr' f Hf).
  rewrite Forall_forall in Hlo, Hhi |- *. intros n Hn.
  specialize (Hlo n Hn). specialize (Hhi n Hn). simpl in *. lia.
Qed.

Lemma reservation_unique_witness :
  let w0 := (run_schedule (take 1 demo_schedule) demo_world).2 in
  let blocks := granted demo_rel MAIN_FORKNUM (run_schedule (drop 1 demo_schedule) w0).1 in
  ∃ e, ss_map (w_store w0) !! demo_rel = Some e ∧ blocks = [0; 1; 2] ∧
    StronglySorted Z.lt blocks ∧
    Forall (λ n, fork_next (super e) MAIN_FORKNUM ≤ n < MaxBlockNumber) blocks.
Proof.
  eexists. split; [by vm_compute|]. split; [by vm_compute|].
  apply (reservation_unique demo_env demo_world (take 1 demo_schedule)
            (drop 1 demo_schedule) demo_rel _ MAIN_FORKNUM).
  - exact demo_booted.
  - done.
  - repeat (constructor; [split_and!; by vm_compute|]). constructor.
  - repeat (constructor; [split_and!; by vm_compute|]). constructor.
  - by left.
  - repeat (constructor; [by vm_compute|]). constructor.
  - by vm_compute.
Defined.

(** C27: outside recovery no superblock is on disk whose last update lies
    beyond the flushed WAL, at any point of any schedule: creation, checkpoint
    writeback and failed operations all flush the WAL first. *)
Theorem superblock_wal_before_data `{SuperStoreLaws T} `{FileLayerLaws F}
    (env0 : Env) (w : World T F) ops r s :
  booted env0 w → InRecovery env0 = false → schedule_ok false ops →
  disk_super (w_files (run_schedule ops w).2) r = Some s →
  last_updated_lsn s ≤ w_flushed (run_schedule ops w).2.
Proof.
  intros Hb%booted_inv Hr Hops Hs.
  destruct (schedule_inv _ _ _ env0 Hops Hr Hb) as (_ & _ & _ & Hd).
  by apply (Hd r s Hs).
Qed.

Lemma superblock_wal_before_data_witness :
  ∃ s, disk_super (w_files (run_schedule demo_schedule demo_world).2) demo_rel = Some s ∧
    last_updated_lsn s = 95 ∧
    last_updated_lsn s ≤ w_flushed (run_schedule demo_schedule demo_world).2.
Proof.
  eexists. split; [by vm_compute|]. split; [by vm_compute|].
  eapply (superblock_wal_before_data demo_env demo_world demo_schedule demo_rel);
    [exact demo_booted|done| |by vm_compute].
  repeat (constructor; [split_and!; by vm_compute|]). constructor.
Defined.
