(* ===== verification/SBlockSpec.v ===== *)
(** * What the superblock operations compute

    Functional specifications of the operations of [SBlock] on a trusted
    entry: the physical bump, the writeback followed by a restart, and the
    extension of a fork with its error path. *)

From S2P Require Import Prelude MapLayout Crc32c Superblock SuperTable FileLayer SBlock SBlockInv.
From S2P Require Import SBlockSafety.

Local Open Scope Z_scope.

Definition fork_capacity (s : MapSuperblock) (f : ForkNumber) : Z :=
  match MapSuperblockGetPhysCapacity s f with
  | Ok v => MapNormalizeForkBlockCount f v
  | Err _ => 0
  end.

Definition fork_logical (s : MapSuperblock) (f : ForkNumber) : Z :=
  match MapSuperblockGetLogicalNblocks s f with
  | Ok v => v
  | Err _ => 0
  end.

Lemma set_next_capacity s f v s' f' :
  MapSuperblockSetNextFreePhysBlock s f v = Ok s' → fork_capacity s' f' = fork_capacity s f'.
Proof. destruct s, f; simpl; intros [= <-]; destruct f'; done. Qed.

Lemma set_capacity_capacity s f v s' f' :
  MapSuperblockSetPhysCapacity s f v = Ok s' →
  fork_capacity s' f' =
    if decide (f' = f) then MapNormalizeForkBlockCount f v else fork_capacity s f'.
Proof. destruct s, f; simpl; intros [= <-]; destruct f'; done. Qed.

Lemma set_next_logical s f v s' f' :
  MapSuperblockSetNextFreePhysBlock s f v = Ok s' → fork_logical s' f' = fork_logical s f'.
Proof. destruct s, f; simpl; intros [= <-]; destruct f'; done. Qed.

Lemma set_capacity_logical s f v s' f' :
  MapSuperblockSetPhysCapacity s f v = Ok s' → fork_logical s' f' = fork_logical s f'.
Proof. destruct s, f; simpl; intros [= <-]; destruct f'; done. Qed.

Lemma set_lsn_capacity s l f : fork_capacity (set_lsn l s) f = fork_capacity s f.
Proof. by destruct s. Qed.

Lemma set_lsn_logical s l f : fork_logical (set_lsn l s) f = fork_logical s f.
Proof. by destruct s. Qed.

Section spec.
Context {T F : Type} `{SuperStoreLaws T} `{FileLayerLaws F} (env : Env).
Local Abbreviation W := (World T F).

(** Only the entry of [r] differs. *)
Definition same_others (r : RelFileLocator) (w w' : W) : Prop :=
  ∀ r', r' ≠ r → ss_map (w_store w') !! r' = ss_map (w_store w) !! r'.

Lemma prepare_trusted r lsn msg (w : W) e :
  ss_wf (w_store w) → has r e w → entry_untrusted e = false →
  MapSuperPrepareEntryForUpdate env r lsn msg w = (Ok (Some e), w).
Proof.
  intros Hwf He Hu.
  unfold MapSuperPrepareEntryForUpdate, find_entry, gets, mbind, M_bind.
  rewrite ss_find_spec by done. rewrite He. unfold mret, M_ret. by rewrite Hu.
Qed.

Lemma put_run r (w : W) e e' :
  ss_wf (w_store w) → has r e w → key e' = r → in_use e' = true →
  let w' := set_store (ss_put (w_store w) r e') w in
  put_entry r e' w = (Ok tt, w') ∧ ss_wf (w_store w') ∧ has r e' w' ∧ same_others r w w'.
Proof.
  intros Hwf He Hk Hu. destruct (ss_put_spec (w_store w) r e e') as [Hwf' Hm]; try done.
  simpl. split_and!; [done|done| |].
  - unfold has. simpl. by rewrite Hm, lookup_insert_eq.
  - intros r' Hr'. simpl. rewrite Hm. by rewrite lookup_insert_ne.
Qed.

Lemma mapped_getters f s :
  fork_mapped f →
  (∃ v, MapSuperblockGetNextFreePhysBlock s f = Ok v ∧
        MapNormalizeForkBlockCount f v = fork_next s f) ∧
  (∃ v, MapSuperblockGetPhysCapacity s f = Ok v ∧
        MapNormalizeForkBlockCount f v = fork_capacity s f).
Proof.
  intros Hf. unfold fork_next, fork_capacity.
  destruct s; destruct Hf as [->|[->| ->]]; simpl; split; eauto.
Qed.

Lemma mapped_setters f s v :
  fork_mapped f → (∃ s', MapSuperblockSetNextFreePhysBlock s f v = Ok s') ∧
  (∃ s', MapSuperblockSetPhysCapacity s f v = Ok s').
Proof. intros Hf. destruct s; destruct Hf as [->|[->| ->]]; simpl; split; eauto. Qed.

Lemma bump_next_total e f n :
  fork_mapped f → ∃ e', bump_next_free_entry env e f n = Ok e'.
Proof.
  intros Hf. unfold bump_next_free_entry, mbind, result_bind.
  destruct (mapped_setters f (super e) n Hf) as [[s' ->] _].
  unfold MapSuperMaybeBumpReservedNextFree, MapSuperSetReservedNextFree, mbind, result_bind.
  destruct Hf as [->|[->| ->]]; simpl; case_decide; simpl;
    destruct (InRecovery env); eauto.
Qed.

(** The entry the bump computes, before it is stamped dirty. *)
Lemma bump_entry e f n (do_next do_cap : bool) :
  fork_mapped f → 0 ≤ n ≤ MaxBlockNumber →
  ∃ e1 s1, (if do_next then bump_next_free_entry env e f n else Ok e) = Ok e1 ∧
    (if do_cap then MapSuperblockSetPhysCapacity (super e1) f n else Ok (super e1)) = Ok s1 ∧
    key e1 = key e ∧ in_use e1 = in_use e ∧
    ∀ f', fork_mapped f' →
      fork_next s1 f' = (if decide (f' = f ∧ do_next = true) then n else fork_next (super e) f') ∧
      fork_capacity s1 f' =
        (if decide (f' = f ∧ do_cap = true) then n else fork_capacity (super e) f') ∧
      fork_logical s1 f' = fork_logical (super e) f'.
Proof.
  intros Hf Hn.
  assert (∃ e1, (if do_next then bump_next_free_entry env e f n else Ok e) = Ok e1 ∧
    key e1 = key e ∧ in_use e1 = in_use e ∧
    (if do_next then MapSuperblockSetNextFreePhysBlock (super e) f n = Ok (super e1)
     else e1 = e)) as (e1 & He1 & Hk & Hu & Hs).
  { destruct do_next; [|by exists e]. destruct (bump_next_total e f n Hf) as [e1 He1].
    exists e1. by destruct (bump_next_spec env e f n e1 Hf Hn He1) as (? & ? & ? & _). }
  destruct (mapped_setters f (super e1) n Hf) as [_ [s' Hs']].
  exists e1, (if do_cap then s' else super e1).
  split_and!; [done|by destruct do_cap|done|done|]. intros f' Hf'.
  assert (fork_next (if do_cap then s' else super e1) f' = fork_next (super e1) f' ∧
    fork_capacity (if do_cap then s' else super e1) f' =
      (if decide (f' = f ∧ do_cap = true) then n else fork_capacity (super e1) f') ∧
    fork_logical (if do_cap then s' else super e1) f' = fork_logical (super e1) f')
    as (-> & -> & ->).
  { destruct do_cap; [|repeat case_decide; naive_solver].
    rewrite (set_capacity_next _ _ _ _ f' Hs'), (set_capacity_capacity _ _ _ _ f' Hs'),
      (set_capacity_logical _ _ _ _ f' Hs'), normalize_small by lia.
    split_and!; [done| |done]. repeat case_decide; naive_solver. }
  destruct do_next.
  - rewrite (set_next_next _ _ _ _ f' Hs), (set_next_capacity _ _ _ _ f' Hs),
      (set_next_logical _ _ _ _ f' Hs), normalize_small by lia.
    repeat case_decide; naive_solver.
  - subst e1. repeat case_decide; naive_solver.
Qed.

Lemma bump_max (b : bool) (c : ForkNumber → Z) (f f' : ForkNumber) n :
  (if decide (f' = f ∧ b && bool_decide (c f < n) = true) then n else c f') =
  (if decide (f' = f ∧ b = true) then Z.max n (c f') else c f').
Proof.
  destruct (decide (f' = f)) as [->|Hne].
  2:{ by rewrite !decide_False by naive_solver. }
  destruct b; [|by rewrite !decide_False by naive_solver].
  rewrite (decide_True (P := _ ∧ true = true)) by done.
  case_bool_decide; [rewrite decide_True by done | rewrite decide_False by naive_solver]; lia.
Qed.

(** Bumping: each requested counter of the fork becomes the maximum of its
    old value and [n]; everything else is unchanged. *)
Lemma bump_physical_run r f n bn bc lsn (w : W) e :
  world_inv env w → has r e w → entry_untrusted e = false →
  fork_mapped f → 0 ≤ n ≤ MaxBlockNumber →
  ∃ e' w', MapSBlockBumpPhysicalState env r f n bn bc lsn w = (Ok tt, w') ∧
    has r e' w' ∧ same_others r w w' ∧ w_files w' = w_files w ∧
    ∀ f', fork_mapped f' →
      fork_next (super e') f' =
        (if decide (f' = f ∧ bn = true) then Z.max n (fork_next (super e) f')
         else fork_next (super e) f') ∧
      fork_capacity (super e') f' =
        (if decide (f' = f ∧ bc = true) then Z.max n (fork_capacity (super e) f')
         else fork_capacity (super e) f') ∧
      fork_logical (super e') f' = fork_logical (super e) f'.
Proof.
  intros (Hwf & Hes & _) He Hu Hf Hn. unfold MapSBlockBumpPhysicalState.
  assert (MapForkHasMappedState f = true) as -> by (by destruct Hf as [->|[->| ->]]).
  cbn [negb]. unfold mbind at 1, M_bind at 1. rewrite (prepare_trusted _ _ _ _ e) by done.
  destruct (mapped_getters f (super e) Hf) as [(nx & Hnx & Hnx') (cp & Hcp & Hcp')].
  rewrite Hnx, Hcp. unfold lift, mbind, M_bind. cbv zeta. rewrite Hnx', Hcp'.
  set (do_next := bn && _). set (do_cap := bc && _).
  destruct (bump_entry e f n do_next do_cap Hf Hn) as
    (e1 & s1 & -> & -> & Hk & Hu1 & Hvals).
  destruct (Hes r e He) as (Hke & Hue & _).
  destruct (do_next || do_cap) eqn:Hch.
  - destruct (put_run r w e (mark_super_dirty (update_lsn env lsn) (with_super s1 e1)))
      as (-> & _ & Hh & Ho); [done|done|simpl; congruence|simpl; congruence|].
    eexists _, _. split_and!; [done|exact Hh|done|done|]. intros f' Hf'.
    rewrite <-!bump_max. fold do_next do_cap. destruct (Hvals f' Hf') as (<- & <- & <-).
    simpl. split_and!; [apply set_lsn_next|apply set_lsn_capacity|apply set_lsn_logical].
  - apply orb_false_iff in Hch as [Hdn Hdc].
    exists e, w. split_and!; try done. intros f' Hf'. rewrite <-!bump_max.
    fold do_next do_cap. rewrite Hdn, Hdc. by rewrite !decide_False by naive_solver.
Qed.

(** ** Writeback and restart *)

Lemma disk_super_content (f : F) r s :
  disk_super f r = Some s ↔
  ∃ d, fl_content f r UMBRA_METADATA_FORKNUM MAP_BLOCK_SUPER = Some d ∧
    s = MapSuperblockUnpackSector (take MAP_SUPERBLOCK_SIZE d) ∧
    MapSuperblockHasValidIdentity s = true ∧ MapSuperblockCheckCRC s = true.
Proof.
  unfold disk_super, MapSuperblockIsValid. split.
  - destruct (fl_content _ _ _ _) as [d|]; [|done].
    destruct (MapSuperblockHasValidIdentity _) eqn:Hid; [|done].
    destruct (MapSuperblockCheckCRC _) eqn:Hcrc; [|done].
    intros Hs. apply (f_equal (default zero_super)) in Hs. simpl in Hs. subst s. eauto.
  - intros (d & -> & -> & Hid & Hcrc). cbv zeta. rewrite Hid, Hcrc. done.
Qed.

Lemma populate_super s e :
  ∃ e', populate_entry (MAP_SBLOCK_READ_OK s) e = Ok e' ∧ super e' = s.
Proof. unfold populate_entry, MapSuperResetReservedNextFrees. eexists. split; reflexivity. Qed.

(** A read that finds nothing cached returns what is on disk. *)
Lemma read_uncached r (w : W) t' s :
  ss_wf (w_store w) → ss_map (w_store w) !! r = None → ss_ensure (w_store w) r = Ok t' →
  fl_exists (w_files w) r UMBRA_METADATA_FORKNUM = true →
  disk_super (w_files w) r = Some s →
  (MapSBlockRead r w).1 = Ok (MAP_SBLOCK_READ_OK s).
Proof.
  intros Hwf Hnone Hens Hex (d & Hd & Hs & Hid & Hcrc)%disk_super_content.
  unfold MapSBlockRead, find_entry, gets, mbind, M_bind.
  rewrite ss_find_spec, Hnone by done.
  unfold MapSBlockReadSlow, MapSuperLoadFromDisk, gets, mbind, M_bind, lift.
  rewrite Hex. cbn [negb].
  assert (fl_read (w_files w) r UMBRA_METADATA_FORKNUM MAP_BLOCK_SUPER MAP_SUPERBLOCK_SIZE
          = Ok (take MAP_SUPERBLOCK_SIZE d)) as ->.
  { apply fl_read_spec; [by split; apply Nat.leb_le|eauto]. }
  cbv zeta. rewrite <-Hs, Hid, Hcrc. cbn [negb orb].
  unfold load_entry, ensure_entry, get, mbind, M_bind, lift, put, mret, M_ret.
  rewrite Hens. destruct (ss_ensure_absent _ _ _ Hwf Hnone Hens) as [Hwf' Hm].
  rewrite ss_find_spec, Hm, lookup_insert_eq by done.
  change (has_flag (eflags (fresh_entry r)) MAPSUPER_FLAG_VALID) with false. cbn [negb].
  destruct (populate_super s (fresh_entry r)) as (e' & -> & Hse).
  unfold put_entry, modify. simpl. by rewrite Hse.
Qed.

(** The image of an entry that writeback stores. *)
Definition flushed_super (e : MapSuperEntry) : MapSuperblock :=
  MapSuperblockRefreshCRC (MapSuperblockSetLastUpdatedLSN (super e) (page_lsn e)).

Lemma flush_run r (w : W) e :
  world_inv env w → has r e w → has_flag (eflags e) MAPSUPER_FLAG_DIRTY = true →
  MapSuperblockHasValidIdentity (super e) = true →
  match fl_write (w_files w) r UMBRA_METADATA_FORKNUM MAP_BLOCK_SUPER
          (MapSuperblockPackSector (flushed_super e)) with
  | Ok fs => ∃ w', MapFlushRelationSuperblocks env r w = (Ok 1, w') ∧ w_files w' = fs ∧
      has r (with_eflags (Z.ldiff (eflags e) MAPSUPER_FLAG_DIRTY)
               (with_super (flushed_super e) e)) w' ∧ same_others r w w' ∧
      (InRecovery env = false → page_lsn e ≤ w_flushed w')
  | Err err => ∃ w', MapFlushRelationSuperblocks env r w = (Err err, w') ∧
      w_files w' = w_files w ∧ has r (with_super (flushed_super e) e) w'
  end.
Proof.
  intros (Hwf & Hes & H0' & _) He Hd Hid. destruct (Hes r e He) as (Hk & Hu & _).
  unfold MapFlushRelationSuperblocks, find_entry, gets, mbind, M_bind.
  rewrite ss_find_spec by done. rewrite He, Hd, Hid. cbn [negb].
  unfold MapFlushWriteSuperblockEntry, mbind, M_bind. cbv zeta. fold (flushed_super e).
  set (wal := when _ _).
  assert (∃ w1, wal w = (Ok tt, w1) ∧ w_store w1 = w_store w ∧ w_files w1 = w_files w ∧
            (InRecovery env = false → page_lsn e ≤ w_flushed w1)) as (w1 & -> & Hst & Hfs & Hl).
  { unfold wal. destruct (InRecovery env); simpl; [by exists w|].
    case_bool_decide as Hz; simpl; eexists; (split; [reflexivity|]); simpl;
      split_and!; try done; intros _; [lia|].
    destruct (decide (page_lsn e = InvalidXLogRecPtr)) as [->|]; [done|naive_solver]. }
  destruct (put_run r w1 e (with_super (flushed_super e) e)) as (-> & Hwf2 & Hh2 & Ho2);
    [by rewrite Hst|unfold has; by rewrite Hst|done|done|].
  unfold write_super_sector, get, mbind, M_bind, lift, put. cbn [w_files set_store].
  rewrite Hfs. destruct (fl_write _ _ _ _ _) as [fs|err].
  - set (w2 := set_files fs _).
    destruct (put_run r w2 (with_super (flushed_super e) e)
      (with_eflags (Z.ldiff (eflags e) MAPSUPER_FLAG_DIRTY) (with_super (flushed_super e) e)))
      as (Hput & _ & Hh3 & Ho3); [done|exact Hh2|done|done|].
    unfold mret, M_ret. cbn [eflags with_super]. rewrite Hput.
    eexists. split_and!; [done|done|exact Hh3| |exact Hl].
    intros r' Hr'. rewrite Ho3, <-Hst by done. by apply Ho2.
  - eexists. split_and!; [done|done|exact Hh2].
Qed.

Lemma flushed_super_identity e :
  MapSuperblockHasValidIdentity (flushed_super e) = MapSuperblockHasValidIdentity (super e).
Proof. unfold flushed_super. by destruct (super e). Qed.

Lemma flushed_super_disk (f f' : F) r e :
  super_wf (super e) → is_u64 (page_lsn e) →
  MapSuperblockHasValidIdentity (super e) = true →
  fl_write f r UMBRA_METADATA_FORKNUM MAP_BLOCK_SUPER
    (MapSuperblockPackSector (flushed_super e)) = Ok f' →
  disk_super f' r = Some (flushed_super e).
Proof.
  intros Hwf Hl Hid Hw.
  assert (super_wf (flushed_super e)) as Hwf' by (by apply refresh_crc_wf, set_lsn_wf).
  destruct (fl_write_block f r UMBRA_METADATA_FORKNUM MAP_BLOCK_SUPER
    (MapSuperblockPackSector (flushed_super e)) f') as (d & Hd & Ht); [|by apply pack_sector_is_byte|done|].
  { rewrite length_pack_sector by done. by apply Nat.leb_le. }
  rewrite length_pack_sector in Ht by done.
  apply disk_super_content. exists d. rewrite Ht, sector_roundtrip by done.
  split_and!; [done|done|by rewrite flushed_super_identity|apply refresh_crc_checks].
Qed.

(** ** Extension *)

Lemma has_flag_ldiff v m : has_flag (Z.ldiff v m) m = false.
Proof.
  unfold has_flag. apply bool_decide_eq_false. intros Hn. apply Hn. apply Z.bits_inj'.
  intros i Hi. rewrite Z.land_spec, Z.ldiff_spec, Z.bits_0.
  by destruct (Z.testbit v i), (Z.testbit m i).
Qed.

(** Materialising blocks changes only the files; blocks never disappear, and
    on success the whole range exists. *)
Lemma materialize_run r f n blk (w : W) :
  ∃ res fs, materialize_blocks r f n blk w = (res, set_files fs w) ∧
    (∀ b, is_Some (fl_content (w_files w) r f b) → is_Some (fl_content fs r f b)) ∧
    (∀ b, res = Ok tt → blk ≤ b < blk + Z.of_nat n → is_Some (fl_content fs r f b)).
Proof.
  revert blk w. induction n as [|n IH]; intros blk w.
  { exists (Ok tt), (w_files w). destruct w. split_and!; [done|done|lia]. }
  simpl. unfold gets, mbind, M_bind.
  destruct (fl_block_exists (w_files w) r f blk) eqn:Hex.
  - destruct (IH (blk + 1) w) as (res & fs & Hrun & Hkeep & Hall).
    exists res, fs. split_and!; [exact Hrun|done|]. intros b Hres Hb.
    destruct (decide (b = blk)) as [->|]; [|apply Hall; [done|lia]].
    by apply Hkeep, fl_block_exists_sound.
  - unfold get, lift, put.
    destruct (fl_zeroextend (w_files w) r f blk 1) as [fs1|err] eqn:Hz.
    2:{ exists (Err err), (w_files w). destruct w. split_and!; done. }
    destruct (IH (blk + 1) (set_files fs1 w)) as (res & fs & Hrun & Hkeep & Hall).
    exists res, fs. split_and!; [exact Hrun| |].
    + intros b Hb. apply Hkeep. by eapply fl_zeroextend_keep.
    + intros b Hres Hb. destruct (decide (b = blk)) as [->|]; [|apply Hall; [done|lia]].
      apply Hkeep. eapply fl_zeroextend_block; [done|lia].
Qed.

(** The entry with the extension of [f] claimed up to [n]. *)
Lemma set_target_total e f n :
  fork_mapped f → ∃ e', MapSuperSetExtendingTarget e f n = Ok e' ∧
    key e' = key e ∧ in_use e' = in_use e ∧ super e' = super e ∧ eflags e' = eflags e ∧
    runtime_flags e' = runtime_flags e ∧ MapSuperGetExtendingTarget e' f = n.
Proof.
  intros Hf. unfold MapSuperSetExtendingTarget, MapSuperGetExtendingTarget.
  destruct Hf as [->|[->| ->]]; eexists; split_and!; reflexivity.
Qed.

Lemma untrusted_same e e' :
  super e' = super e → eflags e' = eflags e → entry_untrusted e' = entry_untrusted e.
Proof. unfold entry_untrusted. by intros -> ->. Qed.

Lemma find_run r (w : W) e :
  ss_wf (w_store w) → has r e w → find_entry r w = (Ok (Some e), w).
Proof.
  intros Hwf He. unfold find_entry, gets. rewrite ss_find_spec by done. by rewrite He.
Qed.

Definition released (r : RelFileLocator) (f : ForkNumber) (e : MapSuperEntry) (w : W) : Prop :=
  has r e w ∧ has_flag (runtime_flags e) (MapSuperExtendingFlag f) = false ∧
  MapSuperGetExtendingTarget e f = InvalidBlockNumber.

Lemma abort_run {A} r f err (w : W) e :
  ss_wf (w_store w) → has r e w → key e = r → in_use e = true → fork_mapped f →
  ∃ e' w', extend_abort (A := A) r f (MapSuperExtendingFlag f) err w = (Err err, w') ∧
    released r f e' w' ∧ super e' = super e ∧ w_exc w' = w_exc w ∧ w_files w' = w_files w.
Proof.
  intros Hwf He Hk Hu Hf. unfold extend_abort, mbind, M_bind.
  rewrite (find_run r w e) by done. unfold lift.
  destruct (set_target_total
    (with_runtime (Z.ldiff (runtime_flags e) (MapSuperExtendingFlag f)) e) f
    InvalidBlockNumber Hf) as (e' & -> & Hk' & Hu' & Hs' & Hfl' & Hrf' & Ht').
  destruct (put_run r w e e') as (-> & _ & Hh & _);
    [done|done|by rewrite Hk'|by rewrite Hu'|].
  exists e'. eexists. split_and!; [done| |by rewrite Hs'|done|done].
  split_and!; [exact Hh| |done]. rewrite Hrf'. apply has_flag_ldiff.
Qed.

(** The first iteration of the loop with the claim held at target [n]. *)
Lemma iteration_run r f n (w : W) e :
  ss_wf (w_store w) → has r e w → key e = r → in_use e = true → fork_mapped f →
  entry_untrusted e = false → 0 ≤ n ≤ MaxBlockNumber → 0 ≤ fork_capacity (super e) f < n →
  MapSuperGetExtendingTarget e f = n →
  ∃ res w1, extend_iteration env r f (MapSuperExtendingFlag f) (fork_capacity (super e) f) n w
    = (res, w1) ∧ ss_wf (w_store w1) ∧ w_exc w1 = w_exc w ∧
    match res with
    | Ok o => o = None ∧ ∃ e', released r f e' w1 ∧ fork_capacity (super e') f = n ∧
        (∀ f', fork_next (super e') f' = fork_next (super e) f') ∧
        ∀ b, fork_capacity (super e) f ≤ b < n → is_Some (fl_content (w_files w1) r f b)
    | Err err => has r e w1
    end.
Proof.
  intros Hwf He Hk Hu Hf Htr Hn Hcap Ht. unfold extend_iteration, mbind at 1, M_bind at 1.
  destruct (materialize_run r f (Z.to_nat (n - fork_capacity (super e) f))
              (fork_capacity (super e) f) w) as (res & fs & -> & _ & Hall).
  destruct res as [[]|err].
  2:{ exists (Err err), (set_files fs w). split_and!; done. }
  unfold mbind at 1, M_bind at 1. rewrite (prepare_trusted _ _ _ _ e) by done.
  destruct (mapped_getters f (super e) Hf) as [_ (cp & Hcp & Hcp')].
  destruct (mapped_setters f (super e) n Hf) as [_ [s' Hs']].
  rewrite Hcp, Hs'. unfold lift, mbind, M_bind, result_bind. cbv zeta. rewrite Hcp'.
  rewrite !(decide_True (P := fork_capacity (super e) f < n)) by lia.
  set (e1 := mark_super_dirty _ _).
  assert (MapSuperGetExtendingTarget e1 f = n) as -> by done.
  rewrite Z.max_id, decide_True by lia.
  destruct (set_target_total
    (with_runtime (Z.ldiff (runtime_flags e1) (MapSuperExtendingFlag f)) e1) f
    InvalidBlockNumber Hf) as (e' & -> & Hk' & Hu' & Hse' & _ & Hrf' & Ht').
  destruct (put_run r (set_files fs w) e e') as (-> & Hwf' & Hh & _);
    [done|done|rewrite Hk'; exact Hk|rewrite Hu'; exact Hu|].
  eexists _, _. split_and!; [done|exact Hwf'|done|]. split; [done|].
  exists e'. split_and!.
  - split_and!; [exact Hh|rewrite Hrf'; apply has_flag_ldiff|done].
  - rewrite Hse'. etrans; [apply set_lsn_capacity|]. rewrite (set_capacity_capacity _ _ _ _ _ Hs').
    rewrite decide_True by done. by apply normalize_small; lia.
  - intros f'. rewrite Hse'. etrans; [apply set_lsn_next|]. by eapply set_capacity_next.
  - intros b Hb. apply Hall; [done|]. lia.
Qed.

(** An extension that nobody else is running: one iteration is enough. *)
Lemma ensure_run frame fuel r f n (w : W) e :
  world_inv env w → has r e w → entry_untrusted e = false → fork_mapped f →
  fl_exists (w_files w) r UMBRA_METADATA_FORKNUM = true →
  0 ≤ n ≤ MaxBlockNumber → 0 ≤ fork_capacity (super e) f < n →
  has_flag (runtime_flags e) (MapSuperExtendingFlag f) = false →
  ∃ res w', MapSBlockEnsurePhysicalNblocks env frame (S fuel) r f n w = (res, w') ∧
    ∃ e', released r f e' w' ∧ (∀ f', fork_next (super e') f' = fork_next (super e) f') ∧
    match res with
    | Ok o => o = EnsureDone true ∧ fork_capacity (super e') f = n ∧ w_exc w' = frame ∧
        ∀ b, fork_capacity (super e) f ≤ b < n → is_Some (fl_content (w_files w') r f b)
    | Err _ => super e' = super e ∧ w_exc w' = w_exc w
    end.
Proof.
  intros (Hwf & Hes & _) He Htr Hf Hex Hn Hcap Hfl.
  destruct (Hes r e He) as (Hk & Hu & _).
  unfold MapSBlockEnsurePhysicalNblocks.
  assert (MapForkHasMappedState f = true) as -> by (by destruct Hf as [->|[->| ->]]).
  cbn [negb]. rewrite decide_False by lia. unfold mbind at 1, M_bind at 1.
  assert (MapSBlockEnsureLoaded r w = (Ok true, w)) as ->.
  { unfold MapSBlockEnsureLoaded, gets, mbind, M_bind. rewrite Hex. cbn [negb].
    by rewrite (find_run r w e). }
  cbv zeta. unfold mbind at 1, M_bind at 1, claim_extension, mbind at 1, M_bind at 1.
  rewrite (prepare_trusted _ _ _ _ e) by done.
  destruct (mapped_getters f (super e) Hf) as [_ (cp & -> & Hcp)].
  unfold lift, mbind, M_bind. cbv zeta. rewrite Hcp, decide_False, Hfl by lia.
  destruct (set_target_total
    (with_runtime (Z.lor (runtime_flags e) (MapSuperExtendingFlag f)) e) f n Hf)
    as (e1 & -> & Hk1 & Hu1 & Hs1 & Hf1 & _ & Ht1).
  simpl in Hk1, Hu1, Hs1, Hf1.
  destruct (put_run r w e e1) as (-> & Hwf1 & Hh1 & _); [done|done|congruence|congruence|].
  unfold mret, M_ret, pg_try. cbn [extend_loop]. unfold mbind, M_bind.
  destruct (iteration_run r f n (set_exc frame (set_store (ss_put (w_store w) r e1) w)) e1)
    as (res & w1 & Hit & Hwf2 & Hexc & Hres); rewrite ?Hs1; try done; try congruence.
  { rewrite <-Htr. by apply untrusted_same. }
  rewrite Hs1 in Hit, Hres. rewrite Hit. destruct res as [o|err].
  - destruct Hres as (-> & e' & Hrel & Hce & Hne & Hall).
    eexists _, _. split; [done|]. exists e'. split_and!; done.
  - destruct (abort_run (A := EnsureOutcome) r f err (set_exc (w_exc w) w1) e1)
      as (e' & w' & Hab & Hrel & Hse & Hexc' & _); [done|exact Hres|congruence|congruence|done|].
    eexists _, _. split; [exact Hab|]. exists e'. rewrite Hse, Hs1. split_and!; done.
Qed.

(** ** The recovery repair *)

Lemma init_untrusted r (w : W) e lsn f :
  world_inv env w → has r e w → entry_untrusted e = true →
  InRecovery env = true → lsn ≠ InvalidXLogRecPtr → fork_mapped f →
  ∃ e' w', MapSBlockUpdateLogicalNblocks env r f 0 lsn true w = (Ok tt, w') ∧
    has r e' w' ∧ super e' = MapSuperblockInit 0 ∧ eflags e' = MAPSUPER_FLAG_VALID.
Proof.
  intros (Hwf & Hes & _) He Hu Hr Hl Hf. destruct (Hes r e He) as (Hk & Hue & _).
  unfold MapSBlockUpdateLogicalNblocks.
  assert (MapForkHasMappedState f = true) as -> by (by destruct Hf as [->|[->| ->]]).
  cbn [negb]. unfold mbind at 1, M_bind at 1.
  unfold MapSuperPrepareEntryForUpdate, mbind, M_bind.
  rewrite (find_run r w e) by done. unfold mret, M_ret.
  rewrite Hu, Hr, bool_decide_eq_false_2 by done. cbn [negb orb]. cbv zeta.
  set (e0 := with_eflags _ _).
  assert (∃ e1, MapSuperResetReservedNextFrees e0 = Ok e1 ∧ key e1 = r ∧ in_use e1 = true ∧
            super e1 = super e0 ∧ eflags e1 = eflags e0) as (e1 & -> & Hk1 & Hu1 & Hs1 & Hf1).
  { eexists. split_and!; [reflexivity|exact Hk|exact Hue|reflexivity|reflexivity]. }
  unfold lift.
  destruct (put_run r w e (MapSuperResetReclaimBoundaries e1)) as (-> & _ & Hh & _);
    [done|done|done|done|].
  assert (super (MapSuperResetReclaimBoundaries e1) = MapSuperblockInit 0) as Hs by exact Hs1.
  rewrite Hs. eexists _, _. split_and!; [|exact Hh|exact Hs|exact Hf1].
  destruct Hf as [->|[->| ->]]; reflexivity.
Qed.
End spec.

Lemma demo_inv n : world_inv demo_env (run_schedule (take n demo_schedule) demo_world).2.
Proof.
  apply (schedule_inv false); [|done|apply booted_inv, demo_booted].
  apply Forall_take. repeat (constructor; [split_and!; by vm_compute|]). constructor.
Qed.

(** ** Properties *)

(** On a trusted superblock the physical bump succeeds; each
    requested counter (committed frontier, capacity) of the fork becomes the
    maximum of its old value and the argument, and no other counter, fork,
    relation or file changes. *)
Theorem bump_physical_max `{SuperStoreLaws T} `{FileLayerLaws F} env (w : World T F)
    r f n bn bc lsn e :
  world_inv env w → ss_map (w_store w) !! r = Some e → entry_untrusted e = false →
  fork_mapped f → 0 ≤ n ≤ MaxBlockNumber →
  ∃ e' w', MapSBlockBumpPhysicalState env r f n bn bc lsn w = (Ok tt, w') ∧
    ss_map (w_store w') !! r = Some e' ∧
    (∀ r', r' ≠ r → ss_map (w_store w') !! r' = ss_map (w_store w) !! r') ∧
    w_files w' = w_files w ∧
    ∀ f', fork_mapped f' →
      fork_next (super e') f' =
        (if decide (f' = f ∧ bn = true) then Z.max n (fork_next (super e) f')
         else fork_next (super e) f') ∧
      fork_capacity (super e') f' =
        (if decide (f' = f ∧ bc = true) then Z.max n (fork_capacity (super e) f')
         else fork_capacity (super e) f') ∧
      fork_logical (super e') f' = fork_logical (super e) f'.
Proof. apply bump_physical_run. Qed.

Lemma bump_physical_max_witness :
  let w := (run_schedule (take 1 demo_schedule) demo_world).2 in
  ∃ e e' w', ss_map (w_store w) !! demo_rel = Some e ∧
    MapSBlockBumpPhysicalState demo_env demo_rel MAIN_FORKNUM 7 true false 96 w = (Ok tt, w') ∧
    ss_map (w_store w') !! demo_rel = Some e' ∧
    fork_next (super e') MAIN_FORKNUM =
      (if decide (MAIN_FORKNUM = MAIN_FORKNUM ∧ true = true)
       then Z.max 7 (fork_next (super e) MAIN_FORKNUM) else fork_next (super e) MAIN_FORKNUM).
Proof.
  destruct (ss_map (w_store (run_schedule (take 1 demo_schedule) demo_world).2) !! demo_rel)
    as [e|] eqn:He; [|by vm_compute in He].
  destruct (bump_physical_max demo_env (run_schedule (take 1 demo_schedule) demo_world).2
    demo_rel MAIN_FORKNUM 7 true false 96 e) as (e' & w' & Hrun & He' & _ & _ & Hv).
  - apply demo_inv.
  - exact He.
  - vm_compute in He. injection He as <-. by vm_compute.
  - by left.
  - vm_compute. split; discriminate.
  - exists e, e', w'. split; [exact He|]. split; [exact Hrun|]. split; [exact He'|].
    apply (Hv MAIN_FORKNUM). by left.
Defined.

(** C28: after a dirty superblock is written back, the relation's
    entry is clean, the WAL it depends on is flushed, and a server restarted
    with an empty table reads back the same superblock from disk. *)
Theorem flush_survives_restart `{SuperStoreLaws T} `{FileLayerLaws F} env
    (w w' : World T F) r e :
  world_inv env w → ss_map (w_store w) !! r = Some e →
  has_flag (eflags e) MAPSUPER_FLAG_DIRTY = true →
  MapSuperblockHasValidIdentity (super e) = true →
  fl_exists (w_files w) r UMBRA_METADATA_FORKNUM = true →
  MapFlushRelationSuperblocks env r w = (Ok 1, w') →
  (InRecovery env = false → page_lsn e ≤ w_flushed w') ∧
  (∃ e', ss_map (w_store w') !! r = Some e' ∧ super e' = flushed_super e ∧
     has_flag (eflags e') MAPSUPER_FLAG_DIRTY = false) ∧
  ∀ (t t' : T) missing flushed exc,
    ss_wf t → ss_map t = ∅ → ss_ensure t r = Ok t' →
    (MapSBlockRead r (MkWorld t (w_files w') missing flushed exc)).1 =
      Ok (MAP_SBLOCK_READ_OK (flushed_super e)).
Proof.
  intros Hi He Hd Hid Hex Hrun.
  pose proof (flush_run env r w e Hi He Hd Hid) as Hf.
  destruct (fl_write _ _ _ _ _) as [fs|err] eqn:Hw.
  2:{ destruct Hf as (w2 & Hrun2 & _). rewrite Hrun in Hrun2. by apply (f_equal fst) in Hrun2. }
  destruct Hf as (w2 & Hrun2 & Hfs & Hh & _ & Hl). rewrite Hrun in Hrun2.
  apply (f_equal snd) in Hrun2. simpl in Hrun2. subst w2 fs.
  destruct (proj1 (proj2 Hi) r e He) as (_ & _ & Hwf & [Hu64 _] & _).
  split_and!; [done| |].
  - eexists. split_and!; [exact Hh|done|]. apply has_flag_ldiff.
  - intros t t' mi fl ex Hwt Hm Hens. eapply read_uncached; simpl; try done.
    + by rewrite Hm.
    + erewrite fl_write_exists; [exact Hex|exact Hw].
    + by eapply flushed_super_disk.
Qed.

Lemma flush_survives_restart_witness :
  let w := (run_schedule (take 5 demo_schedule) demo_world).2 in
  ∃ e w', MapFlushRelationSuperblocks demo_env demo_rel w = (Ok 1, w') ∧
    (MapSBlockRead demo_rel
       (MkWorld (MapSuperTableShmemInit 4 2) (w_files w') ∅ 0 0)).1 =
      Ok (MAP_SBLOCK_READ_OK (flushed_super e)).
Proof.
  set (w := (run_schedule (take 5 demo_schedule) demo_world).2).
  destruct (ss_map (w_store w) !! demo_rel) as [e|] eqn:He; [|by vm_compute in He].
  destruct (MapFlushRelationSuperblocks demo_env demo_rel w) as [res w'] eqn:Hrun.
  assert (res = Ok 1) as ->.
  { apply (f_equal fst) in Hrun. simpl in Hrun. rewrite <-Hrun. by vm_compute. }
  destruct (MapSuperEnsureEntryLocked (MapSuperTableShmemInit 4 2) demo_rel)
    as [[s t']|] eqn:Hens; [|by vm_compute in Hens].
  exists e, w'. split; [done|].
  eapply (flush_survives_restart demo_env w w' demo_rel e (demo_inv 5) He); try exact Hrun.
  - vm_compute in He. injection He as <-. by vm_compute.
  - vm_compute in He. injection He as <-. by vm_compute.
  - by vm_compute.
  - by apply (init_table_wf 4 1).
  - by vm_compute.
  - simpl. by rewrite Hens.
Defined.

(** Extending a fork that nobody else is extending finishes after
    one pass of its loop.  If it returns, the capacity is exactly the target
    and every block up to it exists; if the file layer fails, the superblock is
    unchanged; either way the extension claim is given back and no committed
    frontier moved. *)
Theorem extension_materializes `{SuperStoreLaws T} `{FileLayerLaws F} env (w : World T F)
    frame fuel r f n e :
  world_inv env w → ss_map (w_store w) !! r = Some e → entry_untrusted e = false →
  fork_mapped f → fl_exists (w_files w) r UMBRA_METADATA_FORKNUM = true →
  0 ≤ n ≤ MaxBlockNumber → 0 ≤ fork_capacity (super e) f < n →
  has_flag (runtime_flags e) (MapSuperExtendingFlag f) = false →
  ∃ res w' e', MapSBlockEnsurePhysicalNblocks env frame (S fuel) r f n w = (res, w') ∧
    ss_map (w_store w') !! r = Some e' ∧
    has_flag (runtime_flags e') (MapSuperExtendingFlag f) = false ∧
    MapSuperGetExtendingTarget e' f = InvalidBlockNumber ∧
    (∀ f', fork_next (super e') f' = fork_next (super e) f') ∧
    match res with
    | Ok o => o = EnsureDone true ∧ fork_capacity (super e') f = n ∧
        ∀ b, fork_capacity (super e) f ≤ b < n → is_Some (fl_content (w_files w') r f b)
    | Err _ => super e' = super e
    end.
Proof.
  intros Hi He Htr Hf Hex Hn Hcap Hfl.
  destruct (ensure_run env frame fuel r f n w e Hi He Htr Hf Hex Hn Hcap Hfl)
    as (res & w' & Hrun & e' & (Hh & Hc & Ht) & Hnx & Hres).
  exists res, w', e'. split_and!; try done. destruct res; naive_solver.
Qed.

Lemma extension_materializes_witness :
  let w := (run_schedule (take 1 demo_schedule) demo_world).2 in
  ∃ e res w' e', ss_map (w_store w) !! demo_rel = Some e ∧
    MapSBlockEnsurePhysicalNblocks demo_env 7 1 demo_rel MAIN_FORKNUM 3 w = (res, w') ∧
    match res with
    | Ok o => o = EnsureDone true ∧ fork_capacity (super e') MAIN_FORKNUM = 3 ∧
        ∀ b, fork_capacity (super e) MAIN_FORKNUM ≤ b < 3 →
          is_Some (fl_content (w_files w') demo_rel MAIN_FORKNUM b)
    | Err _ => super e' = super e
    end.
Proof.
  set (w := (run_schedule (take 1 demo_schedule) demo_world).2).
  destruct (ss_map (w_store w) !! demo_rel) as [e|] eqn:He; [|by vm_compute in He].
  destruct (extension_materializes demo_env w 7 0 demo_rel MAIN_FORKNUM 3 e)
    as (res & w' & e' & Hrun & _ & _ & _ & _ & Hres).
  - exact (demo_inv 1).
  - exact He.
  - vm_compute in He. injection He as <-. by vm_compute.
  - by left.
  - by vm_compute.
  - vm_compute. split; discriminate.
  - vm_compute in He. injection He as <-. vm_compute. split; [discriminate|reflexivity].
  - vm_compute in He. injection He as <-. by vm_compute.
  - exists e, res, w', e'. split; [exact He|]. split; [exact Hrun|exact Hres].
Defined.

(** C33: a successful extension returns from inside its PG_TRY block, so
    [PG_exception_stack] keeps pointing at the jump buffer of the returned
    function: the next error would jump into a dead stack frame. *)
Theorem extension_leaves_stale_handler `{SuperStoreLaws T} `{FileLayerLaws F} env
    (w w' : World T F) frame fuel r f n e o :
  world_inv env w → ss_map (w_store w) !! r = Some e → entry_untrusted e = false →
  fork_mapped f → fl_exists (w_files w) r UMBRA_METADATA_FORKNUM = true →
  0 ≤ n ≤ MaxBlockNumber → 0 ≤ fork_capacity (super e) f < n →
  has_flag (runtime_flags e) (MapSuperExtendingFlag f) = false → frame ≠ w_exc w →
  MapSBlockEnsurePhysicalNblocks env frame (S fuel) r f n w = (Ok o, w') →
  w_exc w' = frame ∧ w_exc w' ≠ w_exc w.
Proof.
  intros Hi He Htr Hf Hex Hn Hcap Hfl Hfr Hrun.
  destruct (ensure_run env frame fuel r f n w e Hi He Htr Hf Hex Hn Hcap Hfl)
    as (res & w2 & Hrun2 & e' & _ & _ & Hres).
  rewrite Hrun in Hrun2. injection Hrun2 as <- <-. naive_solver.
Qed.

Lemma extension_leaves_stale_handler_witness :
  let w := (run_schedule (take 1 demo_schedule) demo_world).2 in
  ∃ w', MapSBlockEnsurePhysicalNblocks demo_env 7 1 demo_rel MAIN_FORKNUM 3 w =
      (Ok (EnsureDone true), w') ∧ w_exc w' = 7 ∧ w_exc w' ≠ w_exc w.
Proof.
  set (w := (run_schedule (take 1 demo_schedule) demo_world).2).
  destruct (ss_map (w_store w) !! demo_rel) as [e|] eqn:He; [|by vm_compute in He].
  destruct (MapSBlockEnsurePhysicalNblocks demo_env 7 1 demo_rel MAIN_FORKNUM 3 w)
    as [res w'] eqn:Hrun.
  assert (res = Ok (EnsureDone true)) as ->.
  { apply (f_equal fst) in Hrun. simpl in Hrun. rewrite <-Hrun. by vm_compute. }
  exists w'. split; [exact Hrun|].
  apply (extension_leaves_stale_handler demo_env w w' 7 0 demo_rel MAIN_FORKNUM 3 e
           (EnsureDone true) (demo_inv 1) He).
  - vm_compute in He. injection He as <-. by vm_compute.
  - by left.
  - by vm_compute.
  - vm_compute. split; discriminate.
  - vm_compute in He. injection He as <-. vm_compute. split; [discriminate|reflexivity].
  - vm_compute in He. injection He as <-. by vm_compute.
  - by vm_compute.
  - exact Hrun.
Defined.

(** C34: in recovery, an update of an untrusted superblock first
    resets it, but when the update itself changes nothing the reset superblock
    is left clean with a zero checksum, so the very next use finds it
    untrusted again. *)
Theorem repair_left_untrusted `{SuperStoreLaws T} `{FileLayerLaws F} env (w : World T F)
    r f lsn e :
  world_inv env w → ss_map (w_store w) !! r = Some e → entry_untrusted e = true →
  InRecovery env = true → lsn ≠ InvalidXLogRecPtr → fork_mapped f →
  ∃ e' w', MapSBlockBumpLogicalNblocks env r f 0 lsn w = (Ok tt, w') ∧
    ss_map (w_store w') !! r = Some e' ∧
    MapSuperblockHasValidIdentity (super e') = true ∧ entry_untrusted e' = true.
Proof.
  intros Hi He Hu Hr Hl Hf.
  destruct (init_untrusted env r w e lsn f Hi He Hu Hr Hl Hf)
    as (e' & w' & Hrun & He' & Hs & Hfl).
  exists e', w'. split_and!; [exact Hrun|exact He'|by rewrite Hs|].
  unfold entry_untrusted. rewrite Hs, Hfl. by vm_compute.
Qed.

(** A world in recovery whose superblock sector is all zeros. *)
Definition corrupt_env : Env := MkEnv true 100 100.
Definition corrupt_world : World MapSuperTable RefFiles :=
  (MapSBlockRead demo_rel
     (MkWorld (MapSuperTableShmemInit 4 2)
        (MkRefFiles {[ (demo_rel, UMBRA_METADATA_FORKNUM) := {[ 0 := zero_block ]} ]}) ∅ 0 0)).2.

Lemma corrupt_inv : world_inv corrupt_env corrupt_world.
Proof.
  set (w := MkWorld (MapSuperTableShmemInit 4 2)
        (MkRefFiles {[ (demo_rel, UMBRA_METADATA_FORKNUM) := {[ 0 := zero_block ]} ]}) ∅ 0 0).
  pose proof (run_op_inv corrupt_env (OpRead demo_rel) w) as Hrun.
  replace corrupt_world with (run_op corrupt_env (OpRead demo_rel) w).2 by reflexivity.
  apply Hrun; [done|done|]. split_and!; [by apply (init_table_wf 4 1)| |done|].
  - intros r e. replace (ss_map (w_store w)) with (∅ : gmap RelFileLocator MapSuperEntry)
      by (by vm_compute). by rewrite lookup_empty.
  - intros r s (d & Hd & -> & Hid & _)%disk_super_content. exfalso.
    change (rf_content (w_files w) r UMBRA_METADATA_FORKNUM 0 = Some d) in Hd.
    unfold rf_content, rf_block in Hd. simpl in Hd.
    destruct (_ !! (r, _)) as [m|] eqn:Hm; [|done].
    apply lookup_singleton_Some in Hm as [_ <-].
    rewrite lookup_singleton_eq in Hd. case_match; [|done]. injection Hd as <-.
    by vm_compute in Hid.
Qed.

Lemma repair_left_untrusted_witness :
  ∃ e' w', MapSBlockBumpLogicalNblocks corrupt_env demo_rel MAIN_FORKNUM 0 50 corrupt_world
      = (Ok tt, w') ∧
    ss_map (w_store w') !! demo_rel = Some e' ∧
    MapSuperblockHasValidIdentity (super e') = true ∧ entry_untrusted e' = true.
Proof.
  destruct (ss_map (w_store corrupt_world) !! demo_rel) as [e|] eqn:He;
    [|by vm_compute in He].
  apply (repair_left_untrusted corrupt_env corrupt_world demo_rel MAIN_FORKNUM 50 e
           corrupt_inv He).
  - vm_compute in He. injection He as <-. by vm_compute.
  - done.
  - done.
  - by left.
Defined.
