(* ===== verification/MapPreallocSpec.v ===== *)
(** * What preallocation does

    The outcome of one call of [MapMaybePreallocateFork] on a cached relation,
    on every path. *)

From S2P Require Import Prelude MapLayout Crc32c Superblock SuperTable FileLayer SBlock SBlockInv.
From S2P Require Import MapPrealloc SBlockSafety SBlockSpec.

Local Open Scope Z_scope.

(** Blocks between the reservation frontier and the capacity. *)
Definition prealloc_room (e : MapSuperEntry) (f : ForkNumber) : Z :=
  Z.max 0 (fork_capacity (super e) f - fork_reserved e f).

(** Equal but for the superblock and its stamps. *)
Definition same_runtime (e e' : MapSuperEntry) : Prop :=
  runtime_flags e' = runtime_flags e ∧ reserved_next_free e' = reserved_next_free e ∧
  reclaim_boundary e' = reclaim_boundary e ∧ extending_target e' = extending_target e.

Section run.
Context {T F : Type} `{SuperStoreLaws T} `{FileLayerLaws F} (env : Env) (gucs : MapGucs).
Local Abbreviation W := (World T F).

(** Setting the flag and dropping it leaves the entry as it was. *)
Lemma clear_claimed f e :
  has_flag (runtime_flags e) (MapSuperPreallocFlag f) = false →
  clear_prealloc f (with_runtime (Z.lor (runtime_flags e) (MapSuperPreallocFlag f)) e) = e.
Proof.
  intros Hfl. unfold clear_prealloc. destruct e. cbn in *. unfold with_runtime. cbn. f_equal.
  unfold has_flag in Hfl. apply bool_decide_eq_false, dec_stable in Hfl.
  apply Z.bits_inj'. intros i Hi. rewrite Z.ldiff_spec, Z.lor_spec.
  apply (f_equal (λ z, Z.testbit z i)) in Hfl. rewrite Z.land_spec, Z.bits_0 in Hfl.
  by destruct (Z.testbit runtime_flags i), (Z.testbit (MapSuperPreallocFlag f) i).
Qed.

Lemma fork_capacity_range s f : super_wf s → is_u32 (fork_capacity s f).
Proof.
  intros (Hf & _). unfold super_fields, super_widths in Hf. simpl in Hf.
  repeat match goal with H : Forall2 _ (_ :: _) (_ :: _) |- _ => inversion_clear H end.
  unfold fits in *. simpl in *.
  destruct f; unfold fork_capacity; simpl; try apply normalize_u32; unfold is_u32; lia.
Qed.

(** The first critical section takes the flag only under the marks. *)
Lemma prealloc_claim_run r f bg soft hard batch (w : W) e :
  ss_wf (w_store w) → has r e w → entry_ok r e → fork_mapped f → is_u32 batch →
  match prealloc_claim env r f bg soft hard batch w with
  | (Ok (PreallocClaimed n), w') =>
      let e' := with_runtime (Z.lor (runtime_flags e) (MapSuperPreallocFlag f)) e in
      has r e' w' ∧ ss_wf (w_store w') ∧
      has_flag (eflags e) MAPSUPER_FLAG_VALID = true ∧
      has_flag (runtime_flags e) (MapSuperPreallocFlag f) = false ∧
      soft ≤ fork_reserved e f ∧ prealloc_room e f ≤ soft ∧
      (bg = false → prealloc_room e f ≤ hard) ∧
      n = Z.max (fork_capacity (super e) f) (fork_reserved e f) + batch ∧
      fork_capacity (super e) f < n
  | (_, w') => w' = w
  end.
Proof.
  intros Hwf He Hok Hf Hbatch. unfold prealloc_claim.
  unfold mbind at 1, M_bind at 1. rewrite (find_run _ _ e) by done.
  destruct (_ || _) eqn:Hg; [done|]. apply orb_false_iff in Hg as [_ Hv%negb_false_iff].
  destruct (entry_untrusted e); [by destruct (negb _)|].
  destruct (mapped_getters f (super e) Hf) as [_ (cap & Hcap & Hnorm)].
  assert (MapSuperGetReservedNextFree e f = Ok (fork_reserved e f)) as Hres.
  { unfold MapSuperGetReservedNextFree, fork_reserved. by destruct Hf as [->|[->| ->]]. }
  unfold mbind, M_bind, lift. rewrite Hres, Hcap, Hnorm.
  destruct Hok as (Hk & Hu & Hwfs & _ & Hfr & _). specialize (Hfr f Hf).
  pose proof (fork_capacity_range (super e) f Hwfs) as Hcr.
  assert ((if decide (fork_reserved e f < fork_capacity (super e) f)
           then fork_capacity (super e) f - fork_reserved e f else 0) = prealloc_room e f) as Hroom.
  { unfold prealloc_room. case_decide; lia. }
  cbv zeta. rewrite Hroom.
  destruct (decide (fork_reserved e f < soft)); [done|].
  destruct (decide (soft < prealloc_room e f)); [done|].
  destruct (negb bg && _) eqn:Hbg; [done|].
  destruct (has_flag (runtime_flags e) _) eqn:Hfl; [done|].
  unfold is_u32, MaxBlockNumber in *. rewrite !u64_small by (unfold is_u64; lia).
  destruct (decide (InvalidBlockNumber - 1 < _)) as [|Hlim]; [done|].
  unfold InvalidBlockNumber in Hlim. rewrite u32_small by (unfold is_u32; lia).
  destruct (decide (_ ≤ fork_capacity _ _)); [done|].
  destruct (put_run r w e (with_runtime (Z.lor (runtime_flags e) (MapSuperPreallocFlag f)) e))
    as (-> & Hwf' & Hh & _); [done..|].
  split_and!; [done|done|done|done|lia|lia| |lia|lia].
  intros ->. apply bool_decide_eq_false in Hbg. lia.
Qed.
Definition prealloc_post (f : ForkNumber) (bg : bool) (soft hard batch : Z) (e e' : MapSuperEntry)
    (res : result (bool * bool)) : Prop :=
  match res with
  | Ok (true, wake) =>
      let n := Z.max (fork_capacity (super e) f) (fork_reserved e f) + batch in
      wake = false ∧ soft ≤ fork_reserved e f ∧ prealloc_room e f ≤ soft ∧
      (bg = false → prealloc_room e f ≤ hard) ∧
      ∃ s, MapSuperblockSetPhysCapacity (super e) f n = Ok s ∧
        e' = mark_super_dirty (WriteRecPtr env) (with_super s e)
  | _ => e' = e
  end.

(** The rest of the call, once the flag is ours. *)
Lemma prealloc_claimed_run r f bg (w : W) e n :
  let e1 := with_runtime (Z.lor (runtime_flags e) (MapSuperPreallocFlag f)) e in
  ss_wf (w_store w) → has r e1 w → entry_ok r e → fork_mapped f →
  has_flag (eflags e) MAPSUPER_FLAG_VALID = true →
  has_flag (runtime_flags e) (MapSuperPreallocFlag f) = false → fork_capacity (super e) f < n →
  let '(res, w') := prealloc_run env r f bg n w in
  ∃ e', has r e' w' ∧
    match res with
    | Ok (true, wake) => wake = false ∧
        ∃ s, MapSuperblockSetPhysCapacity (super e) f n = Ok s ∧
          e' = mark_super_dirty (WriteRecPtr env) (with_super s e)
    | _ => e' = e
    end.
Proof.
  intros e1 Hwf He (Hk & Hu & _) Hf Hv Hfl Hlt.
  destruct (mapped_getters f (super e) Hf) as [_ (cap & Hcap & Hnorm)].
  destruct (mapped_setters f (super e) n Hf) as [_ [s Hs]].
  assert (clear_prealloc f e1 = e) as Hclear by (by apply clear_claimed).
  unfold prealloc_run, catch, prealloc_files, mbind, M_bind, get, lift. cbv beta iota.
  destruct (fl_exists_sparse (w_files w) r f); [destruct (fl_preallocate (w_files w) r f n) as [[fs ok]|err]|].
  2: { unfold prealloc_abort, mbind, M_bind. rewrite (find_run _ _ e1) by done.
       rewrite Hclear. destruct (put_run r w e1 e) as (-> & _ & Hh & _); [done..|]. by exists e. }
  1: destruct ok.
  all: unfold put, mret, M_ret, prealloc_publish, mbind, M_bind; cbn [fst snd];
    rewrite (find_run _ _ e1) by done.
  2,3: cbn [andb]; unfold mret, M_ret; rewrite Hclear; cbn [fst snd].
  2: destruct (put_run r (set_files fs w) e1 e) as (-> & _ & Hh & _); [done..|]; by exists e.
  2: destruct (put_run r w e1 e) as (-> & _ & Hh & _); [done..|]; by exists e.
  cbn [andb]. change (in_use e1) with (in_use e). change (eflags e1) with (eflags e).
  change (super e1) with (super e). rewrite Hu, Hv. cbn [andb]. unfold lift. rewrite Hcap, Hnorm.
  rewrite decide_True by done. rewrite Hs.
  unfold mret, M_ret. cbv beta iota.
  set (e2 := clear_prealloc f (mark_super_dirty (WriteRecPtr env) (with_super s e1))).
  destruct (put_run r (set_files fs w) e1 e2) as (-> & _ & Hh & _); [done..|].
  exists e2. split; [done|]. split; [by destruct bg|]. exists s. split; [done|].
  unfold e2, e1, mark_super_dirty, clear_prealloc in *. destruct e. cbn in *.
  by injection Hclear as ->.
Qed.
End run.

(** ** Property *)

(** C30: preallocation grows the capacity of a cached fork only when the
    blocks left behind the reservation frontier are at or under the low-water
    mark (the hard mark for a backend's own call), to one batch above the
    larger of capacity and frontier; frontiers, boundary and runtime flags are
    kept, the claim flag included.  On every other outcome, errors of the file
    layer included, the entry is exactly as before. *)
Theorem preallocation_outcome `{SuperStoreLaws T} `{FileLayerLaws F} env gucs (w : World T F)
    r f bg soft hard batch e :
  world_inv env w → ss_map (w_store w) !! r = Some e → fork_mapped f →
  MapForkPreallocSettings gucs f = Some (soft, hard, batch) →
  let '(res, w') := MapMaybePreallocateFork env gucs r f bg w in
  ∃ e', ss_map (w_store w') !! r = Some e' ∧ same_runtime e e' ∧
    prealloc_post env f bg soft hard batch e e' res.
Proof.
  intros Hi He Hf Hset. pose proof Hi as (Hwf & Hes & _). pose proof (Hes r e He) as Hok.
  assert (MapForkHasMappedState f = true) as Hms by (by destruct Hf as [->|[->| ->]]).
  unfold MapMaybePreallocateFork. rewrite Hms, Hset. cbn [negb].
  assert (is_u32 batch) as Hb.
  { unfold MapForkPreallocSettings in Hset. repeat case_match; simplify_eq; apply u32_range. }
  unfold mbind at 1, M_bind at 1, MapSBlockEnsureLoaded, gets, mbind at 1, M_bind at 1.
  destruct (fl_exists (w_files w) r UMBRA_METADATA_FORKNUM); cbn [negb]; [|by exists e].
  unfold mbind at 1, M_bind at 1. rewrite (find_run _ _ e) by done.
  unfold mret at 1, M_ret at 1, mbind at 1, M_bind at 1.
  pose proof (prealloc_claim_run env r f bg soft hard batch w e Hwf He Hok Hf Hb) as Hrun.
  destruct (prealloc_claim env r f bg soft hard batch w) as [[[wake|n]|err] w1];
    [by subst; exists e| |by subst; exists e].
  destruct Hrun as (He1 & Hwf1 & Hv & Hfl & H1' & H2' & H3' & -> & Hlt).
  pose proof (prealloc_claimed_run env r f bg w1 e _ Hwf1 He1 Hok Hf Hv Hfl Hlt) as Hrest.
  destruct (prealloc_run _ _ _ _ _ w1) as [res w']. destruct Hrest as (e' & He' & Hres). exists e'. split; [done|].
  unfold prealloc_post. destruct res as [[[] wake]|err]; [|by subst..].
  destruct Hres as (-> & s & Hs & ->). split; [done|]. split_and!; [done..|by eauto].
Qed.

Definition demo_gucs : MapGucs := MkMapGucs 4 2 8 4 2 8 4 2 8.

(** The demo world after six reservations: no capacity is left. *)
Definition demo_full : World MapSuperTable RefFiles :=
  (run_schedule (take 1 demo_schedule ++
     replicate 6 (demo_env, OpReserve demo_rel MAIN_FORKNUM true)) demo_world).2.

Lemma demo_full_inv : world_inv demo_env demo_full.
Proof.
  apply (schedule_inv false); [|done|apply booted_inv, demo_booted].
  repeat (constructor; [split_and!; by vm_compute|]). constructor.
Qed.

Lemma preallocation_outcome_witness :
  ∃ e w' e', ss_map (w_store demo_full) !! demo_rel = Some e ∧ fork_reserved e MAIN_FORKNUM = 6 ∧
    MapMaybePreallocateFork demo_env demo_gucs demo_rel MAIN_FORKNUM false demo_full =
      (Ok (true, false), w') ∧
    ss_map (w_store w') !! demo_rel = Some e' ∧ fork_capacity (super e') MAIN_FORKNUM = 14.
Proof.
  destruct (ss_map (w_store demo_full) !! demo_rel) as [e|] eqn:He; [|by vm_compute in He].
  pose proof (preallocation_outcome demo_env demo_gucs demo_full demo_rel MAIN_FORKNUM false 4 2 8 e
    demo_full_inv He (or_introl eq_refl) eq_refl) as Hrun.
  vm_compute in He. injection He as <-.
  destruct (MapMaybePreallocateFork _ _ _ _ _ _) as [res w'] eqn:Hm.
  assert (res = Ok (true, false)) as -> by (apply (f_equal fst) in Hm; vm_compute in Hm; congruence).
  destruct Hrun as (e' & He' & _ & _ & _ & _ & _ & s & Hs & Heq).
  eexists _, w', e'. split_and!; [exact eq_refl|exact eq_refl|exact eq_refl|exact He'|].
  rewrite Heq. vm_compute in Hs. injection Hs as <-. exact eq_refl.
Defined.
