(* ===== verification/BufState.v ===== *)
(** * The state word of a map buffer

    [storage/map/mapbuf.c] keeps pin count, usage count and flags of a buffer
    in one atomic 32-bit word.  Every loop around
    [pg_atomic_compare_exchange_u32] in that file acts as one atomic update of
    the word; the functions below are those updates.  The theorems relate the
    word to its fields, show that the I/O protocol loses no dirty page under
    any interleaving of other updates, and exhibit the interleavings the code
    does not guard against. *)

From S2P Require Import Prelude.

Local Open Scope Z_scope.

Definition MAPBUF_VALID_MASK : Z := 0x000001FF.
Definition MAPBUF_USAGE_COUNT_SHIFT : Z := 9.
Definition MAPBUF_USAGE_COUNT_MASK : Z := 0x00003E00.
Definition MAPBUF_DIRTY : Z := 0x00004000.
Definition MAPBUF_IO_IN_PROGRESS : Z := 0x00008000.
Definition MAPBUF_IO_ERROR : Z := 0x00010000.
Definition MAPBUF_JUST_DIRTIED : Z := 0x00020000.
Definition MAPBUF_NOT_MATERIALIZED : Z := 0x00040000.
Definition MAPBUF_CHECKPOINT_NEEDED : Z := 0x00080000.
Definition MAPBUF_USAGECOUNT_ONE : Z := 0x00000200.

Definition MAPBUF_GET_REFCOUNT (state : Z) : Z := Z.land state MAPBUF_VALID_MASK.
Definition MAPBUF_GET_USAGECOUNT (state : Z) : Z :=
  Z.shiftr (Z.land state MAPBUF_USAGE_COUNT_MASK) MAPBUF_USAGE_COUNT_SHIFT.

(** ** Atomic updates *)

Definition MapBufferUpdateStateBits (old_state set_bits clear_bits : Z) : Z :=
  Z.ldiff (Z.lor old_state set_bits) clear_bits.

Definition refcount_overflow : pg_error :=
  PgError ERROR ERRCODE_INTERNAL_ERROR "map buffer reference count overflow".
Definition refcount_underflow : pg_error :=
  PgError ERROR ERRCODE_INTERNAL_ERROR "map buffer refcount underflow".

(** First loop of [MapPinBuffer]. *)
Definition pin_refcount (old_state : Z) : result Z :=
  if decide (MAPBUF_VALID_MASK ≤ MAPBUF_GET_REFCOUNT old_state) then Err refcount_overflow
  else Ok (u32 (old_state + 1)).

(** Second loop of [MapPinBuffer]; [state] is what the first one stored. *)
Definition pin_usage (adjust_usage : bool) (state old_state : Z) : Z :=
  if adjust_usage && bool_decide (MAPBUF_GET_USAGECOUNT state < 5)
  then u32 (old_state + MAPBUF_USAGECOUNT_ONE) else old_state.

Definition unpin_refcount (old_state : Z) : result Z :=
  if decide (MAPBUF_GET_REFCOUNT old_state = 0) then Err refcount_underflow
  else Ok (u32 (old_state - 1)).

(** The usage decrement of the clock sweep ([mapclock.c]). *)
Definition sweep_decrement (old_state : Z) : Z := u32 (old_state - MAPBUF_USAGECOUNT_ONE).

(** The tests and the update of [MapStartBufferIO]; [None] is the [false]
    return. *)
Definition start_io (required_bits state : Z) : option Z :=
  if decide (Z.land state MAPBUF_DIRTY = 0 ∨
             Z.land state required_bits ≠ required_bits) then None
  else Some (Z.ldiff (Z.lor state MAPBUF_IO_IN_PROGRESS)
               (Z.lor MAPBUF_IO_ERROR MAPBUF_JUST_DIRTIED)).

Definition terminate_io (clear_dirty : bool) (set_flag_bits old_state : Z) : Z :=
  let new_state := Z.ldiff old_state (Z.lor MAPBUF_IO_IN_PROGRESS MAPBUF_IO_ERROR) in
  let new_state :=
    if clear_dirty then
      let new_state := Z.ldiff new_state MAPBUF_CHECKPOINT_NEEDED in
      if decide (Z.land old_state MAPBUF_JUST_DIRTIED = 0)
      then Z.ldiff new_state MAPBUF_DIRTY else new_state
    else new_state in
  Z.lor new_state set_flag_bits.

(** The flag part of [MapMarkBufferDirty]. *)
Definition mark_dirty (state : Z) : Z :=
  MapBufferUpdateStateBits state (Z.lor MAPBUF_DIRTY MAPBUF_JUST_DIRTIED) 0.

(** ** Fields *)

(** The word with the given fields; [fl] holds the flag bits from bit 14 up. *)
Definition word (ref usage fl : Z) : Z := ref + 512 * usage + 16384 * fl.

Definition word_ok (ref usage fl : Z) : Prop :=
  0 ≤ ref < 512 ∧ 0 ≤ usage < 32 ∧ 0 ≤ fl < 2 ^ 18.

Lemma word_u32 ref usage fl : word_ok ref usage fl → is_u32 (word ref usage fl).
Proof. unfold word_ok, word, is_u32. lia. Qed.

Lemma word_refcount ref usage fl :
  word_ok ref usage fl → MAPBUF_GET_REFCOUNT (word ref usage fl) = ref.
Proof.
  unfold word_ok, word, MAPBUF_GET_REFCOUNT, MAPBUF_VALID_MASK. intros Hok.
  change 511 with (Z.ones 9). rewrite Z.land_ones by lia. change (2 ^ 9) with 512.
  Z.to_euclidean_division_equations; lia.
Qed.

Lemma word_usage ref usage fl :
  word_ok ref usage fl → MAPBUF_GET_USAGECOUNT (word ref usage fl) = usage.
Proof.
  unfold word_ok, word, MAPBUF_GET_USAGECOUNT, MAPBUF_USAGE_COUNT_MASK,
    MAPBUF_USAGE_COUNT_SHIFT. intros Hok.
  rewrite Z.shiftr_land. change (Z.shiftr 15872 9) with (Z.ones 5).
  rewrite Z.land_ones, Z.shiftr_div_pow2 by lia. change (2 ^ 9) with 512.
  change (2 ^ 5) with 32. Z.to_euclidean_division_equations; lia.
Qed.

(** A flag of the word is a bit of [fl]. *)
Lemma word_flag ref usage fl k :
  word_ok ref usage fl → 14 ≤ k → Z.testbit (word ref usage fl) k = Z.testbit fl (k - 14).
Proof.
  intros Hok Hk. replace k with (k - 14 + 14) at 1 by lia.
  rewrite <-(Z.shiftr_spec _ 14) by lia.
  rewrite Z.shiftr_div_pow2 by lia. change (2 ^ 14) with 16384.
  unfold word_ok, word in *.
  replace ((ref + 512 * usage + 16384 * fl) / 16384) with fl; [done|].
  Z.to_euclidean_division_equations; lia.
Qed.

(** Bit operations on the flag part of a word. *)
Lemma bits_word ref usage fl :
  word_ok ref usage fl → word ref usage fl = Z.lor (Z.shiftl fl 14) (ref + 512 * usage).
Proof.
  intros Hok. unfold word_ok, word in *.
  assert (Z.land (Z.shiftl fl 14) (ref + 512 * usage) = 0) as Hd.
  { apply Z.bits_inj'. intros i Hi. rewrite Z.land_spec, Z.bits_0.
    destruct (decide (i < 14)) as [Hlt|Hge].
    - rewrite Z.shiftl_spec_low by done. done.
    - rewrite (Z.bits_above_log2 (ref + _)); [apply andb_false_r|lia|].
      destruct (decide (ref + 512 * usage = 0)) as [->|]; [simpl; lia|].
      apply Z.lt_le_trans with 14; [|lia]. apply Z.log2_lt_pow2; lia. }
  rewrite <-(Z.lxor_lor _ _ Hd), <-(Z.add_nocarry_lxor _ _ Hd).
  rewrite Z.shiftl_mul_pow2 by lia. change (2 ^ 14) with 16384. lia.
Qed.

Lemma word_update ref usage fl set clear :
  word_ok ref usage fl → 0 ≤ set < 2 ^ 18 → 0 ≤ clear →
  word_ok ref usage (Z.ldiff (Z.lor fl set) clear) ∧
  MapBufferUpdateStateBits (word ref usage fl) (Z.shiftl set 14) (Z.shiftl clear 14) =
    word ref usage (Z.ldiff (Z.lor fl set) clear).
Proof.
  intros Hok Hset Hclear. pose proof Hok as (Hr & Hu & Hf).
  assert (0 ≤ Z.ldiff (Z.lor fl set) clear < 2 ^ 18) as Hb.
  { assert (0 ≤ Z.lor fl set) by (apply Z.lor_nonneg; lia).
    assert (0 ≤ Z.ldiff (Z.lor fl set) clear) by (apply Z.ldiff_nonneg; by left).
    split; [done|]. apply Z.bounded_iff_bits_nonneg; [lia..|]. intros l Hl.
    assert (Z.testbit fl l = false ∧ Z.testbit set l = false) as [E1 E2].
    { split; eapply Z.bounded_iff_bits_nonneg; try apply Hl; lia. }
    by rewrite Z.ldiff_spec, Z.lor_spec, E1, E2. }
  assert (word_ok ref usage (Z.ldiff (Z.lor fl set) clear)) as Hok' by done.
  split; [done|]. rewrite !bits_word by done. unfold MapBufferUpdateStateBits.
  apply Z.bits_inj'. intros i Hi.
  rewrite !Z.ldiff_spec, !Z.lor_spec.
  destruct (decide (i < 14)) as [Hlt|Hge].
  - rewrite !(Z.shiftl_spec_low _ 14 i) by done. simpl.
    by rewrite orb_false_r, andb_true_r.
  - rewrite !(Z.shiftl_spec _ 14 i) by lia. rewrite Z.ldiff_spec, Z.lor_spec.
    assert (Z.testbit (ref + 512 * usage) i = false) as ->.
    { eapply (Z.bounded_iff_bits_nonneg 14); lia. }
    by rewrite !orb_false_r.
Qed.

(** ** Other backends

    What the other backends may do to the word while one of them performs
    I/O.  The usage count never reaches 31 and the sweep only decrements a
    positive count; without these two guards see the last two theorems. *)

Inductive word_act :=
  | APin
  | AUnpin
  | AUsageInc
  | AUsageDec
  | AMarkDirty
  | ASetCheckpoint
  | ASetNotMaterialized
  | AClearNotMaterialized.

Definition is_mark (a : word_act) : bool :=
  match a with AMarkDirty => true | _ => false end.

(** [None]: the update reports an error and leaves the word alone. *)
Definition act (a : word_act) (s : Z) : option Z :=
  match a with
  | APin => match pin_refcount s with Ok s' => Some s' | Err _ => None end
  | AUnpin => match unpin_refcount s with Ok s' => Some s' | Err _ => None end
  | AUsageInc => if decide (MAPBUF_GET_USAGECOUNT s < 31)
                 then Some (u32 (s + MAPBUF_USAGECOUNT_ONE)) else None
  | AUsageDec => if decide (MAPBUF_GET_USAGECOUNT s ≠ 0)
                 then Some (sweep_decrement s) else None
  | AMarkDirty => Some (mark_dirty s)
  | ASetCheckpoint => Some (MapBufferUpdateStateBits s MAPBUF_CHECKPOINT_NEEDED 0)
  | ASetNotMaterialized => Some (MapBufferUpdateStateBits s MAPBUF_NOT_MATERIALIZED 0)
  | AClearNotMaterialized => Some (MapBufferUpdateStateBits s 0 MAPBUF_NOT_MATERIALIZED)
  end.

Fixpoint run_acts (acts : list word_act) (s : Z) : Z :=
  match acts with
  | [] => s
  | a :: acts => run_acts acts (default s (act a s))
  end.

Lemma pin_word ref usage fl :
  word_ok ref usage fl → ref < 511 →
  pin_refcount (word ref usage fl) = Ok (word (ref + 1) usage fl) ∧
  word_ok (ref + 1) usage fl.
Proof.
  intros Hok Hlt. unfold pin_refcount. rewrite word_refcount by done.
  unfold word_ok, word, MAPBUF_VALID_MASK in *. rewrite decide_False by lia.
  rewrite u32_small by (unfold is_u32; lia). split; [f_equal; lia|lia].
Qed.

Lemma unpin_word ref usage fl :
  word_ok ref usage fl → 0 < ref →
  unpin_refcount (word ref usage fl) = Ok (word (ref - 1) usage fl) ∧
  word_ok (ref - 1) usage fl.
Proof.
  intros Hok Hlt. unfold unpin_refcount. rewrite word_refcount by done.
  unfold word_ok, word in *. rewrite decide_False by lia.
  rewrite u32_small by (unfold is_u32; lia). split; [f_equal; lia|lia].
Qed.

Lemma usage_inc_word ref usage fl :
  word_ok ref usage fl → usage < 31 →
  u32 (word ref usage fl + MAPBUF_USAGECOUNT_ONE) = word ref (usage + 1) fl ∧
  word_ok ref (usage + 1) fl.
Proof.
  unfold word_ok, word, MAPBUF_USAGECOUNT_ONE. intros Hok Hlt.
  rewrite u32_small by (unfold is_u32; lia). split; lia.
Qed.

Lemma usage_dec_word ref usage fl :
  word_ok ref usage fl → 0 < usage →
  sweep_decrement (word ref usage fl) = word ref (usage - 1) fl ∧
  word_ok ref (usage - 1) fl.
Proof.
  unfold sweep_decrement, word_ok, word, MAPBUF_USAGECOUNT_ONE. intros Hok Hlt.
  rewrite u32_small by (unfold is_u32; lia). split; lia.
Qed.

(** What an update does to the fields: flags change only by [AMarkDirty]
    (bits 0 and 3), the checkpoint bit 5 and the materialisation bit 4. *)
Lemma act_fields a ref usage fl :
  word_ok ref usage fl →
  ∃ ref' usage' fl', default (word ref usage fl) (act a (word ref usage fl)) =
      word ref' usage' fl' ∧ word_ok ref' usage' fl' ∧
    Z.testbit fl' 0 = Z.testbit fl 0 || is_mark a ∧
    Z.testbit fl' 3 = Z.testbit fl 3 || is_mark a ∧
    Z.testbit fl' 1 = Z.testbit fl 1.
Proof.
  intros Hok. pose proof Hok as (Hr & Hu & Hf).
  assert (∀ set clear, 0 ≤ set < 2 ^ 18 → 0 ≤ clear →
    (∀ i, 0 ≤ i → Z.testbit (Z.ldiff (Z.lor fl set) clear) i =
      (Z.testbit fl i || Z.testbit set i) && negb (Z.testbit clear i))) as Hbits.
  { intros set clear _ _ i _. by rewrite Z.ldiff_spec, Z.lor_spec. }
  destruct a; cbn [act is_mark]; rewrite ?orb_false_r.
  - destruct (decide (ref < 511)) as [Hlt|].
    + destruct (pin_word ref usage fl Hok Hlt) as [-> Hok']. by eexists _, _, _.
    + unfold pin_refcount. rewrite word_refcount, decide_True by (done || unfold MAPBUF_VALID_MASK; lia).
      by eexists _, _, _.
  - destruct (decide (0 < ref)) as [Hlt|].
    + destruct (unpin_word ref usage fl Hok Hlt) as [-> Hok']. by eexists _, _, _.
    + unfold unpin_refcount. rewrite word_refcount, decide_True by (done || lia).
      by eexists _, _, _.
  - rewrite word_usage by done. case_decide as Hlt; [|by eexists _, _, _].
    cbn [from_option id]. destruct (usage_inc_word ref usage fl Hok Hlt) as [-> Hok']. by eexists _, _, _.
  - rewrite word_usage by done. case_decide as Hlt; [|by eexists _, _, _].
    cbn [from_option id]. destruct (usage_dec_word ref usage fl Hok ltac:(lia)) as [-> Hok'].
    by eexists _, _, _.
  - destruct (word_update ref usage fl 9 0 Hok) as [Hok' Hw]; [lia..|].
    eexists _, _, _. split_and!; [exact Hw|done|..]; rewrite Hbits by lia; simpl;
      by rewrite ?orb_true_r, ?orb_false_r, ?andb_true_r.
  - destruct (word_update ref usage fl 32 0 Hok) as [Hok' Hw]; [lia..|].
    eexists _, _, _. split_and!; [exact Hw|done|..]; rewrite Hbits by lia; simpl;
      by rewrite ?orb_false_r, ?andb_true_r.
  - destruct (word_update ref usage fl 16 0 Hok) as [Hok' Hw]; [lia..|].
    eexists _, _, _. split_and!; [exact Hw|done|..]; rewrite Hbits by lia; simpl;
      by rewrite ?orb_false_r, ?andb_true_r.
  - destruct (word_update ref usage fl 0 16 Hok) as [Hok' Hw]; [lia..|].
    eexists _, _, _. split_and!; [exact Hw|done|..]; rewrite Hbits by lia; simpl;
      by rewrite ?orb_false_r, ?andb_true_r.
Qed.

Lemma acts_fields acts ref usage fl :
  word_ok ref usage fl →
  ∃ ref' usage' fl', run_acts acts (word ref usage fl) = word ref' usage' fl' ∧
    word_ok ref' usage' fl' ∧
    Z.testbit fl' 0 = Z.testbit fl 0 || existsb is_mark acts ∧
    Z.testbit fl' 3 = Z.testbit fl 3 || existsb is_mark acts ∧
    Z.testbit fl' 1 = Z.testbit fl 1.
Proof.
  revert ref usage fl. induction acts as [|a acts IH]; intros ref usage fl Hok;
    cbn [run_acts existsb].
  { eexists _, _, _. by rewrite !orb_false_r. }
  destruct (act_fields a ref usage fl Hok) as (r1 & u1 & f1 & -> & Hok1 & H0 & H3 & H1).
  destruct (IH r1 u1 f1 Hok1) as (r2 & u2 & f2 & -> & Hok2 & H0' & H3' & H1').
  eexists _, _, _. split_and!; [done|done|..];
    rewrite ?H0', ?H3', ?H1', ?H0, ?H3, ?H1, ?orb_assoc; done.
Qed.

Lemma u32_word s : is_u32 s → ∃ ref usage fl, s = word ref usage fl ∧ word_ok ref usage fl.
Proof.
  unfold is_u32, word, word_ok. intros Hs.
  exists (s mod 512), (s / 512 mod 32), (s / 16384).
  Z.to_euclidean_division_equations; lia.
Qed.

Lemma start_io_word required ref usage fl s1 :
  word_ok ref usage fl → start_io required (word ref usage fl) = Some s1 →
  ∃ fl', s1 = word ref usage fl' ∧ word_ok ref usage fl' ∧
    Z.testbit fl 0 = true ∧ Z.testbit fl' 0 = true ∧ Z.testbit fl' 1 = true ∧
    Z.testbit fl' 3 = false.
Proof.
  intros Hok. unfold start_io. case_decide as Hg; [done|]. intros [= <-].
  destruct (word_update ref usage fl 2 12 Hok) as [Hok' Hw]; [lia..|].
  assert (Z.testbit fl 0 = true) as Hd.
  { change 0 with (14 - 14). rewrite <-(word_flag ref usage fl 14) by (done || lia).
    destruct (Z.testbit _ _) eqn:Hb; [done|]. exfalso. apply Hg. left.
    apply has_flag_zero. by rewrite (has_flag_bit _ 14) by lia. }
  exists (Z.ldiff (Z.lor fl 2) 12). split_and!; [exact Hw|done|done|..];
    rewrite Z.ldiff_spec, Z.lor_spec; [by rewrite Hd| |]; simpl;
    by rewrite ?orb_true_r, ?andb_true_r, ?andb_false_r.
Qed.

Lemma terminate_io_bit clear_dirty s i :
  0 ≤ i →
  Z.testbit (terminate_io clear_dirty 0 s) i =
    Z.testbit s i && negb (bool_decide (i = 15)) && negb (bool_decide (i = 16)) &&
    negb (clear_dirty && bool_decide (i = 19)) &&
    negb (clear_dirty && negb (Z.testbit s 17) && bool_decide (i = 14)).
Proof.
  intros Hi. unfold terminate_io. rewrite Z.lor_0_r.
  assert (∀ k, 0 ≤ k → Z.testbit (2 ^ k) i = bool_decide (i = k)) as Hpow.
  { intros k Hk. rewrite Z.pow2_bits_eqb by done. case_bool_decide; [subst; apply Z.eqb_refl|].
    apply Z.eqb_neq. congruence. }
  change MAPBUF_IO_IN_PROGRESS with (2 ^ 15). change MAPBUF_IO_ERROR with (2 ^ 16).
  change MAPBUF_CHECKPOINT_NEEDED with (2 ^ 19). change MAPBUF_DIRTY with (2 ^ 14).
  change MAPBUF_JUST_DIRTIED with (2 ^ 17).
  destruct clear_dirty; [|by rewrite Z.ldiff_spec, Z.lor_spec, !Hpow, !andb_true_r,
    negb_orb, andb_assoc by lia].
  case_decide as Hj.
  - apply has_flag_zero in Hj. rewrite has_flag_bit in Hj by lia. rewrite Hj.
    by rewrite !Z.ldiff_spec, Z.lor_spec, !Hpow, negb_orb, andb_assoc by lia.
  - assert (Z.testbit s 17 = true) as ->.
    { destruct (Z.testbit s 17) eqn:Hb; [done|]. exfalso. apply Hj.
      apply has_flag_zero. by rewrite has_flag_bit by lia. }
    by rewrite !Z.ldiff_spec, Z.lor_spec, !Hpow, negb_orb, andb_assoc, andb_true_r by lia.
Qed.

Lemma terminate_io_refcount clear_dirty s :
  MAPBUF_GET_REFCOUNT (terminate_io clear_dirty 0 s) = MAPBUF_GET_REFCOUNT s.
Proof.
  unfold MAPBUF_GET_REFCOUNT. apply Z.bits_inj'. intros i Hi. rewrite !Z.land_spec.
  destruct (decide (i < 9)) as [Hlt|Hge].
  - rewrite terminate_io_bit by done. rewrite !bool_decide_eq_false_2 by lia.
    by rewrite ?andb_false_r, ?andb_true_r.
  - change MAPBUF_VALID_MASK with (Z.ones 9). rewrite Z.ones_spec_high by lia.
    by rewrite !andb_false_r.
Qed.

(** ** Properties *)

(** Pin count, usage count and flags are independent fields of
    the word: below their limits each update changes its own field by one and
    leaves the others alone, and pins or unpins beyond the limits are refused. *)
Theorem state_word_fields ref usage fl :
  word_ok ref usage fl →
  let s := word ref usage fl in
  MAPBUF_GET_REFCOUNT s = ref ∧ MAPBUF_GET_USAGECOUNT s = usage ∧
  pin_refcount s = (if decide (ref = 511) then Err refcount_overflow
                    else Ok (word (ref + 1) usage fl)) ∧
  unpin_refcount s = (if decide (ref = 0) then Err refcount_underflow
                      else Ok (word (ref - 1) usage fl)) ∧
  (∀ seen, usage < 31 → pin_usage true seen s =
     if decide (MAPBUF_GET_USAGECOUNT seen < 5) then word ref (usage + 1) fl else s) ∧
  (0 < usage → sweep_decrement s = word ref (usage - 1) fl) ∧
  (∀ set clear, 0 ≤ set < 2 ^ 18 → 0 ≤ clear →
     MapBufferUpdateStateBits s (Z.shiftl set 14) (Z.shiftl clear 14) =
       word ref usage (Z.ldiff (Z.lor fl set) clear)).
Proof.
  intros Hok s. pose proof Hok as (Hr & Hu & _).
  split_and!; [by apply word_refcount|by apply word_usage|..].
  - case_decide; [|by apply pin_word; [done|lia]].
    unfold pin_refcount, s. by rewrite word_refcount, decide_True by (done || unfold MAPBUF_VALID_MASK; lia).
  - case_decide; [|by apply unpin_word; [done|lia]].
    unfold unpin_refcount, s. by rewrite word_refcount, decide_True.
  - intros seen Hlt. unfold pin_usage. cbn [andb]. case_bool_decide; case_decide; try done.
    by apply usage_inc_word.
  - intros Hpos. by apply usage_dec_word.
  - intros set clear Hset Hclear. by apply word_update.
Qed.

Lemma state_word_fields_witness :
  pin_refcount (word 511 3 1) = (if decide (511 = 511) then Err refcount_overflow
                                 else Ok (word (511 + 1) 3 1)) ∧
  sweep_decrement (word 2 3 1) = word 2 (3 - 1) 1.
Proof.
  split.
  - apply (state_word_fields 511 3 1). unfold word_ok. lia.
  - apply (state_word_fields 2 3 1); [unfold word_ok|]; lia.
Defined.

(** Whatever the other backends do to the word between the start
    and the end of a buffer write, the page ends clean exactly when nobody
    marked it dirty in between; the I/O flag is held throughout and released,
    and no pin is lost. *)
Theorem io_never_loses_dirty required s s1 acts :
  is_u32 s → start_io required s = Some s1 →
  let s2 := run_acts acts s1 in
  let s3 := terminate_io true 0 s2 in
  has_flag s MAPBUF_DIRTY = true ∧
  has_flag s2 MAPBUF_IO_IN_PROGRESS = true ∧
  has_flag s3 MAPBUF_DIRTY = existsb is_mark acts ∧
  has_flag s3 MAPBUF_IO_IN_PROGRESS = false ∧
  MAPBUF_GET_REFCOUNT s3 = MAPBUF_GET_REFCOUNT s2.
Proof.
  intros (ref & usage & fl & -> & Hok)%u32_word Hs s2 s3.
  destruct (start_io_word _ _ _ _ _ Hok Hs) as (fl1 & -> & Hok1 & Hd & H0 & H1 & H3).
  destruct (acts_fields acts ref usage fl1 Hok1)
    as (r2 & u2 & fl2 & Hs2 & Hok2 & H0' & H3' & H1').
  unfold s3, s2. rewrite Hs2.
  change MAPBUF_DIRTY with (2 ^ 14). change MAPBUF_IO_IN_PROGRESS with (2 ^ 15).
  rewrite !has_flag_bit, !terminate_io_bit by lia.
  rewrite (word_flag ref usage fl 14), (word_flag r2 u2 fl2 15), (word_flag r2 u2 fl2 14),
    (word_flag r2 u2 fl2 17) by (done || lia).
  change (14 - 14) with 0. change (15 - 14) with 1. change (17 - 14) with 3.
  rewrite Hd, H1', H1, H0', H0, H3', H3.
  split_and!; [done|done| |by rewrite andb_false_r|apply terminate_io_refcount].
  by destruct (existsb is_mark acts).
Qed.

Lemma io_never_loses_dirty_witness :
  let s2 := run_acts [APin; AMarkDirty; AUnpin] (word 1 2 (2 ^ 1 + 2 ^ 0)) in
  has_flag (terminate_io true 0 s2) MAPBUF_DIRTY =
    existsb is_mark [APin; AMarkDirty; AUnpin].
Proof.
  apply (io_never_loses_dirty 0 (word 1 2 1) (word 1 2 (2 ^ 1 + 2 ^ 0))
           [APin; AMarkDirty; AUnpin]); [by vm_compute|reflexivity].
Defined.

(** C35: the clock sweep tests the usage count and decrements it in
    separate atomic steps.  When two sweepers pass the test on the same word
    with usage count one, the second decrement borrows from the flags: the
    dirty bit is cleared and the usage count becomes 31, so a modified page is
    taken for clean. *)
Theorem sweep_race_loses_dirty ref fl :
  word_ok ref 1 fl → has_flag (word ref 1 fl) MAPBUF_DIRTY = true →
  let s := word ref 1 fl in
  MAPBUF_GET_USAGECOUNT s ≠ 0 ∧
  has_flag (sweep_decrement (sweep_decrement s)) MAPBUF_DIRTY = false ∧
  MAPBUF_GET_USAGECOUNT (sweep_decrement (sweep_decrement s)) = 31.
Proof.
  intros Hok Hd s. unfold s. clear s. change MAPBUF_DIRTY with (2 ^ 14) in *.
  rewrite has_flag_bit, (word_flag ref 1 fl 14) in Hd by (done || lia).
  assert (Z.odd fl = true) as Hodd by (by rewrite <-Z.bit0_odd).
  apply Z.odd_spec in Hodd as [k Hk].
  destruct (usage_dec_word ref 1 fl Hok) as [-> Hok1]; [lia|].
  assert (sweep_decrement (word ref (1 - 1) fl) = word ref 31 (fl - 1) ∧
          word_ok ref 31 (fl - 1)) as [-> Hok2].
  { unfold sweep_decrement, word, word_ok, MAPBUF_USAGECOUNT_ONE in *.
    rewrite u32_small by (unfold is_u32; lia). lia. }
  split_and!.
  - by rewrite word_usage.
  - rewrite has_flag_bit, (word_flag ref 31 (fl - 1) 14) by (done || lia).
    subst fl. replace (2 * k + 1 - 1) with (2 * k) by lia. apply Z.testbit_even_0.
  - by apply word_usage.
Qed.

Lemma sweep_race_loses_dirty_witness :
  has_flag (sweep_decrement (sweep_decrement (word 0 1 1))) MAPBUF_DIRTY = false ∧
  MAPBUF_GET_USAGECOUNT (sweep_decrement (sweep_decrement (word 0 1 1))) = 31.
Proof. apply (sweep_race_loses_dirty 0 1); by vm_compute. Defined.
