(* ===== verification/MapBuf.v ===== *)
(** * Map buffers

    Descriptors, pages, pins, output I/O, the page cache and the replacement
    clock of [storage/map/mapbuf.c], [storage/map/mapclock.c] and
    [storage/map/mapinit.c], as seen by one running backend: the shared pool
    together with the backend's own pin counts. *)

From S2P Require Import Prelude MapLayout BufState.

Local Open Scope Z_scope.

Definition MAP_PENDING_BITS_PER_WORD : Z := 64.
Definition MAP_PENDING_BITMAP_WORDS : nat := 32.
Definition FREENEXT_END_OF_LIST : Z := -1.
Definition FREENEXT_NOT_IN_LIST : Z := -2.

(** ** State *)

(** [None] is [InvalidForkNumber]; locks are implicit in the step order. *)
Record MapBufferDesc := MkBuf {
  rnode : RelFileLocator;
  forknum : option ForkNumber;
  page_number : Z;
  buf_page_lsn : Z;
  state : Z;
  pending_count : Z;
  pending_bits : list Z;
  freeNext : Z;
}.

#[global] Instance MapBufferDesc_eq_dec : EqDecision MapBufferDesc.
Proof. solve_decision. Defined.

Definition with_state (s : Z) (b : MapBufferDesc) : MapBufferDesc :=
  MkBuf (rnode b) (forknum b) (page_number b) (buf_page_lsn b) s (pending_count b)
    (pending_bits b) (freeNext b).
Definition with_buf_lsn (l : Z) (b : MapBufferDesc) : MapBufferDesc :=
  MkBuf (rnode b) (forknum b) (page_number b) l (state b) (pending_count b)
    (pending_bits b) (freeNext b).
Definition with_free (n : Z) (b : MapBufferDesc) : MapBufferDesc :=
  MkBuf (rnode b) (forknum b) (page_number b) (buf_page_lsn b) (state b) (pending_count b)
    (pending_bits b) n.
Definition with_pending (c : Z) (bits : list Z) (b : MapBufferDesc) : MapBufferDesc :=
  MkBuf (rnode b) (forknum b) (page_number b) (buf_page_lsn b) (state b) c bits (freeNext b).
Definition with_tag (r : RelFileLocator) (f : option ForkNumber) (p l : Z)
    (b : MapBufferDesc) : MapBufferDesc :=
  MkBuf r f p l (state b) (pending_count b) (pending_bits b) (freeNext b).

Abbreviation MapCacheTag := (RelFileLocator * ForkNumber * Z)%type.

Record MapPool := MkPool {
  buffers : list MapBufferDesc;
  pages : list (list Z);              (* the uint32 entries of each page *)
  cache : gmap MapCacheTag Z;
  first_free_buffer : Z;
  next_victim_buffer : Z;
  num_allocs : Z;
  complete_passes : Z;
}.

Definition set_buffers (bs : list MapBufferDesc) (p : MapPool) : MapPool :=
  MkPool bs (pages p) (cache p) (first_free_buffer p) (next_victim_buffer p)
    (num_allocs p) (complete_passes p).
Definition set_pages (ps : list (list Z)) (p : MapPool) : MapPool :=
  MkPool (buffers p) ps (cache p) (first_free_buffer p) (next_victim_buffer p)
    (num_allocs p) (complete_passes p).
Definition set_cache (c : gmap MapCacheTag Z) (p : MapPool) : MapPool :=
  MkPool (buffers p) (pages p) c (first_free_buffer p) (next_victim_buffer p)
    (num_allocs p) (complete_passes p).
Definition set_first_free (x : Z) (p : MapPool) : MapPool :=
  MkPool (buffers p) (pages p) (cache p) x (next_victim_buffer p) (num_allocs p)
    (complete_passes p).
Definition set_victim (v passes : Z) (p : MapPool) : MapPool :=
  MkPool (buffers p) (pages p) (cache p) (first_free_buffer p) v (num_allocs p) passes.
Definition set_allocs (n : Z) (p : MapPool) : MapPool :=
  MkPool (buffers p) (pages p) (cache p) (first_free_buffer p) (next_victim_buffer p) n
    (complete_passes p).

(** The pool and the running backend's [MapPrivateRefCount] and
    [InProgressMapBuf]. *)
Record BufSys := MkSys {
  pool : MapPool;
  private_ref : list Z;
  in_progress : option nat;
}.

Definition set_pool (p : MapPool) (s : BufSys) : BufSys :=
  MkSys p (private_ref s) (in_progress s).

Definition no_rel : RelFileLocator := MkRel 0 0 0.
Definition zero_pending : list Z := replicate MAP_PENDING_BITMAP_WORDS 0.

(** ** Initialisation ([MapShmemInit]) *)

Definition init_buf (n i : nat) : MapBufferDesc :=
  {| rnode := no_rel; forknum := None; page_number := -1; buf_page_lsn := 0; state := 0;
     pending_count := 0; pending_bits := zero_pending;
     freeNext := if decide (i = n - 1)%nat then FREENEXT_END_OF_LIST
                 else Z.of_nat i + 1 |}.

Definition MapShmemInit (map_buffers : nat) : MapPool :=
  {| buffers := init_buf map_buffers <$> seq 0 map_buffers;
     pages := replicate map_buffers (replicate (Z.to_nat MAP_ENTRIES_PER_PAGE) 0);
     cache := ∅; first_free_buffer := 0; next_victim_buffer := 0; num_allocs := 0;
     complete_passes := 0 |}.

(** [MapRefreshBufferSlots] *)
Definition MapRefreshBufferSlots (NBuffers : Z) : Z :=
  let computed_slots := Z.shiftr NBuffers 7 in
  if decide (computed_slots < 4096) then 4096 else computed_slots.

(** ** Access *)

Definition bad_slot : pg_error :=
  PgError PANIC ERRCODE_INTERNAL_ERROR "map buffer slot out of range".

Definition get_buf (slot : nat) : M BufSys MapBufferDesc := λ s,
  match buffers (pool s) !! slot with
  | Some b => (Ok b, s)
  | None => (Err bad_slot, s)
  end.

Definition set_buf (slot : nat) (b : MapBufferDesc) : M BufSys unit :=
  modify (λ s, set_pool (set_buffers (<[slot := b]> (buffers (pool s))) (pool s)) s).

Definition get_page (slot : nat) : M BufSys (list Z) := λ s,
  match pages (pool s) !! slot with
  | Some pg => (Ok pg, s)
  | None => (Err bad_slot, s)
  end.

Definition set_page (slot : nat) (pg : list Z) : M BufSys unit :=
  modify (λ s, set_pool (set_pages (<[slot := pg]> (pages (pool s))) (pool s)) s).

(** One atomic update of the state word. *)
Definition update_state (slot : nat) (f : Z → Z) : M BufSys unit :=
  b ← get_buf slot; set_buf slot (with_state (f (state b)) b).

Definition update_bits (slot : nat) (set_bits clear_bits : Z) : M BufSys unit :=
  update_state slot (λ s, MapBufferUpdateStateBits s set_bits clear_bits).

Definition bump_private (slot : nat) (d : Z) : M BufSys unit :=
  modify (λ s, MkSys (pool s) (alter (λ c, c + d) slot (private_ref s)) (in_progress s)).

Definition set_in_progress (o : option nat) : M BufSys unit :=
  modify (λ s, MkSys (pool s) (private_ref s) o).

(** ** Pins *)

Definition private_count (slot : nat) (s : BufSys) : Z := default 0 (private_ref s !! slot).

Definition MapPinBuffer (slot : nat) (adjust_usage : bool) : M BufSys unit :=
  b ← get_buf slot;
  s1 ← lift (pin_refcount (state b));
  set_buf slot (with_state s1 b);;
  bump_private slot 1;;
  update_state slot (pin_usage adjust_usage s1).

Definition private_underflow : pg_error :=
  PgError ERROR ERRCODE_INTERNAL_ERROR "map buffer private refcount underflow".

Definition MapUnpinBuffer (slot : nat) : M BufSys unit :=
  c ← gets (private_count slot);
  if decide (c = 0) then throw private_underflow
  else
    b ← get_buf slot;
    s1 ← lift (unpin_refcount (state b));
    set_buf slot (with_state s1 b);;
    bump_private slot (-1).

(** ** Output I/O *)

(** [IoBusy]: another backend owns the I/O and this one sleeps in
    [MapWaitIO] before it tries again. *)
Inductive StartIO := IoBusy | IoSkip | IoStarted.

Definition MapStartBufferIO (slot : nat) (required_bits : Z) : M BufSys StartIO :=
  b ← get_buf slot;
  if has_flag (state b) MAPBUF_IO_IN_PROGRESS then mret IoBusy
  else
    match start_io required_bits (state b) with
    | None => mret IoSkip
    | Some s1 =>
        set_buf slot (with_state s1 b);;
        set_in_progress (Some slot);;
        mret IoStarted
    end.

Definition MapTerminateBufferIO (slot : nat) (clear_dirty : bool) (set_flag_bits : Z)
    : M BufSys unit :=
  update_state slot (terminate_io clear_dirty set_flag_bits);;
  set_in_progress None.

Definition MapAbortBufferIO : M BufSys unit :=
  p ← gets in_progress;
  match p with
  | None => mret tt
  | Some slot =>
      b ← get_buf slot;
      if has_flag (state b) MAPBUF_IO_IN_PROGRESS
      then MapTerminateBufferIO slot false MAPBUF_IO_ERROR
      else set_in_progress None
  end.

(** ** Cache table *)

Definition MapCacheLookup (r : RelFileLocator) (f : ForkNumber) (blk : Z)
    : M BufSys (option nat) :=
  gets (λ s, match cache (pool s) !! (r, f, blk) with
             | Some slot => if decide (0 ≤ slot) then Some (Z.to_nat slot) else None
             | None => None
             end).

(** The slot that owns the tag already, or [None] after an insertion. *)
Definition MapCacheInsert (r : RelFileLocator) (f : ForkNumber) (blk : Z) (slot : nat)
    : M BufSys (option Z) := λ s,
  match cache (pool s) !! (r, f, blk) with
  | Some existing => (Ok (Some existing), s)
  | None =>
      (Ok None, set_pool (set_cache (<[(r, f, blk) := Z.of_nat slot]> (cache (pool s)))
                            (pool s)) s)
  end.

Definition MapCacheDelete (r : RelFileLocator) (f : ForkNumber) (blk : Z) (slot : nat)
    : M BufSys unit :=
  modify (λ s,
    if decide (cache (pool s) !! (r, f, blk) = Some (Z.of_nat slot))
    then set_pool (set_cache (delete (r, f, blk) (cache (pool s))) (pool s)) s
    else s).

(** ** Replacement clock *)

(** The wrap-around of the hand, without a concurrent mover: the compare and
    exchange of the wrapped value succeeds on its first attempt. *)
Definition ClockSweepTick : M BufSys nat := λ s,
  let p := pool s in
  let num_slots := Z.of_nat (length (buffers p)) in
  let victim := next_victim_buffer p in
  let moved := u32 (victim + 1) in
  if decide (num_slots ≤ victim) then
    let v := victim mod num_slots in
    if decide (v = 0) then
      (Ok (Z.to_nat v),
       set_pool (set_victim (u32 (victim + 1) mod num_slots)
                   (u32 (complete_passes p + 1)) p) s)
    else (Ok (Z.to_nat v), set_pool (set_victim moved (complete_passes p) p) s)
  else (Ok (Z.to_nat victim), set_pool (set_victim moved (complete_passes p) p) s).

Definition count_alloc : M BufSys unit :=
  modify (λ s, set_pool (set_allocs (u32 (num_allocs (pool s) + 1)) (pool s)) s).

(** One turn of the free-list loop: [None] when the list is empty, otherwise
    the popped slot and whether it is usable. *)
Definition pop_free : M BufSys (option (nat * bool)) :=
  head ← gets (λ s, first_free_buffer (pool s));
  if decide (head < 0) then mret None
  else
    let slot := Z.to_nat head in
    b ← get_buf slot;
    modify (λ s, set_pool (set_first_free (freeNext b) (pool s)) s);;
    set_buf slot (with_free FREENEXT_NOT_IN_LIST b);;
    mret (Some (slot, bool_decide (MAPBUF_GET_REFCOUNT (state b) = 0) &&
                      bool_decide (MAPBUF_GET_USAGECOUNT (state b) = 0) &&
                      bool_decide (pending_count b = 0))).

Fixpoint free_list_loop (fuel : nat) : M BufSys (option nat) :=
  match fuel with
  | O => mret None
  | S fuel =>
      o ← pop_free;
      match o with
      | None => mret None
      | Some sb =>
          if (sb.2 : bool) then count_alloc;; mret (Some sb.1)
          else free_list_loop fuel
      end
  end.

Definition no_unpinned : pg_error :=
  PgError ERROR ERRCODE_INTERNAL_ERROR "no unpinned map buffers available".

(** One slot of the sweep: the slot it settles on, or the new [trycounter]. *)
Definition sweep_slot (trycounter : Z) : M BufSys (nat + Z) :=
  victim ← ClockSweepTick;
  b ← get_buf victim;
  n ← gets (λ s, Z.of_nat (length (buffers (pool s))));
  if decide (MAPBUF_GET_REFCOUNT (state b) = 0 ∧ pending_count b = 0) then
    if decide (MAPBUF_GET_USAGECOUNT (state b) ≠ 0) then
      update_state victim sweep_decrement;; mret (inr n)
    else count_alloc;; mret (inl victim)
  else if decide (trycounter - 1 = 0) then throw no_unpinned
  else mret (inr (trycounter - 1)).

Definition sweep_running : pg_error :=
  PgError ERROR ERRCODE_INTERNAL_ERROR "clock sweep still running".

Fixpoint sweep_loop (fuel : nat) (trycounter : Z) : M BufSys nat :=
  match fuel with
  | O => throw sweep_running
  | S fuel =>
      r ← sweep_slot trycounter;
      match r with
      | inl slot => mret slot
      | inr t => sweep_loop fuel t
      end
  end.

(** Every slot is passed at most 32 times with a positive usage count and
    once more before the sweep settles or gives up. *)
Definition sweep_fuel (s : BufSys) : nat := 33 * length (buffers (pool s)) + 1.

Definition MapClockGetBuffer : M BufSys nat :=
  n ← gets (λ s, length (buffers (pool s)));
  o ← free_list_loop (S n);
  match o with
  | Some slot => mret slot
  | None =>
      fuel ← gets sweep_fuel;
      sweep_loop fuel (Z.of_nat n)
  end.

Definition MapClockFreeBuffer (slot : nat) : M BufSys unit :=
  b ← get_buf slot;
  if decide (freeNext b ≠ FREENEXT_NOT_IN_LIST) then mret tt
  else
    head ← gets (λ s, first_free_buffer (pool s));
    set_buf slot (with_free head b);;
    modify (λ s, set_pool (set_first_free (Z.of_nat slot) (pool s)) s).

(** The start slot, the pass count and the allocation count, which is reset. *)
Definition MapSyncStart : M BufSys (Z * Z * Z) := λ s,
  let p := pool s in
  let num_slots := Z.of_nat (length (buffers p)) in
  let next_victim := next_victim_buffer p in
  (Ok (next_victim mod num_slots,
       u32 (complete_passes p + next_victim / num_slots), num_allocs p),
   set_pool (set_allocs 0 p) s).
