(* ===== verification/MapClock.v ===== *)
(** * The replacement clock

    [MapClockGetBuffer] always terminates; it returns an unpinned buffer
    without in-flight entries and with a zero usage count, or reports that
    every buffer is in use, which is then the case.  It never touches tags,
    pages, pins or flags. *)

From S2P Require Import Prelude MapLayout BufState MapBuf.

Local Open Scope Z_scope.

Definition usable (b : MapBufferDesc) : Prop :=
  MAPBUF_GET_REFCOUNT (state b) = 0 ∧ pending_count b = 0.

#[global] Instance usable_dec b : Decision (usable b) := _.

Definition usage (b : MapBufferDesc) : Z := MAPBUF_GET_USAGECOUNT (state b).

(** [b'] is [b] with a usage count that has not grown. *)
Definition aged (b b' : MapBufferDesc) : Prop :=
  rnode b' = rnode b ∧ forknum b' = forknum b ∧ page_number b' = page_number b ∧
  buf_page_lsn b' = buf_page_lsn b ∧ pending_count b' = pending_count b ∧
  pending_bits b' = pending_bits b ∧
  ∃ ref u u' fl, state b = word ref u fl ∧ state b' = word ref u' fl ∧
    word_ok ref u fl ∧ word_ok ref u' fl ∧ u' ≤ u.

Lemma aged_refl b : is_u32 (state b) → aged b b.
Proof. intros (r & u & f & Hs & Hok)%u32_word. split_and!; try done. by exists r, u, u, f. Qed.

Lemma word_inj r u f r' u' f' :
  word_ok r u f → word_ok r' u' f' → word r u f = word r' u' f' → r = r' ∧ u = u' ∧ f = f'.
Proof. unfold word_ok, word. lia. Qed.

Lemma aged_trans b1 b2 b3 : aged b1 b2 → aged b2 b3 → aged b1 b3.
Proof.
  intros (?&?&?&?&?&?& r & u & u' & f & E1 & E2 & O1 & O2 & L)
         (?&?&?&?&?&?& r2 & v & v' & f2 & E3 & E4 & O3 & O4 & L').
  rewrite E2 in E3. destruct (word_inj _ _ _ _ _ _ O2 O3 E3) as (<- & <- & <-).
  split_and!; try congruence. exists r, u, v', f. split_and!; try done. lia.
Qed.

Lemma aged_usable b b' : aged b b' → usable b' ↔ usable b.
Proof.
  intros (_&_&_&_& Hp &_& r & u & u' & f & E1 & E2 & O1 & O2 & _).
  unfold usable. by rewrite E1, E2, !word_refcount, Hp by done.
Qed.

Lemma aged_u32 b b' : aged b b' → is_u32 (state b').
Proof.
  intros (_&_&_&_&_&_& r & u & u' & f & _ & -> & _ & O & _). by apply word_u32.
Qed.

(** ** What a sweep may assume and what it changes *)

Record clock_wf (s : BufSys) : Prop := {
  cw_len : 0 < Z.of_nat (length (buffers (pool s))) < 2 ^ 31;
  cw_hand : 0 ≤ next_victim_buffer (pool s) ≤ Z.of_nat (length (buffers (pool s)));
  cw_state : ∀ i b, buffers (pool s) !! i = Some b → is_u32 (state b);
}.

(** Only usage counts, the free list and the clock itself moved. *)
Record clock_rel (s s' : BufSys) : Prop := {
  cr_len : length (buffers (pool s')) = length (buffers (pool s));
  cr_buf : ∀ i b, buffers (pool s) !! i = Some b →
    ∃ b', buffers (pool s') !! i = Some b' ∧ aged b b';
  cr_pages : pages (pool s') = pages (pool s);
  cr_cache : cache (pool s') = cache (pool s);
  cr_private : private_ref s' = private_ref s;
  cr_io : in_progress s' = in_progress s;
}.

Lemma clock_rel_refl s : clock_wf s → clock_rel s s.
Proof.
  intros [_ _ Hst]. split; try done. intros i b Hb. exists b. split; [done|].
  apply aged_refl. by eapply Hst.
Qed.

Lemma clock_rel_trans s1 s2 s3 : clock_rel s1 s2 → clock_rel s2 s3 → clock_rel s1 s3.
Proof.
  intros [L1 B1 P1 C1 R1 I1] [L2 B2 P2 C2 R2 I2]. split; try congruence.
  intros i b Hb. destruct (B1 i b Hb) as (b2 & Hb2 & A1).
  destruct (B2 i b2 Hb2) as (b3 & Hb3 & A2). eauto using aged_trans.
Qed.

Lemma clock_rel_back s s' i b' :
  clock_rel s s' → buffers (pool s') !! i = Some b' →
  ∃ b, buffers (pool s) !! i = Some b ∧ aged b b'.
Proof.
  intros [Hl Hb _ _ _ _] Hb'.
  destruct (buffers (pool s) !! i) as [b|] eqn:E.
  - destruct (Hb i b E) as (b2 & E2 & A). simplify_eq. eauto.
  - apply lookup_ge_None in E. apply lookup_lt_Some in Hb'. lia.
Qed.

(** ** The clock hand *)

Definition hand (s : BufSys) : Z :=
  next_victim_buffer (pool s) mod Z.of_nat (length (buffers (pool s))).

(** Ticks before slot [i] is visited. *)
Definition distance (s : BufSys) (i : nat) : Z :=
  (Z.of_nat i - hand s) mod Z.of_nat (length (buffers (pool s))).

Lemma tick_run s :
  clock_wf s →
  ∃ s', ClockSweepTick s = (Ok (Z.to_nat (hand s)), s') ∧ clock_wf s' ∧
    buffers (pool s') = buffers (pool s) ∧ clock_rel s s' ∧
    hand s' = (hand s + 1) mod Z.of_nat (length (buffers (pool s))).
Proof.
  intros Hwf. pose proof Hwf as [Hlen Hhand Hst]. unfold ClockSweepTick, hand.
  set (n := Z.of_nat (length (buffers (pool s)))) in *.
  set (v := next_victim_buffer (pool s)) in *.
  assert (∀ v' cp, 0 ≤ v' ≤ n → v' mod n = (v mod n + 1) mod n →
    let s' := set_pool (set_victim v' cp (pool s)) s in
    clock_wf s' ∧ buffers (pool s') = buffers (pool s) ∧ clock_rel s s' ∧
    next_victim_buffer (pool s') mod n = (v mod n + 1) mod n) as Hmk.
  { intros v' cp Hv' Hm. split_and!; [split; done|done| |done].
    split; try done. apply clock_rel_refl in Hwf. apply Hwf. }
  rewrite (u32_small (v + 1)) by (unfold is_u32; lia).
  assert ((v + 1) mod n = (v mod n + 1) mod n) as Hmod by (by rewrite Zplus_mod_idemp_l).
  case_decide as Hge.
  - assert (v = n) as Hvn by lia. rewrite Hvn, Z_mod_same_full.
    rewrite decide_True by done. eexists. split; [done|].
    rewrite Hvn, Z_mod_same_full in Hmk, Hmod. apply Hmk.
    + pose proof (Z.mod_pos_bound (n + 1) n). lia.
    + by rewrite Zmod_mod, Hmod.
  - eexists. split; [by rewrite Z.mod_small by lia|]. apply Hmk; [lia|done].
Qed.

Lemma hand_range s : clock_wf s → 0 ≤ hand s < Z.of_nat (length (buffers (pool s))).
Proof. intros [Hlen _ _]. apply Z.mod_pos_bound. lia. Qed.

(** A tick brings every slot but the visited one closer by one. *)
Lemma distance_after s s' i :
  clock_wf s → length (buffers (pool s')) = length (buffers (pool s)) →
  hand s' = (hand s + 1) mod Z.of_nat (length (buffers (pool s))) →
  (i < length (buffers (pool s)))%nat →
  distance s' i = if decide (Z.of_nat i = hand s)
                  then Z.of_nat (length (buffers (pool s))) - 1 else distance s i - 1.
Proof.
  intros Hwf Hb Hh Hi. pose proof (hand_range s Hwf) as Hr. pose proof (cw_len s Hwf).
  unfold distance. rewrite Hb, Hh.
  set (n := Z.of_nat (length (buffers (pool s)))) in *.
  rewrite Zminus_mod_idemp_r.
  case_decide as Heq.
  - rewrite Heq. replace (hand s - (hand s + 1)) with (-1) by lia.
    replace (-1) with (n - 1 + (-1) * n) by lia. rewrite Z_mod_plus_full.
    apply Z.mod_small. lia.
  - destruct (decide (hand s < Z.of_nat i)) as [Hlt|Hge].
    + rewrite !Z.mod_small by lia. lia.
    + assert (Z.of_nat i < n) by (unfold n; lia).
      transitivity (Z.of_nat i - hand s + n - 1).
      * symmetry. apply (Z.mod_unique _ _ (-1)); lia.
      * enough ((Z.of_nat i - hand s) mod n = Z.of_nat i - hand s + n) by lia.
        symmetry. apply (Z.mod_unique _ _ (-1)); lia.
Qed.

Lemma distance_zero s i :
  clock_wf s → (i < length (buffers (pool s)))%nat →
  0 ≤ distance s i < Z.of_nat (length (buffers (pool s))) ∧
  (distance s i = 0 ↔ Z.of_nat i = hand s).
Proof.
  intros Hwf Hi. pose proof (hand_range s Hwf). pose proof (cw_len s Hwf).
  unfold distance. set (n := Z.of_nat (length (buffers (pool s)))) in *.
  split; [apply Z.mod_pos_bound; lia|].
  split; [|intros ->; by rewrite Z.sub_diag].
  assert (Z.of_nat i < n) by (unfold n; lia).
  intros Hd. apply Z.mod_divide in Hd as [k Hk]; [|lia]. assert (k = 0) by nia. lia.
Qed.

(** ** The sweep *)

Lemma get_buf_run s i b :
  buffers (pool s) !! i = Some b → get_buf i s = (Ok b, s).
Proof. intros Hb. unfold get_buf. by rewrite Hb. Qed.

Lemma decrement_aged b :
  is_u32 (state b) → usage b ≠ 0 →
  aged b (with_state (sweep_decrement (state b)) b) ∧
  usage (with_state (sweep_decrement (state b)) b) = usage b - 1.
Proof.
  intros (r & u & f & Hs & Hok)%u32_word. unfold usage. rewrite Hs, word_usage by done.
  intros Hu. pose proof Hok as (_ & Hu' & _).
  destruct (usage_dec_word r u f Hok) as [Hd Hok2]; [lia|].
  unfold aged. cbn [state with_state rnode forknum page_number buf_page_lsn pending_count
    pending_bits]. rewrite Hd, word_usage by done. split; [|done].
  split_and!; try done. exists r, u, (u - 1), f. split_and!; try done. lia.
Qed.

(** The allocation counter is not part of what the clock promises. *)
Lemma count_alloc_run s :
  clock_wf s → ∃ s', count_alloc s = (Ok tt, s') ∧ clock_wf s' ∧ clock_rel s s' ∧
    buffers (pool s') = buffers (pool s).
Proof.
  intros Hwf. eexists. split; [done|]. pose proof (clock_rel_refl s Hwf) as [? ? ? ? ? ?].
  destruct Hwf. split_and!; [by split|by split|done].
Qed.

Lemma replace_wf s s' i b b' :
  clock_wf s' → buffers (pool s') = buffers (pool s) → buffers (pool s) !! i = Some b →
  aged b b' → clock_rel s s' →
  let s2 := set_pool (set_buffers (<[i := b']> (buffers (pool s'))) (pool s')) s' in
  clock_wf s2 ∧ clock_rel s s2 ∧ hand s2 = hand s'.
Proof.
  intros [Hl Hh Hst] Hb Hi Ha [R1 R2 R3 R4 R5 R6] s2.
  assert (length (buffers (pool s2)) = length (buffers (pool s'))) as Hlen.
  { unfold s2. simpl. apply length_insert. }
  assert (i < length (buffers (pool s')))%nat as Hlt.
  { rewrite Hb. by eapply lookup_lt_Some. }
  split_and!.
  - split; rewrite ?Hlen; [done|done|]. intros j c. unfold s2. simpl.
    intros [(<- & <- & _)|[_ Hc]]%list_lookup_insert_Some; [by eapply aged_u32|eauto].
  - split; [congruence| |done..]. intros j c Hc. unfold s2. simpl.
    destruct (decide (i = j)) as [<-|Hne].
    + simplify_eq. rewrite list_lookup_insert_eq by done. eauto.
    + rewrite list_lookup_insert_ne by done. by apply R2.
  - unfold hand. by rewrite Hlen.
Qed.

Lemma sweep_slot_run s tc :
  clock_wf s →
  let n := Z.of_nat (length (buffers (pool s))) in
  ∃ b s', buffers (pool s) !! Z.to_nat (hand s) = Some b ∧
    clock_wf s' ∧ clock_rel s s' ∧ length (buffers (pool s')) = length (buffers (pool s)) ∧
    if decide (usable b) then
      if decide (usage b = 0) then
        sweep_slot tc s = (Ok (inl (Z.to_nat (hand s))), s') ∧
        buffers (pool s') = buffers (pool s)
      else
        sweep_slot tc s = (Ok (inr n), s') ∧ hand s' = (hand s + 1) mod n ∧
        buffers (pool s') =
          <[Z.to_nat (hand s) := with_state (sweep_decrement (state b)) b]> (buffers (pool s))
    else
      sweep_slot tc s = ((if decide (tc = 1) then Err no_unpinned else Ok (inr (tc - 1))), s') ∧
      hand s' = (hand s + 1) mod n ∧ buffers (pool s') = buffers (pool s).
Proof.
  intros Hwf n. pose proof (hand_range s Hwf) as Hr.
  destruct (tick_run s Hwf) as (s1 & Ht & Hwf1 & Hb1 & Hrel1 & Hh1).
  destruct (lookup_lt_is_Some_2 (buffers (pool s)) (Z.to_nat (hand s))) as [b Hb]; [lia|].
  exists b. unfold sweep_slot, mbind, M_bind. rewrite Ht.
  rewrite (get_buf_run s1 _ b) by (by rewrite Hb1). unfold gets. rewrite Hb1.
  destruct (decide (usable b)) as [Hus|Hnus].
  - rewrite (decide_True (P := MAPBUF_GET_REFCOUNT (state b) = 0 ∧ _)) by exact Hus.
    destruct (decide (usage b = 0)) as [Hu|Hu].
    + rewrite decide_False by (intros Hn; by apply Hn).
      destruct (count_alloc_run s1 Hwf1) as (s2 & -> & Hwf2 & Hrel2 & Hb2).
      exists s2. split_and!; [done|done|by eapply clock_rel_trans| |done|congruence].
      congruence.
    + rewrite decide_True by done.
      destruct (decrement_aged b (cw_state s Hwf _ _ Hb) Hu) as [Ha _].
      destruct (replace_wf s s1 _ b _ Hwf1 Hb1 Hb Ha Hrel1) as (Hwf2 & Hrel2 & Hh2).
      unfold update_state, mbind, M_bind.
      rewrite (get_buf_run s1 _ b) by (by rewrite Hb1). unfold set_buf, modify.
      eexists. split_and!; [done|exact Hwf2|exact Hrel2|..].
      * simpl. by rewrite length_insert, Hb1.
      * done.
      * by rewrite Hh2.
      * simpl. by rewrite Hb1.
  - rewrite (decide_False (P := MAPBUF_GET_REFCOUNT (state b) = 0 ∧ _)) by exact Hnus.
    exists s1. split_and!; [done|done|done|congruence| |done|done].
    destruct (decide (tc = 1)) as [->|Hne]; [done|]. by rewrite decide_False by lia.
Qed.

(** A usable slot is reached in time, and before [trycounter] runs out. *)
Lemma sweep_finds fuel s tc i b :
  clock_wf s → buffers (pool s) !! i = Some b → usable b →
  let n := Z.of_nat (length (buffers (pool s))) in
  n * usage b + distance s i < Z.of_nat fuel → distance s i < tc →
  ∃ slot s' c, sweep_loop fuel tc s = (Ok slot, s') ∧ clock_wf s' ∧ clock_rel s s' ∧
    buffers (pool s') !! slot = Some c ∧ usable c ∧ usage c = 0.
Proof.
  revert s tc i b. induction fuel as [|fuel IH]; intros s tc i b Hwf Hb Hus n Hfuel Htc.
  { assert (i < length (buffers (pool s)))%nat as Hlt by (by eapply lookup_lt_Some).
    destruct (distance_zero s i Hwf Hlt) as [Hd _].
    pose proof (cw_state s Hwf _ _ Hb) as (r & u & f & Hs & Hok)%u32_word.
    unfold usage in Hfuel. rewrite Hs, word_usage in Hfuel by done.
    unfold word_ok in Hok. pose proof (cw_len s Hwf). nia. }
  assert (i < length (buffers (pool s)))%nat as Hlt by (by eapply lookup_lt_Some).
  destruct (distance_zero s i Hwf Hlt) as [Hd Hd0].
  pose proof (hand_range s Hwf) as Hhr.
  destruct (sweep_slot_run s tc Hwf) as (v & s1 & Hv & Hwf1 & Hrel1 & Hlen1 & Hcase).
  cbn [sweep_loop]. unfold mbind at 1, M_bind at 1.
  destruct (decide (usable v)) as [Huv|Hnuv].
  - destruct (decide (usage v = 0)) as [Hv0|Hv0].
    + destruct Hcase as [-> Hb1]. exists (Z.to_nat (hand s)), s1, v.
      split_and!; try done. congruence.
    + destruct Hcase as (-> & Hh1 & Hb1).
      destruct (decrement_aged v (cw_state s Hwf _ _ Hv) Hv0) as [Ha Hdec].
      pose proof (distance_after s s1 i Hwf Hlen1 Hh1 Hlt) as Hdist.
      assert (∃ b1, buffers (pool s1) !! i = Some b1 ∧ usable b1 ∧
        n * usage b1 + distance s1 i = n * usage b + distance s i - 1)
        as (b1 & Hb1i & Hus1 & Hm).
      { rewrite Hb1. destruct (decide (Z.of_nat i = hand s)) as [Heq|Hne].
        - replace (Z.to_nat (hand s)) with i in * by lia. simplify_eq.
          rewrite list_lookup_insert_eq by done. eexists. split_and!; [done| |].
          + by apply (aged_usable b).
          + rewrite Hdec, Hdist. assert (distance s i = 0) by (by apply Hd0).
            unfold n. lia.
        - rewrite list_lookup_insert_ne by lia. exists b. split_and!; [done|done|].
          rewrite Hdist. lia. }
      destruct (IH s1 (Z.of_nat (length (buffers (pool s)))) i b1 Hwf1 Hb1i Hus1)
        as (slot & s' & c & Hrun & Hwf' & Hrel' & Hc); [rewrite Hlen1; fold n; lia| |].
      { destruct (distance_zero s1 i Hwf1); [by rewrite Hlen1|]. rewrite Hlen1 in *. lia. }
      exists slot, s', c. split_and!; try done; [by eapply clock_rel_trans|apply Hc..].
  - destruct Hcase as (-> & Hh1 & Hb1).
    assert (Z.of_nat i ≠ hand s) as Hne.
    { intros Heq. replace (Z.to_nat (hand s)) with i in Hv by lia. by simplify_eq. }
    pose proof (distance_after s s1 i Hwf Hlen1 Hh1 Hlt) as Hdist.
    rewrite decide_False in Hdist by done.
    assert (distance s i ≠ 0) by (by rewrite Hd0).
    rewrite decide_False by lia.
    destruct (IH s1 (tc - 1) i b Hwf1) as (slot & s' & c & Hrun & Hwf' & Hrel' & Hc);
      [by rewrite Hb1|done|rewrite Hlen1; fold n; lia|lia|].
    exists slot, s', c. split_and!; try done; [by eapply clock_rel_trans|apply Hc..].
Qed.

(** With no usable slot, a full turn ends in the error. *)
Lemma sweep_gives_up fuel s tc :
  clock_wf s → (∀ i b, buffers (pool s) !! i = Some b → ¬ usable b) →
  1 ≤ tc ≤ Z.of_nat fuel →
  ∃ s', sweep_loop fuel tc s = (Err no_unpinned, s') ∧ clock_wf s' ∧ clock_rel s s'.
Proof.
  revert s tc. induction fuel as [|fuel IH]; intros s tc Hwf Hall Htc; [lia|].
  destruct (sweep_slot_run s tc Hwf) as (v & s1 & Hv & Hwf1 & Hrel1 & Hlen1 & Hcase).
  rewrite decide_False in Hcase by (by eapply Hall).
  destruct Hcase as (Hrun & _ & Hb1). cbn [sweep_loop]. unfold mbind at 1, M_bind at 1.
  rewrite Hrun. case_decide as Htc1; [by exists s1|].
  destruct (IH s1 (tc - 1)) as (s' & Hs' & Hwf' & Hrel');
    [done|by rewrite Hb1|lia|].
  exists s'. split_and!; [done|done|by eapply clock_rel_trans].
Qed.

(** ** The free list *)

Lemma pop_free_run s :
  clock_wf s → first_free_buffer (pool s) < Z.of_nat (length (buffers (pool s))) →
  (pop_free s = (Ok None, s) ∧ first_free_buffer (pool s) < 0) ∨
  ∃ slot b ok s', pop_free s = (Ok (Some (slot, ok)), s') ∧
    first_free_buffer (pool s) = Z.of_nat slot ∧ buffers (pool s) !! slot = Some b ∧
    first_free_buffer (pool s') = freeNext b ∧
    buffers (pool s') = <[slot := with_free FREENEXT_NOT_IN_LIST b]> (buffers (pool s)) ∧
    (ok = true ↔ usable b ∧ usage b = 0) ∧ clock_wf s' ∧ clock_rel s s'.
Proof.
  intros Hwf Hhead. unfold pop_free, gets, mbind, M_bind.
  case_decide as Hneg; [by left|]. right.
  destruct (lookup_lt_is_Some_2 (buffers (pool s)) (Z.to_nat (first_free_buffer (pool s))))
    as [b Hb]; [lia|].
  rewrite (get_buf_run s _ b) by done. unfold modify, set_buf, modify, mret, M_ret.
  eexists _, b, _, _. split; [reflexivity|]. split; [lia|]. split; [done|].
  split; [done|]. split; [done|]. split.
  { rewrite !andb_true_iff, !bool_decide_eq_true. unfold usable, usage. tauto. }
  pose proof (cw_state s Hwf _ _ Hb) as Hu.
  assert (aged b (with_free FREENEXT_NOT_IN_LIST b)) as Ha.
  { destruct (aged_refl b Hu) as (?&?&?&?&?&?&?). by split_and!. }
  set (s1 := set_pool (set_first_free (freeNext b) (pool s)) s).
  assert (clock_wf s1 ∧ clock_rel s s1) as [Hwf1 Hrel1].
  { pose proof (clock_rel_refl s Hwf) as [? ? ? ? ? ?]. destruct Hwf. by split; split. }
  by destruct (replace_wf s s1 _ b _ Hwf1 eq_refl Hb Ha Hrel1) as (? & ? & _).
Qed.

(** The free list: [l] lists its slots in order. *)
Fixpoint free_list (bs : list MapBufferDesc) (head : Z) (l : list nat) : Prop :=
  match l with
  | [] => head = FREENEXT_END_OF_LIST
  | slot :: l => head = Z.of_nat slot ∧
      ∃ b, bs !! slot = Some b ∧ free_list bs (freeNext b) l
  end.

Lemma free_list_other bs head l slot b :
  slot ∉ l → free_list bs head l → free_list (<[slot := b]> bs) head l.
Proof.
  revert head. induction l as [|x l IH]; intros head Hni Hl; [done|].
  destruct Hl as (-> & c & Hc & Hl). apply not_elem_of_cons in Hni as [Hne Hni].
  split; [done|]. exists c. rewrite list_lookup_insert_ne by done. auto.
Qed.

Lemma free_list_head bs head l :
  free_list bs head l → head < Z.of_nat (length bs).
Proof.
  destruct l as [|slot l]; simpl; [intros ->; unfold FREENEXT_END_OF_LIST; lia|].
  intros (-> & b & Hb & _). apply lookup_lt_Some in Hb. lia.
Qed.

(** The free-list loop pops until it finds a reusable slot or the end. *)
Lemma free_list_loop_run l fuel s :
  clock_wf s → free_list (buffers (pool s)) (first_free_buffer (pool s)) l → NoDup l →
  (length l < fuel)%nat →
  ∃ o s' l', free_list_loop fuel s = (Ok o, s') ∧ clock_wf s' ∧ clock_rel s s' ∧
    free_list (buffers (pool s')) (first_free_buffer (pool s')) l' ∧ NoDup l' ∧
    match o with
    | Some slot => ∃ c, buffers (pool s') !! slot = Some c ∧ usable c ∧ usage c = 0
    | None => l' = []
    end.
Proof.
  revert fuel s. induction l as [|slot l IH]; intros fuel s Hwf Hl Hnd Hfuel;
    (destruct fuel as [|fuel]; [simpl in Hfuel; lia|]);
    cbn [free_list_loop]; unfold mbind at 1, M_bind at 1.
  - destruct (pop_free_run s Hwf (free_list_head _ _ _ Hl))
      as [[-> _]|(x & b & ok & s1 & _ & Hx & _)].
    + exists None, s, []. split_and!; auto using clock_rel_refl.
    + simpl in Hl. rewrite Hl in Hx. unfold FREENEXT_END_OF_LIST in Hx. lia.
  - destruct (pop_free_run s Hwf (free_list_head _ _ _ Hl))
      as [[_ Hx]|(x & b & ok & s1 & -> & Hx & Hb & Hf1 & Hb1 & Hok & Hwf1 & Hrel1)];
      destruct Hl as (Hhead & c & Hc & Hl); [lia|].
    assert (x = slot) as -> by lia. simplify_eq.
    inversion Hnd as [|? ? Hni Hnd']; subst.
    assert (free_list (buffers (pool s1)) (first_free_buffer (pool s1)) l) as Hl1.
    { rewrite Hf1, Hb1. by apply free_list_other. }
    destruct ok; cbn [fst snd].
    + destruct (proj1 Hok eq_refl) as [Hus Hu0].
      unfold mbind at 1, M_bind at 1.
      destruct (count_alloc_run s1 Hwf1) as (s2 & Hca & Hwf2 & Hrel2 & Hb2).
      assert (first_free_buffer (pool s2) = first_free_buffer (pool s1)) as Hff.
      { unfold count_alloc, modify in Hca. by injection Hca as <-. }
      rewrite Hca. exists (Some slot), s2, l.
      split_and!; [done|done|by eapply clock_rel_trans|by rewrite Hb2, Hff|done|].
      exists (with_free FREENEXT_NOT_IN_LIST c). split; [|done].
      rewrite Hb2, Hb1. apply list_lookup_insert_eq. by eapply lookup_lt_Some.
    + destruct (IH fuel s1 Hwf1 Hl1 Hnd') as (o & s' & l' & Hrun & Hwf' & Hrel' & Hrest);
        [simpl in Hfuel; lia|].
      exists o, s', l'. split; [done|]. split; [done|].
      split; [by eapply clock_rel_trans|done].
Qed.

Lemma tick_first_free s : first_free_buffer (pool (ClockSweepTick s).2) =
  first_free_buffer (pool s).
Proof. unfold ClockSweepTick. repeat case_decide; done. Qed.

(** The sweep leaves the free list alone. *)
Lemma sweep_first_free fuel tc s res s' :
  sweep_loop fuel tc s = (res, s') →
  first_free_buffer (pool s') = first_free_buffer (pool s).
Proof.
  revert tc s. induction fuel as [|fuel IH]; intros tc s; simpl; [by intros [= _ <-]|].
  unfold mbind at 1, M_bind at 1, sweep_slot, gets, mbind, M_bind.
  pose proof (tick_first_free s) as Ht.
  destruct (ClockSweepTick s) as [[v|e] s1]; simpl in Ht; [|by intros [= _ <-]].
  unfold get_buf at 1. destruct (buffers (pool s1) !! v) as [b|] eqn:Hb;
    [|by intros [= _ <-]].
  case_decide; [case_decide|case_decide].
  - unfold update_state, mbind, M_bind, get_buf. rewrite Hb. unfold set_buf, modify.
    simpl. intros Hrun%IH. simpl in Hrun. congruence.
  - unfold count_alloc, modify. simpl. intros [= _ <-]. done.
  - by intros [= _ <-].
  - intros Hrun%IH. congruence.
Qed.

Record free_wf (s : BufSys) : Prop := {
  fw_list : ∃ l, free_list (buffers (pool s)) (first_free_buffer (pool s)) l ∧ NoDup l;
}.

Lemma NoDup_slots_length (bs : list MapBufferDesc) head l :
  free_list bs head l → NoDup l → (length l ≤ length bs)%nat.
Proof.
  intros Hl Hnd. rewrite <-(length_seq (length bs) 0).
  apply submseteq_length, NoDup_submseteq; [done|]. revert head Hl. clear Hnd.
  induction l as [|x l IH]; intros head Hl y; [by intros ?%not_elem_of_nil|].
  destruct Hl as (_ & b & Hb & Hl). intros [->|Hy]%elem_of_cons; [|by eapply IH].
  apply lookup_lt_Some in Hb. apply elem_of_seq. lia.
Qed.

(** ** Choosing a buffer *)

Lemma clock_get_run s :
  clock_wf s → free_wf s →
  ∃ s', clock_wf s' ∧ free_wf s' ∧ clock_rel s s' ∧
  ((∃ slot b, MapClockGetBuffer s = (Ok slot, s') ∧ buffers (pool s') !! slot = Some b ∧
      usable b ∧ usage b = 0) ∨
   (MapClockGetBuffer s = (Err no_unpinned, s') ∧
      ∀ i b, buffers (pool s) !! i = Some b → ¬ usable b)).
Proof.
  intros Hwf [(l & Hl & Hnd)].
  unfold MapClockGetBuffer, gets, mbind, M_bind.
  destruct (free_list_loop_run l (S (length (buffers (pool s)))) s Hwf Hl Hnd)
    as (o & s1 & l1 & -> & Hwf1 & Hrel1 & Hl1 & Hnd1 & Ho).
  { pose proof (NoDup_slots_length _ _ _ Hl Hnd). lia. }
  destruct o as [slot|].
  { destruct Ho as (c & Hc & Hus & Hu0). exists s1. split_and!; [done|split; eauto|done|].
    left. exists slot, c. split_and!; [done|done|apply Hus..|done]. }
  subst l1. assert (∀ s2, clock_rel s1 s2 → free_wf s1 → first_free_buffer (pool s2) =
    first_free_buffer (pool s1) → free_wf s2) as Hfree.
  { intros s2 _ _ Hff. split. exists []. split; [by rewrite Hff|constructor]. }
  set (n := Z.of_nat (length (buffers (pool s)))).
  assert (length (buffers (pool s1)) = length (buffers (pool s))) as Hlen by apply Hrel1.
  destruct (decide (Exists usable (buffers (pool s1)))) as [Hex|Hnex].
  - apply Exists_exists in Hex as (b & Hb & Hus).
    apply list_elem_of_In, list_elem_of_lookup in Hb as [i Hi].
    assert (i < length (buffers (pool s1)))%nat as Hlt by (by eapply lookup_lt_Some).
    destruct (distance_zero s1 i Hwf1 Hlt) as [Hd _].
    pose proof (cw_state s1 Hwf1 _ _ Hi) as (r & u & f & Hs & Hok)%u32_word.
    destruct (sweep_finds (sweep_fuel s1) s1 n i b Hwf1 Hi Hus)
      as (slot & s2 & c & Hrun & Hwf2 & Hrel2 & Hc & Husc & Hu0).
    { unfold usage, sweep_fuel. rewrite Hs, word_usage by done. unfold word_ok in Hok.
      pose proof (cw_len s1 Hwf1). nia. }
    { unfold n. lia. }
    exists s2. split_and!; [done| |by eapply clock_rel_trans|].
    { apply Hfree; [done|split; eauto|]. by eapply sweep_first_free. }
    left. exists slot, c. split_and!; [exact Hrun|done|apply Husc..|done].
  - destruct (sweep_gives_up (sweep_fuel s1) s1 n Hwf1) as (s2 & Hrun & Hwf2 & Hrel2).
    { intros i b Hb Hus. apply Hnex, Exists_exists. exists b. split; [|done].
      by apply list_elem_of_In, list_elem_of_lookup_2 with i. }
    { unfold sweep_fuel, n. pose proof (cw_len s Hwf). lia. }
    exists s2. split_and!; [done| |by eapply clock_rel_trans|].
    { apply Hfree; [done|split; eauto|]. by eapply sweep_first_free. }
    right. split; [done|]. intros i b Hb Hus.
    destruct (cr_buf s s1 Hrel1 i b Hb) as (b1 & Hb1 & Ha).
    apply Hnex, Exists_exists. exists b1.
    split; [by apply list_elem_of_In, list_elem_of_lookup_2 with i|].
    by apply (aged_usable b).
Qed.

(** ** Properties *)

(** C31: choosing a buffer always terminates.  It returns a slot that is
    unpinned, has no in-flight entry and a zero usage count, or it reports
    that no buffer is available, and then every buffer is pinned or has an
    in-flight entry.  Tags, pages, the cache table, pins and flags of all
    buffers are as before, and no usage count grew. *)
Theorem clock_get_buffer s :
  clock_wf s → free_wf s →
  ∃ s', clock_wf s' ∧ free_wf s' ∧ clock_rel s s' ∧
  ((∃ slot b, MapClockGetBuffer s = (Ok slot, s') ∧ buffers (pool s') !! slot = Some b ∧
      usable b ∧ usage b = 0) ∨
   (MapClockGetBuffer s = (Err no_unpinned, s') ∧
      ∀ i b, buffers (pool s) !! i = Some b → ¬ usable b)).
Proof. apply clock_get_run. Qed.

Definition clock_demo : BufSys :=
  MkSys (set_first_free (-1) (set_buffers
    [with_state (word 1 1 0) (init_buf 2 0); with_state (word 0 2 1) (init_buf 2 1)]
    (MapShmemInit 2))) [1; 0] None.

Lemma clock_get_buffer_witness :
  ∃ s', MapClockGetBuffer clock_demo = (Ok 1%nat, s') ∧ clock_rel clock_demo s'.
Proof.
  destruct (clock_get_buffer clock_demo) as (s' & _ & _ & Hrel & [(slot & b & Hrun & _)|[Hrun _]]).
  - split; [by vm_compute|by vm_compute|].
    intros [|[|i]] b [= <-]; by vm_compute.
  - split. exists []. split; [done|constructor].
  - exists s'. split; [|done]. rewrite Hrun. f_equal.
    apply (f_equal fst) in Hrun. vm_compute in Hrun. by injection Hrun as <-.
  - by vm_compute in Hrun.
Defined.
