(* ===== verification/PoolInv.v ===== *)
(** * The buffer pool: invariant

    What every operation on the pool relies on and keeps: the cache table is
    the inverse of the buffers' tags, pin counts cover the pins of this
    backend, no I/O is left open and usage counts stay in their field.  The
    rules for pins, flags and whole slots below are the ones the page
    operations are verified with. *)

From S2P Require Import Prelude MapLayout BufState MapBuf MapClock.

Local Open Scope Z_scope.

(** ** The part of a buffer that pins and the clock leave alone *)

Definition wflags (s : Z) : Z := s / 16384.

Definition bcore (b : MapBufferDesc) :=
  (rnode b, forknum b, page_number b, buf_page_lsn b, pending_count b, pending_bits b,
   wflags (state b)).

Definition score (s : BufSys) := (bcore <$> buffers (pool s), pages (pool s), cache (pool s)).

Lemma word_wflags r u f : word_ok r u f → wflags (word r u f) = f.
Proof. unfold word_ok, word, wflags. intros. Z.to_euclidean_division_equations; lia. Qed.

Lemma aged_core b b' : aged b b' → bcore b' = bcore b.
Proof.
  intros (E1&E2&E3&E4&E5&E6& r & u & u' & f & Es & Es' & O & O' & _).
  unfold bcore. by rewrite E1, E2, E3, E4, E5, E6, Es, Es', !word_wflags.
Qed.

Lemma clock_score s s' : clock_rel s s' → score s' = score s.
Proof.
  intros [Hl Hb Hp Hc _ _]. unfold score. rewrite Hp, Hc. do 2 f_equal.
  apply list_eq. intros i. rewrite !list_lookup_fmap.
  destruct (buffers (pool s) !! i) as [b|] eqn:E.
  - destruct (Hb i b E) as (b' & E' & Ha). rewrite E'. simpl. f_equal. by apply aged_core.
  - apply lookup_ge_None in E. rewrite (proj2 (lookup_ge_None _ _)) by lia. done.
Qed.

(** Flags through [wflags]. *)
Lemma wflags_bit s k : 0 ≤ k → Z.testbit (wflags s) k = Z.testbit s (k + 14).
Proof.
  intros Hk. unfold wflags. change 16384 with (2 ^ 14).
  rewrite <-Z.shiftr_div_pow2 by lia. by rewrite Z.shiftr_spec by done.
Qed.

Definition bdirty (b : MapBufferDesc) : bool := has_flag (state b) MAPBUF_DIRTY.

Lemma bdirty_core b : bdirty b = Z.testbit (wflags (state b)) 0.
Proof.
  unfold bdirty. change MAPBUF_DIRTY with (2 ^ 14). rewrite has_flag_bit by lia.
  by rewrite wflags_bit by lia.
Qed.

(** A word split into its fields. *)
Lemma buf_word s : is_u32 s → ∃ ref u fl, s = word ref u fl ∧ word_ok ref u fl ∧
  MAPBUF_GET_REFCOUNT s = ref ∧ MAPBUF_GET_USAGECOUNT s = u ∧ wflags s = fl.
Proof.
  intros (ref & u & fl & -> & Hok)%u32_word. exists ref, u, fl.
  by rewrite word_refcount, word_usage, word_wflags.
Qed.

(** ** Pool invariant *)

Definition tagged (b : MapBufferDesc) (t : MapCacheTag) : Prop :=
  rnode b = t.1.1 ∧ forknum b = Some t.1.2 ∧ page_number b = t.2.

Definition page_ok (pg : list Z) : Prop :=
  length pg = Z.to_nat MAP_ENTRIES_PER_PAGE ∧ Forall is_u32 pg.

(** What holds of one descriptor that [k] pins of this backend hold. *)
Record buf_ok (k : Z) (b : MapBufferDesc) : Prop := {
  bo_state : is_u32 (state b);
  bo_usage : usage b ≤ 5;
  bo_pins : 0 ≤ k ≤ MAPBUF_GET_REFCOUNT (state b);
  bo_io : has_flag (state b) MAPBUF_IO_IN_PROGRESS = false;
  bo_tag : forknum b = None → bdirty b = false;
}.

Record pool_ok (s : BufSys) : Prop := {
  po_clock : clock_wf s;
  po_free : free_wf s;
  po_pages : length (pages (pool s)) = length (buffers (pool s));
  po_private : length (private_ref s) = length (buffers (pool s));
  po_page : ∀ i pg, pages (pool s) !! i = Some pg → page_ok pg;
  po_buf : ∀ i b, buffers (pool s) !! i = Some b → buf_ok (private_count i s) b;
  po_idle : in_progress s = None;
}.

(** The cache table is the inverse of the buffers' tags. *)
Record cache_ok (s : BufSys) : Prop := {
  co_find : ∀ t slot, cache (pool s) !! t = Some slot →
    ∃ i b, slot = Z.of_nat i ∧ buffers (pool s) !! i = Some b ∧ tagged b t;
  co_tag : ∀ i b f, buffers (pool s) !! i = Some b → forknum b = Some f →
    0 < page_number b ≤ MaxBlockNumber ∧
    cache (pool s) !! (rnode b, f, page_number b) = Some (Z.of_nat i);
}.

(** Slot [i] with another descriptor and page, [d] more pins of this backend
    and another cache table. *)
Definition upd (s : BufSys) (i : nat) (b : MapBufferDesc) (pg : list Z)
    (c : gmap MapCacheTag Z) (d : Z) : BufSys :=
  MkSys (set_cache c (set_pages (<[i := pg]> (pages (pool s)))
           (set_buffers (<[i := b]> (buffers (pool s))) (pool s))))
    (alter (λ c, c + d) i (private_ref s)) (in_progress s).

Lemma free_list_insert bs head l i b b' :
  bs !! i = Some b → freeNext b' = freeNext b →
  free_list bs head l → free_list (<[i := b']> bs) head l.
Proof.
  intros Hb Hf. revert head. induction l as [|x l IH]; intros head Hl; [done|].
  destruct Hl as (-> & c & Hc & Hl). split; [done|].
  destruct (decide (i = x)) as [->|Hne].
  - exists b'. rewrite list_lookup_insert_eq by (by eapply lookup_lt_Some).
    split; [done|]. rewrite Hf. simplify_eq. auto.
  - exists c. rewrite list_lookup_insert_ne by done. auto.
Qed.

Lemma upd_lookup s i b pg c d j x :
  buffers (pool (upd s i b pg c d)) !! j = Some x →
  (j = i ∧ x = b) ∨ (j ≠ i ∧ buffers (pool s) !! j = Some x).
Proof. simpl. intros [(<- & <- & _)|[Hne Hx]]%list_lookup_insert_Some; auto. Qed.

Lemma upd_pool_ok s i b b' pg c d :
  pool_ok s → buffers (pool s) !! i = Some b → freeNext b' = freeNext b → page_ok pg →
  buf_ok (private_count i s + d) b' → pool_ok (upd s i b' pg c d).
Proof.
  intros [[Hcl Hch Hcs] [(l & Hl & Hnd)] Hpg Hpr Hp Hbuf Hidle] Hb Hf Hpok Hok.
  assert (i < length (buffers (pool s)))%nat as Hi by (by eapply lookup_lt_Some).
  split.
  - split; cbn; rewrite ?length_insert; [done|done|].
    intros j x [[-> ->]|[_ Hx]]%(upd_lookup s i b' pg c d); [apply Hok|by eapply Hcs].
  - split. exists l. split; [|done]. by apply free_list_insert with b.
  - cbn. by rewrite !length_insert.
  - cbn. by rewrite length_alter, length_insert.
  - cbn. intros j x [(<- & <- & _)|[Hne Hx]]%list_lookup_insert_Some; eauto.
  - intros j x Hx. unfold private_count. cbn [private_ref upd].
    apply upd_lookup in Hx as [[-> ->]|[Hne Hx]].
    + rewrite list_lookup_alter_eq.
      assert (i < length (private_ref s))%nat as [k Hk]%lookup_lt_is_Some by lia.
      unfold private_count in Hok. by rewrite Hk in *.
    + rewrite list_lookup_alter_ne by done. by apply Hbuf.
  - done.
Qed.

(** *** The cache when the tag of a slot stays *)

Lemma upd_cache_ok s i b b' pg d :
  cache_ok s → buffers (pool s) !! i = Some b →
  rnode b' = rnode b → forknum b' = forknum b → page_number b' = page_number b →
  cache_ok (upd s i b' pg (cache (pool s)) d).
Proof.
  intros [Hfind Htag] Hb Er Ef Ep. split.
  - intros t slot Ht. destruct (Hfind t slot Ht) as (j & x & -> & Hx & Htg).
    destruct (decide (j = i)) as [->|Hne].
    + exists i, b'. simplify_eq. split_and!; [done| |unfold tagged; by rewrite Er, Ef, Ep].
      cbn. by rewrite list_lookup_insert_eq by (by eapply lookup_lt_Some).
    + exists j, x. split_and!; [done|cbn; by rewrite list_lookup_insert_ne|done].
  - intros j x f [[-> ->]|[_ Hx]]%upd_lookup Hf; [|by apply Htag].
    rewrite Er, Ep. rewrite Ef in Hf. by apply Htag.
Qed.

(** *** The cache when a slot is taken over *)

Definition drop_tag (b : MapBufferDesc) (c : gmap MapCacheTag Z) : gmap MapCacheTag Z :=
  match forknum b with Some f => delete (rnode b, f, page_number b) c | None => c end.

Lemma drop_tag_find s i b t slot :
  cache_ok s → buffers (pool s) !! i = Some b →
  drop_tag b (cache (pool s)) !! t = Some slot →
  cache (pool s) !! t = Some slot ∧ slot ≠ Z.of_nat i.
Proof.
  intros [Hfind Htag] Hb Ht. unfold drop_tag in Ht.
  assert (cache (pool s) !! t = Some slot) as Hc.
  { destruct (forknum b); [|done]. by apply lookup_delete_Some in Ht as [_ ?]. }
  split; [done|]. intros ->. destruct (Hfind _ _ Hc) as (j & x & Hj%Nat2Z.inj & Hx & Hr & Hf & Hp).
  subst j. simplify_eq. rewrite Hf, Hr, Hp in Ht. destruct t as [[r f] p].
  by apply lookup_delete_Some in Ht as [? _].
Qed.

Lemma take_cache_ok s i b b' pg t d :
  cache_ok s → buffers (pool s) !! i = Some b → cache (pool s) !! t = None →
  tagged b' t → 0 < t.2 ≤ MaxBlockNumber →
  cache_ok (upd s i b' pg (<[t := Z.of_nat i]> (drop_tag b (cache (pool s)))) d).
Proof.
  intros Hok Hb Hn (Er & Ef & Ep) Hpos. pose proof Hok as [Hfind Htag].
  assert (i < length (buffers (pool s)))%nat as Hi by (by eapply lookup_lt_Some). split.
  - intros t' slot. cbn. intros [[<- <-]|[Hne Ht]]%lookup_insert_Some.
    + exists i, b'. split_and!; [done|by rewrite list_lookup_insert_eq|done].
    + destruct (drop_tag_find _ _ _ _ _ Hok Hb Ht) as [Hc Hns].
      destruct (Hfind _ _ Hc) as (j & x & -> & Hx & Htg).
      exists j, x. split_and!; [done|rewrite list_lookup_insert_ne by naive_solver; done|done].
  - intros j x f [[-> ->]|[Hne Hx]]%upd_lookup Hf; cbn.
    + rewrite Ef in Hf. injection Hf as <-. rewrite Er, Ep. split; [done|].
      destruct t as [[??]?]. by rewrite lookup_insert_eq.
    + destruct (Htag j x f Hx Hf) as [Hp Hc]. split; [done|].
      rewrite lookup_insert_ne by (intros Heq; rewrite <-Heq, Hn in Hc; done).
      unfold drop_tag.
      destruct (forknum b) as [g|] eqn:Hg; [|done].
      destruct (Htag i b g Hb Hg) as [_ Hci]. rewrite lookup_delete_ne; [done|].
      intros Heq. rewrite Heq in Hci. rewrite Hci in Hc. injection Hc as Hc. lia.
Qed.

(** ** Updates of one slot *)

Lemma alter_add_0 (l : list Z) i : alter (λ c, c + 0) i l = l.
Proof.
  apply list_eq. intros j. destruct (decide (i = j)) as [->|Hne].
  - rewrite list_lookup_alter_eq. destruct (l !! j); simpl; [f_equal; lia|done].
  - by rewrite list_lookup_alter_ne.
Qed.

Lemma alter_add_add (l : list Z) i d1 d2 :
  alter (λ c, c + d2) i (alter (λ c, c + d1) i l) = alter (λ c, c + (d1 + d2)) i l.
Proof.
  apply list_eq. intros j. destruct (decide (i = j)) as [->|Hne].
  - rewrite !list_lookup_alter_eq. destruct (l !! j); simpl; [f_equal; lia|done].
  - by rewrite !list_lookup_alter_ne.
Qed.

Lemma upd_upd s i b1 pg1 c1 d1 b2 pg2 c2 d2 :
  upd (upd s i b1 pg1 c1 d1) i b2 pg2 c2 d2 = upd s i b2 pg2 c2 (d1 + d2).
Proof.
  unfold upd. cbn. f_equal.
  - unfold set_cache, set_pages, set_buffers. cbn. by rewrite !list_insert_insert_eq.
  - apply alter_add_add.
Qed.

Lemma upd_id s i b pg :
  buffers (pool s) !! i = Some b → pages (pool s) !! i = Some pg →
  upd s i b pg (cache (pool s)) 0 = s.
Proof.
  intros Hb Hpg. unfold upd, set_cache, set_pages, set_buffers. cbn.
  rewrite alter_add_0, !list_insert_id by done. destruct s as [[] ??]. done.
Qed.

Lemma upd_buf_at s i b0 b pg c d :
  buffers (pool s) !! i = Some b0 → buffers (pool (upd s i b pg c d)) !! i = Some b.
Proof. intros Hb. cbn. by rewrite list_lookup_insert_eq by (by eapply lookup_lt_Some). Qed.

Lemma upd_page_at s i pg0 b pg c d :
  pages (pool s) !! i = Some pg0 → pages (pool (upd s i b pg c d)) !! i = Some pg.
Proof. intros Hb. cbn. by rewrite list_lookup_insert_eq by (by eapply lookup_lt_Some). Qed.

Section slot.
Context (s : BufSys) (i : nat) (b : MapBufferDesc) (pg : list Z).
Context (Hb : buffers (pool s) !! i = Some b) (Hpg : pages (pool s) !! i = Some pg).

Lemma wp_get_buf Q (E : pg_error → BufSys → Prop) : Q b s → wp (get_buf i) Q E s.
Proof. unfold wp, get_buf. by rewrite Hb. Qed.

Lemma wp_get_page Q (E : pg_error → BufSys → Prop) : Q pg s → wp (get_page i) Q E s.
Proof. unfold wp, get_page. by rewrite Hpg. Qed.

Lemma wp_set_buf b' Q (E : pg_error → BufSys → Prop) :
  Q tt (upd s i b' pg (cache (pool s)) 0) → wp (set_buf i b') Q E s.
Proof.
  unfold wp, set_buf, modify, upd, set_cache, set_pages, set_buffers, set_pool. cbn.
  by rewrite alter_add_0, (list_insert_id (pages _)) by done.
Qed.

Lemma wp_set_page pg' Q (E : pg_error → BufSys → Prop) :
  Q tt (upd s i b pg' (cache (pool s)) 0) → wp (set_page i pg') Q E s.
Proof.
  unfold wp, set_page, modify, upd, set_cache, set_pages, set_buffers, set_pool. cbn.
  by rewrite alter_add_0, (list_insert_id (buffers _)) by done.
Qed.

Lemma wp_update_state g Q (E : pg_error → BufSys → Prop) :
  Q tt (upd s i (with_state (g (state b)) b) pg (cache (pool s)) 0) →
  wp (update_state i g) Q E s.
Proof. intros HQ. by apply wp_bind, wp_get_buf, wp_set_buf. Qed.

Lemma wp_bump_private d Q (E : pg_error → BufSys → Prop) :
  Q tt (upd s i b pg (cache (pool s)) d) → wp (bump_private i d) Q E s.
Proof.
  unfold wp, bump_private, modify, upd, set_cache, set_pages, set_buffers. cbn.
  rewrite !list_insert_id by done. by destruct s as [[] ??].
Qed.

End slot.

(** *** Pins *)

(** [b'] is [b] with another pin count or usage count. *)
Definition repinned (b b' : MapBufferDesc) (d : Z) : Prop :=
  bcore b' = bcore b ∧ freeNext b' = freeNext b ∧ is_u32 (state b') ∧
  MAPBUF_GET_REFCOUNT (state b') = MAPBUF_GET_REFCOUNT (state b) + d ∧
  (usage b ≤ 5 → usage b' ≤ 5).

Lemma repinned_word b ref u fl u' d :
  state b = word ref u fl → word_ok ref u fl → word_ok (ref + d) u' fl → (u ≤ 5 → u' ≤ 5) →
  repinned b (with_state (word (ref + d) u' fl) b) d.
Proof.
  intros Hs Hok Hok' Hu. unfold repinned, bcore, usage. cbn. rewrite Hs.
  rewrite !word_wflags, !word_refcount, !word_usage by done. split_and!; try done.
  by apply word_u32.
Qed.

Lemma repinned_ok k b b' d :
  buf_ok k b → repinned b b' d → 0 ≤ k + d → buf_ok (k + d) b'.
Proof.
  intros [Hs Hu Hp Hio Ht] (Hc & Hf & Hs' & Hr & Hu'). split; [done|auto|lia| |].
  - change MAPBUF_IO_IN_PROGRESS with (2 ^ 15) in *. rewrite has_flag_bit in * by lia.
    change 15 with (1 + 14) in *. rewrite <-wflags_bit in * by lia. unfold bcore in Hc. congruence.
  - rewrite !bdirty_core in *. unfold bcore in Hc. intros Hn.
    replace (wflags (state b')) with (wflags (state b)) by congruence. apply Ht. congruence.
Qed.

Section pins.
Context (s : BufSys) (i : nat) (b : MapBufferDesc) (pg : list Z).
Context (Hb : buffers (pool s) !! i = Some b) (Hpg : pages (pool s) !! i = Some pg).
Context (Hst : is_u32 (state b)).

Lemma wp_pin adjust Q (E : pg_error → BufSys → Prop) :
  (511 ≤ MAPBUF_GET_REFCOUNT (state b) → E refcount_overflow s) →
  (∀ b', repinned b b' 1 → Q tt (upd s i b' pg (cache (pool s)) 1)) →
  wp (MapPinBuffer i adjust) Q E s.
Proof using All.
  destruct (u32_word _ Hst) as (ref & u & fl & Hs & Hok).
  intros HE HQ. apply wp_bind, (wp_get_buf s i b), wp_bind; [done|].
  rewrite Hs in *. rewrite word_refcount in HE by done.
  destruct (decide (ref < 511)) as [Hlt|Hge].
  2: { unfold pin_refcount. rewrite word_refcount, decide_True
         by (done || unfold MAPBUF_VALID_MASK; lia). apply HE. lia. }
  destruct (pin_word ref u fl Hok Hlt) as [-> Hok1]. unfold wp at 1, lift.
  set (b1 := with_state (word (ref + 1) u fl) b).
  apply wp_bind, (wp_set_buf s i pg); [done|].
  apply wp_bind, (wp_bump_private _ i b1 pg); [by eapply upd_buf_at|by eapply upd_page_at|].
  rewrite upd_upd. cbn [upd pool cache set_cache].
  apply (wp_update_state _ i b1 pg); [by eapply upd_buf_at|by eapply upd_page_at|].
  rewrite upd_upd. cbn [upd pool cache set_cache]. apply HQ.
  assert (∀ x, with_state x b1 = with_state x b) as -> by done.
  unfold pin_usage. cbn [b1 with_state state]. rewrite word_usage by done.
  destruct adjust; cbn; [|by eapply repinned_word].
  case_bool_decide; [|by eapply repinned_word].
  destruct (usage_inc_word (ref + 1) u fl Hok1) as [-> Hok2]; [lia|].
  eapply repinned_word; [done..|lia].
Qed.

Lemma wp_unpin Q (E : pg_error → BufSys → Prop) :
  0 < private_count i s ≤ MAPBUF_GET_REFCOUNT (state b) →
  (∀ b', repinned b b' (-1) → Q tt (upd s i b' pg (cache (pool s)) (-1))) →
  wp (MapUnpinBuffer i) Q E s.
Proof using All.
  destruct (u32_word _ Hst) as (ref & u & fl & Hs & Hok). intros Hp HQ.
  apply wp_bind, wp_gets. rewrite decide_False by lia.
  apply wp_bind, (wp_get_buf s i b), wp_bind; [done|]. rewrite Hs in *.
  rewrite word_refcount in Hp by done.
  destruct (unpin_word ref u fl Hok) as [-> Hok1]; [lia|]. unfold wp at 1, lift.
  apply wp_bind, (wp_set_buf s i pg); [done|].
  eapply wp_bump_private; [by eapply upd_buf_at|by eapply upd_page_at|].
  rewrite upd_upd. cbn [upd pool cache set_cache]. apply HQ. by eapply repinned_word.
Qed.
End pins.

(** *** Flags *)

Lemma word_clear ref u fl c :
  word_ok ref u fl → 0 ≤ c →
  word_ok ref u (Z.ldiff fl c) ∧
  Z.ldiff (word ref u fl) (Z.shiftl c 14) = word ref u (Z.ldiff fl c).
Proof.
  intros Hok Hc. destruct (word_update ref u fl 0 c Hok) as [Hok' Hw]; [lia..|].
  unfold MapBufferUpdateStateBits in Hw. change (Z.shiftl 0 14) with 0 in Hw.
  by rewrite !Z.lor_0_r in *.
Qed.

Lemma terminate_word ref u fl :
  word_ok ref u fl → Z.testbit fl 3 = false →
  ∃ fl', terminate_io true 0 (word ref u fl) = word ref u fl' ∧ word_ok ref u fl' ∧
    Z.testbit fl' 0 = false ∧ Z.testbit fl' 1 = false.
Proof.
  intros Hok Hj. unfold terminate_io. rewrite Z.lor_0_r, decide_True.
  2: { apply has_flag_zero. change MAPBUF_JUST_DIRTIED with (2 ^ 17).
       rewrite has_flag_bit, word_flag by (done || lia). done. }
  destruct (word_clear ref u fl 6 Hok) as [Hok1 E1]; [lia|].
  destruct (word_clear ref u _ 32 Hok1) as [Hok2 E2]; [lia|].
  destruct (word_clear ref u _ 1 Hok2) as [Hok3 E3]; [lia|].
  change (Z.lor MAPBUF_IO_IN_PROGRESS MAPBUF_IO_ERROR) with (Z.shiftl 6 14).
  change MAPBUF_CHECKPOINT_NEEDED with (Z.shiftl 32 14).
  change MAPBUF_DIRTY with (Z.shiftl 1 14). rewrite E1, E2, E3.
  eexists. split_and!; [done|done|..]; rewrite !Z.ldiff_spec; cbn;
    by rewrite ?andb_false_r, ?andb_true_r.
Qed.

(** [b'] is [b] with other flags. *)
Definition reflagged (b b' : MapBufferDesc) (dirty : bool) : Prop :=
  rnode b' = rnode b ∧ forknum b' = forknum b ∧ page_number b' = page_number b ∧
  pending_count b' = pending_count b ∧ pending_bits b' = pending_bits b ∧
  freeNext b' = freeNext b ∧ is_u32 (state b') ∧
  MAPBUF_GET_REFCOUNT (state b') = MAPBUF_GET_REFCOUNT (state b) ∧
  usage b' = usage b ∧ has_flag (state b') MAPBUF_IO_IN_PROGRESS = false ∧
  bdirty b' = dirty.

Lemma word_io_flag ref u fl :
  word_ok ref u fl → has_flag (word ref u fl) MAPBUF_IO_IN_PROGRESS = Z.testbit fl 1.
Proof.
  intros Hok. change MAPBUF_IO_IN_PROGRESS with (2 ^ 15).
  by rewrite has_flag_bit, word_flag by (done || lia).
Qed.

Lemma reflagged_word b ref u fl fl' :
  state b = word ref u fl → word_ok ref u fl → word_ok ref u fl' → Z.testbit fl' 1 = false →
  reflagged b (with_state (word ref u fl') b) (Z.testbit fl' 0).
Proof.
  intros Hs Hok Hok' Hio. unfold reflagged, usage. rewrite bdirty_core. cbn [with_state state].
  rewrite Hs, !word_refcount, !word_usage, !word_wflags, word_io_flag by done.
  split_and!; try done. by apply word_u32.
Qed.

Lemma reflagged_lsn_trans b b1 b2 d1 d2 lsn :
  reflagged b b1 d1 → reflagged (with_buf_lsn lsn b1) b2 d2 → reflagged b b2 d2.
Proof. unfold reflagged, usage. cbn. intuition congruence. Qed.

Lemma reflagged_ok k b b' d :
  buf_ok k b → reflagged b b' d → (forknum b = None → d = false) → buf_ok k b'.
Proof.
  intros [Hs Hu Hp Hio Ht] (_&Hf&_&_&_&_&Hs'&Hr&Hu'&Hio'&Hd) Hn.
  split; [done|lia|lia|done|]. rewrite Hf, Hd. done.
Qed.

Lemma update_bits_flagged b set clear :
  is_u32 (state b) → has_flag (state b) MAPBUF_IO_IN_PROGRESS = false →
  0 ≤ set < 2 ^ 18 → 0 ≤ clear → Z.testbit set 1 = false →
  reflagged b (with_state (MapBufferUpdateStateBits (state b) (Z.shiftl set 14)
                             (Z.shiftl clear 14)) b)
    ((bdirty b || Z.testbit set 0) && negb (Z.testbit clear 0)).
Proof.
  intros (ref & u & fl & Hs & Hok)%u32_word Hio Hset Hclear Hs1.
  rewrite bdirty_core, Hs, word_wflags, word_io_flag in * by done.
  destruct (word_update ref u fl set clear Hok Hset Hclear) as [Hok' ->].
  rewrite <-Z.lor_spec, <-Z.ldiff_spec. apply reflagged_word with fl; [done..|].
  by rewrite Z.ldiff_spec, Z.lor_spec, Hio, Hs1.
Qed.

(** ** Operations that keep tags, flags, pages and the cache *)

Lemma score_lookup s s' i b' :
  score s' = score s → buffers (pool s') !! i = Some b' →
  ∃ b, buffers (pool s) !! i = Some b ∧ bcore b' = bcore b.
Proof.
  intros Hsc Hb. assert ((bcore <$> buffers (pool s')) !! i = (bcore <$> buffers (pool s)) !! i)
    as Hl by (unfold score in Hsc; congruence).
  rewrite !list_lookup_fmap, Hb in Hl. cbn in Hl.
  destruct (buffers (pool s) !! i) as [b|]; [|done]. exists b. cbn in Hl. split; congruence.
Qed.

Lemma score_pages s s' : score s' = score s → pages (pool s') = pages (pool s).
Proof. unfold score. congruence. Qed.
Lemma score_cache s s' : score s' = score s → cache (pool s') = cache (pool s).
Proof. unfold score. congruence. Qed.

Lemma cache_ok_score s s' : score s' = score s → cache_ok s → cache_ok s'.
Proof.
  intros Hsc [Hfind Htag]. pose proof (score_cache _ _ Hsc) as Hc. split.
  - intros t slot. rewrite Hc. intros (i & b & -> & Hb & Ht)%Hfind.
    destruct (score_lookup s' s i b) as (b' & Hb' & Hcore); [done..|].
    exists i, b'. split_and!; [done|done|]. unfold tagged, bcore in *.
    destruct Ht as (<- & <- & <-). split_and!; congruence.
  - intros i b' f Hb' Hf. rewrite Hc.
    destruct (score_lookup s s' i b') as (b & Hb & Hcore); [done..|]. unfold bcore in Hcore.
    destruct (Htag i b f) as [Hp Hk]; [done|congruence|].
    replace (page_number b') with (page_number b) by congruence.
    by replace (rnode b') with (rnode b) by congruence.
Qed.

Lemma repin_score s i b b' pg d :
  buffers (pool s) !! i = Some b → pages (pool s) !! i = Some pg → repinned b b' d →
  score (upd s i b' pg (cache (pool s)) d) = score s.
Proof.
  intros Hb Hpg (Hc & _). unfold score. cbn.
  rewrite list_fmap_insert, Hc, (list_insert_id (pages _)) by done. do 2 f_equal.
  apply list_insert_id. by rewrite list_lookup_fmap, Hb.
Qed.

Lemma repin_pool s i b b' pg d :
  pool_ok s → buffers (pool s) !! i = Some b → pages (pool s) !! i = Some pg →
  repinned b b' d → 0 ≤ private_count i s + d →
  pool_ok (upd s i b' pg (cache (pool s)) d).
Proof.
  intros Hok Hb Hpg Hre Hd. apply upd_pool_ok with b; [done|done|apply Hre| |].
  - by apply (po_page s Hok i).
  - eapply repinned_ok; [|done|done]. by apply (po_buf s Hok).
Qed.

Lemma aged_ok k b b' : buf_ok k b → aged b b' → buf_ok k b'.
Proof.
  intros [Hs Hu Hp Hio Ht] Ha. pose proof (aged_core _ _ Ha) as Hc.
  pose proof Ha as (_&Hf&_&_&_&_& r & u & u' & f & Es & Es' & O & O' & Hle).
  split; [by eapply aged_u32|..]; unfold usage in *; rewrite ?bdirty_core, ?Es, ?Es', ?Hf in *;
    rewrite ?word_usage, ?word_refcount, ?word_io_flag, ?word_wflags in * by done; [lia|done..].
Qed.

Lemma clock_pool s s' :
  pool_ok s → clock_wf s' → free_wf s' → clock_rel s s' → pool_ok s'.
Proof.
  intros Hok Hcw Hfw Hrel. pose proof Hrel as [Hl Hb Hp Hc Hr Hio].
  destruct Hok as [_ _ Hpg Hpr Hpok Hbuf Hidle]. split; try done.
  - congruence.
  - congruence.
  - rewrite Hp. done.
  - intros i b' Hb'. destruct (clock_rel_back _ _ _ _ Hrel Hb') as (b & Hb0 & Ha).
    unfold private_count in *. rewrite Hr. by apply aged_ok with b; [apply Hbuf|].
  - congruence.
Qed.

(** *** Output I/O *)

Definition progress (o : option nat) (s : BufSys) : BufSys := MkSys (pool s) (private_ref s) o.

Lemma wp_start_io s i b pg required Q (E : pg_error → BufSys → Prop) :
  buffers (pool s) !! i = Some b → pages (pool s) !! i = Some pg → is_u32 (state b) →
  has_flag (state b) MAPBUF_IO_IN_PROGRESS = false → bdirty b = true →
  Z.land (state b) required = required →
  (∀ ref u fl fl', state b = word ref u fl → word_ok ref u fl → word_ok ref u fl' →
     Z.testbit fl' 3 = false →
     Q IoStarted (progress (Some i)
       (upd s i (with_state (word ref u fl') b) pg (cache (pool s)) 0))) →
  wp (MapStartBufferIO i required) Q E s.
Proof.
  intros Hb Hpg (ref & u & fl & Hs & Hok)%u32_word Hio Hd Hreq HQ.
  apply wp_bind, (wp_get_buf s i b); [done|]. rewrite Hio.
  destruct (start_io required (state b)) as [s1|] eqn:Hst.
  - rewrite Hs in Hst. destruct (start_io_word _ _ _ _ _ Hok Hst) as (fl' & -> & Hok' & _ & _ & _ & H3).
    apply wp_bind, (wp_set_buf s i pg); [done|]. by apply (HQ ref u fl fl').
  - unfold start_io in Hst. unfold bdirty in Hd. case_decide as Hg; [|done]. exfalso.
    destruct Hg as [Hg|Hg]; [|done].
    apply has_flag_zero in Hg. congruence.
Qed.

Lemma wp_terminate_io s i b pg ref u fl Q (E : pg_error → BufSys → Prop) :
  buffers (pool s) !! i = Some b → pages (pool s) !! i = Some pg →
  state b = word ref u fl → word_ok ref u fl → Z.testbit fl 3 = false →
  (∀ fl', word_ok ref u fl' → Z.testbit fl' 0 = false → Z.testbit fl' 1 = false →
     Q tt (progress None (upd s i (with_state (word ref u fl') b) pg (cache (pool s)) 0))) →
  wp (MapTerminateBufferIO i true 0) Q E s.
Proof.
  intros Hb Hpg Hs Hok H3 HQ. destruct (terminate_word ref u fl Hok H3) as (fl' & Ht & Hok' & H0 & H1).
  apply wp_bind, (wp_update_state s i b pg); [done..|]. rewrite Hs, Ht. by apply HQ.
Qed.

Lemma progress_idle s i b pg c d b' pg' c' d' :
  in_progress s = None →
  progress None (upd (progress (Some i) (upd s i b pg c d)) i b' pg' c' d') =
    upd s i b' pg' c' (d + d').
Proof.
  intros Hn. rewrite <-(upd_upd s i b pg c d). unfold progress, upd. cbn. by rewrite Hn.
Qed.

(** *** The usage bit of a claimed slot *)

Lemma lor_pow2 x k : 0 ≤ k → Z.lor x (2 ^ k) = if Z.testbit x k then x else x + 2 ^ k.
Proof.
  intros Hk. destruct (Z.testbit x k) eqn:Hb.
  - apply Z.bits_inj'. intros i Hi. rewrite Z.lor_spec, Z.pow2_bits_eqb by done.
    destruct (Z.eqb_spec k i) as [<-|]; [by rewrite Hb|by rewrite orb_false_r].
  - assert (Z.land x (2 ^ k) = 0) as Hz.
    { apply Z.bits_inj'. intros i Hi. rewrite Z.land_spec, Z.pow2_bits_eqb, Z.bits_0 by done.
      destruct (Z.eqb_spec k i) as [<-|]; [by rewrite Hb|by rewrite andb_false_r]. }
    by rewrite <-(Z.lxor_lor _ _ Hz), <-(Z.add_nocarry_lxor _ _ Hz).
Qed.

Lemma word_touch ref u fl :
  word_ok ref u fl → u ≤ 5 →
  ∃ u', MapBufferUpdateStateBits (word ref u fl) MAPBUF_USAGECOUNT_ONE 0 = word ref u' fl ∧
    word_ok ref u' fl ∧ u' ≤ 5.
Proof.
  intros Hok Hu. unfold MapBufferUpdateStateBits, MAPBUF_USAGECOUNT_ONE. rewrite Z.ldiff_0_r.
  change 512 with (2 ^ 9). rewrite lor_pow2 by lia.
  assert (Z.testbit (word ref u fl) 9 = Z.odd u) as ->.
  { rewrite Z.testbit_odd, Z.shiftr_div_pow2 by lia. change (2 ^ 9) with 512.
    unfold word_ok, word in *. replace ((ref + 512 * u + 16384 * fl) / 512) with (u + 2 * (16 * fl))
      by (Z.to_euclidean_division_equations; lia).
    by rewrite Z.odd_add_mul_2. }
  destruct (Z.odd u) eqn:Hodd; [by exists u|]. exists (u + 1).
  assert (u ≠ 5) by (intros ->; done). unfold word_ok, word in *. lia.
Qed.

(** *** Taking over a slot *)

Lemma wp_cache_insert s i b pg t Q (E : pg_error → BufSys → Prop) :
  buffers (pool s) !! i = Some b → pages (pool s) !! i = Some pg → cache (pool s) !! t = None →
  Q None (upd s i b pg (<[t := Z.of_nat i]> (cache (pool s))) 0) →
  wp (MapCacheInsert t.1.1 t.1.2 t.2 i) Q E s.
Proof.
  intros Hb Hpg Hn HQ. destruct t as [[r f] p]. unfold wp, MapCacheInsert. cbn in *. rewrite Hn.
  unfold upd in HQ. by rewrite alter_add_0, !list_insert_id in HQ by done.
Qed.

(** The old tag of the slot leaves the table after the new one entered it. *)
Lemma wp_drop_old s i b pg t c Q (E : pg_error → BufSys → Prop) :
  buffers (pool s) !! i = Some b → pages (pool s) !! i = Some pg →
  cache (pool s) = <[t := Z.of_nat i]> c → c !! t = None →
  (∀ f, forknum b = Some f → 0 < page_number b ≤ MaxBlockNumber ∧
     c !! (rnode b, f, page_number b) = Some (Z.of_nat i)) →
  Q tt (upd s i b pg (<[t := Z.of_nat i]> (drop_tag b c)) 0) →
  wp (match forknum b with
      | Some old_fork => if decide (0 ≤ page_number b)
          then MapCacheDelete (rnode b) old_fork (page_number b) i else mret tt
      | None => mret tt
      end) Q E s.
Proof.
  intros Hb Hpg Hc Ht Htag HQ. unfold drop_tag in HQ.
  destruct (forknum b) as [f|] eqn:Hf.
  - destruct (Htag f eq_refl) as [Hp Hold]. rewrite decide_True by lia.
    assert (t ≠ (rnode b, f, page_number b)) as Hne by congruence.
    unfold wp, MapCacheDelete, modify. rewrite Hc, lookup_insert_ne by done.
    rewrite decide_True by done. rewrite delete_insert_ne by done.
    unfold upd in HQ. by rewrite alter_add_0, !list_insert_id in HQ by done.
  - rewrite <-Hc, (upd_id s i b pg) in HQ by done. done.
Qed.

Lemma private_nonneg s i : pool_ok s → 0 ≤ private_count i s.
Proof.
  intros Hp. unfold private_count. destruct (private_ref s !! i) as [k|] eqn:Hk; [|done].
  apply lookup_lt_Some in Hk as Hlt. rewrite (po_private _ Hp) in Hlt.
  apply lookup_lt_is_Some in Hlt as [b Hb].
  pose proof (bo_pins _ _ (po_buf _ Hp i b Hb)) as Hbp. unfold private_count in Hbp.
  rewrite Hk in Hbp. cbn in *. lia.
Qed.

(** ** What one backend's operation leaves to the others

    The pins of the other backends, the tag and the in-flight entries of every
    buffer that has in-flight entries. *)

Definition same_marks (b b' : MapBufferDesc) : Prop :=
  pending_count b' = pending_count b ∧
  (rnode b' = rnode b ∧ forknum b' = forknum b ∧ page_number b' = page_number b ∧
     pending_bits b' = pending_bits b ∨
   pending_count b = 0 ∧ pending_bits b' = zero_pending).

Definition keeps (s s' : BufSys) : Prop :=
  length (buffers (pool s')) = length (buffers (pool s)) ∧
  ∀ j b, buffers (pool s) !! j = Some b → ∃ b', buffers (pool s') !! j = Some b' ∧
    MAPBUF_GET_REFCOUNT (state b') - private_count j s' =
      MAPBUF_GET_REFCOUNT (state b) - private_count j s ∧
    same_marks b b'.

Lemma same_marks_refl b : same_marks b b.
Proof. split; [done|]. by left. Qed.

Lemma same_marks_trans b1 b2 b3 : same_marks b1 b2 → same_marks b2 b3 → same_marks b1 b3.
Proof.
  intros [E1 H1] [E2 H2]. split; [congruence|].
  destruct H2 as [(?&?&?&?)|[? ?]]; [|right; split; congruence].
  destruct H1 as [(?&?&?&?)|[? ?]]; [left; split_and!; congruence|right; split; congruence].
Qed.

Lemma same_marks_eq b b' :
  rnode b' = rnode b → forknum b' = forknum b → page_number b' = page_number b →
  pending_count b' = pending_count b → pending_bits b' = pending_bits b → same_marks b b'.
Proof. intros. split; [done|]. by left. Qed.

Lemma keeps_refl s : keeps s s.
Proof. split; [done|]. intros j b Hb. exists b. by split_and!; [..|apply same_marks_refl]. Qed.

Lemma keeps_trans s1 s2 s3 : keeps s1 s2 → keeps s2 s3 → keeps s1 s3.
Proof.
  intros [L1 H1] [L2 H2]. split; [congruence|]. intros j b Hb.
  destruct (H1 j b Hb) as (b2 & Hb2 & E2 & P2). destruct (H2 j b2 Hb2) as (b3 & Hb3 & E3 & P3).
  exists b3. split_and!; [done|lia|by eapply same_marks_trans].
Qed.

Lemma private_upd sys i b pg c d j :
  (i < length (private_ref sys))%nat →
  private_count j (upd sys i b pg c d) = private_count j sys + if decide (j = i) then d else 0.
Proof.
  intros Hi. unfold private_count. cbn. destruct (decide (j = i)) as [->|Hne].
  - apply lookup_lt_is_Some in Hi as [k Hk]. by rewrite list_lookup_alter_eq, Hk.
  - rewrite list_lookup_alter_ne by done. lia.
Qed.

Lemma private_upd_at sys i b b' pg c d j :
  pool_ok sys → buffers (pool sys) !! i = Some b →
  private_count j (upd sys i b' pg c d) = private_count j sys + if decide (j = i) then d else 0.
Proof.
  intros Hp Hb. apply private_upd. rewrite (po_private _ Hp). by eapply lookup_lt_Some.
Qed.

Lemma keeps_upd s i b b' pg c d :
  pool_ok s → buffers (pool s) !! i = Some b →
  MAPBUF_GET_REFCOUNT (state b') = MAPBUF_GET_REFCOUNT (state b) + d →
  same_marks b b' → keeps s (upd s i b' pg c d).
Proof.
  intros Hp Hb Hr Ht. split; [cbn; apply length_insert|]. intros j x Hx.
  rewrite (private_upd_at _ _ b) by done. destruct (decide (j = i)) as [->|Hne].
  - exists b'. split; [by eapply upd_buf_at|]. simplify_eq. split; [lia|done].
  - exists x. split; [cbn; by rewrite list_lookup_insert_ne|]. split; [lia|apply same_marks_refl].
Qed.

Lemma keeps_repin s i b b' pg c d :
  pool_ok s → buffers (pool s) !! i = Some b → repinned b b' d → keeps s (upd s i b' pg c d).
Proof.
  intros Hp Hb (Hc & _ & _ & Hr & _). unfold bcore in Hc.
  apply keeps_upd with b; [done|done|done|]. apply same_marks_eq; congruence.
Qed.

Lemma keeps_reflag s i b b' pg c dirty :
  pool_ok s → buffers (pool s) !! i = Some b → reflagged b b' dirty → keeps s (upd s i b' pg c 0).
Proof.
  intros Hp Hb (Er & Ef & Ep & Epc & Epb & _ & _ & Hr & _).
  apply keeps_upd with b; [done|done|lia|]. by apply same_marks_eq.
Qed.

Lemma keeps_clock s s' : clock_rel s s' → keeps s s'.
Proof.
  intros Hrel. split; [apply Hrel|]. intros j b Hb.
  destruct (cr_buf _ _ Hrel j b Hb) as (b' & Hb' & Ha). exists b'.
  split; [done|]. unfold private_count. rewrite (cr_private _ _ Hrel).
  destruct Ha as (Er & Ef & Ep & _ & Epc & Epb & r & u & u' & f & Es & Es' & O & O' & _).
  rewrite Es, Es', !word_refcount by done. split; [done|]. by apply same_marks_eq.
Qed.
