(* ===== verification/MapPage.v ===== *)
(** * Map pages

    The operations that move map pages between the buffer pool and the
    metadata fork ([MapReadBuffer] of [storage/map/map.c], the page writeback
    of [storage/map/mapflush.c], first dirtying of [storage/map/mapbuf.c]) and
    the lookups and updates of single map entries of [storage/map/map.c], for
    one running backend. *)

From S2P Require Import Prelude MapLayout Superblock SuperTable FileLayer SBlock.
From S2P Require Import BufState MapBuf.

Local Open Scope Z_scope.

(** ** State *)

(** An in-flight remap owned by this backend ([MapInflightLocalEntry]). *)
Record LocalEntry := MkLocal {
  le_rnode : RelFileLocator;
  le_fork : ForkNumber;
  le_lblkno : Z;
  le_pblkno : Z;
  le_slot : nat;
  le_idx : Z;
}.

#[global] Instance LocalEntry_eq_dec : EqDecision LocalEntry.
Proof. solve_decision. Defined.

Record MapState (T F : Type) := MkMapState {
  ms_world : World T F;
  ms_sys : BufSys;
  ms_local : list LocalEntry;
}.
Arguments MkMapState {T F} _ _ _.
Arguments ms_world {T F} _.
Arguments ms_sys {T F} _.
Arguments ms_local {T F} _.

(** ** Page images *)

Definition page_widths : list nat := replicate (Z.to_nat MAP_ENTRIES_PER_PAGE) 4%nat.
Definition page_bytes (pg : list Z) : list Z := pack_fields page_widths pg.
Definition bytes_page (bs : list Z) : list Z := unpack_fields page_widths bs.
Definition ff_page : list Z := replicate (Z.to_nat MAP_ENTRIES_PER_PAGE) InvalidBlockNumber.
Definition zero_page : list Z := replicate (Z.to_nat MAP_ENTRIES_PER_PAGE) 0.

Definition would_block : pg_error :=
  PgError ERROR ERRCODE_INTERNAL_ERROR "waiting for the I/O of another backend".
Definition retrying : pg_error :=
  PgError ERROR ERRCODE_INTERNAL_ERROR "retry loop still running".

Definition tag_matches (b : MapBufferDesc) (r : RelFileLocator) (f : ForkNumber) (blk : Z)
    : bool :=
  bool_decide (page_number b = blk) && bool_decide (0 ≤ page_number b) &&
  bool_decide (rnode b = r) && bool_decide (forknum b = Some f).

Inductive MapCachedLookupResult :=
  | MAP_CACHED_LOOKUP_MISS
  | MAP_CACHED_LOOKUP_UNMAPPED
  | MAP_CACHED_LOOKUP_MAPPED (pblkno : Z).

Section ops.
Context {T F : Type} `{SuperStore T} `{FileLayer F} (env : Env).
Local Abbreviation S := (MapState T F).

Definition on_sys {A} (m : M BufSys A) : M S A := λ s,
  let '(res, sys) := m (ms_sys s) in (res, MkMapState (ms_world s) sys (ms_local s)).

Definition on_world {A} (m : M (World T F) A) : M S A := λ s,
  let '(res, w) := m (ms_world s) in (res, MkMapState w (ms_sys s) (ms_local s)).

Definition get_files : M S F := gets (λ s, w_files (ms_world s)).

Definition lift_files (m : F → result F) : M S unit :=
  s ← get;
  fs ← lift (m (w_files (ms_world s)));
  on_world (modify (set_files fs)).

(** ** Writeback of one page *)

Definition MapFlushWritePage (r : RelFileLocator) (map_blkno : Z) (pg : list Z)
    (page_lsn : Z) : M S unit :=
  on_world (when (negb (InRecovery env) && bool_decide (page_lsn ≠ InvalidXLogRecPtr))
              (XLogFlush page_lsn));;
  lift_files (λ fs, fl_write fs r UMBRA_METADATA_FORKNUM map_blkno (page_bytes pg)).

Definition MapFlushBufferCached (slot : nat) (checkpoint : bool) : M S unit :=
  st ← on_sys (MapStartBufferIO slot (if checkpoint then MAPBUF_CHECKPOINT_NEEDED else 0));
  match st with
  | IoBusy => throw would_block
  | IoSkip => mret tt
  | IoStarted =>
      b ← on_sys (get_buf slot);
      if decide (page_number b < 0) then on_sys (MapTerminateBufferIO slot true 0)
      else if decide (page_number b = MAP_BLOCK_SUPER) then
        on_sys (MapTerminateBufferIO slot false MAPBUF_IO_ERROR);;
        elog ERROR "MAP superblock cannot be flushed via map buffer cache"
      else
        pg ← on_sys (get_page slot);
        MapFlushWritePage (rnode b) (page_number b) pg (buf_page_lsn b);;
        on_sys (MapTerminateBufferIO slot true 0)
  end.

Definition MapFlushBuffer (slot : nat) : M S unit := MapFlushBufferCached slot false.

(** ** First dirtying *)

Definition MapEnsureBufferMaterialized (r : RelFileLocator) (slot : nat) : M S unit :=
  b ← on_sys (get_buf slot);
  if negb (has_flag (state b) MAPBUF_NOT_MATERIALIZED) then mret tt
  else
    fs ← get_files;
    if negb (fl_exists fs r UMBRA_METADATA_FORKNUM)
    then elog PANIC "cannot materialize MAP page without MAP fork"
    else
      let map_nblocks := fl_nblocks fs r UMBRA_METADATA_FORKNUM in
      let map_blkno := page_number b in
      (if decide (map_nblocks ≤ map_blkno)
       then lift_files (λ fs, fl_zeroextend fs r UMBRA_METADATA_FORKNUM map_nblocks
                                (map_blkno + 1 - map_nblocks))
       else mret tt);;
      on_sys (update_bits slot 0 MAPBUF_NOT_MATERIALIZED).

(** [r] is the relation of the caller's file context. *)
Definition MapMarkBufferDirty (r : RelFileLocator) (slot : nat) (page_lsn : Z) : M S unit :=
  b ← on_sys (get_buf slot);
  (if decide (page_number b ≠ MAP_BLOCK_SUPER) then MapEnsureBufferMaterialized r slot
   else mret tt);;
  b ← on_sys (get_buf slot);
  on_sys (set_buf slot (with_buf_lsn page_lsn b));;
  on_sys (update_bits slot (Z.lor MAPBUF_DIRTY MAPBUF_JUST_DIRTIED) 0).

(** ** Reading a page into a buffer *)

(** The contents of the claimed slot, from disk or synthesised. *)
Definition all_zeros_needed (r : RelFileLocator) (f : ForkNumber) (map_blkno : Z)
    : M S bool :=
  on ← on_world (MapSBlockTryGetLogicalNblocks env r f);
  mret (match on, MapDecodeMapBlkno map_blkno with
        | Some n, Some (page_forknum, page_idx) =>
            bool_decide (0 < n) && bool_decide (page_forknum = f) &&
            bool_decide (u64 (page_idx * MAP_ENTRIES_PER_PAGE) < n)
        | _, _ => false
        end).

Definition load_page (r : RelFileLocator) (f : ForkNumber) (map_blkno : Z) (slot : nat)
    : M S unit :=
  fs ← get_files;
  if fl_exists fs r UMBRA_METADATA_FORKNUM then
    let map_nblocks := fl_nblocks fs r UMBRA_METADATA_FORKNUM in
    in_range ← (if decide (map_blkno < map_nblocks) then
                  on ← on_world (MapSBlockTryGetLogicalNblocks env r f);
                  mret (MapMapPageWithinLogicalRange on f map_blkno)
                else mret false);
    match in_range with
    | true =>
        bs ← lift (fl_read fs r UMBRA_METADATA_FORKNUM map_blkno (Z.to_nat BLCKSZ));
        on_sys (set_page slot (bytes_page bs));;
        on_sys (update_bits slot 0 MAPBUF_NOT_MATERIALIZED);;
        if bool_decide (bs = zero_block) then
          need ← all_zeros_needed r f map_blkno;
          match need with
          | true => ereport ERROR ERRCODE_DATA_CORRUPTED "MAP page is all-zeros"
          | false => on_sys (set_page slot ff_page)
          end
        else mret tt
    | false =>
        on_sys (set_page slot ff_page);;
        if decide (map_nblocks ≤ map_blkno)
        then on_sys (update_bits slot MAPBUF_NOT_MATERIALIZED 0)
        else on_sys (update_bits slot 0 MAPBUF_NOT_MATERIALIZED)
    end
  else
    on_sys (set_page slot ff_page);;
    on_sys (update_bits slot MAPBUF_NOT_MATERIALIZED 0).

(** Take over the pinned victim for the new tag. *)
Definition claim_slot (r : RelFileLocator) (f : ForkNumber) (map_blkno : Z) (slot : nat)
    : M S (option nat) :=
  b ← on_sys (get_buf slot);
  on_sys (set_buf slot (with_pending (pending_count b) zero_pending b));;
  existing ← on_sys (MapCacheInsert r f map_blkno slot);
  if match existing with
     | Some e => bool_decide (0 ≤ e) && bool_decide (e ≠ Z.of_nat slot)
     | None => false
     end
  then on_sys (MapUnpinBuffer slot);; mret None
  else
    on_sys (match forknum b with
            | Some old_fork =>
                if decide (0 ≤ page_number b)
                then MapCacheDelete (rnode b) old_fork (page_number b) slot
                else mret tt
            | None => mret tt
            end);;
    b ← on_sys (get_buf slot);
    on_sys (set_buf slot (with_tag r (Some f) map_blkno 0 b));;
    on_sys (update_bits slot MAPBUF_USAGECOUNT_ONE 0);;
    load_page r f map_blkno slot;;
    mret (Some slot).

(** Write a dirty victim back; [Some true]: the slot is clean and still ours,
    [Some false]: it holds the wanted page, [None]: try again. *)
Definition clean_victim (r : RelFileLocator) (f : ForkNumber) (map_blkno : Z) (slot : nat)
    : M S (option bool) :=
  b ← on_sys (get_buf slot);
  if has_flag (state b) MAPBUF_DIRTY then
    MapFlushBuffer slot;;
    b ← on_sys (get_buf slot);
    if tag_matches b r f map_blkno then mret (Some false)
    else if decide (MAPBUF_GET_REFCOUNT (state b) ≠ 1 ∨
                    has_flag (state b) MAPBUF_DIRTY = true)
    then on_sys (MapUnpinBuffer slot);; mret None
    else mret (Some true)
  else mret (Some true).

(** One turn of the loop; [None] is [continue]. *)
Definition read_buffer_turn (r : RelFileLocator) (f : ForkNumber) (map_blkno : Z)
    : M S (option nat) :=
  cached ← on_sys (MapCacheLookup r f map_blkno);
  match cached with
  | Some slot =>
      on_sys (MapPinBuffer slot true);;
      b ← on_sys (get_buf slot);
      if tag_matches b r f map_blkno then mret (Some slot)
      else on_sys (MapUnpinBuffer slot);; mret None
  | None =>
      slot ← on_sys MapClockGetBuffer;
      on_sys (MapPinBuffer slot false);;
      b ← on_sys (get_buf slot);
      if tag_matches b r f map_blkno then mret (Some slot)
      else if decide (MAPBUF_GET_REFCOUNT (state b) ≠ 1)
      then on_sys (MapUnpinBuffer slot);; mret None
      else
        c ← clean_victim r f map_blkno slot;
        match c with
        | None => mret None
        | Some false => mret (Some slot)
        | Some true =>
            b ← on_sys (get_buf slot);
            if decide (pending_count b ≠ 0)
            then on_sys (MapUnpinBuffer slot);; mret None
            else claim_slot r f map_blkno slot
        end
  end.

Fixpoint read_buffer_loop (fuel : nat) (r : RelFileLocator) (f : ForkNumber) (map_blkno : Z)
    : M S nat :=
  match fuel with
  | O => throw retrying
  | Datatypes.S fuel =>
      o ← read_buffer_turn r f map_blkno;
      match o with
      | Some slot => mret slot
      | None => read_buffer_loop fuel r f map_blkno
      end
  end.

Definition MapReadBuffer (r : RelFileLocator) (f : ForkNumber) (map_blkno : Z) : M S nat :=
  if decide (map_blkno = MAP_BLOCK_SUPER)
  then elog ERROR "MapReadBuffer cannot be used for MAP superblock"
  else read_buffer_loop 2 r f map_blkno.

(** ** Entries *)

(** Page and index of the entry of a logical block. *)
Definition entry_location (f : ForkNumber) (lblkno : Z) : result (Z * Z) :=
  n ← MapLblknoToMapBlkno f lblkno;
  Ok (n / MAP_ENTRIES_PER_PAGE, n mod MAP_ENTRIES_PER_PAGE).

Definition entry_of (pg : list Z) (idx : Z) : Z :=
  default InvalidBlockNumber (pg !! Z.to_nat idx).

Definition MapTryLookupCachedEntry (r : RelFileLocator) (f : ForkNumber) (map_blkno idx : Z)
    (adjust_usage : bool) : M S MapCachedLookupResult :=
  cached ← on_sys (MapCacheLookup r f map_blkno);
  match cached with
  | None => mret MAP_CACHED_LOOKUP_MISS
  | Some slot =>
      on_sys (MapPinBuffer slot adjust_usage);;
      b ← on_sys (get_buf slot);
      if negb (tag_matches b r f map_blkno) then
        on_sys (MapUnpinBuffer slot);; mret MAP_CACHED_LOOKUP_MISS
      else
        pg ← on_sys (get_page slot);
        let value := entry_of pg idx in
        on_sys (MapUnpinBuffer slot);;
        if decide (value = InvalidBlockNumber) then mret MAP_CACHED_LOOKUP_UNMAPPED
        else mret (MAP_CACHED_LOOKUP_MAPPED value)
  end.

Definition MapTryLookupCachedPblknoInternal (r : RelFileLocator) (f : ForkNumber) (lblkno : Z)
    (adjust_usage : bool) : M S MapCachedLookupResult :=
  if decide (f = UMBRA_METADATA_FORKNUM) then mret MAP_CACHED_LOOKUP_MISS
  else
    loc ← lift (entry_location f lblkno);
    MapTryLookupCachedEntry r f loc.1 loc.2 adjust_usage.

(** [None] is the [false] return. *)
Definition MapTryLookup (r : RelFileLocator) (f : ForkNumber) (lblkno : Z) : M S (option Z) :=
  if decide (f = UMBRA_METADATA_FORKNUM)
  then elog ERROR "MapTryLookup does not accept Umbra metadata fork"
  else
    c ← MapTryLookupCachedPblknoInternal r f lblkno true;
    match c with
    | MAP_CACHED_LOOKUP_MAPPED p => mret (Some p)
    | MAP_CACHED_LOOKUP_UNMAPPED => mret None
    | MAP_CACHED_LOOKUP_MISS =>
        loc ← lift (entry_location f lblkno);
        slot ← MapReadBuffer r f loc.1;
        b ← on_sys (get_buf slot);
        if negb (has_flag (state b) MAPBUF_VALID_MASK)
        then elog ERROR "map buffer not pinned"
        else
          pg ← on_sys (get_page slot);
          let p := entry_of pg loc.2 in
          on_sys (MapUnpinBuffer slot);;
          mret (if decide (p ≠ InvalidBlockNumber) then Some p else None)
    end.

Definition MapSetMapping (r : RelFileLocator) (f : ForkNumber) (lblkno new_pblkno map_lsn : Z)
    : M S unit :=
  loc ← lift (entry_location f lblkno);
  slot ← MapReadBuffer r f loc.1;
  pg ← on_sys (get_page slot);
  on_sys (set_page slot (<[Z.to_nat loc.2 := new_pblkno]> pg));;
  MapMarkBufferDirty r slot (update_lsn env map_lsn);;
  on_sys (MapUnpinBuffer slot).
End ops.
