(* ===== verification/MapPageSpec.v ===== *)
(** * Map pages: the map of a relation

    The map of a relation is what its cached pages and, for pages that are not
    cached, its metadata fork say.  Reading a page into a buffer, which may
    write back and evict another page, does not change the map of any
    relation; lookups return it and updates change one entry of it. *)

From S2P Require Import Prelude MapLayout Superblock SuperTable FileLayer SBlock SBlockInv.
From S2P Require Import BufState MapBuf MapClock PoolInv MapPage.

Local Open Scope Z_scope.

(** ** Page images *)

Lemma sum_replicate n w : sum_list (replicate n w) = (n * w)%nat.
Proof. induction n as [|n IH]; simpl in *; lia. Qed.

Lemma page_bytes_wf pg :
  page_ok pg → length (page_bytes pg) = Z.to_nat BLCKSZ ∧ Forall is_byte (page_bytes pg).
Proof.
  intros [Hl _]. split; [|apply pack_fields_is_byte]. unfold page_bytes, page_widths.
  rewrite length_pack_fields by (by rewrite length_replicate).
  rewrite sum_replicate. exact eq_refl.
Qed.

Lemma bytes_page_bytes pg : page_ok pg → bytes_page (page_bytes pg) = pg.
Proof.
  intros [Hl Hf]. unfold bytes_page, page_bytes, page_widths.
  rewrite <-(app_nil_r (pack_fields _ _)). apply unpack_pack_fields.
  rewrite <-Hl. clear Hl. induction Hf as [|x pg Hx Hf IH]; constructor; [|done].
  unfold fits, is_u32 in *. change (256 ^ Z.of_nat 4) with (2 ^ 32). done.
Qed.

Lemma bytes_page_ok bs :
  length bs = Z.to_nat BLCKSZ → Forall is_byte bs → page_ok (bytes_page bs).
Proof.
  intros Hl Hb. assert (Forall2 fits page_widths (bytes_page bs)) as Hf.
  { apply unpack_fields_fits; [done|]. unfold page_widths. rewrite sum_replicate, Hl. exact (le_n _). }
  split.
  - rewrite <-(Forall2_length Hf). unfold page_widths. by rewrite length_replicate.
  - unfold page_widths in Hf. revert Hf. generalize (Z.to_nat MAP_ENTRIES_PER_PAGE).
    generalize (bytes_page bs). intros pg n Hf. revert n Hf.
    induction pg as [|x pg IH]; intros [|n] Hf; inversion Hf; subst; constructor; eauto.
Qed.

Lemma ff_page_ok : page_ok ff_page.
Proof.
  split; [apply length_replicate|]. apply Forall_replicate. unfold is_u32, InvalidBlockNumber. lia.
Qed.

(** Some entry of the page is not zero. *)
Definition nonzero (pg : list Z) : Prop := page_bytes pg ≠ zero_block.

Lemma nonzero_entry pg idx x :
  page_ok pg → pg !! idx = Some x → x ≠ 0 → nonzero pg.
Proof.
  intros Hok Hx Hnz Hz. apply (f_equal bytes_page) in Hz.
  rewrite bytes_page_bytes in Hz by done.
  assert (bytes_page zero_block = zero_page) as E by (by vm_compute).
  rewrite E in Hz. subst pg. apply lookup_replicate in Hx as [-> _]. exact (Hnz eq_refl).
Qed.

Section view.
Context {T F : Type} `{SuperStore T} `{FileLayerLaws F}.
Local Abbreviation S := (MapState T F).
Implicit Types s : S.

Definition files s : F := w_files (ms_world s).

(** The logical size in the superblock cache, when it may be trusted. *)
Definition trusted_size (t : T) (r : RelFileLocator) (f : ForkNumber) : option Z :=
  match ss_find t r with
  | Some e =>
      if has_flag (eflags e) MAPSUPER_FLAG_VALID && MapForkHasMappedState f &&
         negb (has_flag (eflags e) MAPSUPER_FLAG_CORRUPT) &&
         MapSuperblockHasValidIdentity (super e)
      then match MapSuperblockGetLogicalNblocks (super e) f with
           | Ok v => Some (MapNormalizeForkBlockCount f v)
           | Err _ => None
           end
      else None
  | None => None
  end.

Lemma trusted_size_run env (w : World T F) r f n :
  trusted_size (w_store w) r f = Some n →
  MapSBlockTryGetLogicalNblocks env r f w = (Ok (Some n), w).
Proof.
  unfold trusted_size, MapSBlockTryGetLogicalNblocks, read_super_field.
  destruct (ss_find (w_store w) r) as [e|] eqn:Hf; [|done].
  destruct (has_flag (eflags e) MAPSUPER_FLAG_VALID) eqn:Hv; [|done].
  destruct (MapForkHasMappedState f); [|done].
  destruct (has_flag (eflags e) MAPSUPER_FLAG_CORRUPT) eqn:Hc; [done|].
  destruct (MapSuperblockHasValidIdentity (super e)) eqn:Hi; [|done]. cbn.
  destruct (MapSuperblockGetLogicalNblocks (super e) f) as [v|] eqn:Hl; [|done].
  intros [= <-]. unfold MapSBlockRead, find_entry, mbind, M_bind, gets. rewrite Hf, Hv. cbn.
  unfold entry_status. rewrite Hc, Hi. cbn. unfold lift. by rewrite Hl.
Qed.

(** A page of the metadata fork; zero blocks are holes. *)
Definition stored (fs : F) (r : RelFileLocator) (blk : Z) : option (list Z) :=
  match fl_content fs r UMBRA_METADATA_FORKNUM blk with
  | Some bs => if decide (bs = zero_block) then None else Some (bytes_page bs)
  | None => None
  end.

(** What a page that is not cached stands for. *)
Definition reload (fs : F) (n : Z) (r : RelFileLocator) (f : ForkNumber) (blk : Z)
    : option (list Z) :=
  if MapMapPageWithinLogicalRange (Some n) f blk then stored fs r blk else Some ff_page.

(** The page of the map, for a relation of known size. *)
Definition map_page s (r : RelFileLocator) (f : ForkNumber) (blk : Z) : option (list Z) :=
  match cache (pool (ms_sys s)) !! (r, f, blk), trusted_size (w_store (ms_world s)) r f with
  | Some slot, Some _ => pages (pool (ms_sys s)) !! Z.to_nat slot
  | None, Some n => reload (files s) n r f blk
  | _, None => None
  end.

(** [pg] in a buffer agrees with the fork: a clean page is what a reload
    gives, a dirty one will be once it is written; past the logical size the
    fork is not read, so the page has to be empty there. *)
Definition agrees (fs : F) (n : Z) (b : MapBufferDesc) (f : ForkNumber) (pg : list Z) : Prop :=
  if bdirty b
  then nonzero pg ∧
       (MapMapPageWithinLogicalRange (Some n) f (page_number b) = false → pg = ff_page)
  else reload fs n (rnode b) f (page_number b) = Some pg.

Record map_inv s : Prop := {
  mi_pool : pool_ok (ms_sys s);
  mi_cache : cache_ok (ms_sys s);
  mi_fork : ∀ i b f, buffers (pool (ms_sys s)) !! i = Some b → forknum b = Some f →
    ∃ idx, MapDecodeMapBlkno (page_number b) = Some (f, idx);
  mi_exists : ∀ r f n, trusted_size (w_store (ms_world s)) r f = Some n →
    fl_exists (files s) r UMBRA_METADATA_FORKNUM = true;
  mi_agrees : ∀ i b f pg n, buffers (pool (ms_sys s)) !! i = Some b →
    forknum b = Some f → pages (pool (ms_sys s)) !! i = Some pg →
    trusted_size (w_store (ms_world s)) (rnode b) f = Some n → agrees (files s) n b f pg;
}.

(** Data forks are untouched. *)
Definition same_data (fs fs' : F) : Prop :=
  ∀ r k b, k ≠ UMBRA_METADATA_FORKNUM → fl_content fs' r k b = fl_content fs r k b.

#[global] Instance same_data_refl : Reflexive same_data.
Proof. by intros fs r k b. Qed.
#[global] Instance same_data_trans : Transitive same_data.
Proof. intros fs1 fs2 fs3 H12 H23 r k b Hk. by rewrite H23, H12. Qed.

(** What reading and writing map pages does to the world: WAL is flushed, no
    block of a metadata fork disappears, and no superblock and no data fork
    changes. *)
Definition io_step (w w' : World T F) : Prop :=
  w_store w' = w_store w ∧ w_flushed w ≤ w_flushed w' ∧
  (∀ r, fl_exists (w_files w') r UMBRA_METADATA_FORKNUM =
     fl_exists (w_files w) r UMBRA_METADATA_FORKNUM) ∧
  (∀ r b, 0 ≤ b → is_Some (fl_content (w_files w) r UMBRA_METADATA_FORKNUM b) →
     is_Some (fl_content (w_files w') r UMBRA_METADATA_FORKNUM b)) ∧
  (∀ r, disk_super (w_files w') r = disk_super (w_files w) r) ∧
  same_data (w_files w) (w_files w').

#[global] Instance io_step_refl : Reflexive io_step.
Proof. intros w. by split_and!. Qed.
#[global] Instance io_step_trans : Transitive io_step.
Proof.
  intros w1 w2 w3 (E1 & L1 & X1 & C1 & D1 & A1) (E2 & L2 & X2 & C2 & D2 & A2).
  split_and!; [congruence|lia|intros; by rewrite X2|auto|intros; by rewrite D2|by etrans].
Qed.

Lemma disk_super_kept (fs fs' : F) r :
  block_kept (fl_content fs r UMBRA_METADATA_FORKNUM MAP_BLOCK_SUPER)
    (fl_content fs' r UMBRA_METADATA_FORKNUM MAP_BLOCK_SUPER) →
  disk_super fs' r = disk_super fs r.
Proof. unfold disk_super. intros [->|[-> ->]]; [done|]. by vm_compute. Qed.

Lemma block_kept_some (o o' : option (list Z)) : block_kept o o' → is_Some o → is_Some o'.
Proof. intros [->|[-> _]]; [done|]. by intros []. Qed.

Lemma write_io_step (w w' : World T F) r blk data :
  fl_write (w_files w) r UMBRA_METADATA_FORKNUM blk data = Ok (w_files w') →
  (length data ≤ Z.to_nat BLCKSZ)%nat ∧ Forall is_byte data → 0 < blk →
  w_store w' = w_store w → w_flushed w ≤ w_flushed w' → io_step w w'.
Proof.
  intros Hw [Hl Hb] Hpos Hst Hfl. split_and!; [done|done|intros; by eapply fl_write_exists|..].
  - intros r' b Hb0 Hc. destruct (decide ((r', b) = (r, blk))) as [[= -> ->]|Hne].
    + destruct (fl_write_block _ _ _ _ _ _ Hl Hb Hw) as (d & -> & _). done.
    + eapply block_kept_some; [|done]. eapply fl_write_frame; [done|congruence].
  - intros r'. apply disk_super_kept. eapply fl_write_frame; [done|].
    unfold MAP_BLOCK_SUPER. intros [= _ E]. lia.
  - intros r' k b Hk. eapply fl_write_frame_fork; [done|congruence].
Qed.

(** Same map for every relation of known size, and same sizes. *)
Definition same_map s s' : Prop :=
  io_step (ms_world s) (ms_world s') ∧
  ∀ r f blk, map_page s' r f blk = map_page s r f blk.

(** ** Operations on the pool alone *)

Definition at_sys s (sys : BufSys) : S := MkMapState (ms_world s) sys (ms_local s).

Lemma wp_on_sys {A} (m : M BufSys A) Q (E : pg_error → S → Prop) s :
  wp m (λ a sys, Q a (at_sys s sys)) (λ e sys, E e (at_sys s sys)) (ms_sys s) →
  wp (on_sys m) Q E s.
Proof. unfold wp, on_sys. destruct (m (ms_sys s)) as [[a|e] sys]; done. Qed.

Lemma map_page_score s s' r f blk :
  ms_world s' = ms_world s → score (ms_sys s') = score (ms_sys s) →
  map_page s' r f blk = map_page s r f blk.
Proof.
  intros Hw Hsc. unfold map_page, files.
  by rewrite Hw, (score_cache _ _ Hsc), (score_pages _ _ Hsc).
Qed.

Lemma agrees_core fs n b b' f pg :
  bcore b' = bcore b → agrees fs n b f pg → agrees fs n b' f pg.
Proof.
  unfold agrees. rewrite !bdirty_core. unfold bcore. intros Hcore.
  replace (rnode b') with (rnode b) by congruence.
  replace (page_number b') with (page_number b) by congruence.
  by replace (wflags (state b')) with (wflags (state b)) by congruence.
Qed.

Lemma map_inv_score s sys :
  map_inv s → pool_ok sys → score sys = score (ms_sys s) →
  map_inv (at_sys s sys) ∧ same_map s (at_sys s sys).
Proof.
  intros [Hp Hc Hf He Ha] Hp' Hsc. split; [|split; [done|]; intros; by apply map_page_score].
  split; [done|by eapply cache_ok_score|..|done|].
  - intros i b' f Hb' Hf'. destruct (score_lookup _ _ _ _ Hsc Hb') as (b & Hb & Hcore).
    unfold bcore in Hcore. replace (page_number b') with (page_number b) by congruence.
    apply (Hf i); [done|congruence].
  - cbn. intros i b' f pg n Hb' Hf' Hpg Hn.
    destruct (score_lookup _ _ _ _ Hsc Hb') as (b & Hb & Hcore).
    rewrite (score_pages _ _ Hsc) in Hpg. apply (agrees_core _ n b); [done|].
    unfold bcore in Hcore. replace (rnode b') with (rnode b) in * by congruence.
    apply (Ha i b f pg n); [done|congruence|done..].
Qed.

Lemma same_map_refl s : same_map s s.
Proof. done. Qed.
Lemma same_map_trans s1 s2 s3 : same_map s1 s2 → same_map s2 s3 → same_map s1 s3.
Proof. intros [E1 M1] [E2 M2]. split; [by etrans|]. intros. by rewrite M2, M1. Qed.

(** ** Writing a page back *)

Lemma within_fork n f blk :
  MapMapPageWithinLogicalRange (Some n) f blk = true → ∃ idx, MapDecodeMapBlkno blk = Some (f, idx).
Proof.
  cbn. destruct (MapDecodeMapBlkno blk) as [[g idx]|]; [|done].
  destruct (decide (g ≠ f)) as [Hne|Heq]; [done|]. apply dec_stable in Heq as ->. eauto.
Qed.

Lemma stored_kept (fs fs' : F) r blk :
  block_kept (fl_content fs r UMBRA_METADATA_FORKNUM blk)
    (fl_content fs' r UMBRA_METADATA_FORKNUM blk) →
  stored fs' r blk = stored fs r blk.
Proof.
  unfold stored. intros [->|[-> ->]]; [done|]. by rewrite decide_True.
Qed.

Lemma reload_write fs r blk data fs' n r' f' blk' :
  fl_write fs r UMBRA_METADATA_FORKNUM blk data = Ok fs' → (r', blk') ≠ (r, blk) →
  reload fs' n r' f' blk' = reload fs n r' f' blk'.
Proof.
  intros Hw Hne. unfold reload. rewrite (stored_kept fs fs'); [done|].
  eapply fl_write_frame; [done|congruence].
Qed.

Lemma stored_written fs r blk pg fs' :
  page_ok pg → nonzero pg →
  fl_write fs r UMBRA_METADATA_FORKNUM blk (page_bytes pg) = Ok fs' →
  stored fs' r blk = Some pg.
Proof.
  intros Hok Hnz Hw. destruct (page_bytes_wf pg Hok) as [Hl Hb].
  unfold stored. rewrite (write_full_block _ _ _ _ _ _ Hl Hb Hw).
  rewrite decide_False by done. by rewrite bytes_page_bytes.
Qed.

Lemma same_block_same_slot s i b f j c g :
  map_inv s → buffers (pool (ms_sys s)) !! i = Some b → forknum b = Some f →
  buffers (pool (ms_sys s)) !! j = Some c → forknum c = Some g →
  (rnode c, page_number c) = (rnode b, page_number b) → j = i.
Proof.
  intros [_ [_ Htag] Hfork _ _] Hb Hf Hc Hg [= Er Ep].
  destruct (Hfork i b f Hb Hf) as [x Hx]. destruct (Hfork j c g Hc Hg) as [y Hy].
  rewrite Ep, Hx in Hy. injection Hy as -> ->.
  destruct (Htag i b g Hb Hf) as [_ H1']. destruct (Htag j c g Hc Hg) as [_ H2'].
  rewrite Er, Ep, H1' in H2'. injection H2'. lia.
Qed.

Lemma flush_map s i b f pg b' fs w :
  map_inv s → buffers (pool (ms_sys s)) !! i = Some b → pages (pool (ms_sys s)) !! i = Some pg →
  forknum b = Some f → bdirty b = true →
  fl_write (files s) (rnode b) UMBRA_METADATA_FORKNUM (page_number b) (page_bytes pg) = Ok fs →
  w_store w = w_store (ms_world s) → w_flushed (ms_world s) ≤ w_flushed w → w_files w = fs →
  reflagged b b' false →
  let s' := MkMapState w (upd (ms_sys s) i b' pg (cache (pool (ms_sys s))) 0) (ms_local s) in
  map_inv s' ∧ same_map s s'.
Proof.
  intros Hinv Hb Hpg Hf Hd Hw Hst Hfl Hfs Hre. pose proof Hinv as [Hp Hc Hfork Hex Hag].
  pose proof Hre as (Er & Ef & Ep & _ & _ & Efree & _ & _ & _ & _ & Hd').
  assert (pages (pool (upd (ms_sys s) i b' pg (cache (pool (ms_sys s))) 0)) =
    pages (pool (ms_sys s))) as Hpages by (cbn; by apply list_insert_id).
  split; [split|split]; cbn [ms_sys ms_world files]; rewrite ?Hst, ?Hfs.
  - apply upd_pool_ok with b; [done..| |]; [by apply (po_page _ Hp i)|].
    rewrite Z.add_0_r. eapply reflagged_ok; [by apply (po_buf _ Hp)|done|by rewrite Hf].
  - by apply upd_cache_ok with b.
  - intros j c g [[-> ->]|[_ Hj]]%upd_lookup Hg; [|by eapply Hfork].
    rewrite Ep. apply (Hfork i); [done|congruence].
  - intros r g n Hn. unfold files. cbn. rewrite Hfs. erewrite fl_write_exists; [|done]. by eapply Hex.
  - intros j c g q n Hj Hg Hq Hn. rewrite Hpages in Hq. unfold files. cbn. rewrite Hfs.
    apply upd_lookup in Hj as [[-> ->]|[Hne Hj]].
    + rewrite Hpg in Hq. injection Hq as <-. rewrite Ef, Hf in Hg. injection Hg as <-.
      rewrite Er in Hn. specialize (Hag i b f pg n Hb Hf Hpg Hn). unfold agrees in *.
      rewrite Hd in Hag. rewrite Hd', Er, Ep. destruct Hag as [Hnz Hff].
      unfold reload. destruct (MapMapPageWithinLogicalRange _ _ _); [|by rewrite Hff].
      eapply stored_written; [by apply (po_page _ Hp i)|done..].
    + specialize (Hag j c g q n Hj Hg Hq Hn). unfold agrees in *.
      destruct (bdirty c); [done|]. erewrite reload_write; [done|done|].
      intros Heq. apply Hne. by eapply same_block_same_slot.
  - destruct (page_bytes_wf pg) as [Hl Hb']; [by apply (po_page _ Hp i)|].
    eapply write_io_step; [by rewrite Hfs|by rewrite Hl| |done|done]. by eapply Hc.
  - intros r g blk. unfold map_page. cbn [ms_sys ms_world]. rewrite Hpages, Hst.
    cbn [upd pool cache set_cache]. destruct (cache _ !! _) as [slot|] eqn:Hk; [done|].
    destruct (trusted_size _ r g) as [n|]; [|done]. unfold files. cbn. rewrite Hfs.
    destruct (decide ((r, blk) = (rnode b, page_number b))) as [[= -> ->]|Hne].
    + unfold reload. destruct (MapMapPageWithinLogicalRange (Some n) g _) eqn:Hwi; [|done].
      apply within_fork in Hwi as [x Hx]. destruct (Hfork i b f Hb Hf) as [y Hy].
      rewrite Hx in Hy. injection Hy as -> ->.
      destruct Hc as [_ Htag]. destruct (Htag i b f Hb Hf) as [_ Hci]. congruence.
    + by eapply reload_write.
Qed.

Section run.
Context (env : Env).

(** A page reached disk after the WAL up to its LSN. *)
Definition page_written (w w' : World T F) (r : RelFileLocator) (blk : Z) (pg : list Z) (lsn : Z)
    : Prop :=
  fl_write (w_files w) r UMBRA_METADATA_FORKNUM blk (page_bytes pg) = Ok (w_files w') ∧
  w_store w' = w_store w ∧ w_flushed w ≤ w_flushed w' ∧
  (InRecovery env = false → lsn ≠ InvalidXLogRecPtr → lsn ≤ w_flushed w').

Lemma wp_write_page s r blk pg lsn Q (E : pg_error → S → Prop) :
  (∀ e s', fl_write (files s) r UMBRA_METADATA_FORKNUM blk (page_bytes pg) = Err e → E e s') →
  (∀ w, page_written (ms_world s) w r blk pg lsn → Q tt (MkMapState w (ms_sys s) (ms_local s))) →
  wp (MapFlushWritePage env r blk pg lsn) Q E s.
Proof.
  intros HE HQ. apply wp_bind. unfold wp at 1, on_world, when, XLogFlush, modify.
  destruct (negb (InRecovery env) && _) eqn:Hwal; cbn;
    unfold lift_files, wp, mbind, M_bind, get, lift; cbn; unfold files in *;
    (destruct (fl_write _ _ _ _ _) as [fs|e] eqn:Hw; [apply HQ|by apply HE]); unfold page_written;
    cbn; (split_and!; [done|done|lia|]).
  - intros _ _. lia.
  - intros Hr Hl. rewrite Hr, bool_decide_eq_true_2 in Hwal by done. done.
Qed.

Lemma wp_write_err s r blk pg lsn e Q (E : pg_error → S → Prop) :
  fl_write (files s) r UMBRA_METADATA_FORKNUM blk (page_bytes pg) = Err e →
  (∀ w, E e (MkMapState w (ms_sys s) (ms_local s))) →
  wp (MapFlushWritePage env r blk pg lsn) Q E s.
Proof.
  intros Hw HE. apply wp_bind. unfold wp at 1, on_world, when, XLogFlush, modify. unfold files in Hw.
  destruct (_ && _); cbn; unfold lift_files, wp, mbind, M_bind, get, lift; cbn; rewrite Hw; cbn;
    apply HE.
Qed.

Lemma wp_flush_cached s i b f pg (ck : bool) Q (E : pg_error → S → Prop) :
  map_inv s → buffers (pool (ms_sys s)) !! i = Some b → pages (pool (ms_sys s)) !! i = Some pg →
  forknum b = Some f → bdirty b = true →
  (ck = true → has_flag (state b) MAPBUF_CHECKPOINT_NEEDED = true) →
  (∀ e s', fl_write (files s) (rnode b) UMBRA_METADATA_FORKNUM (page_number b) (page_bytes pg) =
     Err e → E e s') →
  (∀ w b', reflagged b b' false →
     page_written (ms_world s) w (rnode b) (page_number b) pg (buf_page_lsn b) →
     let s' := MkMapState w (upd (ms_sys s) i b' pg (cache (pool (ms_sys s))) 0) (ms_local s) in
     map_inv s' → same_map s s' → Q tt s') →
  wp (MapFlushBufferCached env i ck) Q E s.
Proof.
  intros Hinv Hb Hpg Hf Hd Hck HE HQ. pose proof Hinv as [Hp Hc _ _ _].
  destruct (po_buf _ Hp i b Hb) as [Hs Hu _ Hio _].
  assert (0 < page_number b ≤ MaxBlockNumber) as Hpos by (by eapply Hc).
  unfold MapFlushBufferCached. apply wp_bind, wp_on_sys, (wp_start_io _ i b pg); [done..| |].
  { destruct ck; [|by rewrite Z.land_0_r]. specialize (Hck eq_refl). revert Hck.
    change MAPBUF_CHECKPOINT_NEEDED with (2 ^ 19). rewrite has_flag_bit by lia. intros Hbit.
    apply Z.bits_inj'. intros j Hj. rewrite Z.land_spec, Z.pow2_bits_eqb by lia.
    destruct (Z.eqb_spec 19 j) as [<-|]; [by rewrite Hbit|apply andb_false_r]. }
  intros ref u fl fl' Hs0 Hok Hok' H3. set (b1 := with_state (word ref u fl') b).
  set (sys1 := progress (Some i) (upd (ms_sys s) i b1 pg (cache (pool (ms_sys s))) 0)).
  assert (buffers (pool sys1) !! i = Some b1) as Hb1 by (by eapply upd_buf_at).
  assert (pages (pool sys1) !! i = Some pg) as Hpg1 by (by eapply upd_page_at).
  apply wp_bind, wp_on_sys, (wp_get_buf _ i b1); [done|]. cbn [b1 with_state page_number].
  rewrite decide_False by lia. rewrite decide_False by (unfold MAP_BLOCK_SUPER; lia).
  apply wp_bind, wp_on_sys, (wp_get_page _ i pg); [done|]. cbn [rnode page_number buf_page_lsn].
  apply wp_bind, wp_write_page; [intros e s'; by apply HE|]. intros w Hpw.
  pose proof Hpw as (Hw & Hst & Hfl & _).
  apply wp_on_sys, (wp_terminate_io sys1 i b1 pg ref u fl'); [done..|].
  intros fl2 Hok2 H0' H1'. unfold sys1. rewrite progress_idle by apply Hp.
  cbn [progress upd pool cache set_cache].
  assert (reflagged b (with_state (word ref u fl2) b) false) as Hre.
  { rewrite <-H0'. by apply reflagged_word with fl. }
  destruct (flush_map s i b f pg (with_state (word ref u fl2) b) (w_files w) w) as [Hi Hm];
    [done..|]. by apply HQ.
Qed.

Lemma wp_flush s i b f pg Q (E : pg_error → S → Prop) :
  map_inv s → buffers (pool (ms_sys s)) !! i = Some b → pages (pool (ms_sys s)) !! i = Some pg →
  forknum b = Some f → bdirty b = true →
  (∀ e s', fl_write (files s) (rnode b) UMBRA_METADATA_FORKNUM (page_number b) (page_bytes pg) =
     Err e → E e s') →
  (∀ w b', reflagged b b' false →
     let s' := MkMapState w (upd (ms_sys s) i b' pg (cache (pool (ms_sys s))) 0) (ms_local s) in
     map_inv s' → same_map s s' → Q tt s') →
  wp (MapFlushBuffer env i) Q E s.
Proof. intros ? ? ? ? ? ? HQ. apply (wp_flush_cached s i b f pg); [done..|]. intros w b' Hre _. by apply HQ. Qed.

(** ** Loading a page *)

Lemma wp_update_bits (sys : BufSys) i b pg set clear Q (E : pg_error → BufSys → Prop) :
  buffers (pool sys) !! i = Some b → pages (pool sys) !! i = Some pg →
  Q tt (upd sys i (with_state (MapBufferUpdateStateBits (state b) set clear) b) pg
          (cache (pool sys)) 0) →
  wp (update_bits i set clear) Q E sys.
Proof. intros Hb Hpg HQ. by apply (wp_update_state sys i b pg). Qed.

(** Setting the page, then a flag other than the dirty and I/O flags. *)
Lemma wp_fill s i b pg0 pg set clear Q (E : pg_error → S → Prop) :
  buffers (pool (ms_sys s)) !! i = Some b → pages (pool (ms_sys s)) !! i = Some pg0 →
  is_u32 (state b) → has_flag (state b) MAPBUF_IO_IN_PROGRESS = false →
  0 ≤ set < 2 ^ 18 → 0 ≤ clear → Z.testbit set 0 = false → Z.testbit set 1 = false →
  Z.testbit clear 0 = false →
  (∀ b', reflagged b b' (bdirty b) →
     Q tt (at_sys s (upd (ms_sys s) i b' pg (cache (pool (ms_sys s))) 0))) →
  wp (on_sys (set_page i pg);; on_sys (update_bits i (Z.shiftl set 14) (Z.shiftl clear 14))) Q E s.
Proof.
  intros Hb Hpg Hs Hio Hset Hclear Hs0 Hs1 Hc0 HQ.
  apply wp_bind, wp_on_sys, (wp_set_page _ i b); [done|].
  apply wp_on_sys, (wp_update_bits _ i b pg); [by eapply upd_buf_at|by eapply upd_page_at|].
  cbn [at_sys ms_sys]. rewrite upd_upd. cbn [upd pool cache set_cache]. apply HQ.
  pose proof (update_bits_flagged b set clear Hs Hio Hset Hclear Hs1) as Hre.
  by rewrite Hs0, Hc0, orb_false_r, andb_true_r in Hre.
Qed.

Lemma wp_load s i b pg0 r f blk n pg Q (E : pg_error → S → Prop) :
  buffers (pool (ms_sys s)) !! i = Some b → pages (pool (ms_sys s)) !! i = Some pg0 →
  is_u32 (state b) → has_flag (state b) MAPBUF_IO_IN_PROGRESS = false → 0 ≤ blk →
  trusted_size (w_store (ms_world s)) r f = Some n →
  fl_exists (files s) r UMBRA_METADATA_FORKNUM = true →
  reload (files s) n r f blk = Some pg →
  (∀ b', reflagged b b' (bdirty b) →
     Q tt (at_sys s (upd (ms_sys s) i b' pg (cache (pool (ms_sys s))) 0))) →
  wp (load_page env r f blk i) Q E s.
Proof.
  intros Hb Hpg Hs Hio Hblk Hn Hex Hre HQ. apply wp_bind, wp_gets. fold (files s). rewrite Hex.
  cbv beta iota zeta. unfold reload, stored in Hre.
  destruct (MapMapPageWithinLogicalRange (Some n) f blk) eqn:Hwi.
  - destruct (fl_content (files s) r UMBRA_METADATA_FORKNUM blk) as [bs|] eqn:Hc; [|done].
    case_decide as Hz; [done|]. injection Hre as <-.
    assert (blk < fl_nblocks (files s) r UMBRA_METADATA_FORKNUM) as Hlt
      by (by eapply fl_nblocks_spec).
    rewrite (decide_True _ _ Hlt).
    apply wp_bind, wp_bind. unfold wp at 1, on_world. rewrite (trusted_size_run _ _ _ _ _ Hn).
    apply wp_ret. rewrite Hwi. apply wp_bind. unfold wp at 1, lift.
    destruct (fl_content_wf _ _ _ _ _ Hc) as [Hl _].
    replace (fl_read (files s) r UMBRA_METADATA_FORKNUM blk (Z.to_nat BLCKSZ)) with (Ok bs).
    2: { symmetry. apply fl_read_spec; [by split; apply Nat.leb_le|]. exists bs. by rewrite <-Hl, firstn_all. }
    destruct s as [w sys l]. cbn [ms_world ms_sys ms_local] in *.
    apply wp_bind, wp_on_sys, (wp_set_page _ i b); [done|].
    apply wp_bind, wp_on_sys, (wp_update_bits _ i b (bytes_page bs));
      [by eapply upd_buf_at|by eapply upd_page_at|].
    rewrite bool_decide_eq_false_2 by done. apply wp_ret. cbn [at_sys ms_sys].
    rewrite upd_upd. cbn [upd pool cache set_cache]. apply HQ.
    pose proof (update_bits_flagged b 0 16 Hs Hio) as Hfl.
    rewrite orb_false_r, andb_true_r in Hfl. by apply Hfl.
  - injection Hre as <-.
    set (nb := fl_nblocks (files s) r UMBRA_METADATA_FORKNUM).
    apply wp_bind. assert (wp (if decide (blk < nb) then
        on ← on_world (MapSBlockTryGetLogicalNblocks env r f);
        mret (MapMapPageWithinLogicalRange on f blk) else mret false)
      (λ x s', x = false ∧ s' = s) (λ _ _, False) s) as Hrng.
    { case_decide; [|done]. apply wp_bind. unfold wp at 1, on_world.
      rewrite (trusted_size_run _ _ _ _ _ Hn). apply wp_ret. by destruct s. }
    eapply wp_mono; [exact Hrng| |done]. intros x s' [-> ->].
    destruct (decide (nb ≤ blk)).
    + apply (wp_fill s i b pg0 ff_page 16 0); done.
    + apply (wp_fill s i b pg0 ff_page 0 16); done.
Qed.

(** ** Taking over a slot *)

Lemma reload_ok fs n r f blk pg : reload fs n r f blk = Some pg → page_ok pg.
Proof.
  unfold reload, stored. destruct (MapMapPageWithinLogicalRange _ _ _).
  - destruct (fl_content _ _ _ _) as [bs|] eqn:Hc; [|done]. case_decide; [done|].
    intros [= <-]. destruct (fl_content_wf _ _ _ _ _ Hc). by apply bytes_page_ok.
  - intros [= <-]. apply ff_page_ok.
Qed.

Lemma take_page s i b t b' pg d r f blk :
  cache_ok (ms_sys s) → buffers (pool (ms_sys s)) !! i = Some b → (r, f, blk) ≠ t →
  (∀ g n pg0, forknum b = Some g → pages (pool (ms_sys s)) !! i = Some pg0 →
     trusted_size (w_store (ms_world s)) (rnode b) g = Some n →
     reload (files s) n (rnode b) g (page_number b) = Some pg0) →
  (i < length (pages (pool (ms_sys s))))%nat →
  map_page (at_sys s (upd (ms_sys s) i b' pg
    (<[t := Z.of_nat i]> (drop_tag b (cache (pool (ms_sys s))))) d)) r f blk =
  map_page s r f blk.
Proof.
  intros Hc Hb Hne Hag Hi. unfold map_page, files.
  cbn [at_sys ms_sys ms_world upd pool cache pages set_cache set_pages].
  rewrite lookup_insert_ne by done.
  destruct (trusted_size (w_store (ms_world s)) r f) as [n|] eqn:Hn.
  2: { by destruct (drop_tag _ _ !! _), (cache _ !! _). }
  destruct (drop_tag b (cache (pool (ms_sys s))) !! (r, f, blk)) as [slot|] eqn:Hd.
  - destruct (drop_tag_find _ _ _ _ _ Hc Hb Hd) as [-> Hs]. rewrite list_lookup_insert_ne; [done|].
    intros ->. destruct Hc as [Hfind _]. unfold drop_tag in Hd.
    assert (cache (pool (ms_sys s)) !! (r, f, blk) = Some slot) as Hk.
    { destruct (forknum b); [|done]. by apply lookup_delete_Some in Hd as [_ ?]. }
    destruct (Hfind _ _ Hk) as (j & _ & -> & _). lia.
  - destruct (cache (pool (ms_sys s)) !! (r, f, blk)) as [slot|] eqn:Hk; [|done].
    unfold drop_tag in Hd. destruct (forknum b) as [g|] eqn:Hg; [|congruence].
    apply lookup_delete_None in Hd as [[= <- <- <-]|Hd]; [|congruence].
    destruct Hc as [_ Htag]. destruct (Htag i b g Hb Hg) as [_ Hk']. rewrite Hk in Hk'.
    injection Hk' as ->. rewrite Nat2Z.id.
    apply lookup_lt_is_Some in Hi as [pg0 Hpg0]. rewrite Hpg0. by apply Hag.
Qed.

Lemma claim_map s i b t b' n pg :
  map_inv s → buffers (pool (ms_sys s)) !! i = Some b → bdirty b = false →
  cache (pool (ms_sys s)) !! t = None → (∃ idx, MapDecodeMapBlkno t.2 = Some (t.1.2, idx)) →
  0 < t.2 ≤ MaxBlockNumber → trusted_size (w_store (ms_world s)) t.1.1 t.1.2 = Some n →
  reload (files s) n t.1.1 t.1.2 t.2 = Some pg →
  tagged b' t → bdirty b' = false → freeNext b' = freeNext b →
  buf_ok (private_count i (ms_sys s)) b' →
  let s' := at_sys s (upd (ms_sys s) i b' pg
              (<[t := Z.of_nat i]> (drop_tag b (cache (pool (ms_sys s))))) 0) in
  map_inv s' ∧ same_map s s'.
Proof.
  intros [Hp Hc Hfork Hex Hag] Hb Hd Hk [idx Hdec] Hpos Hn Hre Ht Hd' Hfree Hok.
  pose proof Ht as (Er & Ef & Ep).
  assert (i < length (pages (pool (ms_sys s))))%nat as Hi.
  { rewrite (po_pages _ Hp). by eapply lookup_lt_Some. }
  split; [split|split]; cbn [at_sys ms_sys ms_world].
  - apply upd_pool_ok with b; [done..|by eapply reload_ok|by rewrite Z.add_0_r].
  - by apply take_cache_ok.
  - intros j c g [[-> ->]|[_ Hj]]%upd_lookup Hg; [|by eapply Hfork].
    rewrite Ep, Hdec. exists idx. congruence.
  - done.
  - intros j c g q m Hj Hg Hq Hm. apply upd_lookup in Hj as [[-> ->]|[Hne Hj]].
    + cbn in Hq. rewrite list_lookup_insert_eq in Hq by done. injection Hq as <-.
      rewrite Ef in Hg. injection Hg as <-. rewrite Er, Hn in Hm. injection Hm as <-.
      unfold agrees. by rewrite Hd', Er, Ep.
    + cbn in Hq. rewrite list_lookup_insert_ne in Hq by done. by apply (Hag j).
  - done.
  - intros r f blk. destruct (decide ((r, f, blk) = t)) as [<-|Hne].
    + unfold map_page. cbn in *. rewrite lookup_insert_eq, Hk, Hn, Nat2Z.id.
      by rewrite list_lookup_insert_eq.
    + apply take_page; [done..| |done]. intros g m pg0 Hg Hpg0 Hm.
      specialize (Hag i b g pg0 m Hb Hg Hpg0 Hm). unfold agrees in Hag. by rewrite Hd in Hag.
Qed.

(** What a successful read leaves behind: the page of the map, pinned, in the
    slot that the cache names. *)
Record read_post s (r : RelFileLocator) (f : ForkNumber) (blk : Z) (pg : list Z) (i : nat)
    (s' : S) : Prop := {
  rp_inv : map_inv s';
  rp_same : same_map s s';
  rp_local : ms_local s' = ms_local s;
  rp_page : pages (pool (ms_sys s')) !! i = Some pg;
  rp_cache : cache (pool (ms_sys s')) !! (r, f, blk) = Some (Z.of_nat i);
  rp_pins : ∀ j, private_count j (ms_sys s') =
    private_count j (ms_sys s) + if decide (j = i) then 1 else 0;
  rp_keeps : keeps (ms_sys s) (ms_sys s');
}.

Lemma claimed_buf k b f r blk lsn :
  buf_ok k b → bdirty b = false →
  let b2 := with_tag r f blk lsn (with_pending (pending_count b) zero_pending b) in
  let b3 := with_state (MapBufferUpdateStateBits (state b2) MAPBUF_USAGECOUNT_ONE 0) b2 in
  buf_ok k b3 ∧ bdirty b3 = false ∧ freeNext b3 = freeNext b ∧
  MAPBUF_GET_REFCOUNT (state b3) = MAPBUF_GET_REFCOUNT (state b).
Proof.
  intros [(ref & u & fl & Hs & Hok)%u32_word Hu Hpin Hio _] Hd b2 b3.
  unfold usage in Hu. rewrite bdirty_core in Hd. rewrite Hs in *.
  rewrite word_usage, word_refcount, word_io_flag, word_wflags in * by done.
  destruct (word_touch ref u fl Hok Hu) as (u' & Ht & Hok' & Hu').
  assert (state b3 = word ref u' fl) as Hs3 by (unfold b3, b2; cbn; by rewrite Hs).
  assert (bdirty b3 = false) as Hd3 by (by rewrite bdirty_core, Hs3, word_wflags).
  split_and!; [|done|done|by rewrite Hs3, word_refcount by done].
  split; [rewrite Hs3; by apply word_u32|..]; [| | |done]; unfold usage;
    rewrite Hs3, ?word_usage, ?word_refcount, ?word_io_flag by done; done.
Qed.

Lemma wp_claim s i b pg0 r f blk idx n pg Q (E : pg_error → S → Prop) :
  map_inv s → buffers (pool (ms_sys s)) !! i = Some b → pages (pool (ms_sys s)) !! i = Some pg0 →
  bdirty b = false → cache (pool (ms_sys s)) !! (r, f, blk) = None →
  MapDecodeMapBlkno blk = Some (f, idx) → 0 < blk ≤ MaxBlockNumber →
  trusted_size (w_store (ms_world s)) r f = Some n → reload (files s) n r f blk = Some pg →
  (∀ b' c, let s' := at_sys s (upd (ms_sys s) i b' pg c 0) in
     map_inv s' → same_map s s' → c !! (r, f, blk) = Some (Z.of_nat i) →
     MAPBUF_GET_REFCOUNT (state b') = MAPBUF_GET_REFCOUNT (state b) →
     pending_count b' = pending_count b → pending_bits b' = zero_pending → Q (Some i) s') →
  wp (claim_slot env r f blk i) Q E s.
Proof.
  intros Hinv Hb Hpg Hd Hk Hdec Hpos Hn Hre HQ. pose proof Hinv as [Hp Hc _ Hex _].
  destruct (po_buf _ Hp i b Hb) as [Hs Hu Hpin Hio _].
  set (b1 := with_pending (pending_count b) zero_pending b).
  apply wp_bind, wp_on_sys, (wp_get_buf _ i b); [done|].
  apply wp_bind, wp_on_sys, (wp_set_buf _ i pg0); [done|]. fold b1.
  apply wp_bind, wp_on_sys, (wp_cache_insert _ i b1 pg0 (r, f, blk));
    [by eapply upd_buf_at|by eapply upd_page_at|done|].
  cbn [at_sys ms_sys ms_world ms_local]. rewrite upd_upd. cbn [upd pool cache set_cache].
  set (c1 := cache (pool (ms_sys s))) in *.
  apply wp_bind, wp_on_sys, (wp_drop_old _ i b1 pg0 (r, f, blk) c1);
    [by eapply upd_buf_at|by eapply upd_page_at|done|done|..].
  { intros g Hg. by apply (co_tag _ Hc i b g). }
  cbn [at_sys ms_sys ms_world ms_local]. rewrite upd_upd. cbn [upd pool cache set_cache].
  change (drop_tag b1 c1) with (drop_tag b c1). set (c2 := <[_ := _]> (drop_tag b c1)).
  apply wp_bind, wp_on_sys, (wp_get_buf _ i b1); [by eapply upd_buf_at|].
  apply wp_bind, wp_on_sys, (wp_set_buf _ i pg0); [by eapply upd_page_at|].
  cbn [at_sys ms_sys ms_world ms_local]. rewrite upd_upd. cbn [upd pool cache set_cache].
  set (b2 := with_tag r (Some f) blk 0 b1).
  apply wp_bind, wp_on_sys, (wp_update_bits _ i b2 pg0); [by eapply upd_buf_at|by eapply upd_page_at|].
  cbn [at_sys ms_sys ms_world ms_local]. rewrite upd_upd. cbn [upd pool cache set_cache].
  destruct (claimed_buf (private_count i (ms_sys s)) b (Some f) r blk 0)
    as (Hok3 & Hd3 & Hfr3 & Href3); [by apply (po_buf _ Hp)|done|].
  set (b3 := with_state _ b2) in *.
  apply wp_bind, (wp_load _ i b3 pg0 r f blk n pg);
    [by eapply upd_buf_at|by eapply upd_page_at|apply Hok3|apply Hok3|lia|done|by eapply Hex|done|].
  intros b4 Hre4. cbn [at_sys ms_sys ms_world ms_local]. rewrite upd_upd.
  cbn [upd pool cache set_cache]. apply wp_ret.
  pose proof Hre4 as (Er & Ef & Ep & Epc & Epb & Efr & _ & Href4 & _ & _ & Hd4).
  destruct (claim_map s i b (r, f, blk) b4 n pg) as [Hi Hm];
    [done|done|done|done|by exists idx|done|done|done
    |split_and!; [by rewrite Er|by rewrite Ef|by rewrite Ep]|by rewrite Hd4|by rewrite Efr
    |eapply reflagged_ok; [done|done|done]|].
  apply (HQ b4 c2); [done|done|apply lookup_insert_eq|by rewrite Href4|done|done].
Qed.

(** ** The victim *)

Lemma tag_matches_false s i b r f blk :
  cache_ok (ms_sys s) → buffers (pool (ms_sys s)) !! i = Some b →
  cache (pool (ms_sys s)) !! (r, f, blk) = None → tag_matches b r f blk = false.
Proof.
  intros [_ Htag] Hb Hk. unfold tag_matches.
  destruct (bool_decide_reflect (page_number b = blk)) as [<-|]; [|done].
  destruct (bool_decide_reflect (rnode b = r)) as [<-|]; [|by rewrite andb_false_r].
  destruct (bool_decide_reflect (forknum b = Some f)) as [Hf|]; [|by rewrite !andb_false_r].
  destruct (Htag i b f Hb Hf) as [_ Hk']. congruence.
Qed.

Lemma tag_matches_true b r f blk : tagged b (r, f, blk) → 0 ≤ blk → tag_matches b r f blk = true.
Proof.
  intros (Hr & Hf & Hp) Hpos. unfold tag_matches. rewrite Hr, Hf, Hp. cbn.
  by rewrite !bool_decide_eq_true_2.
Qed.

Lemma wp_clean s i b pg0 r f blk Q (E : pg_error → S → Prop) :
  map_inv s → buffers (pool (ms_sys s)) !! i = Some b → pages (pool (ms_sys s)) !! i = Some pg0 →
  MAPBUF_GET_REFCOUNT (state b) = 1 → cache (pool (ms_sys s)) !! (r, f, blk) = None →
  (∀ e s' fs q p d, fl_write fs q UMBRA_METADATA_FORKNUM p d = Err e → E e s') →
  (∀ w b', reflagged b b' false →
     let s' := MkMapState w (upd (ms_sys s) i b' pg0 (cache (pool (ms_sys s))) 0) (ms_local s) in
     map_inv s' → same_map s s' → Q (Some true) s') →
  wp (clean_victim env r f blk i) Q E s.
Proof.
  intros Hinv Hb Hpg Href Hk HE HQ. pose proof Hinv as [Hp Hc _ _ _].
  destruct (po_buf _ Hp i b Hb) as [Hs Hu Hpin Hio Ht].
  apply wp_bind, wp_on_sys, (wp_get_buf _ i b); [done|]. fold (bdirty b).
  destruct (bdirty b) eqn:Hd.
  - destruct (forknum b) as [g|] eqn:Hg; [|by specialize (Ht eq_refl)].
    replace (at_sys s (ms_sys s)) with s by (by destruct s).
    apply wp_bind, (wp_flush s i b g pg0); [done..|intros; by eapply HE|].
    intros w b' Hre s' Hinv' Hsame. pose proof Hre as (_&_&_&_&_&_&_&Hr'&_&_&Hd').
    apply wp_bind, wp_on_sys, (wp_get_buf _ i b'); [by eapply upd_buf_at|].
    rewrite (tag_matches_false s' i b'); [|apply Hinv'|by eapply upd_buf_at|done].
    rewrite decide_False by (rewrite Hr', Href; intros [?|Hx]; [done|unfold bdirty in Hd'; congruence]).
    by apply HQ.
  - apply wp_ret. specialize (HQ (ms_world s) b).
    rewrite (upd_id (ms_sys s) i b pg0) in HQ by done. apply HQ.
    + unfold reflagged. by split_and!.
    + by destruct s.
    + by destruct s.
Qed.

(** ** One turn of [MapReadBuffer] *)

(** Why a page cannot be read: every buffer is in use, the pin count of its
    buffer is exhausted, or the file layer could not write the victim. *)
Definition read_error (sys : BufSys) (e : pg_error) : Prop :=
  (e = no_unpinned ∧ ∀ i b, buffers (pool sys) !! i = Some b → ¬ usable b) ∨
  (e = refcount_overflow ∧ ∃ i b, buffers (pool sys) !! i = Some b ∧
     MAPBUF_GET_REFCOUNT (state b) = 511) ∨
  (∃ (fs : F) q p d, fl_write fs q UMBRA_METADATA_FORKNUM p d = Err e).

Lemma wp_pin_map s i b pg adjust Q (E : pg_error → S → Prop) :
  map_inv s → buffers (pool (ms_sys s)) !! i = Some b →
  pages (pool (ms_sys s)) !! i = Some pg →
  (MAPBUF_GET_REFCOUNT (state b) = 511 → ∀ s', E refcount_overflow s') →
  (∀ b', let s' := at_sys s (upd (ms_sys s) i b' pg (cache (pool (ms_sys s))) 1) in
     repinned b b' 1 → map_inv s' → same_map s s' → Q tt s') →
  wp (on_sys (MapPinBuffer i adjust)) Q E s.
Proof.
  intros Hinv Hb Hpg HE HQ. pose proof Hinv as [Hp Hc _ _ _].
  destruct (po_buf _ Hp i b Hb) as [Hs _ Hpin _ _].
  apply wp_on_sys, (wp_pin _ i b pg); [done..| |].
  { intros Hge. apply HE. destruct (u32_word _ Hs) as (ref & u & fl & Hw & Hok).
    rewrite Hw, word_refcount in * by done. unfold word_ok in Hok. lia. }
  intros b' Hre. destruct (map_inv_score s (upd (ms_sys s) i b' pg (cache (pool (ms_sys s))) 1))
    as [Hi Hm]; [done|by eapply repin_pool; [..|lia]|by eapply repin_score|]. by apply HQ.
Qed.

Section read.
Context (s : S) (r : RelFileLocator) (f : ForkNumber) (blk idx n : Z) (pg : list Z).
Context (Hinv : map_inv s) (Hdec : MapDecodeMapBlkno blk = Some (f, idx)).
Context (Hpos : 0 < blk ≤ MaxBlockNumber).
Context (Hn : trusted_size (w_store (ms_world s)) r f = Some n).
Context (Hview : map_page s r f blk = Some pg).

(** A cached page, pinned. *)
Lemma wp_pin_cached slot adjust Q :
  cache (pool (ms_sys s)) !! (r, f, blk) = Some slot →
  (∀ s' b, buffers (pool (ms_sys s')) !! Z.to_nat slot = Some b → tag_matches b r f blk = true →
     read_post s r f blk pg (Z.to_nat slot) s' → Q tt s') →
  wp (on_sys (MapPinBuffer (Z.to_nat slot) adjust)) Q (λ e _, read_error (ms_sys s) e) s.
Proof using Hinv Hn Hview Hpos.
  intros Hk HQ. pose proof Hinv as [Hp Hc _ _ _].
  destruct (co_find _ Hc _ _ Hk) as (i & b & -> & Hb & Ht). rewrite Nat2Z.id in *.
  assert (pages (pool (ms_sys s)) !! i = Some pg) as Hpg.
  { unfold map_page in Hview. by rewrite Hk, Hn, Nat2Z.id in Hview. }
  apply (wp_pin_map s i b pg); [done..|intros Hr s'; right; left; eauto|].
  intros b' s' Hre Hi Hm. pose proof Hre as (Hcore & _). unfold bcore in Hcore.
  unfold tagged in Ht. cbn in Ht. apply (HQ s' b'); [by eapply upd_buf_at|..].
  - apply tag_matches_true; [|lia]. unfold tagged. cbn. split_and!; intuition congruence.
  - split; [done|done|done|by eapply upd_page_at|done| |by eapply keeps_repin].
    intros j. apply private_upd. rewrite (po_private _ Hp). by eapply lookup_lt_Some.
Qed.

Lemma wp_turn_hit slot Q :
  cache (pool (ms_sys s)) !! (r, f, blk) = Some slot →
  (∀ i s', read_post s r f blk pg i s' → Q (Some i) s') →
  wp (read_buffer_turn env r f blk) Q (λ e _, read_error (ms_sys s) e) s.
Proof using Hinv Hn Hview Hpos.
  intros Hk HQ. apply wp_bind, wp_on_sys, wp_gets. rewrite Hk.
  assert (0 ≤ slot) as Hge by (destruct (co_find _ (mi_cache _ Hinv) _ _ Hk) as (i & _ & -> & _); lia).
  rewrite decide_True by done. replace (at_sys s (ms_sys s)) with s by (by destruct s).
  apply wp_bind, (wp_pin_cached slot); [done|]. intros s' b Hb Htm Hpost.
  apply wp_bind, wp_on_sys, (wp_get_buf _ _ b); [done|]. rewrite Htm. apply wp_ret, HQ.
  by replace (at_sys s' (ms_sys s')) with s' by (by destruct s').
Qed.

(** The pinned victim is written back if needed and claimed. *)
Lemma wp_evict s2 i b1 pg0 (Q : option nat → S → Prop) (E : pg_error → S → Prop) :
  map_inv s2 → same_map s s2 → buffers (pool (ms_sys s2)) !! i = Some b1 →
  pages (pool (ms_sys s2)) !! i = Some pg0 → cache (pool (ms_sys s2)) !! (r, f, blk) = None →
  MAPBUF_GET_REFCOUNT (state b1) = 1 → pending_count b1 = 0 →
  (∀ e s' fs q p d, fl_write fs q UMBRA_METADATA_FORKNUM p d = Err e → E e s') →
  (∀ w b' c, let s' := MkMapState w (upd (ms_sys s2) i b' pg c 0) (ms_local s2) in
     map_inv s' → same_map s s' → c !! (r, f, blk) = Some (Z.of_nat i) →
     MAPBUF_GET_REFCOUNT (state b') = MAPBUF_GET_REFCOUNT (state b1) → same_marks b1 b' →
     Q (Some i) s') →
  wp (c ← clean_victim env r f blk i;
      match c with
      | None => mret None
      | Some false => mret (Some i)
      | Some true =>
          b ← on_sys (get_buf i);
          if decide (pending_count b ≠ 0)
          then on_sys (MapUnpinBuffer i);; mret None
          else claim_slot env r f blk i
      end) Q E s2.
Proof using All.
  intros Hinv2 Hm2 Hb1 Hpg1 Hk1 Href1 Hpend1 HE HQ.
  apply wp_bind, (wp_clean s2 i b1 pg0); [done|done|done|done|done|done|].
  intros w b2 Hre2 s3 Hinv3 Hm3. cbv beta iota.
  assert (buffers (pool (ms_sys s3)) !! i = Some b2) as Hb2 by (by eapply upd_buf_at).
  assert (pages (pool (ms_sys s3)) !! i = Some pg0) as Hpg3
    by (by apply (upd_page_at (ms_sys s2) i pg0)).
  apply wp_bind, wp_on_sys, (wp_get_buf _ i b2); [done|].
  destruct Hre2 as (_ & _ & _ & Hpend2 & _ & _ & _ & Href2 & _ & _ & Hd2).
  rewrite decide_False by (rewrite Hpend2; lia). change (at_sys s3 (ms_sys s3)) with s3.
  assert (same_map s s3) as Hm03 by (by eapply same_map_trans).
  assert (trusted_size (w_store (ms_world s3)) r f = Some n) as Hn3 by (by rewrite (proj1 (proj1 Hm03))).
  apply (wp_claim s3 i b2 pg0 r f blk idx n pg); [done|done|done|done|done|done|done|done|..].
  { pose proof (proj2 Hm03 r f blk) as Hv. rewrite Hview in Hv. unfold map_page in Hv.
    rewrite Hn3 in Hv. unfold s3 in Hv at 1. cbn in Hv. by rewrite Hk1 in Hv. }
  intros b3 c s4 Hinv4 Hm4 Hc4 Href4 Hpc4 Hpb4.
  assert (s4 = MkMapState w (upd (ms_sys s2) i b3 pg c 0) (ms_local s2)) as Hs4.
  { unfold s4, s3, at_sys. cbn [ms_sys ms_world ms_local]. by rewrite upd_upd. }
  rewrite Hs4 in *. apply HQ; [done|by eapply same_map_trans|done|congruence|].
  split; [congruence|by right].
Qed.

Lemma wp_turn_miss Q :
  cache (pool (ms_sys s)) !! (r, f, blk) = None →
  (∀ i s', read_post s r f blk pg i s' → Q (Some i) s') →
  wp (read_buffer_turn env r f blk) Q (λ e _, read_error (ms_sys s) e) s.
Proof using All.
  intros Hk HQ. pose proof Hinv as [Hp Hc _ _ _].
  apply wp_bind, wp_on_sys, wp_gets. rewrite Hk.
  replace (at_sys s (ms_sys s)) with s by (by destruct s).
  apply wp_bind, wp_on_sys.
  destruct (clock_get_run (ms_sys s) (po_clock _ Hp) (po_free _ Hp))
    as (sys1 & Hcw & Hfw & Hrel & [(i & b & Hrun & Hb & [Href Hpend] & Hu0)|[Hrun Hall]]).
  2: { unfold wp. rewrite Hrun. left. done. }
  unfold wp at 1. rewrite Hrun. destruct (map_inv_score s sys1) as [Hinv1 Hm1];
    [done|by eapply clock_pool|by apply clock_score|].
  set (s1 := at_sys s sys1) in *. pose proof Hinv1 as [Hp1 Hc1 _ _ _].
  assert (i < length (buffers (pool sys1)))%nat as Hi by (by eapply lookup_lt_Some).
  pose proof Hi as Hi'. rewrite <-(po_pages sys1 Hp1) in Hi'.
  apply lookup_lt_is_Some in Hi' as [pg0 Hpg0].
  apply wp_bind, (wp_pin_map s1 i b pg0); [done..|by rewrite Href|].
  intros b1 s2 Hre Hinv2 Hm2. pose proof Hre as (Hcore & _ & _ & Href1 & _).
  assert (buffers (pool (ms_sys s2)) !! i = Some b1) as Hb1 by (by eapply upd_buf_at).
  assert (pages (pool (ms_sys s2)) !! i = Some pg0) as Hpg1 by (by eapply upd_page_at).
  assert (cache (pool (ms_sys s2)) !! (r, f, blk) = None) as Hk2.
  { unfold s2. cbn. by rewrite (cr_cache _ _ Hrel). }
  apply wp_bind, wp_on_sys, (wp_get_buf _ i b1); [done|].
  rewrite (tag_matches_false s2 i b1); [|apply Hinv2|done|done].
  rewrite Href in Href1. rewrite decide_False by (rewrite Href1; lia).
  change (at_sys s2 (ms_sys s2)) with s2. apply (wp_evict s2 i b1 pg0);
    [done|by eapply same_map_trans|done|done|done|done|unfold bcore in Hcore; congruence|..].
  { intros e s' fs q p d Hw. right. right. eauto. }
  intros w b3 c s4 Hinv4 Hm4 Hc4 Href4 Hmarks. apply HQ.
  split; [done|done|done|by apply (upd_page_at (ms_sys s2) i pg0)|done| |].
  2: { apply (keeps_trans _ sys1); [by apply keeps_clock|].
       apply (keeps_trans _ (ms_sys s2)); [by apply (keeps_repin sys1 i b)|].
       apply (keeps_upd _ i b1); [apply Hinv2|done|lia|done]. }
  intros j. unfold s4, s2. cbn [ms_sys at_sys]. rewrite upd_upd.
  rewrite private_upd by (cbn; by rewrite (po_private sys1 Hp1)). unfold private_count.
  cbn. by rewrite (cr_private _ _ Hrel).
Qed.

Lemma wp_read Q :
  (∀ i s', read_post s r f blk pg i s' → Q i s') →
  wp (MapReadBuffer env r f blk) Q (λ e _, read_error (ms_sys s) e) s.
Proof using All.
  intros HQ. unfold MapReadBuffer.
  rewrite decide_False by (unfold MAP_BLOCK_SUPER; lia). cbn [read_buffer_loop].
  apply wp_bind. destruct (cache (pool (ms_sys s)) !! (r, f, blk)) as [slot|] eqn:Hk;
    [eapply wp_turn_hit|apply wp_turn_miss]; try done; intros i s' Hpost; by apply wp_ret, HQ.
Qed.
End read.

(** ** Entries *)

Lemma entry_location_ok f l blk idx :
  fork_mapped f → is_u32 l → entry_location f l = Ok (blk, idx) →
  blk = page_pos f (l / 2048) ∧ idx = l mod 2048 ∧ 0 < blk ≤ MaxBlockNumber ∧
  MapDecodeMapBlkno blk = Some (f, l / 2048).
Proof.
  intros Hf Hl. unfold entry_location, mbind, result_bind.
  destruct (MapLblknoToMapBlkno f l) as [e|] eqn:He; [|done].
  destruct (entry_index_cases f l e Hf Hl He) as [-> Hle].
  change MAP_ENTRIES_PER_PAGE with 2048. intros [= <- <-].
  replace ((page_pos f (l / 2048) * 2048 + l mod 2048) / 2048) with (page_pos f (l / 2048)) by ulia.
  replace ((page_pos f (l / 2048) * 2048 + l mod 2048) mod 2048) with (l mod 2048) by ulia.
  assert (is_u32 (l / 2048)) as Hi by ulia.
  assert (1 ≤ page_pos f (l / 2048) ≤ MaxBlockNumber) as Hr.
  { unfold page_pos, max_mapped_lblk in *. destruct Hf as [-> | [-> | ->]]; unfold_layout; ulia. }
  split_and!; [done|done|lia|lia|]. rewrite decode_spec, page_of_pos_pos by done. done.
Qed.

Lemma within_entry f l n :
  MapDecodeMapBlkno (page_pos f (l / 2048)) = Some (f, l / 2048) → is_u32 l →
  MapMapPageWithinLogicalRange (Some n) f (page_pos f (l / 2048)) =
    bool_decide (l / 2048 * 2048 < n).
Proof.
  intros Hdec Hl. cbn [MapMapPageWithinLogicalRange]. rewrite Hdec, decide_False by auto.
  change MAP_ENTRIES_PER_PAGE with 2048. rewrite u64_small by ulia.
  repeat case_bool_decide; lia || done.
Qed.

(** The pins of this backend, and what belongs to others, are as before. *)
Definition same_pins s s' : Prop :=
  ∀ j, private_count j (ms_sys s') = private_count j (ms_sys s).

Definition same_backend s s' : Prop :=
  same_pins s s' ∧ ms_local s' = ms_local s ∧ keeps (ms_sys s) (ms_sys s').

(** Giving back the pin of a read. *)
Lemma wp_unread s0 s r f blk pg i Q (E : pg_error → S → Prop) :
  map_inv s0 → read_post s0 r f blk pg i s →
  (∀ s', map_inv s' → same_map s0 s' → same_backend s0 s' → Q tt s') →
  wp (on_sys (MapUnpinBuffer i)) Q E s.
Proof.
  intros Hinv0 [Hinv Hsame Hlocal Hpg Hk Hpins Hkeep] HQ. pose proof Hinv as [Hp Hc _ _ _].
  destruct (co_find _ Hc _ _ Hk) as (j & b & Hj%Nat2Z.inj & Hb & _). subst j.
  destruct (po_buf _ Hp i b Hb) as [Hs _ Hpin _ _].
  pose proof (private_nonneg _ i (mi_pool _ Hinv0)) as Hge.
  pose proof (Hpins i) as Hpi. rewrite decide_True in Hpi by done.
  apply wp_on_sys, (wp_unpin _ i b pg); [done|done|done|lia|].
  intros b' Hre. destruct (map_inv_score s (upd (ms_sys s) i b' pg (cache (pool (ms_sys s))) (-1)))
    as [Hi Hm]; [done|eapply repin_pool; [done..|lia]|by eapply repin_score|].
  apply HQ; [done|by eapply same_map_trans|]. split_and!; [|done|].
  - intros k. cbn [at_sys ms_sys]. rewrite (private_upd_at _ _ b), Hpins by done.
    destruct (decide (k = i)); lia.
  - eapply keeps_trans; [done|]. by eapply keeps_repin.
Qed.

(** The value of an entry of the map, [None] for unmapped blocks. *)
Definition mapped_block (pg : list Z) (idx : Z) : option Z :=
  if decide (entry_of pg idx = InvalidBlockNumber) then None else Some (entry_of pg idx).

(** *** Lookups *)

Section lookup.
Context (s : S) (r : RelFileLocator) (f : ForkNumber) (l blk idx n : Z) (pg : list Z).
Context (Hinv : map_inv s) (Hf : fork_mapped f) (Hl : is_u32 l).
Context (Hloc : entry_location f l = Ok (blk, idx)).
Context (Hn : trusted_size (w_store (ms_world s)) r f = Some n).
Context (Hview : map_page s r f blk = Some pg).

Definition lookup_post (o : option Z) s' : Prop :=
  o = mapped_block pg idx ∧ map_inv s' ∧ same_map s s' ∧ same_backend s s'.

Lemma wp_lookup_cached slot adjust Q :
  cache (pool (ms_sys s)) !! (r, f, blk) = Some slot →
  (∀ s' c, map_inv s' → same_map s s' → same_backend s s' →
     c = match mapped_block pg idx with
         | Some p => MAP_CACHED_LOOKUP_MAPPED p
         | None => MAP_CACHED_LOOKUP_UNMAPPED
         end → Q c s') →
  wp (MapTryLookupCachedEntry r f blk idx adjust) Q (λ e _, read_error (ms_sys s) e) s.
Proof using All.
  intros Hk HQ. destruct (entry_location_ok f l blk idx Hf Hl Hloc) as (_ & _ & Hpos & _).
  apply wp_bind, wp_on_sys, wp_gets. rewrite Hk.
  assert (0 ≤ slot) as Hge by (destruct (co_find _ (mi_cache _ Hinv) _ _ Hk) as (i & _ & -> & _); lia).
  rewrite decide_True by done. replace (at_sys s (ms_sys s)) with s by (by destruct s).
  eapply wp_bind, (wp_pin_cached s r f blk n pg); [done..|]. intros s1 b Hb Htm Hpost.
  apply wp_bind, wp_on_sys, (wp_get_buf _ _ b); [done|]. rewrite Htm. cbn [negb].
  apply wp_bind, wp_on_sys, (wp_get_page _ _ pg); [apply Hpost|].
  replace (at_sys _ _) with s1 by (by destruct s1).
  apply wp_bind, (wp_unread s s1 r f blk pg); [done|done|]. intros s2 Hi2 Hm2 Hp2.
  unfold mapped_block in HQ. case_decide; by apply wp_ret, HQ.
Qed.

Lemma wp_lookup Q :
  (∀ o s', lookup_post o s' → Q o s') →
  wp (MapTryLookup env r f l) Q (λ e _, read_error (ms_sys s) e) s.
Proof using All.
  intros HQ. destruct (entry_location_ok f l blk idx Hf Hl Hloc) as (_ & _ & Hpos & Hdec).
  assert (f ≠ UMBRA_METADATA_FORKNUM) as Hne by (by destruct Hf as [->|[->| ->]]).
  unfold MapTryLookup, MapTryLookupCachedPblknoInternal. rewrite !decide_False by done.
  apply wp_bind, wp_bind, (wp_lift _ (blk, idx)); [done|]. cbn [fst snd].
  destruct (cache (pool (ms_sys s)) !! (r, f, blk)) as [slot|] eqn:Hk.
  - apply (wp_lookup_cached slot); [done|]. intros s' c Hi Hm Hp ->.
    unfold lookup_post in HQ.
    destruct (mapped_block pg idx) as [p|] eqn:Hmb; by apply wp_ret, HQ.
  - apply wp_bind, wp_on_sys, wp_gets. rewrite Hk. apply wp_ret.
    replace (at_sys s (ms_sys s)) with s by (by destruct s).
    apply wp_bind, (wp_lift _ (blk, idx)); [done|]. cbn [fst snd].
    apply wp_bind, (wp_read s r f blk (l / 2048) n pg); [done..|]. intros i s1 Hpost.
    pose proof Hpost as [[Hp1 Hc1 _ _ _] _ _ Hpg1 Hk1 Hpins].
    destruct (co_find _ Hc1 _ _ Hk1) as (j & b & Hj%Nat2Z.inj & Hb & _). subst j.
    apply wp_bind, wp_on_sys, (wp_get_buf _ _ b); [done|].
    assert (has_flag (state b) MAPBUF_VALID_MASK = true) as ->.
    { apply bool_decide_eq_true_2. fold (MAPBUF_GET_REFCOUNT (state b)).
      pose proof (bo_pins _ _ (po_buf _ Hp1 i b Hb)) as Hbp. specialize (Hpins i).
      rewrite decide_True in Hpins by done.
      pose proof (private_nonneg (ms_sys s) i (mi_pool _ Hinv)). lia. }
    cbn [negb]. apply wp_bind, wp_on_sys, (wp_get_page _ _ pg); [done|].
    replace (at_sys _ _) with s1 by (by destruct s1).
    apply wp_bind, (wp_unread s s1 r f blk pg); [done|done|]. intros s2 Hi2 Hm2 Hp2.
    apply wp_ret, HQ. unfold lookup_post, mapped_block. split_and!; [|done..].
    destruct (decide (entry_of pg idx = InvalidBlockNumber)) as [Heq|Hne'];
      [rewrite decide_False by (intros Hc; by apply Hc)|rewrite decide_True by done]; done.
Qed.
End lookup.

(** *** Dirtying a page *)

(** Only zero blocks were added. *)
Definition files_kept (fs fs' : F) : Prop :=
  (∀ r b, 0 ≤ b → block_kept (fl_content fs r UMBRA_METADATA_FORKNUM b)
                    (fl_content fs' r UMBRA_METADATA_FORKNUM b)) ∧
  (∀ r, fl_exists fs' r UMBRA_METADATA_FORKNUM = fl_exists fs r UMBRA_METADATA_FORKNUM) ∧
  same_data fs fs'.

Lemma reload_kept fs fs' n r f blk :
  files_kept fs fs' → reload fs' n r f blk = reload fs n r f blk.
Proof.
  intros [Hk _]. unfold reload. destruct (MapMapPageWithinLogicalRange (Some n) f blk) eqn:Hw; [|done].
  apply stored_kept, Hk. apply within_fork in Hw as [idx Hdec]. unfold MapDecodeMapBlkno in Hdec.
  case_decide as Hz; [done|]. unfold MAP_BLOCK_FIRST_GROUP in Hz. lia.
Qed.

Lemma wp_lift_files s (m : F → result F) Q (E : pg_error → S → Prop) :
  (∀ e, m (files s) = Err e → E e s) →
  (∀ fs, m (files s) = Ok fs →
     Q tt (MkMapState (set_files fs (ms_world s)) (ms_sys s) (ms_local s))) →
  wp (lift_files m) Q E s.
Proof.
  intros HE HQ. unfold lift_files, wp, mbind, M_bind, get, lift. fold (files s).
  destruct (m (files s)) as [fs|e]; [by apply HQ|by apply HE].
Qed.

Lemma wp_materialize s r i b pg Q (E : pg_error → S → Prop) :
  buffers (pool (ms_sys s)) !! i = Some b → pages (pool (ms_sys s)) !! i = Some pg →
  is_u32 (state b) → has_flag (state b) MAPBUF_IO_IN_PROGRESS = false →
  fl_exists (files s) r UMBRA_METADATA_FORKNUM = true →
  (∀ e s' fs x y, fl_zeroextend fs r UMBRA_METADATA_FORKNUM x y = Err e → E e s') →
  (∀ w b', w_store w = w_store (ms_world s) → w_flushed w = w_flushed (ms_world s) →
     files_kept (files s) (w_files w) →
     reflagged b b' (bdirty b) →
     Q tt (MkMapState w (upd (ms_sys s) i b' pg (cache (pool (ms_sys s))) 0) (ms_local s))) →
  wp (MapEnsureBufferMaterialized r i) Q E s.
Proof.
  intros Hb Hpg Hs Hio Hex HE HQ. apply wp_bind, wp_on_sys, (wp_get_buf _ i b); [done|].
  replace (at_sys s (ms_sys s)) with s by (by destruct s).
  assert (files_kept (files s) (files s)) as Hrefl by (split_and!; [by left|done|done]).
  destruct (has_flag (state b) MAPBUF_NOT_MATERIALIZED); cbn [negb].
  2: { apply wp_ret. specialize (HQ (ms_world s) b). rewrite (upd_id (ms_sys s) i b pg) in HQ by done.
       destruct s. apply HQ; [done|done|done|]. unfold reflagged. by split_and!. }
  pose proof (update_bits_flagged b 0 16 Hs Hio) as Hfl. rewrite orb_false_r, andb_true_r in Hfl.
  specialize (Hfl ltac:(lia) ltac:(lia) eq_refl).
  apply wp_bind, wp_gets. fold (files s). rewrite Hex. cbn [negb]. apply wp_bind.
  case_decide as Hnb.
  - apply wp_lift_files; [intros e; by apply HE|]. intros fs Hz.
    apply wp_on_sys, (wp_update_bits _ i b pg); [done..|].
    apply (HQ (set_files fs (ms_world s))); [done|done| |done].
    split_and!; [intros q x Hx; by eapply zeroextend_kept|intros q; by eapply fl_zeroextend_exists|].
    intros q k x Hk. eapply fl_zeroextend_frame; [done|congruence].
  - apply wp_ret, wp_on_sys, (wp_update_bits _ i b pg); [done..|]. by apply HQ.
Qed.

Lemma wp_mark_dirty s r i b pg lsn Q (E : pg_error → S → Prop) :
  buffers (pool (ms_sys s)) !! i = Some b → pages (pool (ms_sys s)) !! i = Some pg →
  is_u32 (state b) → has_flag (state b) MAPBUF_IO_IN_PROGRESS = false → 0 < page_number b →
  fl_exists (files s) r UMBRA_METADATA_FORKNUM = true →
  (∀ e s' fs x y, fl_zeroextend fs r UMBRA_METADATA_FORKNUM x y = Err e → E e s') →
  (∀ w b', w_store w = w_store (ms_world s) → w_flushed w = w_flushed (ms_world s) →
     files_kept (files s) (w_files w) →
     reflagged b b' true →
     Q tt (MkMapState w (upd (ms_sys s) i b' pg (cache (pool (ms_sys s))) 0) (ms_local s))) →
  wp (MapMarkBufferDirty r i lsn) Q E s.
Proof.
  intros Hb Hpg Hs Hio Hpos Hex HE HQ. apply wp_bind, wp_on_sys, (wp_get_buf _ i b); [done|].
  replace (at_sys s (ms_sys s)) with s by (by destruct s).
  rewrite decide_True by (unfold MAP_BLOCK_SUPER; lia).
  apply wp_bind, (wp_materialize s r i b pg); [done..|]. intros w b1 Hst Hwf Hfk Hre1.
  pose proof Hre1 as (Er & Ef & Ep & Epc & Epb & Efn & Hs1 & Hr1 & Hu1 & Hio1 & _).
  apply wp_bind, wp_on_sys, (wp_get_buf _ i b1); [by eapply upd_buf_at|].
  apply wp_bind, wp_on_sys, (wp_set_buf _ i pg); [by eapply upd_page_at|].
  set (b2 := with_buf_lsn lsn b1). cbn [at_sys ms_sys ms_world ms_local]. rewrite upd_upd.
  cbn [upd pool cache set_cache].
  apply wp_on_sys, (wp_update_bits _ i b2 pg); [by eapply upd_buf_at|by eapply upd_page_at|].
  cbn [at_sys ms_sys ms_world ms_local]. rewrite upd_upd. cbn [upd pool cache set_cache].
  apply HQ; [done|done|done|].
  pose proof (update_bits_flagged b2 9 0 Hs1 Hio1 ltac:(lia) ltac:(lia) eq_refl) as Hfl.
  rewrite orb_true_r in Hfl. by eapply reflagged_lsn_trans.
Qed.
End run.
End view.
