(* ===== verification/MapEntries.v ===== *)
(** * Map entries: lookups and updates implement one map per relation

    [MapTryLookup] returns the entry of the map and [MapSetMapping] changes
    one entry, whatever pages are cached, evicted or written back on the way. *)

From S2P Require Import Prelude MapLayout Superblock SuperTable FileLayer SBlock SBlockInv.
From S2P Require Import SBlockSafety SBlockSpec.
From S2P Require Import BufState MapBuf MapClock PoolInv MapPage MapPageSpec.

Local Open Scope Z_scope.

Section entries.
Context {T F : Type} `{SuperStore T} `{FileLayerLaws F} (env : Env).
Local Abbreviation S := (MapState T F).
Implicit Types s : S.

(** The invariant, except that slot [i] may not agree with the fork. *)
Record map_inv_but (i : nat) s : Prop := {
  mb_pool : pool_ok (ms_sys s);
  mb_cache : cache_ok (ms_sys s);
  mb_fork : ∀ j b f, buffers (pool (ms_sys s)) !! j = Some b → forknum b = Some f →
    ∃ idx, MapDecodeMapBlkno (page_number b) = Some (f, idx);
  mb_exists : ∀ r f n, trusted_size (w_store (ms_world s)) r f = Some n →
    fl_exists (files s) r UMBRA_METADATA_FORKNUM = true;
  mb_agrees : ∀ j b f pg n, j ≠ i → buffers (pool (ms_sys s)) !! j = Some b →
    forknum b = Some f → pages (pool (ms_sys s)) !! j = Some pg →
    trusted_size (w_store (ms_world s)) (rnode b) f = Some n → agrees (files s) n b f pg;
}.

Lemma map_inv_close i s b f pg n :
  map_inv_but i s → buffers (pool (ms_sys s)) !! i = Some b → forknum b = Some f →
  pages (pool (ms_sys s)) !! i = Some pg →
  trusted_size (w_store (ms_world s)) (rnode b) f = Some n → agrees (files s) n b f pg →
  map_inv s.
Proof.
  intros [Hp Hc Hf He Ha] Hb Hfk Hpg Hn Hag. split; [done..|].
  intros j c g q m Hj Hg Hq Hm. destruct (decide (j = i)) as [->|Hne]; [|by eapply Ha].
  assert (c = b) as -> by congruence. assert (g = f) as -> by congruence.
  assert (m = n) as -> by congruence. by assert (q = pg) as -> by congruence.
Qed.

(** Storing a new page into slot [i] and marking it dirty. *)
Lemma dirty_page s i b f pg b' pg' w :
  map_inv s → buffers (pool (ms_sys s)) !! i = Some b → forknum b = Some f →
  pages (pool (ms_sys s)) !! i = Some pg → page_ok pg' → reflagged b b' true →
  w_store w = w_store (ms_world s) → files_kept (files s) (w_files w) →
  let s' := MkMapState w (upd (ms_sys s) i b' pg' (cache (pool (ms_sys s))) 0) (ms_local s) in
  map_inv_but i s' ∧
  ∀ r g blk, map_page s' r g blk =
    if decide ((r, g, blk) = (rnode b, f, page_number b))
    then match trusted_size (w_store (ms_world s)) r g with Some _ => Some pg' | None => None end
    else map_page s r g blk.
Proof.
  intros [Hp Hc Hfork Hex Hag] Hb Hf Hpg Hok Hre Hst Hfk s'. subst s'.
  pose proof Hre as (Er & Ef & Ep & _ & _ & Efn & _). pose proof Hfk as (_ & Hfe & _).
  split; [split|]; cbn [ms_sys ms_world]; unfold files; cbn [ms_world]; rewrite ?Hst.
  - apply upd_pool_ok with b; [done..|]. rewrite Z.add_0_r.
    eapply reflagged_ok; [by apply (po_buf _ Hp)|done|by rewrite Hf].
  - by apply upd_cache_ok with b.
  - intros j c g [[-> ->]|[_ Hj]]%upd_lookup Hg; [|by eapply Hfork].
    rewrite Ep. apply (Hfork i); [done|congruence].
  - intros r g n Hn. rewrite Hfe. by eapply Hex.
  - intros j c g q n Hne Hj Hg Hq Hn. apply upd_lookup in Hj as [[-> ->]|[_ Hj]]; [done|].
    cbn in Hq. rewrite list_lookup_insert_ne in Hq by done.
    specialize (Hag j c g q n Hj Hg Hq Hn). unfold agrees in *.
    destruct (bdirty c); [done|]. by rewrite (reload_kept (files s)).
  - intros r g blk. unfold map_page, files. cbn [ms_sys ms_world upd pool cache pages set_cache set_pages].
    rewrite Hst. destruct (co_tag _ Hc i b f Hb Hf) as [Hpos Hci].
    case_decide as Heq.
    + injection Heq as -> -> ->. rewrite Hci, Nat2Z.id.
      rewrite list_lookup_insert_eq by (by eapply lookup_lt_Some). done.
    + destruct (cache (pool (ms_sys s)) !! (r, g, blk)) as [slot|] eqn:Hk.
      * destruct (co_find _ Hc _ _ Hk) as (j & c & -> & Hj & Htc). rewrite Nat2Z.id.
        rewrite list_lookup_insert_ne; [done|]. intros <-. apply Heq.
        unfold tagged in Htc. cbn in Htc. intuition congruence.
      * destruct (trusted_size _ r g); [|done]. by apply reload_kept.
Qed.

Lemma map_inv_but_score i s sys :
  map_inv_but i s → pool_ok sys → score sys = score (ms_sys s) → map_inv_but i (at_sys s sys).
Proof.
  intros [Hp Hc Hf He Ha] Hp' Hsc. split; [done|by eapply cache_ok_score|..|done|].
  - intros j b' f Hb' Hf'. destruct (score_lookup _ _ _ _ Hsc Hb') as (b & Hb & Hcore).
    unfold bcore in Hcore. replace (page_number b') with (page_number b) by congruence.
    apply (Hf j); [done|congruence].
  - cbn. intros j b' f pg n Hne Hb' Hf' Hpg Hn.
    destruct (score_lookup _ _ _ _ Hsc Hb') as (b & Hb & Hcore).
    rewrite (score_pages _ _ Hsc) in Hpg. apply (agrees_core _ n b); [done|].
    unfold bcore in Hcore. replace (rnode b') with (rnode b) in * by congruence.
    apply (Ha j b f pg n); [done|done|congruence|done..].
Qed.

(** Why an update of an entry fails. *)
Definition set_error (sys : BufSys) (e : pg_error) : Prop :=
  read_error (F := F) sys e ∨
  (∃ (fs : F) r x y, fl_zeroextend fs r UMBRA_METADATA_FORKNUM x y = Err e).

(** Reading a page, rewriting it in place and marking it dirty. *)
Section rewrite.
Context (s : S) (r : RelFileLocator) (f : ForkNumber) (blk pidx n lsn : Z) (pg : list Z).
Context (g : list Z → list Z) (Hg : page_ok pg → page_ok (g pg)).
Context (Hinv : map_inv s) (Hdec : MapDecodeMapBlkno blk = Some (f, pidx)).
Context (Hpos : 0 < blk ≤ MaxBlockNumber).
Context (Hn : trusted_size (w_store (ms_world s)) r f = Some n).
Context (Hview : map_page s r f blk = Some pg).

Definition set_post (pg' : list Z) (i : nat) s' : Prop :=
  map_inv_but i s' ∧ io_step (ms_world s) (ms_world s') ∧ same_backend s s' ∧
  (∃ b, buffers (pool (ms_sys s')) !! i = Some b ∧ tagged b (r, f, blk) ∧ bdirty b = true) ∧
  pages (pool (ms_sys s')) !! i = Some pg' ∧
  ∀ r' f' blk', map_page s' r' f' blk' =
    if decide ((r', f', blk') = (r, f, blk)) then Some pg' else map_page s r' f' blk'.

(** The pin of the read is given back after the page was changed. *)
Lemma wp_unset i s2 b' pg' Q (E : pg_error → S → Prop) :
  map_inv_but i s2 → io_step (ms_world s) (ms_world s2) →
  buffers (pool (ms_sys s2)) !! i = Some b' → tagged b' (r, f, blk) → bdirty b' = true →
  pages (pool (ms_sys s2)) !! i = Some pg' →
  (∀ j, private_count j (ms_sys s2) =
     private_count j (ms_sys s) + if decide (j = i) then 1 else 0) →
  ms_local s2 = ms_local s → keeps (ms_sys s) (ms_sys s2) →
  (∀ r' f' blk', map_page s2 r' f' blk' =
     if decide ((r', f', blk') = (r, f, blk)) then Some pg' else map_page s r' f' blk') →
  (∀ s', set_post pg' i s' → Q tt s') →
  wp (on_sys (MapUnpinBuffer i)) Q E s2.
Proof using All.
  intros Hb2 Hst Hbi Ht Hd Hpi Hpins Hlocal Hkeep Hv HQ. pose proof (mb_pool _ _ Hb2) as Hp2.
  destruct (po_buf _ Hp2 i b' Hbi) as [Hs _ Hbp _ _].
  pose proof (private_nonneg _ i (mi_pool _ Hinv)) as Hge. pose proof (Hpins i) as Hpi2.
  rewrite decide_True in Hpi2 by done.
  apply wp_on_sys, (wp_unpin _ i b' pg'); [done|done|done|lia|].
  intros b3 Hre3. apply HQ. pose proof Hre3 as (Hcore & _). unfold bcore in Hcore.
  set (sys3 := upd (ms_sys s2) i b3 pg' _ (-1)).
  assert (pool_ok sys3) as Hp3 by (eapply repin_pool; [done|done|done|done|lia]).
  assert (score sys3 = score (ms_sys s2)) as Hsc by (by eapply repin_score).
  split_and!; [by apply map_inv_but_score|done|..].
  - split_and!; [|done|eapply keeps_trans; [done|]; by eapply keeps_repin].
    intros j. cbn [at_sys ms_sys]. unfold sys3. rewrite (private_upd_at _ _ b'), Hpins by done.
    destruct (decide (j = i)); lia.
  - exists b3. split; [by eapply upd_buf_at|]. unfold tagged in *. cbn in *.
    rewrite bdirty_core in *. intuition congruence.
  - by eapply upd_page_at.
  - intros r' f' blk'. by rewrite (map_page_score s2).
Qed.

Lemma kept_io_step (w w' : World T F) :
  w_store w' = w_store w → w_flushed w' = w_flushed w → files_kept (w_files w) (w_files w') →
  io_step w w'.
Proof.
  intros Hst Hfl (Hk & He & Hd). split_and!; [done|lia|done|..|done].
  - intros q x Hx. by apply block_kept_some, Hk.
  - intros q. by apply disk_super_kept, Hk.
Qed.

(** From a page that is pinned already. *)
Lemma wp_rewrite_pinned i s1 Q :
  read_post s r f blk pg i s1 → (∀ s', set_post (g pg) i s' → Q tt s') →
  wp (pg ← on_sys (get_page i);
      on_sys (set_page i (g pg));;
      MapMarkBufferDirty r i lsn;;
      on_sys (MapUnpinBuffer i)) Q (λ e _, set_error (ms_sys s) e) s1.
Proof using All.
  intros [Hinv1 Hm1 Hloc1 Hpg1 Hk1 Hpins1 Hkeep1] HQ. pose proof Hinv1 as [Hp1 Hc1 _ Hex1 _].
  destruct (co_find _ Hc1 _ _ Hk1) as (j & b & Hj%Nat2Z.inj & Hb & Ht). subst j.
  pose proof Ht as (Er & Ef & Ep). cbn in Er, Ef, Ep.
  destruct (po_buf _ Hp1 i b Hb) as [Hs Hu Hpin Hio _].
  apply wp_bind, wp_on_sys, (wp_get_page _ i pg); [done|].
  apply wp_bind, wp_on_sys, (wp_set_page _ i b); [done|].
  set (pg' := g pg). cbn [at_sys ms_sys ms_world ms_local].
  apply wp_bind, (wp_mark_dirty _ r i b pg');
    [by eapply upd_buf_at|by eapply upd_page_at|done|done|lia| |right; eauto|].
  { apply (Hex1 r f n). by rewrite (proj1 (proj1 Hm1)). }
  intros w b' Hst Hfl Hfk Hre. cbn [at_sys ms_sys ms_world ms_local]. rewrite upd_upd.
  cbn [upd pool cache set_cache].
  assert (page_ok pg') as Hok' by (by apply Hg, (po_page _ Hp1 i)).
  destruct (dirty_page s1 i b f pg b' pg' w) as [Hb2 Hv2]; [done..|].
  change (0 + 0) with 0. pose proof Hre as (Er' & Ef' & Ep' & _ & _ & _ & Hs' & _ & _ & _ & Hd').
  apply (wp_unset i _ b' pg'); [done| |by eapply upd_buf_at| |done
    |by eapply upd_page_at| |done| | |intros s'; by apply HQ].
  - etrans; [apply Hm1|]. by apply kept_io_step.
  - unfold tagged. cbn. split_and!; congruence.
  - intros j. cbn [ms_sys]. rewrite (private_upd_at _ _ b), Hpins1 by done.
    destruct (decide (j = i)); lia.
  - eapply keeps_trans; [done|]. by eapply keeps_reflag.
  - intros r' f' blk'. rewrite Hv2, Er, Ep, (proj1 (proj1 Hm1)).
    case_decide as Heq; [injection Heq as -> -> ->; by rewrite Hn|apply (proj2 Hm1)].
Qed.

Lemma wp_rewrite Q :
  (∀ i s', set_post (g pg) i s' → Q tt s') →
  wp (slot ← MapReadBuffer env r f blk;
      pg ← on_sys (get_page slot);
      on_sys (set_page slot (g pg));;
      MapMarkBufferDirty r slot lsn;;
      on_sys (MapUnpinBuffer slot)) Q (λ e _, set_error (ms_sys s) e) s.
Proof using All.
  intros HQ. apply wp_bind. eapply wp_mono;
    [apply (wp_read env s r f blk pidx n pg) with (Q := read_post s r f blk pg); done| |by left].
  intros i s1 Hp. apply (wp_rewrite_pinned i s1 Q Hp). intros s'. apply HQ.
Qed.
End rewrite.

Lemma insert_page_ok pg idx new : is_u32 new → page_ok pg → page_ok (<[Z.to_nat idx := new]> pg).
Proof. intros Hnew [Hlen Hall]. split; [by rewrite length_insert|]. by apply Forall_insert. Qed.

Lemma wp_set s r f l blk idx n new lsn pg Q :
  map_inv s → fork_mapped f → is_u32 l → is_u32 new → entry_location f l = Ok (blk, idx) →
  trusted_size (w_store (ms_world s)) r f = Some n → map_page s r f blk = Some pg →
  (∀ i s', set_post s r f blk (<[Z.to_nat idx := new]> pg) i s' → Q tt s') →
  wp (MapSetMapping env r f l new lsn) Q (λ e _, set_error (ms_sys s) e) s.
Proof.
  intros Hinv Hf Hl Hnew Hloc Hn Hv HQ.
  destruct (entry_location_ok f l blk idx Hf Hl Hloc) as (_ & _ & Hpos & Hdec).
  apply wp_bind, (wp_lift _ (blk, idx)); [done|]. cbn [fst snd].
  apply (wp_rewrite s r f blk (l / 2048) n _ pg); [|done..].
  by apply insert_page_ok.
Qed.

(** Inside the logical size the page agrees with the fork again. *)
Lemma set_closed s r f l blk idx n pg' i s' :
  fork_mapped f → is_u32 l → l < n → entry_location f l = Ok (blk, idx) →
  trusted_size (w_store (ms_world s)) r f = Some n → nonzero pg' →
  set_post s r f blk pg' i s' → map_inv s'.
Proof.
  intros Hf Hl Hln Hloc Hn Hnz (Hb & Hst & Hpins & (b & Hbi & Ht & Hd) & Hpg & Hv').
  pose proof Ht as (Er & Ef & Ep). cbn in Er, Ef, Ep.
  eapply (map_inv_close i s' b f); [done|done|done|done|by rewrite Er, (proj1 Hst)|].
  destruct (entry_location_ok f l blk idx Hf Hl Hloc) as (-> & _ & _ & Hdec).
  unfold agrees. rewrite Hd, Ep, within_entry by done. split; [done|].
  intros Hout%bool_decide_eq_false. ulia.
Qed.

Lemma set_run s r f l blk idx n new lsn pg :
  map_inv s → fork_mapped f → is_u32 l → is_u32 new → l < n →
  entry_location f l = Ok (blk, idx) →
  trusted_size (w_store (ms_world s)) r f = Some n → map_page s r f blk = Some pg →
  nonzero (<[Z.to_nat idx := new]> pg) →
  wp (MapSetMapping env r f l new lsn)
    (λ _ s', map_inv s' ∧ io_step (ms_world s) (ms_world s') ∧ same_backend s s' ∧
       ∀ r' f' blk', map_page s' r' f' blk' =
         if decide ((r', f', blk') = (r, f, blk)) then Some (<[Z.to_nat idx := new]> pg)
         else map_page s r' f' blk')
    (λ e _, set_error (ms_sys s) e) s.
Proof.
  intros Hinv Hf Hl Hnew Hln Hloc Hn Hv Hnz.
  apply (wp_set s r f l blk idx n new lsn pg _ Hinv Hf Hl Hnew Hloc Hn Hv).
  intros i s' Hset. pose proof Hset as (_ & Hst & Hpins & _ & _ & Hv').
  split_and!; [|done..]. by apply (set_closed s r f l blk idx n (<[Z.to_nat idx := new]> pg) i).
Qed.
End entries.

(** ** Extension: a new entry, then the new size *)

Section extend.
Context {T F : Type} `{SuperStoreLaws T} `{FileLayerLaws F} (env : Env).
Local Abbreviation S := (MapState T F).
Implicit Types s : S.

Lemma dirty_keeps v m : Z.land m MAPSUPER_FLAG_DIRTY = 0 →
  has_flag (Z.lor v MAPSUPER_FLAG_DIRTY) m = has_flag v m.
Proof.
  intros Hm. unfold has_flag. apply bool_decide_ext. f_equiv.
  rewrite (Z.land_comm (Z.lor _ _)), Z.land_lor_distr_r, Hm, Z.lor_0_r. by rewrite Z.land_comm.
Qed.

Lemma set_logical_super (b : MapSuperblock) f v lsn :
  fork_mapped f → ∃ b', MapSuperblockSetLogicalNblocks b f v = Ok b' ∧
    MapSuperblockHasValidIdentity (MapSuperblockSetLastUpdatedLSN b' lsn) =
      MapSuperblockHasValidIdentity b ∧
    ∀ g, MapSuperblockGetLogicalNblocks (MapSuperblockSetLastUpdatedLSN b' lsn) g =
      if decide (g = f) then Ok v else MapSuperblockGetLogicalNblocks b g.
Proof.
  intros Hf. destruct b; destruct Hf as [->|[->| ->]]; cbn; eexists; (split; [done|]);
    (split; [done|]); intros []; done.
Qed.

(** The entry stays usable and only its own relation is touched. *)
Definition entry_kept (r : RelFileLocator) (w w' : World T F) : Prop :=
  ss_wf (w_store w') ∧ same_others r w w' ∧
  ∃ e', ss_map (w_store w') !! r = Some e' ∧ entry_untrusted e' = false.

(** Storing a stamped superblock of a trusted entry. *)
Lemma put_super_trusted (w : World T F) r f n b lsn e0 e :
  ss_wf (w_store w) → ss_map (w_store w) !! r = Some e0 → trusted_size (w_store w) r f = Some n →
  super e = super e0 → eflags e = eflags e0 → key e = key e0 → in_use e = in_use e0 →
  MapSuperblockHasValidIdentity (MapSuperblockSetLastUpdatedLSN b lsn) =
    MapSuperblockHasValidIdentity (super e) →
  ∃ w', put_entry r (mark_super_dirty lsn (with_super b e)) w = (Ok tt, w') ∧
    w_files w' = w_files w ∧ entry_kept r w w' ∧
    (∀ r' g, r' ≠ r → trusted_size (w_store w') r' g = trusted_size (w_store w) r' g) ∧
    (∀ g, MapSuperblockGetLogicalNblocks (MapSuperblockSetLastUpdatedLSN b lsn) g =
            MapSuperblockGetLogicalNblocks (super e) g →
          trusted_size (w_store w') r g = trusted_size (w_store w) r g) ∧
    (∀ g v, fork_mapped g → MapSuperblockGetLogicalNblocks (MapSuperblockSetLastUpdatedLSN b lsn) g = Ok v →
          trusted_size (w_store w') r g = Some (MapNormalizeForkBlockCount g v)) ∧
    ss_map (w_store w') !! r = Some (mark_super_dirty lsn (with_super b e)).
Proof.
  intros Hwf He Hn Es Ef Ek Eu Hid'. unfold trusted_size in Hn. rewrite ss_find_spec, He, <-Es, <-Ef in Hn by done.
  destruct (has_flag (eflags e) MAPSUPER_FLAG_VALID) eqn:Hv; [|done].
  destruct (has_flag (eflags e) MAPSUPER_FLAG_CORRUPT) eqn:Hc; [by rewrite andb_false_r in Hn|].
  destruct (MapSuperblockHasValidIdentity (super e)) eqn:Hid; [|by rewrite andb_false_r in Hn].
  clear Hn. destruct (ss_key _ _ _ Hwf He) as [Hk Huse]. rewrite <-Ek in Hk. rewrite <-Eu in Huse.
  destruct (put_run r w e0 (mark_super_dirty lsn (with_super b e))) as (-> & Hwf' & Hh & Ho); [done..|].
  eexists. split_and!; [done|done|split_and!; [done|done|]| | | |exact Hh].
  - eexists. split; [exact Hh|]. unfold entry_untrusted.
    cbn [mark_super_dirty eflags super with_eflags with_lsn with_super].
    rewrite dirty_keeps, Hc, Hid' by done. cbn [orb negb].
    change MAPSUPER_FLAG_DIRTY with (2 ^ 1). rewrite has_flag_bit, Z.lor_spec by lia.
    by rewrite Z.pow2_bits_true, orb_true_r by lia.
  - intros r' g Hne. unfold trusted_size. rewrite !ss_find_spec by done. by rewrite Ho.
  - intros g Hg. unfold trusted_size. rewrite !ss_find_spec by done. unfold has in Hh. rewrite Hh, He, <-Es, <-Ef.
    cbn [mark_super_dirty eflags super with_eflags with_lsn with_super].
    by rewrite !dirty_keeps, Hv, Hc, Hid', Hid, Hg by done.
  - intros g v Hg Hv'. unfold trusted_size. rewrite !ss_find_spec by done. unfold has in Hh. rewrite Hh.
    cbn [mark_super_dirty eflags super with_eflags with_lsn with_super].
    rewrite !dirty_keeps, Hv, Hc, Hid', Hv' by done. by destruct Hg as [->|[->| ->]].
Qed.

(** Setting the size, or raising it. *)
Lemma update_trusted (w : World T F) r f n v lsn bump e :
  ss_wf (w_store w) → ss_map (w_store w) !! r = Some e → entry_untrusted e = false →
  fork_mapped f → trusted_size (w_store w) r f = Some n → v ≤ MaxBlockNumber →
  (bump = true → n < v) →
  ∃ w', MapSBlockUpdateLogicalNblocks env r f v lsn bump w = (Ok tt, w') ∧
    w_files w' = w_files w ∧ entry_kept r w w' ∧
    ∀ r' g, trusted_size (w_store w') r' g =
      if decide ((r', g) = (r, f)) then Some v else trusted_size (w_store w) r' g.
Proof.
  intros Hwf He Hu Hf Hn Hr Hbump. pose proof Hn as Hn0.
  assert (MapForkHasMappedState f = true) as Hms by (by destruct Hf as [->|[->| ->]]).
  unfold MapSBlockUpdateLogicalNblocks. rewrite Hms. cbn [negb].
  unfold mbind at 1, M_bind at 1. rewrite (prepare_trusted env _ _ _ _ e) by done.
  unfold trusted_size in Hn. rewrite ss_find_spec, He in Hn by done. case_match; [|done].
  destruct (MapSuperblockGetLogicalNblocks (super e) f) as [cur|] eqn:Hg; [|done].
  injection Hn as Hn. destruct (set_logical_super (super e) f v (update_lsn env lsn) Hf) as (s' & Hs' & Hid' & Hl').
  unfold lift, mbind, M_bind. rewrite Hn, Hs'.
  replace (negb bump || bool_decide (n < v)) with true
    by (destruct bump; [by rewrite bool_decide_eq_true_2 by auto|done]).
  destruct (put_super_trusted w r f n s' (update_lsn env lsn) e e) as (w' & -> & Hfs & Hk & Ho & Hsame & Hval & _); [done..|].
  exists w'. split_and!; [done|done|done|]. intros r' g. destruct (decide (r' = r)) as [->|Hne].
  2: { rewrite Ho by done. by rewrite decide_False by congruence. }
  specialize (Hl' g). destruct (decide (g = f)) as [->|Hgf].
  - rewrite decide_True, (Hval f v) by done. by rewrite normalize_small by lia.
  - rewrite decide_False by congruence. by apply Hsame.
Qed.

(** Growing the size by one block brings no page into range but the one that
    holds the new entry. *)
Lemma within_grow f n blk idx :
  MapDecodeMapBlkno blk = Some (f, idx) → is_u32 idx → 0 ≤ n →
  idx ≠ n / 2048 →
  MapMapPageWithinLogicalRange (Some (n + 1)) f blk = MapMapPageWithinLogicalRange (Some n) f blk.
Proof.
  intros Hdec Hi Hn Hne. cbn. rewrite Hdec, !decide_False by auto.
  change MAP_ENTRIES_PER_PAGE with 2048. rewrite u64_small by ulia. f_equal.
  apply bool_decide_ext. split; [lia|]. intros Hle.
  destruct (decide (n = idx * 2048)) as [->|]; [|lia]. exfalso. apply Hne.
  by rewrite Z.div_mul.
Qed.

Lemma within_mono n n' f blk :
  n ≤ n' → MapMapPageWithinLogicalRange (Some n) f blk = true →
  MapMapPageWithinLogicalRange (Some n') f blk = true.
Proof.
  intros Hle. cbn. destruct (MapDecodeMapBlkno blk) as [[g idx]|]; [|done].
  case_decide; [done|]. rewrite !negb_true_iff, !bool_decide_eq_false. lia.
Qed.

Lemma decode_u32 blk f idx : MapDecodeMapBlkno blk = Some (f, idx) → is_u32 idx.
Proof.
  unfold MapDecodeMapBlkno. repeat case_decide; intros [= _ <-]; try apply u32_range.
Qed.

Lemma reload_grow (fs : F) f n r blk :
  0 ≤ n → (∀ idx, MapDecodeMapBlkno blk = Some (f, idx) → idx ≠ n / 2048) →
  reload fs (n + 1) r f blk = reload fs n r f blk.
Proof.
  intros Hn Hne. unfold reload. destruct (MapDecodeMapBlkno blk) as [[g idx]|] eqn:Hdec.
  2: { cbn. by rewrite Hdec. }
  destruct (decide (g = f)) as [->|Hgf].
  - rewrite (within_grow f n blk idx); [done|done|by eapply decode_u32|done|]. by apply Hne.
  - cbn. by rewrite Hdec, !decide_True by done.
Qed.

Lemma decode_pos blk f idx :
  0 < blk ≤ MaxBlockNumber → MapDecodeMapBlkno blk = Some (f, idx) → blk = page_pos f idx.
Proof.
  intros Hb Hdec. rewrite decode_spec in Hdec by lia.
  destruct (page_pos_of_pos blk) as (_ & _ & Hpp); [lia|].
  injection Hdec as Hdec. rewrite Hdec in Hpp. by cbn in Hpp.
Qed.

(** The size grows over the block whose entry was set. *)
Lemma grow_inv s i b r f n pg w :
  map_inv_but i s → buffers (pool (ms_sys s)) !! i = Some b →
  tagged b (r, f, page_pos f (n / 2048)) → bdirty b = true →
  MapDecodeMapBlkno (page_pos f (n / 2048)) = Some (f, n / 2048) →
  pages (pool (ms_sys s)) !! i = Some pg → nonzero pg → is_u32 n →
  trusted_size (w_store (ms_world s)) r f = Some n → w_files w = files s →
  (∀ r' g, trusted_size (w_store w) r' g =
     if decide ((r', g) = (r, f)) then Some (n + 1)
     else trusted_size (w_store (ms_world s)) r' g) →
  let s' := MkMapState w (ms_sys s) (ms_local s) in
  map_inv s' ∧ ∀ r' f' blk', 0 < blk' ≤ MaxBlockNumber → map_page s' r' f' blk' = map_page s r' f' blk'.
Proof.
  intros [Hp Hc Hfork Hex Hag] Hb Ht Hd Hdec Hpg Hnz Hn Htr Hfs Hts s'.
  pose proof Ht as (Er & Ef & Ep). cbn in Er, Ef, Ep. unfold is_u32 in Hn.
  destruct (co_tag _ Hc i b f Hb Ef) as [_ Hci]. rewrite Er, Ep in Hci.
  assert (files s' = files s) as Hfs' by done.
  assert (∀ r' g, is_Some (trusted_size (w_store w) r' g) →
    is_Some (trusted_size (w_store (ms_world s)) r' g)) as Hsome.
  { intros r' g. rewrite Hts. case_decide as Heq; [injection Heq as -> ->; by rewrite Htr|done]. }
  split; [split|].
  - done.
  - done.
  - done.
  - intros r' g m Hm. rewrite Hfs'. destruct (Hsome r' g) as [m' Hm']; [by eexists|]. by eapply Hex.
  - intros j c g q m Hj Hg Hq Hm. rewrite Hfs'. cbn [ms_world s'] in Hm. rewrite Hts in Hm.
    destruct (decide (j = i)) as [->|Hji].
    + cbn [s' ms_sys] in *. assert (c = b) as -> by congruence. assert (g = f) as -> by congruence.
      assert (q = pg) as -> by congruence. rewrite decide_True in Hm by congruence.
      injection Hm as <-. unfold agrees. rewrite Hd, Ep. split; [done|].
      rewrite within_entry by done. intros Hout%bool_decide_eq_false. ulia.
    + case_decide as Heq; [|by eapply Hag]. injection Heq as Hrc ->. injection Hm as <-.
      rewrite <-Hrc in Htr. specialize (Hag j c f q n Hji Hj Hg Hq Htr). unfold agrees in *.
      destruct (bdirty c).
      * destruct Hag as [Hnzq Hff]. split; [done|]. intros Hout. apply Hff.
        destruct (MapMapPageWithinLogicalRange (Some n) f _) eqn:Hw; [|done].
        apply (within_mono n (n + 1)) in Hw; [congruence|lia].
      * rewrite reload_grow; [done|lia|]. intros idx Hidx ->. apply Hji.
        destruct (co_tag _ Hc j c f Hj Hg) as [Hcp Hcj].
        rewrite (decode_pos _ _ _ Hcp Hidx), Hrc, Hci in Hcj. injection Hcj. lia.
  - intros r' g blk' Hblk. unfold map_page. cbn [s' ms_sys ms_world]. rewrite Hts, Hfs'.
    case_decide as Heq; [|done]. injection Heq as -> ->. rewrite Htr.
    destruct (cache (pool (ms_sys s)) !! (r, f, blk')) as [slot|] eqn:Hk; [done|].
    rewrite reload_grow; [done|lia|]. intros idx Hidx ->.
    rewrite (decode_pos _ _ _ Hblk Hidx) in Hk. congruence.
Qed.
End extend.

(** ** Starting state *)

Lemma init_lookup n i b :
  buffers (MapShmemInit n) !! i = Some b → b = init_buf n i ∧ (i < n)%nat.
Proof.
  cbn. intros Hb. rewrite list_lookup_fmap in Hb.
  destruct (seq 0 n !! i) as [j|] eqn:Hj; [|done]. apply lookup_seq in Hj as [-> Hi].
  by injection Hb as <-.
Qed.

Lemma init_free_list n k :
  (k ≤ n)%nat → (0 < n)%nat → (k < n)%nat →
  free_list (buffers (MapShmemInit n)) (Z.of_nat k) (seq k (n - k)).
Proof.
  intros Hk Hn. remember (n - k)%nat as m eqn:Hm. revert k Hk Hm.
  induction m as [|m IH]; intros k Hk Hm Hlt; [lia|]. cbn [seq free_list].
  split; [done|]. exists (init_buf n k). split.
  - cbn. rewrite list_lookup_fmap, (lookup_seq_lt 0 n k) by lia. done.
  - cbn [init_buf freeNext]. destruct (decide (k = n - 1)%nat) as [Heq|Hne].
    + destruct m; [done|lia].
    + replace (Z.of_nat k + 1) with (Z.of_nat (Datatypes.S k)) by lia. apply IH; lia.
Qed.

Definition init_sys (n : nat) : BufSys := MkSys (MapShmemInit n) (replicate n 0) None.

Lemma init_pool_ok n : 0 < Z.of_nat n < 2 ^ 31 → pool_ok (init_sys n) ∧ cache_ok (init_sys n).
Proof.
  intros Hn. assert (length (buffers (MapShmemInit n)) = n) as Hlen
    by (cbn; by rewrite length_fmap, length_seq).
  split; [split|split]; cbn [init_sys pool private_ref in_progress].
  - split; cbn [init_sys pool]; rewrite ?Hlen; [lia|cbn; lia|].
    intros i b [-> _]%init_lookup. by vm_compute.
  - split. exists (seq 0 n). cbn [init_sys pool]. split; [|apply NoDup_seq].
    pose proof (init_free_list n 0 ltac:(lia) ltac:(lia) ltac:(lia)) as Hf.
    by rewrite Nat.sub_0_r in Hf.
  - rewrite Hlen. cbn. apply length_replicate.
  - by rewrite Hlen, length_replicate.
  - cbn. intros i pg [-> _]%lookup_replicate. split; [apply length_replicate|].
    apply Forall_replicate. done.
  - intros i b [-> Hi]%init_lookup. unfold private_count. cbn [init_sys private_ref].
    rewrite lookup_replicate_2 by done. split; by vm_compute.
  - done.
  - intros t slot. cbn. by rewrite lookup_empty.
  - intros i b f [-> _]%init_lookup. done.
Qed.

(** A server that has no page cached yet. *)
Lemma start_inv `{SuperStore T} `{FileLayerLaws F} (w : World T F) n local :
  0 < Z.of_nat n < 2 ^ 31 →
  (∀ r f m, trusted_size (w_store w) r f = Some m →
     fl_exists (w_files w) r UMBRA_METADATA_FORKNUM = true) →
  map_inv (MkMapState w (init_sys n) local).
Proof.
  intros Hn Hex. destruct (init_pool_ok n Hn) as [Hp Hc]. split; [done|done| |done|].
  - intros i b f [-> _]%init_lookup. done.
  - intros i b f pg m [-> _]%init_lookup. done.
Qed.

(** ** Extension as a whole *)

Section publish.
Context {T F : Type} `{SuperStoreLaws T} `{FileLayerLaws F} (env : Env).
Local Abbreviation S := (MapState T F).

(** Entry first, size second, in the order of [XLogCommitBlockRemapsUmbra]. *)
Definition publish_extension (r : RelFileLocator) (f : ForkNumber) (l new lsn : Z) : M S unit :=
  MapSetMapping env r f l new lsn;;
  on_world (MapSBlockBumpLogicalNblocks env r f (l + 1) lsn).

Definition publish_post (s : S) r f n blk idx new pg (s' : S) : Prop :=
  map_inv s' ∧ same_backend s s' ∧
  (∀ r' f', trusted_size (w_store (ms_world s')) r' f' =
     if decide ((r', f') = (r, f)) then Some (n + 1)
     else trusted_size (w_store (ms_world s)) r' f') ∧
  (∀ r' f' blk', 0 < blk' ≤ MaxBlockNumber → map_page s' r' f' blk' =
     if decide ((r', f', blk') = (r, f, blk)) then Some (<[Z.to_nat idx := new]> pg)
     else map_page s r' f' blk').

Lemma publish_run (s : S) r f n blk idx new lsn e pg :
  map_inv s → fork_mapped f → is_u32 n → n < MaxBlockNumber → is_u32 new →
  entry_location f n = Ok (blk, idx) → ss_wf (w_store (ms_world s)) →
  ss_map (w_store (ms_world s)) !! r = Some e → entry_untrusted e = false →
  trusted_size (w_store (ms_world s)) r f = Some n → map_page s r f blk = Some pg →
  nonzero (<[Z.to_nat idx := new]> pg) →
  wp (publish_extension r f n new lsn)
    (λ _, publish_post s r f n blk idx new pg)
    (λ er _, set_error (F := F) (ms_sys s) er) s.
Proof.
  intros Hinv Hf Hn Hmax Hnew Hloc Hwf He Hu Htr Hview Hnz.
  destruct (entry_location_ok f n blk idx Hf Hn Hloc) as (-> & -> & Hpos & Hdec).
  apply wp_bind. eapply wp_set; [done..|]. intros i s1 (Hb1 & [Hst _] & Hpins & (b & Hb & Ht & Hd) & Hpg & Hv).
  unfold is_u32 in Hn. rewrite <-Hst in Hwf, He, Htr.
  destruct (update_trusted env (ms_world s1) r f n (n + 1) lsn true e)
    as (w' & Hrun & Hfs & _ & Hts); [done..|lia|lia|].
  unfold wp, on_world, MapSBlockBumpLogicalNblocks. rewrite Hrun.
  destruct (grow_inv s1 i b r f n (<[Z.to_nat (n mod 2048) := new]> pg) w') as [Hi Hv']; [done..|].
  split_and!; [done|done|cbn; by rewrite <-Hst|]. intros r' f' blk' Hb'. rewrite Hv' by done. apply Hv.
Qed.
End publish.

(** ** Properties *)

(** Reading a map page either returns a buffer that holds the page
    of the relation's map, pinned once and found by the cache, or reports that
    every buffer is in use, that a pin count is exhausted, or what the file
    layer reported when the victim was written.  It takes one turn of its
    loop, keeps the invariant, and the map of every relation is unchanged
    although another page may have been written back and evicted. *)
Theorem read_buffer_correct `{SuperStore T} `{FileLayerLaws F} env (s : MapState T F) r f blk idx n pg :
  map_inv s → MapDecodeMapBlkno blk = Some (f, idx) → 0 < blk ≤ MaxBlockNumber →
  trusted_size (w_store (ms_world s)) r f = Some n → map_page s r f blk = Some pg →
  match MapReadBuffer env r f blk s with
  | (Ok i, s') => read_post s r f blk pg i s'
  | (Err e, _) => read_error (F := F) (ms_sys s) e
  end.
Proof.
  intros Hinv Hdec Hpos Hn Hv.
  apply (wp_read env s r f blk idx n pg Hinv Hdec Hpos Hn Hv). done.
Qed.

(** C4: a lookup of a logical block returns the physical block its
    map entry names, or nothing when the entry is invalid; it leaves every
    map, the invariant and the pins of the backend as they were. *)
Theorem lookup_correct `{SuperStore T} `{FileLayerLaws F} env (s : MapState T F) r f l blk idx n pg :
  map_inv s → fork_mapped f → is_u32 l → entry_location f l = Ok (blk, idx) →
  trusted_size (w_store (ms_world s)) r f = Some n → map_page s r f blk = Some pg →
  match MapTryLookup env r f l s with
  | (Ok o, s') => o = mapped_block pg idx ∧ map_inv s' ∧ same_map s s' ∧ same_backend s s'
  | (Err e, _) => read_error (F := F) (ms_sys s) e
  end.
Proof.
  intros Hinv Hf Hl Hloc Hn Hv.
  apply (wp_lookup env s r f l blk idx n pg Hinv Hf Hl Hloc Hn Hv). done.
Qed.

(** C3: remapping a block inside the logical size changes exactly its
    entry of the map, even if the page has to be read and others evicted; the
    invariant, all sizes and the pins are kept.  It fails only as a read
    fails or when the file layer cannot extend the metadata fork. *)
Theorem set_mapping_correct `{SuperStore T} `{FileLayerLaws F} env (s : MapState T F)
    r f l blk idx n new lsn pg :
  map_inv s → fork_mapped f → is_u32 l → is_u32 new → l < n →
  entry_location f l = Ok (blk, idx) →
  trusted_size (w_store (ms_world s)) r f = Some n → map_page s r f blk = Some pg →
  nonzero (<[Z.to_nat idx := new]> pg) →
  match MapSetMapping env r f l new lsn s with
  | (Ok _, s') => map_inv s' ∧ io_step (ms_world s) (ms_world s') ∧ same_backend s s' ∧
      ∀ r' f' blk', map_page s' r' f' blk' =
        if decide ((r', f', blk') = (r, f, blk)) then Some (<[Z.to_nat idx := new]> pg)
        else map_page s r' f' blk'
  | (Err e, _) => set_error (F := F) (ms_sys s) e
  end.
Proof.
  intros. by apply (set_run env s r f l blk idx n new lsn pg).
Qed.

(** Extending a fork by one block, entry first and size second,
    adds exactly that entry to the map and one block to the size. *)
Theorem extension_publishes `{SuperStoreLaws T} `{FileLayerLaws F} env (s : MapState T F)
    r f n blk idx new lsn e pg :
  map_inv s → fork_mapped f → is_u32 n → n < MaxBlockNumber → is_u32 new →
  entry_location f n = Ok (blk, idx) → ss_wf (w_store (ms_world s)) →
  ss_map (w_store (ms_world s)) !! r = Some e → entry_untrusted e = false →
  trusted_size (w_store (ms_world s)) r f = Some n → map_page s r f blk = Some pg →
  nonzero (<[Z.to_nat idx := new]> pg) →
  match publish_extension env r f n new lsn s with
  | (Ok _, s') => map_inv s' ∧ same_backend s s' ∧
      (∀ r' f', trusted_size (w_store (ms_world s')) r' f' =
         if decide ((r', f') = (r, f)) then Some (n + 1)
         else trusted_size (w_store (ms_world s)) r' f') ∧
      (∀ r' f' blk', 0 < blk' ≤ MaxBlockNumber → map_page s' r' f' blk' =
         if decide ((r', f', blk') = (r, f, blk)) then Some (<[Z.to_nat idx := new]> pg)
         else map_page s r' f' blk')
  | (Err er, _) => set_error (F := F) (ms_sys s) er
  end.
Proof. intros. by eapply (publish_run env s r f n blk idx new lsn e pg). Qed.

(** ** A concrete system *)

Definition demo_start : World MapSuperTable RefFiles :=
  (run_schedule (take 1 demo_schedule) demo_world).2.

Definition demo_state : MapState MapSuperTable RefFiles :=
  MkMapState demo_start (init_sys 2) [].

Lemma demo_only r e : ss_map (w_store demo_start) !! r = Some e → r = demo_rel.
Proof.
  assert (dom (ss_map (w_store demo_start)) = {[demo_rel]}) as Hdom
    by (vm_compute; exact eq_refl).
  intros Hr. apply (elem_of_dom_2 (D := gset RelFileLocator)) in Hr.
  rewrite Hdom in Hr. by apply elem_of_singleton in Hr.
Qed.

Lemma demo_exists r f m :
  trusted_size (w_store demo_start) r f = Some m →
  fl_exists (w_files demo_start) r UMBRA_METADATA_FORKNUM = true.
Proof.
  unfold trusted_size. destruct (ss_find (w_store demo_start) r) as [e|] eqn:He; [|done]. intros _.
  rewrite ss_find_spec in He by apply (demo_inv 1). apply demo_only in He as ->. by vm_compute.
Qed.

Lemma demo_state_inv : map_inv demo_state.
Proof. apply start_inv; [done|]. exact demo_exists. Qed.

Lemma demo_entry :
  ∃ e, ss_map (w_store (ms_world demo_state)) !! demo_rel = Some e ∧ entry_untrusted e = false.
Proof.
  change (ms_world demo_state) with demo_start.
  destruct (ss_map (w_store demo_start) !! demo_rel) as [e|] eqn:He; [|by vm_compute in He].
  exists e. split; [done|]. vm_compute in He. injection He as <-. by vm_compute.
Qed.

Lemma demo_wf : ss_wf (w_store (ms_world demo_state)).
Proof. change (ms_world demo_state) with demo_start. unfold demo_start. apply (demo_inv 1). Qed.

Lemma demo_ff_nonzero x : is_u32 x → x ≠ 0 → nonzero (<[0%nat := x]> ff_page).
Proof.
  intros Hx Hx0. destruct ff_page_ok as [Hl Hf].
  apply (nonzero_entry _ 0 x); [split; [by rewrite length_insert|by apply Forall_insert]| |done].
  apply list_lookup_insert_eq. rewrite Hl. change MAP_ENTRIES_PER_PAGE with 2048. lia.
Qed.

Lemma demo_nonzero7 : nonzero (<[0%nat := 7]> ff_page).
Proof. by apply demo_ff_nonzero. Qed.
Lemma demo_nonzero9 : nonzero (<[0%nat := 9]> ff_page).
Proof. by apply demo_ff_nonzero. Qed.
Lemma u32_of_bool z : (0 <=? z) && (z <? 2 ^ 32) = true → is_u32 z.
Proof. unfold is_u32. intros [?%Z.leb_le ?%Z.ltb_lt]%andb_true_iff. done. Qed.

Definition demo_published : MapState MapSuperTable RefFiles :=
  (publish_extension demo_env demo_rel MAIN_FORKNUM 0 7 96 demo_state).2.

Lemma demo_publish :
  publish_extension demo_env demo_rel MAIN_FORKNUM 0 7 96 demo_state = (Ok tt, demo_published).
Proof.
  assert ((publish_extension demo_env demo_rel MAIN_FORKNUM 0 7 96 demo_state).1 = Ok tt) as Hok
    by (vm_compute; exact eq_refl).
  unfold demo_published. rewrite <-Hok. apply surjective_pairing.
Qed.

Lemma demo_size : trusted_size (w_store (ms_world demo_state)) demo_rel MAIN_FORKNUM = Some 0.
Proof. vm_compute. exact eq_refl. Qed.
Lemma demo_page : map_page demo_state demo_rel MAIN_FORKNUM 3 = Some ff_page.
Proof. vm_compute. exact eq_refl. Qed.
Lemma demo_location : entry_location MAIN_FORKNUM 0 = Ok (3, 0).
Proof. vm_compute. exact eq_refl. Qed.

Lemma demo_blk : 0 < 3 ≤ MaxBlockNumber.
Proof. done. Qed.

Lemma demo_published_run : publish_post demo_state demo_rel MAIN_FORKNUM 0 3 0 7 ff_page demo_published.
Proof.
  destruct demo_entry as (e & He & Hu).
  pose proof (publish_run demo_env demo_state demo_rel MAIN_FORKNUM 0 3 0 7 96 e ff_page
    demo_state_inv (or_introl eq_refl) (u32_of_bool 0 eq_refl) eq_refl (u32_of_bool 7 eq_refl)
    demo_location demo_wf He Hu demo_size demo_page demo_nonzero7) as Hrun.
  unfold wp in Hrun. rewrite demo_publish in Hrun. exact Hrun.
Qed.

Lemma demo_published_ok :
  map_inv demo_published ∧
  trusted_size (w_store (ms_world demo_published)) demo_rel MAIN_FORKNUM = Some 1 ∧
  map_page demo_published demo_rel MAIN_FORKNUM 3 = Some (<[0%nat := 7]> ff_page).
Proof.
  destruct demo_published_run as (Hi & _ & Hts & Hv). split_and!; [exact Hi| |].
  - rewrite Hts, decide_True by exact eq_refl. exact eq_refl.
  - rewrite Hv by exact demo_blk. rewrite decide_True by exact eq_refl. exact eq_refl.
Qed.

Lemma extension_publishes_witness :
  publish_extension demo_env demo_rel MAIN_FORKNUM 0 7 96 demo_state = (Ok tt, demo_published) ∧
  map_inv demo_published ∧
  map_page demo_published demo_rel MAIN_FORKNUM 3 = Some (<[0%nat := 7]> ff_page).
Proof.
  destruct demo_entry as (e & He & Hu). split; [exact demo_publish|].
  pose proof (extension_publishes demo_env demo_state demo_rel MAIN_FORKNUM 0 3 0 7 96 e ff_page
    demo_state_inv (or_introl eq_refl) (u32_of_bool 0 eq_refl) eq_refl (u32_of_bool 7 eq_refl)
    demo_location demo_wf He Hu demo_size demo_page demo_nonzero7) as Hrun.
  rewrite demo_publish in Hrun. destruct Hrun as (Hi & _ & _ & Hv).
  split; [exact Hi|]. rewrite Hv by exact demo_blk. rewrite decide_True by exact eq_refl.
  exact eq_refl.
Defined.

Lemma read_buffer_correct_witness :
  match MapReadBuffer demo_env demo_rel MAIN_FORKNUM 3 demo_published with
  | (Ok i, s') => read_post demo_published demo_rel MAIN_FORKNUM 3 (<[0%nat := 7]> ff_page) i s'
  | (Err e, _) => read_error (F := RefFiles) (ms_sys demo_published) e
  end.
Proof.
  destruct demo_published_ok as (Hi & Hn & Hv).
  apply (read_buffer_correct demo_env demo_published demo_rel MAIN_FORKNUM 3 0 1);
    [exact Hi|exact eq_refl|exact demo_blk|exact Hn|exact Hv].
Defined.

Lemma lookup_correct_witness :
  ∃ s', MapTryLookup demo_env demo_rel MAIN_FORKNUM 0 demo_published = (Ok (Some 7), s') ∧
    map_inv s' ∧ same_map demo_published s'.
Proof.
  destruct demo_published_ok as (Hi & Hn & Hv).
  pose proof (lookup_correct demo_env demo_published demo_rel MAIN_FORKNUM 0 3 0 1 _ Hi
    (or_introl eq_refl) (u32_of_bool 0 eq_refl) demo_location Hn Hv) as Hrun.
  destruct (MapTryLookup _ _ _ _ _) as [[o|e] s'] eqn:Hl.
  - destruct Hrun as (-> & Hi' & Hm & _). exists s'. split_and!; [exact eq_refl|exact Hi'|exact Hm].
  - exfalso. apply (f_equal fst) in Hl. vm_compute in Hl. discriminate.
Defined.

Lemma set_mapping_correct_witness :
  ∃ s', MapSetMapping demo_env demo_rel MAIN_FORKNUM 0 9 97 demo_published = (Ok tt, s') ∧
    map_inv s' ∧ map_page s' demo_rel MAIN_FORKNUM 3 = Some (<[0%nat := 9]> ff_page).
Proof.
  destruct demo_published_ok as (Hi & Hn & Hv).
  pose proof (set_mapping_correct demo_env demo_published demo_rel MAIN_FORKNUM 0 3 0 1 9 97 _ Hi
    (or_introl eq_refl) (u32_of_bool 0 eq_refl) (u32_of_bool 9 eq_refl) eq_refl
    demo_location Hn Hv) as Hrun.
  rewrite list_insert_insert_eq in Hrun. specialize (Hrun demo_nonzero9).
  destruct (MapSetMapping _ _ _ _ _ _ _) as [[[]|e] s'] eqn:Hl.
  - destruct Hrun as (Hi' & _ & _ & Hv'). exists s'. split_and!; [exact eq_refl|exact Hi'|].
    rewrite Hv', decide_True by exact eq_refl. exact eq_refl.
  - exfalso. apply (f_equal fst) in Hl. vm_compute in Hl. discriminate.
Defined.
