(* ===== verification/MapCheckpointSpec.v ===== *)
(** * Checkpoint of the map: what a restart finds

    The flush loops of [MapCheckpoint.v] terminate, leave no dirty page and no
    dirty superblock behind, and change neither the map nor the size of any
    relation; after a checkpoint the files alone give the map back. *)

From stdpp Require Import sorting.
From S2P Require Import Prelude MapLayout Superblock SuperTable FileLayer SBlock SBlockInv.
From S2P Require Import SBlockSafety SBlockSpec.
From S2P Require Import BufState MapBuf MapClock PoolInv MapPage MapPageSpec MapEntries.
From S2P Require Import MapCheckpoint.

Local Open Scope Z_scope.

(** ** Marking *)

Definition needed (b : MapBufferDesc) : bool := has_flag (state b) MAPBUF_CHECKPOINT_NEEDED.

Definition marked (b b' : MapBufferDesc) : Prop :=
  rnode b' = rnode b ∧ bdirty b' = bdirty b ∧ (needed b = true → needed b' = true).

Definition selected (filter : option RelFileLocator) (b : MapBufferDesc) : Prop :=
  match filter with Some r => rnode b = r | None => True end.

(** Every dirty page a flush has to write is in the list of slots and marked. *)
Definition listed (filter : option RelFileLocator) (slots : list nat) (sys : BufSys) : Prop :=
  ∀ i b, buffers (pool sys) !! i = Some b → bdirty b = true → selected filter b →
    i ∈ slots ∧ needed b = true.

#[global] Instance marked_refl : Reflexive marked.
Proof. by intros b. Qed.
#[global] Instance marked_trans : Transitive marked.
Proof. intros b1 b2 b3 (? & ? & ?) (? & ? & ?). unfold marked. split_and!; [congruence..|auto]. Qed.

Lemma update_needed s :
  has_flag (MapBufferUpdateStateBits s MAPBUF_CHECKPOINT_NEEDED 0) MAPBUF_CHECKPOINT_NEEDED = true.
Proof.
  change MAPBUF_CHECKPOINT_NEEDED with (2 ^ 19). rewrite has_flag_bit by lia.
  unfold MapBufferUpdateStateBits.
  rewrite Z.ldiff_spec, Z.lor_spec, Z.pow2_bits_true, Z.bits_0, orb_true_r by lia. done.
Qed.

Section pages.
Context {T F : Type} `{SuperStoreLaws T} `{FileLayerLaws F} (env : Env).
Local Abbreviation S := (MapState T F).
Local Abbreviation W := (World T F).
Implicit Types s : S.

(** Changing flags other than the dirty flag of a buffer. *)
Lemma reflag_map s i b pg b' :
  map_inv s → buffers (pool (ms_sys s)) !! i = Some b → pages (pool (ms_sys s)) !! i = Some pg →
  reflagged b b' (bdirty b) →
  let s' := at_sys s (upd (ms_sys s) i b' pg (cache (pool (ms_sys s))) 0) in
  map_inv s' ∧ same_map s s'.
Proof.
  intros [Hp Hc Hfork Hex Hag] Hb Hpg Hre.
  pose proof Hre as (Er & Ef & Ep & _ & _ & Efree & _ & _ & _ & _ & Hd').
  assert (pages (pool (upd (ms_sys s) i b' pg (cache (pool (ms_sys s))) 0)) =
    pages (pool (ms_sys s))) as Hpages by (cbn; by apply list_insert_id).
  split; [split|split]; cbn [ms_sys ms_world at_sys].
  - apply upd_pool_ok with b; [done..| |]; [by apply (po_page _ Hp i)|].
    rewrite Z.add_0_r. pose proof (po_buf _ Hp i b Hb) as Hok.
    eapply reflagged_ok; [done|done|]. apply Hok.
  - by apply upd_cache_ok with b.
  - intros j c g [[-> ->]|[_ Hj]]%upd_lookup Hg; [|by eapply Hfork].
    rewrite Ep. apply (Hfork i); [done|congruence].
  - done.
  - intros j c g q n Hj Hg Hq Hn. rewrite Hpages in Hq.
    apply upd_lookup in Hj as [[-> ->]|[Hne Hj]]; [|by eapply Hag].
    rewrite Er in Hn. rewrite Ef in Hg. specialize (Hag i b g q n Hb Hg Hq Hn).
    unfold agrees in *. by rewrite Hd', Er, Ep.
  - done.
  - intros r g blk. unfold map_page. cbn [ms_sys ms_world at_sys]. by rewrite Hpages.
Qed.

Lemma dirty_forked s i b :
  map_inv s → buffers (pool (ms_sys s)) !! i = Some b → bdirty b = true →
  ∃ f, forknum b = Some f ∧ 0 < page_number b ≤ MaxBlockNumber.
Proof.
  intros Hinv Hb Hd. destruct (forknum b) as [f|] eqn:Hf.
  - exists f. split; [done|]. by eapply (mi_cache _ Hinv).
  - pose proof (bo_tag _ _ (po_buf _ (mi_pool _ Hinv) i b Hb) Hf). congruence.
Qed.

Lemma marked_upd (sys : BufSys) i b b' pg c :
  buffers (pool sys) !! i = Some b → marked b b' →
  Forall2 marked (buffers (pool sys)) (buffers (pool (upd sys i b' pg c 0))).
Proof.
  intros Hb Hm. cbn. rewrite <-(list_insert_id (buffers (pool sys)) i b) at 1 by done.
  apply Forall2_insert; [|done]. by apply Forall_Forall2_diag, Forall_true.
Qed.

(** What a collecting scan leaves: only marks. *)
Definition scanned s (sys : BufSys) : Prop :=
  map_inv (at_sys s sys) ∧ same_map s (at_sys s sys) ∧
  Forall2 marked (buffers (pool (ms_sys s))) (buffers (pool sys)).

Lemma scanned_refl s : map_inv s → scanned s (ms_sys s).
Proof.
  intros Hinv. split_and!; [by destruct s|by destruct s|]. by apply Forall_Forall2_diag, Forall_true.
Qed.

Definition targets_ok (ts : list MapFlushBufferTarget) (sys : BufSys) : Prop :=
  Forall (λ t, tg_slot t < length (buffers (pool sys)))%nat ts.

Lemma wp_collect_slot filter s i (E : pg_error → BufSys → Prop) :
  map_inv s → (i < length (buffers (pool (ms_sys s))))%nat →
  wp (collect_slot filter true i) (λ ts sys, scanned s sys ∧ targets_ok ts sys ∧
    ∀ b, buffers (pool sys) !! i = Some b → bdirty b = true → selected filter b →
      i ∈ tg_slot <$> ts ∧ needed b = true) E (ms_sys s).
Proof.
  intros Hinv [b Hb]%lookup_lt_is_Some. pose proof (mi_pool _ Hinv) as Hp.
  pose proof (scanned_refl s Hinv) as Hid.
  apply wp_bind, (wp_get_buf _ i b); [done|].
  destruct (has_flag (state b) MAPBUF_DIRTY) eqn:Hd; cbn [negb].
  2: { apply wp_ret. split_and!; [done|constructor|]. intros b' Hb' Hd' _.
       rewrite Hb in Hb'. injection Hb' as <-. unfold bdirty in Hd'. congruence. }
  destruct (dirty_forked s i b Hinv Hb Hd) as (f & Hf & Hpos).
  rewrite !bool_decide_eq_false_2 by (unfold MAP_BLOCK_SUPER; lia). cbn [orb].
  destruct (match filter with Some _ => _ | None => _ end) eqn:Hsel.
  { apply wp_ret. split_and!; [done|constructor|]. intros b' Hb' _ Hs.
    rewrite Hb in Hb'. injection Hb' as <-. destruct filter; [|done]. cbn in Hs.
    by apply bool_decide_eq_true_1 in Hsel. }
  assert (∃ pg, pages (pool (ms_sys s)) !! i = Some pg) as [pg Hpg].
  { apply lookup_lt_is_Some. rewrite (po_pages _ Hp). by eapply lookup_lt_Some. }
  destruct (po_buf _ Hp i b Hb) as [Hs _ _ Hio _].
  apply wp_bind, (wp_update_bits _ i b pg); [done..|]. apply wp_ret.
  pose proof (update_bits_flagged b 32 0 Hs Hio) as Hre. cbn [Z.testbit orb andb negb] in Hre.
  rewrite orb_false_r, andb_true_r in Hre.
  specialize (Hre ltac:(lia) ltac:(lia) eq_refl).
  destruct (reflag_map s i b pg _ Hinv Hb Hpg Hre) as [Hi Hm].
  assert (needed (with_state (MapBufferUpdateStateBits (state b) MAPBUF_CHECKPOINT_NEEDED 0) b)
    = true) as Hn by apply update_needed.
  split_and!; [split_and!; [exact Hi|exact Hm|]|..].
  - apply marked_upd with b; [done|]. split_and!; [apply Hre..|done].
  - constructor; [|constructor]. cbn. rewrite length_insert. by eapply lookup_lt_Some.
  - intros b' [[_ ->]|[Hne _]]%upd_lookup _ _; [|done]. split; [by apply list_elem_of_singleton|done].
Qed.

Lemma wp_collect_slots filter l s (E : pg_error → BufSys → Prop) :
  map_inv s → Forall (λ i, i < length (buffers (pool (ms_sys s))))%nat l →
  wp (collect_slots filter true l) (λ ts sys, scanned s sys ∧ targets_ok ts sys ∧
    ∀ i b, i ∈ l → buffers (pool sys) !! i = Some b → bdirty b = true → selected filter b →
      i ∈ tg_slot <$> ts ∧ needed b = true) E (ms_sys s).
Proof.
  revert s. induction l as [|i l IH]; intros s Hinv Hl.
  { apply wp_ret. split_and!; [by apply scanned_refl|constructor|]. by intros i b ?%not_elem_of_nil. }
  apply list.Forall_cons in Hl as [Hi Hl].
  apply wp_bind. eapply wp_mono; [by apply (wp_collect_slot filter s i)| |done].
  intros ts sys (Hsc & Hok & Hin). cbn.
  pose proof Hsc as (Hinv' & Hsame & Hm). pose proof (Forall2_length Hm) as Hlen.
  apply wp_bind. eapply wp_mono; [apply (IH (at_sys s sys) Hinv')| |done].
  { cbn. by rewrite <-Hlen. }
  intros ts' sys' ((Hinv2 & Hsame2 & Hm2) & Hok2 & Hin2). apply wp_ret. cbn in *.
  pose proof (Forall2_length Hm2) as Hlen2. split_and!.
  - split_and!; [done|by eapply same_map_trans|by etrans].
  - apply Forall_app. split; [|done]. unfold targets_ok in *. by rewrite <-Hlen2.
  - intros j b Hj Hb Hd Hs. rewrite fmap_app, elem_of_app.
    destruct (decide (j ∈ l)) as [Hjl|Hjl].
    { destruct (Hin2 j b Hjl Hb Hd Hs). auto. }
    apply elem_of_cons in Hj as [->|]; [|done].
    destruct (Forall2_lookup_r _ _ _ _ _ Hm2 Hb) as (b0 & Hb0 & Er & Ed & En).
    destruct (Hin b0 Hb0) as [? ?]; [congruence| |split; [by left|auto]].
    destruct filter; [|done]. cbn in *. congruence.
Qed.

Lemma wp_collect filter s (E : pg_error → BufSys → Prop) :
  map_inv s →
  wp (MapCollectDirtyBufferTargets filter true) (λ ts sys, scanned s sys ∧ targets_ok ts sys ∧
    listed filter (tg_slot <$> ts) sys) E (ms_sys s).
Proof.
  intros Hinv. apply wp_bind, wp_gets, wp_bind.
  eapply wp_mono; [apply (wp_collect_slots filter _ s E Hinv)| |done].
  { apply Forall_seq. lia. }
  intros ts sys (Hsc & Hok & Hin). apply wp_ret. split; [done|].
  assert (listed filter (tg_slot <$> ts) sys) as Hlist.
  { intros i b Hb. apply Hin; [|done]. apply elem_of_seq. pose proof Hsc as (_ & _ & Hm).
    rewrite (Forall2_length Hm). apply lookup_lt_Some in Hb. lia. }
  case_decide; [|done]. pose proof (merge_sort_Permutation target_le ts) as Hperm. split.
  - unfold targets_ok, sort_map_flush_buffer_targets. by rewrite Hperm.
  - intros i b Hb Hd Hs. destruct (Hlist i b Hb Hd Hs) as [Hi ?]. split; [|done].
    unfold sort_map_flush_buffer_targets. by rewrite Hperm.
Qed.

(** ** Writing the pages *)

Lemma io_step_inv (w w' : W) : io_step w w' → world_inv env w → world_inv env w'.
Proof.
  intros (E & L & _ & _ & D & _) (Hwf & Hes & H0' & Hd). unfold world_inv. rewrite E.
  split_and!; [done|done|lia|]. intros r s Hs. rewrite D in Hs.
  destruct (Hd r s Hs) as [? Hl]. split; [done|]. intros Hr. specialize (Hl Hr). lia.
Qed.

Definition write_error (e : pg_error) : Prop :=
  ∃ (fs : F) r blk data, fl_write fs r UMBRA_METADATA_FORKNUM blk data = Err e.

Lemma listed_tail filter i slots (sys : BufSys) :
  listed filter (i :: slots) sys →
  (∀ b, buffers (pool sys) !! i = Some b → bdirty b = false ∨ needed b = false) →
  listed filter slots sys.
Proof.
  intros Hl Hi j b Hb Hd Hs. destruct (Hl j b Hb Hd Hs) as [[->|Hj]%elem_of_cons Hn]; [|done].
  destruct (Hi b Hb); congruence.
Qed.

Lemma listed_clean filter slots (sys : BufSys) i b b' pg c :
  listed filter slots sys → buffers (pool sys) !! i = Some b → bdirty b' = false →
  listed filter slots (upd sys i b' pg c 0).
Proof.
  intros Hl Hb Hd' j x [[-> ->]|[_ Hx]]%upd_lookup Hd Hs; [congruence|]. by apply Hl.
Qed.

(** The pages a checkpoint of the selected relations has to write are written. *)
Definition pages_flushed filter s s' : Prop :=
  map_inv s' ∧ same_map s s' ∧ listed filter [] (ms_sys s').

Lemma wp_flush_targets filter ts s c :
  map_inv s → targets_ok ts (ms_sys s) → listed filter (tg_slot <$> ts) (ms_sys s) →
  wp (flush_targets env (-1) true c ts) (λ _ s', pages_flushed filter s s')
    (λ e _, write_error e) s.
Proof.
  revert s c. induction ts as [|t ts IH]; intros s c Hinv Hok Hl.
  { apply wp_ret. by split_and!. }
  apply list.Forall_cons in Hok as [[b Hb]%lookup_lt_is_Some Hok].
  cbn [flush_targets]. rewrite (bool_decide_eq_false_2 (0 ≤ -1)) by lia. cbn [andb].
  apply wp_bind, wp_on_sys, (wp_get_buf _ _ b); [done|]. cbv zeta. cbn [andb].
  assert (at_sys s (ms_sys s) = s) as -> by (by destruct s).
  fold (bdirty b) (needed b). destruct (bdirty b) eqn:Hd; cbn [negb orb].
  2: { apply IH; [done..|]. eapply listed_tail; [exact Hl|]. naive_solver. }
  destruct (needed b) eqn:Hn; cbn [negb orb].
  2: { apply IH; [done..|]. eapply listed_tail; [exact Hl|]. naive_solver. }
  destruct (dirty_forked s _ b Hinv Hb Hd) as (f & Hf & Hpos).
  assert (∃ pg, pages (pool (ms_sys s)) !! tg_slot t = Some pg) as [pg Hpg].
  { apply lookup_lt_is_Some. rewrite (po_pages _ (mi_pool _ Hinv)). by eapply lookup_lt_Some. }
  apply wp_bind, (wp_flush_cached env s _ b f pg); [done..| |].
  { intros e s' He. by do 4 eexists. }
  intros w b' Hre Hpw s' Hinv' Hsame.
  assert (buffers (pool (ms_sys s')) !! tg_slot t = Some b') as Hb' by (by eapply upd_buf_at).
  apply wp_bind, wp_on_sys, (wp_get_buf _ _ b'); [done|].
  assert (bdirty b' = false) as Hd' by apply Hre.
  eapply wp_mono; [apply IH| |done].
  - done.
  - unfold targets_ok. cbn. by rewrite length_insert.
  - eapply listed_tail; [|intros b2 Hb2; left; by pose proof (eq_trans (eq_sym Hb2) Hb') as [= ->]].
    by apply (listed_clean filter _ (ms_sys s) _ b).
  - intros _ s2 (Hinv2 & Hsame2 & Hl2). split_and!; [done| |done]. by eapply same_map_trans.
Qed.

Lemma wp_flush_pages filter s :
  map_inv s →
  wp (ts ← on_sys (MapCollectDirtyBufferTargets filter true); flush_targets env (-1) true 0 ts)
    (λ _ s', pages_flushed filter s s') (λ e _, write_error e) s.
Proof.
  intros Hinv. apply wp_bind, wp_on_sys.
  eapply wp_mono; [by apply (wp_collect filter s (λ _ _, False))| |done].
  intros ts sys ((Hinv' & Hsame & _) & Hok & Hl).
  eapply wp_mono; [by apply (wp_flush_targets filter)| |done].
  intros _ s' (Hi & Hs & Hl'). split_and!; [done| |done]. by eapply same_map_trans.
Qed.
End pages.

(** ** Writing the superblocks *)

Section supers.
Context {T F : Type} `{SuperStoreLaws T} `{FileLayerLaws F} (env : Env).
Local Abbreviation W := (World T F).
Implicit Types w : W.

Definition sdirty (e : MapSuperEntry) : bool := has_flag (eflags e) MAPSUPER_FLAG_DIRTY.

(** The entry after its superblock was written. *)
Definition cleaned (e : MapSuperEntry) : MapSuperEntry :=
  with_eflags (Z.ldiff (eflags e) MAPSUPER_FLAG_DIRTY) (with_super (flushed_super e) e).

Lemma cleaned_clean e : sdirty (cleaned e) = false.
Proof. apply has_flag_ldiff. Qed.

(** A relation is untouched, or its dirty superblock was written. *)
Definition flushed_or_kept w w' (r : RelFileLocator) : Prop :=
  (ss_map (w_store w') !! r = ss_map (w_store w) !! r ∧
   disk_super (w_files w') r = disk_super (w_files w) r) ∨
  ∃ e, has r e w ∧ sdirty e = true ∧ has r (cleaned e) w' ∧
    disk_super (w_files w') r = Some (flushed_super e).

Definition super_flush w w' : Prop :=
  (∀ r, flushed_or_kept w w' r) ∧
  (∀ r blk, 0 < blk → block_kept (fl_content (w_files w) r UMBRA_METADATA_FORKNUM blk)
     (fl_content (w_files w') r UMBRA_METADATA_FORKNUM blk)) ∧
  ∀ r, fl_exists (w_files w') r UMBRA_METADATA_FORKNUM =
    fl_exists (w_files w) r UMBRA_METADATA_FORKNUM.

#[local] Instance super_flush_refl : Reflexive super_flush.
Proof. intros w. split_and!; [by left|by left|done]. Qed.

#[local] Instance super_flush_trans : Transitive super_flush.
Proof.
  intros w1 w2 w3 (F1 & K1 & E1) (F2 & K2 & E2). split_and!.
  - intros r. destruct (F1 r) as [[M1 D1]|(e & He & Hd & He' & D1)].
    + destruct (F2 r) as [[M2 D2]|(e & He & Hd & He' & D2)]; [left; by rewrite M2, D2|].
      right. exists e. unfold has in *. by rewrite <-M1.
    + right. exists e. destruct (F2 r) as [[M2 D2]|(e2 & He2 & Hd2 & _)].
      * unfold has in *. by rewrite M2, D2.
      * unfold has in *. rewrite He' in He2. injection He2 as <-. by rewrite cleaned_clean in Hd2.
  - intros r blk Hb. eapply block_kept_trans; eauto.
  - intros r. by rewrite E2, E1.
Qed.

Definition bad_identity w : Prop :=
  ∃ r e, has r e w ∧ sdirty e = true ∧ MapSuperblockHasValidIdentity (super e) = false.

Lemma bad_identity_back w w' : super_flush w w' → bad_identity w' → bad_identity w.
Proof.
  intros [F1 _] (r & e & He & Hd & Hb). destruct (F1 r) as [[M _]|(e0 & _ & _ & He' & _)].
  - exists r, e. unfold has in *. by rewrite <-M.
  - unfold has in *. rewrite He' in He. injection He as <-. by rewrite cleaned_clean in Hd.
Qed.

Lemma wp_flush_super r w :
  world_inv env w →
  wp (MapFlushRelationSuperblocks env r)
    (λ _ w', world_inv env w' ∧ super_flush w w' ∧ ∀ e, has r e w' → sdirty e = false)
    (λ err _, write_error (F:=F) err ∨ bad_identity w) w.
Proof.
  intros Hi. pose proof (triple_flush_relation env (λ _, True) r w Hi I) as Ht.
  pose proof Hi as (Hwf & Hes & _).
  destruct (ss_map (w_store w) !! r) as [e|] eqn:He.
  2: { unfold wp, MapFlushRelationSuperblocks, find_entry, gets, mbind, M_bind.
       rewrite ss_find_spec, He by done. split_and!; [done..|]. unfold has. congruence. }
  destruct (sdirty e) eqn:Hd.
  2: { unfold wp, MapFlushRelationSuperblocks, find_entry, gets, mbind, M_bind. unfold sdirty in Hd.
       rewrite ss_find_spec, He, Hd by done. split_and!; [done..|]. unfold has. intros e' He'.
       rewrite He in He'. by injection He' as <-. }
  destruct (MapSuperblockHasValidIdentity (super e)) eqn:Hid.
  2: { unfold wp, MapFlushRelationSuperblocks, find_entry, gets, mbind, M_bind. unfold sdirty in Hd.
       rewrite ss_find_spec, He, Hd, Hid by done. right. by exists r, e. }
  destruct (Hes r e He) as (_ & _ & Hswf & [Hu64 _] & _).
  pose proof (flush_run env r w e Hi He Hd Hid) as Hf. unfold wp in *.
  destruct (fl_write _ _ _ _ _) as [fs|err] eqn:Hw.
  2: { destruct Hf as (w' & -> & _). left. by do 4 eexists. }
  destruct Hf as (w' & Hrun & <- & Hh & Ho & _). rewrite Hrun in *. split_and!; [apply Ht| |].
  - split_and!.
    + intros r'. destruct (decide (r' = r)) as [->|Hne].
      * right. exists e. split_and!; [done..|]. by eapply flushed_super_disk.
      * left. split; [by apply Ho|]. unfold disk_super.
        erewrite fl_write_frame_fork; [done|done|congruence].
    + intros r' blk Hb. eapply fl_write_frame; [done|]. unfold MAP_BLOCK_SUPER. intros [= _ E]. lia.
    + intros r'. by eapply fl_write_exists.
  - intros e' He'. unfold has in *. rewrite Hh in He'. injection He' as <-. apply has_flag_ldiff.
Qed.

Lemma super_flush_clean w w' r e' :
  super_flush w w' → has r e' w' → sdirty e' = true → ∃ e, has r e w ∧ sdirty e = true.
Proof.
  intros [F1 _] He' Hd. destruct (F1 r) as [[M _]|(e & He & Hd' & _)]; [|eauto].
  exists e'. unfold has in *. by rewrite <-M.
Qed.

(** Relations with a dirty superblock. *)
Definition dirty_set w : gset RelFileLocator :=
  dom (filter (λ re, sdirty re.2 = true) (ss_map (w_store w))).

Lemma elem_of_dirty w r : r ∈ dirty_set w ↔ ∃ e, has r e w ∧ sdirty e = true.
Proof.
  unfold dirty_set, has. rewrite elem_of_dom. split.
  - intros [e [He Hd]%map_lookup_filter_Some]. eauto.
  - intros (e & He & Hd). exists e. by apply map_lookup_filter_Some.
Qed.

(** What writing the superblocks of [rs] leaves. *)
Definition supers_done (rs : list RelFileLocator) w w' : Prop :=
  world_inv env w' ∧ super_flush w w' ∧ ∀ r, r ∈ rs → r ∉ dirty_set w'.

Lemma wp_flush_supers rs w c :
  world_inv env w →
  wp (flush_supers env c rs) (λ _ w', supers_done rs w w')
    (λ err _, write_error (F:=F) err ∨ bad_identity w) w.
Proof.
  revert w c. induction rs as [|r rs IH]; intros w c Hi.
  { apply wp_ret. split_and!; [done..|]. by intros r ?%not_elem_of_nil. }
  apply wp_bind. eapply wp_mono; [by apply wp_flush_super| |done].
  intros n w1 (Hi1 & Hf1 & Hc1). eapply wp_mono; [by apply IH| |].
  - intros _ w2 (Hi2 & Hf2 & Hc2). split_and!; [done|by etrans|].
    intros r' [->|Hr']%elem_of_cons; [|by apply Hc2]. intros (e & He & Hd)%elem_of_dirty.
    destruct (super_flush_clean _ _ _ _ Hf2 He Hd) as (e1 & He1 & Hd1).
    rewrite (Hc1 e1 He1) in Hd1. done.
  - intros err _ [|Hb]; [by left|]. right. by eapply bad_identity_back.
Qed.

Lemma scan_dirty_sound cap slots r :
  r ∈ (scan_dirty cap slots).1 →
  ∃ e, e ∈ slots ∧ in_use e = true ∧ sdirty e = true ∧ key e = r.
Proof.
  revert cap. induction slots as [|e slots IH]; intros cap; cbn; [by intros ?%not_elem_of_nil|].
  fold (sdirty e). destruct (in_use e && sdirty e) eqn:Hd.
  2: { intros (x & Hx & ?)%IH. exists x. split; [by right|done]. }
  apply andb_true_iff in Hd as [Hu Hd]. destruct cap as [|cap]; [by intros ?%not_elem_of_nil|].
  specialize (IH cap). destruct (scan_dirty cap slots) as [rs more]. cbn in *.
  intros [->|(x & Hx & ?)%IH]%elem_of_cons.
  - exists e. split; [by left|done].
  - exists x. split; [by right|done].
Qed.

Lemma scan_dirty_complete cap slots e :
  (scan_dirty cap slots).2 = false → e ∈ slots → in_use e = true → sdirty e = true →
  key e ∈ (scan_dirty cap slots).1.
Proof.
  revert cap. induction slots as [|x slots IH]; intros cap Hm He Hu Hd;
    [by apply not_elem_of_nil in He|]. cbn in *. fold (sdirty x) in *.
  apply elem_of_cons in He as [<-|He].
  - rewrite Hu, Hd in *. cbn in *. destruct cap as [|cap]; [done|].
    destruct (scan_dirty cap slots) as [rs more]. cbn. by left.
  - destruct (in_use x && sdirty x); [|by apply IH]. destruct cap as [|cap]; [done|].
    specialize (IH cap). destruct (scan_dirty cap slots) as [rs more]. cbn in *. right. by apply IH.
Qed.

Lemma scan_dirty_more cap slots :
  (0 < cap)%nat → (scan_dirty cap slots).2 = true → ∃ r, r ∈ (scan_dirty cap slots).1.
Proof.
  intros Hc. induction slots as [|e slots IH]; cbn; [done|].
  destruct (_ && _); [|done]. destruct cap as [|cap]; [lia|].
  destruct (scan_dirty cap slots) as [rs more]. intros _. exists (key e). by left.
Qed.

Lemma slots_dirty w r :
  ss_wf (w_store w) →
  r ∈ dirty_set w ↔ ∃ e, e ∈ ss_slots (w_store w) ∧ in_use e = true ∧ sdirty e = true ∧ key e = r.
Proof.
  intros Hwf. rewrite elem_of_dirty. unfold has. split.
  - intros (e & (? & ? & ?)%ss_slots_spec & ?); [|done]. eauto 10.
  - intros (e & ? & ? & ? & ?). exists e. rewrite ss_slots_spec; auto.
Qed.

Lemma wp_flush_supers_loop fuel cap w c :
  world_inv env w → (0 < cap)%nat → (size (dirty_set w) < fuel)%nat →
  wp (flush_supers_loop env fuel cap c) (λ _ w', world_inv env w' ∧ super_flush w w' ∧ dirty_set w' = ∅)
    (λ err _, write_error (F:=F) err ∨ bad_identity w) w.
Proof.
  revert cap w c. induction fuel as [|fuel IH]; intros cap w c Hi Hc Hs; [lia|].
  cbn [flush_supers_loop]. apply wp_bind, wp_gets.
  set (slots := ss_slots (w_store w)). pose proof (proj1 Hi) as Hwf.
  assert (∀ w', super_flush w w' → dirty_set w' ⊆ dirty_set w) as Hsub.
  { intros w' Hf r (e & He & Hd)%elem_of_dirty. apply elem_of_dirty. by eapply super_flush_clean. }
  pose proof (scan_dirty_complete cap slots) as Hcomp. pose proof (scan_dirty_sound cap slots) as Hsnd.
  pose proof (scan_dirty_more cap slots Hc) as Hmore.
  destruct (scan_dirty cap slots) as [rs more]. cbn [fst snd] in *.
  apply wp_bind. eapply wp_mono; [by apply wp_flush_supers| |done].
  intros c1 w1 (Hi1 & Hf1 & Hd1). destruct more.
  - destruct (Hmore eq_refl) as [r Hr].
    assert (dirty_set w1 ⊂ dirty_set w) as Hlt%subset_size.
    { split; [by apply Hsub|]. intros Hback. apply (Hd1 r Hr), Hback. apply slots_dirty; [done|].
      destruct (Hsnd r Hr) as (e & ?). by exists e. }
    eapply wp_mono; [apply IH; [done|lia|lia]|..].
    + intros _ w2 (Hi2 & Hf2 & Hd2). split_and!; [done|by etrans|done].
    + intros err _ [|Hb]; [by left|]. right. by eapply bad_identity_back.
  - apply wp_ret. split_and!; [done..|]. apply set_eq. intros r. split; [|set_solver].
    intros Hr. exfalso. apply (Hd1 r); [|done].
    destruct (proj1 (slots_dirty w r Hwf) (Hsub _ Hf1 r Hr)) as (e & He & Hu & Hd & <-).
    by apply Hcomp.
Qed.

Lemma size_list_to_set_le (l : list RelFileLocator) :
  (size (list_to_set l : gset RelFileLocator) ≤ length l)%nat.
Proof.
  induction l as [|r l IH]; cbn; [by rewrite size_empty|].
  destruct (decide (r ∈ (list_to_set l : gset RelFileLocator))).
  - rewrite subseteq_union_1_L by set_solver. lia.
  - rewrite size_union, size_singleton by set_solver. lia.
Qed.

Lemma wp_flush_dirty_supers w :
  world_inv env w →
  wp (MapFlushDirtySuperblocks env)
    (λ _ w', world_inv env w' ∧ super_flush w w' ∧ dirty_set w' = ∅)
    (λ err _, write_error (F:=F) err ∨ bad_identity w) w.
Proof.
  intros Hi. apply wp_bind, wp_gets, wp_flush_supers_loop; [done|lia|]. apply Nat.lt_succ_r.
  rewrite <-(length_map key). etrans; [|apply size_list_to_set_le]. apply subseteq_size.
  intros r (e & He & _ & _ & <-)%slots_dirty; [|apply Hi].
  apply elem_of_list_to_set, list_elem_of_fmap. by exists e.
Qed.
End supers.

(** ** The checkpoint *)

Section checkpoint.
Context {T F : Type} `{SuperStoreLaws T} `{FileLayerLaws F} (env : Env).
Local Abbreviation S := (MapState T F).
Implicit Types s : S.

Lemma flushed_super_size e f :
  fork_mapped f →
  MapSuperblockGetLogicalNblocks (flushed_super e) f = MapSuperblockGetLogicalNblocks (super e) f.
Proof. intros [->|[->| ->]]; unfold flushed_super; by destruct (super e). Qed.

Lemma trusted_size_flush (w w' : World T F) r f :
  world_inv env w → world_inv env w' → super_flush w w' →
  trusted_size (w_store w') r f = trusted_size (w_store w) r f.
Proof.
  intros [Hwf _] [Hwf' _] [Hf _]. unfold trusted_size. rewrite !ss_find_spec by done.
  destruct (Hf r) as [[-> _]|(e & He & _ & He' & _)]; [done|]. unfold has in *. rewrite He, He'.
  cbn [cleaned eflags super with_eflags with_super]. rewrite valid_ldiff_dirty.
  rewrite flushed_super_identity.
  assert (has_flag (Z.ldiff (eflags e) MAPSUPER_FLAG_DIRTY) MAPSUPER_FLAG_CORRUPT =
    has_flag (eflags e) MAPSUPER_FLAG_CORRUPT) as ->.
  { by rewrite !corrupt_bit, Z.ldiff_spec, andb_true_r. }
  destruct (MapForkHasMappedState f) eqn:Hm; [|by rewrite andb_false_r].
  rewrite flushed_super_size; [done|].
  destruct f; try done; unfold fork_mapped; auto.
Qed.

Lemma reload_super (w w' : World T F) n r f blk :
  super_flush w w' → 0 < blk → reload (w_files w') n r f blk = reload (w_files w) n r f blk.
Proof.
  intros (_ & Hk & _) Hb. unfold reload. erewrite stored_kept; [done|]. by apply Hk.
Qed.

Lemma super_flush_map s w' :
  map_inv s → world_inv env (ms_world s) → world_inv env w' → super_flush (ms_world s) w' →
  let s' := MkMapState w' (ms_sys s) (ms_local s) in
  map_inv s' ∧ ∀ r f blk, 0 < blk → map_page s' r f blk = map_page s r f blk.
Proof.
  intros [Hp Hc Hfork Hex Hag] Hi Hi' Hf. split; [split|]; cbn [ms_sys ms_world]; [done..| | |].
  - intros r f n. rewrite (trusted_size_flush (ms_world s)) by done. intros Hn.
    unfold files. cbn. destruct Hf as (_ & _ & ->). by eapply Hex.
  - intros i b f pg n Hb Hfk Hpg Hn. rewrite (trusted_size_flush (ms_world s)) in Hn by done.
    specialize (Hag i b f pg n Hb Hfk Hpg Hn). unfold agrees, files in *. cbn.
    destruct (bdirty b); [done|]. rewrite (reload_super (ms_world s)); [done|done|].
    by eapply Hc.
  - intros r f blk Hb. unfold map_page, files. cbn [ms_sys ms_world].
    rewrite (trusted_size_flush (ms_world s)) by done.
    destruct (cache _ !! _), (trusted_size _ _ _); try done. by apply reload_super.
Qed.

Lemma reload_clean s r f n blk :
  map_inv s → listed None [] (ms_sys s) → trusted_size (w_store (ms_world s)) r f = Some n →
  reload (files s) n r f blk = map_page s r f blk.
Proof.
  intros [Hp Hc _ _ Hag] Hl Hn. unfold map_page. rewrite Hn.
  destruct (cache _ !! _) as [slot|] eqn:Hk; [|done].
  destruct (co_find _ Hc _ _ Hk) as (i & b & -> & Hb & Ht). rewrite Nat2Z.id.
  destruct Ht as (Er & Ef & Ep). cbn in Er, Ef, Ep.
  assert (∃ pg, pages (pool (ms_sys s)) !! i = Some pg) as [pg Hpg].
  { apply lookup_lt_is_Some. rewrite (po_pages _ Hp). by eapply lookup_lt_Some. }
  rewrite Hpg. rewrite <-Er in Hn. specialize (Hag i b f pg n Hb Ef Hpg Hn).
  unfold agrees in Hag. rewrite Er, Ep in Hag.
  destruct (bdirty b) eqn:Hd; [|done].
  destruct (Hl i b Hb Hd I) as [[]%not_elem_of_nil _].
Qed.
End checkpoint.

Lemma wp_on_world {T F A} (m : M (World T F) A) Q (E : pg_error → MapState T F → Prop) s :
  wp m (λ a w, Q a (MkMapState w (ms_sys s) (ms_local s)))
    (λ e w, E e (MkMapState w (ms_sys s) (ms_local s))) (ms_world s) →
  wp (on_world m) Q E s.
Proof. unfold wp, on_world. destruct (m (ms_world s)) as [[a|e] w]; done. Qed.

(** The pages first, then the superblocks. *)
Lemma wp_checkpoint `{SuperStoreLaws T} `{FileLayerLaws F} env (s : MapState T F) :
  map_inv s → world_inv env (ms_world s) →
  wp (MapCheckpoint env) (λ _ s', ∃ s1, pages_flushed None s s1 ∧
      world_inv env (ms_world s') ∧ super_flush (ms_world s1) (ms_world s') ∧
      dirty_set (ms_world s') = ∅ ∧ s' = MkMapState (ms_world s') (ms_sys s1) (ms_local s1))
    (λ err _, write_error (F:=F) err ∨ bad_identity (ms_world s)) s.
Proof.
  intros Hinv Hi. apply wp_bind. eapply wp_mono; [by apply (wp_flush_pages env None)| |by left].
  intros n1 s1 Hp. pose proof Hp as (_ & [Hio _] & _). pose proof (proj1 Hio) as Hst.
  apply wp_bind, wp_on_world. eapply wp_mono; [apply wp_flush_dirty_supers; by eapply io_step_inv|..].
  - intros n w' (Hi' & Hf & Hd). apply wp_ret. by exists s1.
  - intros err _ [|(r & e & He & Hb)]; [by left|right]. exists r, e. unfold has in *.
    by rewrite <-Hst.
Qed.

(** C22: a checkpoint terminates.  When it succeeds, no map page and
    no superblock is dirty any more, no relation changed its size or its map,
    the metadata fork alone gives back every page of the map, and the
    superblock on disk of every relation that was dirty is the one that was in
    memory, with its checksum.  When it fails, a page or a superblock could not
    be written, or a dirty superblock had no valid identity. *)
Theorem checkpoint_durable `{SuperStoreLaws T} `{FileLayerLaws F} env (s : MapState T F) :
  map_inv s → world_inv env (ms_world s) →
  match MapCheckpoint env s with
  | (Ok _, s') =>
      map_inv s' ∧ world_inv env (ms_world s') ∧
      (∀ i b, buffers (pool (ms_sys s')) !! i = Some b → bdirty b = false) ∧
      (∀ r e, has r e (ms_world s') → sdirty e = false) ∧
      (∀ r e, has r e (ms_world s) → sdirty e = true →
         disk_super (files s') r = Some (flushed_super e)) ∧
      ∀ r f n, trusted_size (w_store (ms_world s)) r f = Some n →
        trusted_size (w_store (ms_world s')) r f = Some n ∧
        ∀ blk, 0 < blk → reload (files s') n r f blk = map_page s r f blk
  | (Err err, _) => write_error (F:=F) err ∨ bad_identity (ms_world s)
  end.
Proof.
  intros Hinv Hi. pose proof (wp_checkpoint env s Hinv Hi) as Hrun. unfold wp in Hrun.
  destruct (MapCheckpoint env s) as [[[]|err] s']; [|done].
  destruct Hrun as (s1 & (Hinv1 & [Hio1 Hm1] & Hl1) & Hi' & Hf & Hd & ->).
  assert (world_inv env (ms_world s1)) as Hi1 by (by eapply io_step_inv).
  pose proof (proj1 Hio1) as Hst1.
  destruct (super_flush_map env s1 _ Hinv1 Hi1 Hi' Hf) as [Hinv' Hm'].
  cbn [ms_world ms_sys]. split_and!; [done..| | | |].
  - intros i b Hb. destruct (bdirty b) eqn:Hbd; [|done].
    destruct (Hl1 i b Hb Hbd I) as [[]%not_elem_of_nil _].
  - intros r e He. destruct (sdirty e) eqn:Hed; [|done].
    assert (r ∈ dirty_set (ms_world s')) as Hr by (apply elem_of_dirty; eauto). set_solver.
  - intros r e He Hed. unfold has in He. rewrite <-Hst1 in He.
    destruct (proj1 Hf r) as [[M _]|(e1 & He1 & _ & _ & HD)].
    + assert (r ∈ dirty_set (ms_world s')) as Hr; [|set_solver].
      apply elem_of_dirty. exists e. unfold has. by rewrite M.
    + unfold has in He1. rewrite He in He1. by injection He1 as <-.
  - intros r f n Hn. rewrite <-Hst1 in Hn.
    rewrite <-(trusted_size_flush env _ _ r f Hi1 Hi' Hf) in Hn. split; [done|].
    intros blk Hb. rewrite <-Hm1, <-Hm' by done. by apply reload_clean.
Qed.

(** The state after one published extension: a dirty page and a dirty
    superblock. *)
Definition demo_bumped : World MapSuperTable RefFiles :=
  (run_schedule [(demo_env, OpUpdateLogical demo_rel MAIN_FORKNUM 1 96 true)] demo_start).2.

Lemma demo_bumped_inv : world_inv demo_env demo_bumped.
Proof.
  apply (schedule_inv false); [|exact eq_refl|apply demo_inv].
  constructor; [split_and!; by vm_compute|constructor].
Qed.

Lemma demo_disk_only (fs : RefFiles) r :
  dom (rf_forks fs) ⊆ {[(demo_rel, MAIN_FORKNUM); (demo_rel, UMBRA_METADATA_FORKNUM)]} →
  r ≠ demo_rel →
  disk_super fs r = None.
Proof.
  intros Hd Hr. unfold disk_super. change (fl_content fs) with (rf_content fs).
  unfold rf_content, rf_block.
  destruct (rf_forks fs !! (r, UMBRA_METADATA_FORKNUM)) as [m|] eqn:Hm; [|done].
  apply elem_of_dom_2 in Hm. set_solver.
Qed.

Lemma demo_published_kept :
  w_store (ms_world demo_published) = w_store demo_bumped ∧
  w_flushed (ms_world demo_published) = w_flushed demo_bumped ∧
  ∀ r, disk_super (w_files (ms_world demo_published)) r = disk_super (w_files demo_bumped) r.
Proof.
  split; [vm_compute; exact eq_refl|split; [vm_compute; exact eq_refl|]]. intros r.
  destruct (decide (r = demo_rel)) as [->|Hr]; [vm_compute; exact eq_refl|].
  rewrite demo_disk_only, demo_disk_only; [exact eq_refl|..|exact Hr]; [|exact Hr|];
    apply (bool_decide_unpack _); vm_compute; exact I.
Qed.

Lemma demo_published_world : world_inv demo_env (ms_world demo_published).
Proof.
  destruct demo_published_kept as (Hst & Hfl & Hd). destruct demo_bumped_inv as (Hwf & Hes & H0 & Hdk).
  unfold world_inv, disk_ok. rewrite Hst, Hfl. split_and!; [exact Hwf|exact Hes|exact H0|].
  intros r s. rewrite Hd. apply Hdk.
Qed.

Lemma checkpoint_durable_witness :
  let s' := (MapCheckpoint demo_env demo_published).2 in
  (MapCheckpoint demo_env demo_published).1 = Ok tt ∧
  reload (files s') 1 demo_rel MAIN_FORKNUM 3 = Some (<[0%nat := 7]> ff_page).
Proof.
  assert ((MapCheckpoint demo_env demo_published).1 = Ok tt) as Hok by (vm_compute; exact eq_refl).
  destruct demo_published_ok as (Hi & Hn & Hv).
  pose proof (checkpoint_durable demo_env demo_published Hi demo_published_world) as Hrun.
  destruct (MapCheckpoint demo_env demo_published) as [res s']. cbn [fst snd] in *. subst res.
  split; [exact eq_refl|]. destruct Hrun as (_ & _ & _ & _ & _ & Hr).
  destruct (Hr _ _ _ Hn) as [_ Hrel]. rewrite Hrel; [exact Hv|exact eq_refl].
Defined.
