(* ===== verification/MapRange.v ===== *)
(** * Ranges of the map

    The operations of [storage/map/map.c] that work on many entries of one
    fork at a time, page by page: the translation of a run of logical blocks
    into one run of physical blocks, truncation, and the number of physical
    blocks a prefix of a fork needs. *)

From S2P Require Import Prelude MapLayout Superblock SuperTable FileLayer SBlock.
From S2P Require Import BufState MapBuf MapPage.

Local Open Scope Z_scope.

(** The output parameter and the counters of [MapTryLookupPblkRun];
    [start_pblkno] is not written while [run_blocks] is zero. *)
Record PblkRun := MkPblkRun {
  start_pblkno : Z;
  expected_next_pblk : Z;
  run_blocks : Z;
}.

Definition empty_run : PblkRun := MkPblkRun InvalidBlockNumber InvalidBlockNumber 0.

(** The entries of one page; the flag is the jump to [done]. *)
Fixpoint run_entries (es : list Z) (run : PblkRun) : PblkRun * bool :=
  match es with
  | [] => (run, false)
  | pblkno :: es =>
      if decide (pblkno = InvalidBlockNumber) then (run, true)
      else if decide (run_blocks run = 0) then run_entries es (MkPblkRun pblkno (u32 (pblkno + 1)) 1)
      else if decide (pblkno ≠ expected_next_pblk run) then (run, true)
      else if decide (RELSEG_SIZE ≤ u32 (start_pblkno run mod RELSEG_SIZE + run_blocks run))
      then (run, true)
      else run_entries es (MkPblkRun (start_pblkno run) (u32 (expected_next_pblk run + 1))
                             (u32 (run_blocks run + 1)))
  end.

(** The entries [begin_idx] to [last_idx] of a page become unmapped. *)
Definition clear_entries (begin_idx last_idx : Z) (pg : list Z) : list Z :=
  if decide (begin_idx = 0 ∧ last_idx = MAP_ENTRIES_PER_PAGE - 1) then ff_page
  else
    let clear := Z.to_nat (last_idx - begin_idx + 1) in
    take (Z.to_nat begin_idx) pg ++ replicate clear InvalidBlockNumber ++
    drop (Z.to_nat begin_idx + clear) pg.

(** The maximum over the mapped entries, [InvalidBlockNumber] for none. *)
Definition max_entry (max_pblkno pblkno : Z) : Z :=
  if decide (pblkno = InvalidBlockNumber) then max_pblkno
  else if decide (max_pblkno = InvalidBlockNumber ∨ pblkno > max_pblkno) then pblkno
  else max_pblkno.

Section ops.
Context {T F : Type} `{SuperStore T} `{FileLayer F} (env : Env).
Local Abbreviation S := (MapState T F).

(** ** Runs *)

(** The pinned page, if it is the one asked for, or the page read anew. *)
Definition switch_page (r : RelFileLocator) (f : ForkNumber) (map_blkno : Z)
    (current : option (nat * Z)) : M S nat :=
  match current with
  | None => MapReadBuffer env r f map_blkno
  | Some (slot, current_map_blkno) =>
      if decide (current_map_blkno = map_blkno) then mret slot
      else on_sys (MapUnpinBuffer slot);; MapReadBuffer env r f map_blkno
  end.

Definition release_page (current : option (nat * Z)) : M S unit :=
  match current with
  | None => mret tt
  | Some (slot, _) => on_sys (MapUnpinBuffer slot)
  end.

(** Each turn takes at least one of the [remaining] blocks. *)
Fixpoint lookup_run (fuel : nat) (r : RelFileLocator) (f : ForkNumber)
    (current_lblk remaining : Z) (current : option (nat * Z)) (run : PblkRun) : M S PblkRun :=
  match fuel with
  | O => throw retrying
  | Datatypes.S fuel =>
      if decide (remaining > 0) then
        loc ← lift (entry_location f current_lblk);
        slot ← switch_page r f loc.1 current;
        pg ← on_sys (get_page slot);
        let entries_this_page := Z.min (MAP_ENTRIES_PER_PAGE - loc.2) remaining in
        let '(run, stop) :=
          run_entries (take (Z.to_nat entries_this_page) (drop (Z.to_nat loc.2) pg)) run in
        if (stop : bool) then release_page (Some (slot, loc.1));; mret run
        else lookup_run fuel r f (u32 (current_lblk + entries_this_page))
               (remaining - entries_this_page) (Some (slot, loc.1)) run
      else release_page current;; mret run
  end.

Definition MapTryLookupPblkRun (r : RelFileLocator) (f : ForkNumber) (lblkno maxblocks : Z)
    : M S PblkRun :=
  if decide (f = UMBRA_METADATA_FORKNUM)
  then elog ERROR "MapTryLookupPblkRun does not accept Umbra metadata fork"
  else
    files ← get_files;
    if negb (fl_exists files r UMBRA_METADATA_FORKNUM) then mret empty_run
    else lookup_run (Datatypes.S (Z.to_nat maxblocks)) r f lblkno maxblocks None empty_run.

(** ** Truncation *)

(** One page of [MapTruncate]; [false] leaves the loop. *)
Definition truncate_page (r : RelFileLocator) (f : ForkNumber) (range : TruncRange)
    (page_idx map_lsn : Z) : M S bool :=
  map_blkno ← lift (MapForkPageIndexToMapBlkno f page_idx);
  files ← get_files;
  if decide (fl_nblocks files r UMBRA_METADATA_FORKNUM ≤ map_blkno) then mret false
  else
    let begin_idx := if decide (page_idx = start_map_page range)
                     then start_entry_idx range else 0 in
    let last_idx := if decide (page_idx = end_map_page range)
                    then end_entry_idx range else MAP_ENTRIES_PER_PAGE - 1 in
    (slot ← MapReadBuffer env r f map_blkno;
     pg ← on_sys (get_page slot);
     on_sys (set_page slot (clear_entries begin_idx last_idx pg));;
     MapMarkBufferDirty r slot map_lsn;;
     on_sys (MapUnpinBuffer slot));;
    mret true.

Fixpoint truncate_pages (npages : nat) (r : RelFileLocator) (f : ForkNumber) (range : TruncRange)
    (page_idx map_lsn : Z) : M S unit :=
  match npages with
  | O => mret tt
  | Datatypes.S npages =>
      more ← truncate_page r f range page_idx map_lsn;
      if (more : bool) then truncate_pages npages r f range (u32 (page_idx + 1)) map_lsn
      else mret tt
  end.

Definition MapTruncate (r : RelFileLocator) (f : ForkNumber) (n_lblknos map_lsn : Z) : M S unit :=
  if decide (f = UMBRA_METADATA_FORKNUM) then mret tt
  else if decide (map_lsn = InvalidXLogRecPtr)
  then ereport ERROR ERRCODE_DATA_CORRUPTED "invalid truncate WAL LSN"
  else
    files ← get_files;
    if negb (fl_exists files r UMBRA_METADATA_FORKNUM)
    then ereport ERROR ERRCODE_DATA_CORRUPTED "required MAP fork is missing during truncate"
    else
      old ← on_world (MapSBlockTryGetLogicalNblocks env r f);
      match old with
      | None => mret tt
      | Some old_n_lblknos =>
          match MapTruncateEntryRange f n_lblknos old_n_lblknos with
          | None => mret tt
          | Some range =>
              truncate_pages (Z.to_nat (end_map_page range - start_map_page range + 1))
                r f range (start_map_page range) map_lsn
          end
      end.

(** ** Physical size *)

Fixpoint count_pages (npages : nat) (r : RelFileLocator) (f : ForkNumber)
    (n_lblknos n_map_pages page_count page_idx max_pblkno : Z) (current : option (nat * Z))
    : M S Z :=
  match npages with
  | O => release_page current;; mret max_pblkno
  | Datatypes.S npages =>
      page_no ← lift (MapForkPageIndexToMapBlkno f page_idx);
      if decide (n_map_pages ≤ page_no) then release_page current;; mret max_pblkno
      else
        slot ← switch_page r f page_no current;
        pg ← on_sys (get_page slot);
        let limit_idx :=
          if decide (page_idx = page_count - 1 ∧ n_lblknos mod MAP_ENTRIES_PER_PAGE ≠ 0)
          then n_lblknos mod MAP_ENTRIES_PER_PAGE else MAP_ENTRIES_PER_PAGE in
        count_pages npages r f n_lblknos n_map_pages page_count (u32 (page_idx + 1))
          (foldl max_entry max_pblkno (take (Z.to_nat limit_idx) pg)) (Some (slot, page_no))
  end.

Definition MapGetPhysicalBlockCount (r : RelFileLocator) (f : ForkNumber) (n_lblknos : Z)
    : M S Z :=
  if decide (n_lblknos = 0) then mret 0
  else
    files ← get_files;
    if negb (fl_exists files r UMBRA_METADATA_FORKNUM) then mret n_lblknos
    else
      let n_map_pages := fl_nblocks files r UMBRA_METADATA_FORKNUM in
      if decide (n_map_pages = 0) then mret 0
      else
        let page_count :=
          u32 (n_lblknos + MAP_ENTRIES_PER_PAGE - 1) / MAP_ENTRIES_PER_PAGE in
        max_pblkno ← count_pages (Z.to_nat page_count) r f n_lblknos n_map_pages page_count 0
                       InvalidBlockNumber None;
        if decide (max_pblkno = InvalidBlockNumber) then mret 0
        else if decide (max_pblkno = InvalidBlockNumber - 1)
        then ereport ERROR ERRCODE_PROGRAM_LIMIT_EXCEEDED "cannot represent physical block count"
        else mret (max_pblkno + 1).

Definition MapGetLogicalBlockCount (r : RelFileLocator) (f : ForkNumber) : M S Z :=
  n ← on_world (MapSBlockTryGetLogicalNblocks env r f);
  mret (default 0 n).
End ops.
