(* ===== verification/MapRangeSpec.v ===== *)
(** * Ranges of the map: what they compute

    A run lookup returns the longest run of consecutive physical blocks in one
    file segment; a truncation unmaps exactly the entries past the new size,
    and together with the new size it leaves the map of a shorter fork. *)

From S2P Require Import Prelude MapLayout Superblock SuperTable FileLayer SBlock SBlockInv.
From S2P Require Import SBlockSafety SBlockSpec.
From S2P Require Import BufState MapBuf MapClock PoolInv MapPage MapPageSpec MapEntries.
From S2P Require Import MapCheckpoint MapCheckpointSpec MapRange.

Local Open Scope Z_scope.

(** ** Runs of entries *)

Section runs.
Context (m : Z → Z) (l : Z).

(** The blocks of the run are consecutive and in one segment. *)
Definition run_inv (run : PblkRun) : Prop :=
  0 ≤ run_blocks run ∧
  (∀ i, 0 ≤ i < run_blocks run → m (l + i) = start_pblkno run + i) ∧
  (0 < run_blocks run →
     0 ≤ start_pblkno run ∧ start_pblkno run + run_blocks run ≤ InvalidBlockNumber ∧
     expected_next_pblk run = start_pblkno run + run_blocks run ∧
     start_pblkno run mod RELSEG_SIZE + run_blocks run ≤ RELSEG_SIZE).

(** The run cannot be continued. *)
Definition run_stop (run : PblkRun) : Prop :=
  let next := m (l + run_blocks run) in
  next = InvalidBlockNumber ∨
  (0 < run_blocks run ∧
   (next ≠ start_pblkno run + run_blocks run ∨
    start_pblkno run mod RELSEG_SIZE + run_blocks run = RELSEG_SIZE)).

Lemma run_entries_spec es run run' stop :
  (∀ j x, es !! j = Some x → x = m (l + run_blocks run + Z.of_nat j) ∧ is_u32 x) →
  run_inv run → run_entries es run = (run', stop) →
  run_inv run' ∧ run_blocks run ≤ run_blocks run' ≤ run_blocks run + Z.of_nat (length es) ∧
  if stop then run_stop run' else run_blocks run' = run_blocks run + Z.of_nat (length es).
Proof.
  revert run. induction es as [|p es IH]; intros run Hes Hinv; cbn [run_entries].
  { intros [= <- <-]. cbn. split_and!; [done|lia..]. }
  destruct (Hes 0%nat p eq_refl) as [Hp Hu]. rewrite Z.add_0_r in Hp. unfold is_u32 in Hu.
  pose proof Hinv as (Hk & Hm & Hpos). cbn [length].
  case_decide as Hinvalid.
  { intros [= <- <-]. split_and!; [done|lia|lia|]. left. congruence. }
  assert (p < InvalidBlockNumber) as Hlt by (unfold InvalidBlockNumber in *; lia).
  case_decide as Hz.
  { intros Hrun. apply IH in Hrun; cbn [run_blocks] in *.
    - destruct Hrun as (Hi & Hb & Hs). split_and!; [done|lia|lia|]. destruct stop; [done|lia].
    - intros j x Hj. destruct (Hes (S j) x Hj) as [-> ?]. split; [|done]. f_equal. lia.
    - split_and!; cbn [run_blocks start_pblkno expected_next_pblk]; [lia| |].
      + intros i Hi. replace i with 0 by lia. rewrite Hz in Hp. by rewrite !Z.add_0_r in *.
      + intros _. unfold RELSEG_SIZE, InvalidBlockNumber in *. split_and!; [lia|lia| |ulia].
        rewrite u32_small; ulia. }
  destruct Hpos as (H0' & Hend & Hexp & Hseg); [lia|].
  case_decide as Hne.
  { intros [= <- <-]. split_and!; [done|lia|lia|]. right. split; [lia|left]. congruence. }
  assert (u32 (start_pblkno run mod RELSEG_SIZE + run_blocks run) =
    start_pblkno run mod RELSEG_SIZE + run_blocks run) as ->.
  { apply u32_small. unfold RELSEG_SIZE in *. ulia. }
  case_decide as Hfull.
  { intros [= <- <-]. split_and!; [done|lia|lia|]. right. split; [lia|right; lia]. }
  assert (u32 (run_blocks run + 1) = run_blocks run + 1) as ->
    by (apply u32_small; unfold RELSEG_SIZE in *; ulia).
  assert (u32 (expected_next_pblk run + 1) = expected_next_pblk run + 1) as ->
    by (apply u32_small; unfold InvalidBlockNumber in *; ulia).
  intros Hrun. apply IH in Hrun; cbn [run_blocks] in *.
  - destruct Hrun as (Hi & Hb & Hs). split_and!; [done|lia|lia|]. destruct stop; [done|lia].
  - intros j x Hj. destruct (Hes (S j) x Hj) as [-> ?]. split; [|done]. f_equal. lia.
  - split_and!; cbn [run_blocks start_pblkno expected_next_pblk]; [lia| |].
    + intros i Hi. destruct (decide (i = run_blocks run)) as [->|]; [|apply Hm; lia]. lia.
    + intros _. split_and!; lia.
Qed.
End runs.

(** ** Pages held across a loop *)

Section pages.
Context {T F : Type} `{SuperStore T} `{FileLayerLaws F} (env : Env).
Local Abbreviation S := (MapState T F).
Implicit Types s : S.

(** Nothing changed but the cache. *)
Definition calm s s' : Prop := map_inv s' ∧ same_map s s' ∧ same_backend s s'.

Lemma same_backend_refl s : same_backend s s.
Proof. split_and!; [done|done|apply keeps_refl]. Qed.

Lemma same_backend_trans s1 s2 s3 : same_backend s1 s2 → same_backend s2 s3 → same_backend s1 s3.
Proof.
  intros (P1 & L1 & K1) (P2 & L2 & K2). split_and!; [|congruence|by eapply keeps_trans].
  intros j. by rewrite P2, P1.
Qed.

Lemma calm_refl s : map_inv s → calm s s.
Proof. intros. split_and!; [done|apply same_map_refl|apply same_backend_refl]. Qed.

Lemma calm_trans s1 s2 s3 : calm s1 s2 → calm s2 s3 → calm s1 s3.
Proof.
  intros (_ & M1 & B1) (I2 & M2 & B2).
  split_and!; [done|by eapply same_map_trans|by eapply same_backend_trans].
Qed.

(** The state while page [current] is pinned. *)
Definition holding (r : RelFileLocator) (f : ForkNumber) s (current : option (nat * Z)) s' : Prop :=
  match current with
  | None => calm s s'
  | Some (i, blk) => ∃ s0 pg, map_inv s0 ∧ calm s s0 ∧ read_post s0 r f blk pg i s'
  end.

Definition range_error (e : pg_error) : Prop := ∃ sys, set_error (F := F) sys e.

Lemma wp_release_page r f s current s' (Q : unit → S → Prop) (E : pg_error → S → Prop) :
  holding r f s current s' → (∀ s2, calm s s2 → Q tt s2) → wp (release_page current) Q E s'.
Proof.
  intros Hh HQ. destruct current as [[i blk]|]; [|apply wp_ret, HQ, Hh].
  destruct Hh as (s0 & pg & Hi & Hc & Hp). apply (wp_unread s0 s' r f blk pg); [done|done|].
  intros s2 Hi2 Hm2 Hb2. apply HQ. by apply (calm_trans s s0).
Qed.

Lemma wp_switch r f s current s' blk pidx n pg (Q : nat → S → Prop) :
  holding r f s current s' → MapDecodeMapBlkno blk = Some (f, pidx) → 0 < blk ≤ MaxBlockNumber →
  trusted_size (w_store (ms_world s)) r f = Some n → map_page s r f blk = Some pg →
  (∀ i s2, holding r f s (Some (i, blk)) s2 → pages (pool (ms_sys s2)) !! i = Some pg → Q i s2) →
  wp (switch_page env r f blk current) Q (λ e _, range_error e) s'.
Proof.
  intros Hh Hdec Hpos Hn Hv HQ.
  assert (∀ s1, calm s s1 →
    wp (MapReadBuffer env r f blk) Q (λ e _, range_error e) s1) as Hread.
  { intros s1 Hc. pose proof Hc as (Hi1 & [Hio Hm] & _).
    eapply wp_mono; [apply (wp_read env s1 r f blk pidx n pg Hi1 Hdec Hpos)
      with (Q := read_post s1 r f blk pg); [by rewrite (proj1 Hio)|by rewrite Hm|done]| |].
    - intros i s2 Hp. apply HQ; [by exists s1, pg|apply Hp].
    - intros e s2 He. exists (ms_sys s1). left. exact He. }
  destruct current as [[i blk0]|]; [|by apply Hread]. cbn [switch_page].
  case_decide as Heq.
  - subst blk0. apply wp_ret, HQ; [done|]. destruct Hh as (s0 & pg0 & Hi0 & (_ & [Hio0 Hm0] & _) & Hp).
    pose proof (rp_same _ _ _ _ _ _ _ Hp) as [Hio Hm]. pose proof (Hm r f blk) as Hmb.
    rewrite Hm0, Hv in Hmb. unfold map_page in Hmb.
    by rewrite (rp_cache _ _ _ _ _ _ _ Hp), (proj1 Hio), (proj1 Hio0), Hn, Nat2Z.id in Hmb.
  - apply wp_bind, (wp_release_page r f s (Some (i, blk0))); [done|]. intros s2 Hc. by apply Hread.
Qed.

(** ** The entries of a fork *)

(** The entry of a logical block; unmapped where there is none. *)
Definition entry_at s (r : RelFileLocator) (f : ForkNumber) (l : Z) : Z :=
  match map_page s r f (page_pos f (l / 2048)) with
  | Some pg => entry_of pg (l mod 2048)
  | None => InvalidBlockNumber
  end.

(** The map holds every page with an entry of a block in [lo, hi). *)
Definition covered s (r : RelFileLocator) (f : ForkNumber) (lo hi : Z) : Prop :=
  ∀ l, lo ≤ l < hi → is_Some (map_page s r f (page_pos f (l / 2048))).

Lemma entry_location_at f l :
  fork_mapped f → is_u32 l → l ≤ max_mapped_lblk f →
  entry_location f l = Ok (page_pos f (l / 2048), l mod 2048).
Proof.
  intros Hf Hl Hm. unfold entry_location, mbind, result_bind.
  rewrite (proj1 (entry_index_spec f l Hf Hl)) by done.
  change MAP_ENTRIES_PER_PAGE with 2048.
  f_equal. f_equal; ulia.
Qed.

Lemma page_pos_at f l :
  fork_mapped f → is_u32 l → l ≤ max_mapped_lblk f →
  0 < page_pos f (l / 2048) ≤ MaxBlockNumber ∧
  MapDecodeMapBlkno (page_pos f (l / 2048)) = Some (f, l / 2048).
Proof.
  intros Hf Hl Hm. destruct (entry_location_ok f l _ _ Hf Hl (entry_location_at f l Hf Hl Hm))
    as (_ & _ & ? & ?). done.
Qed.

Lemma map_page_ok s r f blk pg :
  map_inv s → 0 < blk → map_page s r f blk = Some pg → page_ok pg.
Proof.
  intros [Hp _ _ _ _] Hpos. unfold map_page.
  destruct (cache _ !! _), (trusted_size _ _ _); [|done| |done].
  - intros Hpg. by apply (po_page _ Hp (Z.to_nat z)).
  - intros Hr. by eapply reload_ok.
Qed.

Lemma max_mapped_u32 f : max_mapped_lblk f < 2 ^ 32 - 1.
Proof. unfold max_mapped_lblk. destruct f; lia. Qed.

(** The entries of one page, from an index on, are those of the fork. *)
Lemma page_entries s r f l pg c j x :
  map_inv s → fork_mapped f → 0 ≤ l ≤ max_mapped_lblk f →
  map_page s r f (page_pos f (l / 2048)) = Some pg →
  take c (drop (Z.to_nat (l mod 2048)) pg) !! j = Some x →
  x = entry_at s r f (l + Z.of_nat j) ∧ is_u32 x.
Proof.
  intros Hinv Hf Hl Hv Hx. pose proof (max_mapped_u32 f).
  destruct (page_pos_at f l Hf) as [Hpos _]; [unfold is_u32; lia|lia|].
  destruct (map_page_ok _ _ _ _ _ Hinv (proj1 Hpos) Hv) as [Hlen Hall].
  change (Z.to_nat MAP_ENTRIES_PER_PAGE) with 2048%nat in Hlen.
  apply lookup_take_Some in Hx as [Hx Hc]. rewrite lookup_drop in Hx.
  pose proof (lookup_lt_Some _ _ _ Hx) as Hlt. rewrite Hlen in Hlt.
  split; [|by eapply Forall_lookup_1 in Hall].
  unfold entry_at, entry_of. replace ((l + Z.of_nat j) / 2048) with (l / 2048) by ulia.
  replace ((l + Z.of_nat j) mod 2048) with (l mod 2048 + Z.of_nat j) by ulia.
  rewrite Hv, Z2Nat.inj_add, Nat2Z.id, Hx by ulia. done.
Qed.

Definition run_post s r f l maxblocks (run : PblkRun) s' : Prop :=
  calm s s' ∧ run_inv (entry_at s r f) l run ∧ run_blocks run ≤ maxblocks ∧
  (run_blocks run < maxblocks → run_stop (entry_at s r f) l run).

Lemma wp_lookup_run fuel s r f l n maxblocks current run s' :
  map_inv s → fork_mapped f → 0 ≤ l → l + maxblocks ≤ max_mapped_lblk f + 1 →
  trusted_size (w_store (ms_world s)) r f = Some n → covered s r f l (l + maxblocks) →
  holding r f s current s' → run_inv (entry_at s r f) l run → run_blocks run ≤ maxblocks →
  (Z.to_nat (maxblocks - run_blocks run) < fuel)%nat →
  wp (lookup_run env fuel r f (l + run_blocks run) (maxblocks - run_blocks run) current run)
    (run_post s r f l maxblocks) (λ e _, range_error e) s'.
Proof.
  intros Hinv Hf Hl0 Hmax Hn Hcov. revert current run s'.
  induction fuel as [|fuel IH]; intros current run s' Hh Hrun Hle Hfuel; [lia|].
  pose proof (proj1 Hrun) as Hk0. pose proof (max_mapped_u32 f).
  cbn [lookup_run]. destruct (decide (maxblocks - run_blocks run > 0)) as [Hgt|Hend].
  2: { apply wp_bind, (wp_release_page r f s current); [done|]. intros s2 Hc. apply wp_ret.
       split_and!; [done|done|done|lia]. }
  set (c := l + run_blocks run) in *.
  assert (is_u32 c ∧ c ≤ max_mapped_lblk f) as [Hcu Hcm] by (unfold c, is_u32; lia).
  destruct (page_pos_at f c Hf Hcu Hcm) as [Hpos Hdec].
  destruct (Hcov c ltac:(unfold c; lia)) as [pg Hpg].
  apply wp_bind, (wp_lift _ (page_pos f (c / 2048), c mod 2048)); [by apply entry_location_at|].
  cbn [fst snd]. apply wp_bind, (wp_switch r f s current s' _ (c / 2048) n pg); [done..|].
  intros i s2 Hh2 Hpg2. apply wp_bind, wp_on_sys, (wp_get_page _ i pg); [done|].
  replace (at_sys s2 (ms_sys s2)) with s2 by (by destruct s2).
  cbv zeta. change MAP_ENTRIES_PER_PAGE with 2048.
  set (k := Z.min (2048 - c mod 2048) (maxblocks - run_blocks run)).
  assert (0 < k ≤ maxblocks - run_blocks run) as Hk by (unfold k; ulia).
  destruct (map_page_ok _ _ _ _ _ Hinv (proj1 Hpos) Hpg) as [Hlen _].
  change (Z.to_nat MAP_ENTRIES_PER_PAGE) with 2048%nat in Hlen.
  set (es := take (Z.to_nat k) (drop (Z.to_nat (c mod 2048)) pg)).
  assert (Z.of_nat (length es) = k) as Hes.
  { unfold es, k. rewrite length_take, length_drop, Hlen. ulia. }
  destruct (run_entries es run) as [run' stop] eqn:Hre.
  destruct (run_entries_spec (entry_at s r f) l es run run' stop) as (Hrun' & Hb & Hs); [|done|done|].
  { intros j x Hj. apply (page_entries s r f c pg (Z.to_nat k)); [done|done|lia|done|done]. }
  destruct stop.
  - apply wp_bind, (wp_release_page r f s (Some (i, page_pos f (c / 2048)))); [done|].
    intros s3 Hc3. apply wp_ret. split_and!; [done|done|lia|done].
  - rewrite u32_small by ulia.
    replace (c + k) with (l + run_blocks run') by (unfold c; lia).
    replace (maxblocks - run_blocks run - k) with (maxblocks - run_blocks run') by lia.
    apply IH; [done|done|lia|lia].
Qed.

Lemma wp_pblk_run s r f l maxblocks n :
  map_inv s → fork_mapped f → 0 ≤ l → 0 < maxblocks → l + maxblocks ≤ max_mapped_lblk f + 1 →
  trusted_size (w_store (ms_world s)) r f = Some n → covered s r f l (l + maxblocks) →
  wp (MapTryLookupPblkRun env r f l maxblocks) (run_post s r f l maxblocks)
    (λ e _, range_error e) s.
Proof.
  intros Hinv Hf Hl Hmax Hend Hn Hcov.
  assert (f ≠ UMBRA_METADATA_FORKNUM) as Hne by (by destruct Hf as [->|[->| ->]]).
  unfold MapTryLookupPblkRun. rewrite decide_False by done. apply wp_bind, wp_gets.
  change (w_files (ms_world s)) with (files s). rewrite (mi_exists _ Hinv _ _ _ Hn). cbn [negb].
  pose proof (wp_lookup_run (Datatypes.S (Z.to_nat maxblocks)) s r f l n maxblocks None empty_run s)
    as Hrun. cbn [empty_run run_blocks] in Hrun. rewrite Z.add_0_r, Z.sub_0_r in Hrun.
  apply Hrun; [done..|by apply calm_refl| |lia|lia].
  split_and!; cbn [empty_run run_blocks]; [done|intros; lia|intros; lia].
Qed.

(** ** Truncation *)

Lemma clear_entries_ok b e pg :
  0 ≤ b → b ≤ e < 2048 → page_ok pg → page_ok (clear_entries b e pg).
Proof.
  intros Hb He [Hlen Hall]. unfold clear_entries. case_decide; [apply ff_page_ok|].
  change (Z.to_nat MAP_ENTRIES_PER_PAGE) with 2048%nat in *. split.
  - rewrite !length_app, length_take, length_replicate, length_drop, Hlen.
    change (Z.to_nat MAP_ENTRIES_PER_PAGE) with 2048%nat. lia.
  - apply Forall_app. split; [by apply Forall_take|]. apply Forall_app. split; [|by apply Forall_drop].
    apply Forall_replicate. unfold is_u32, InvalidBlockNumber. lia.
Qed.

Lemma clear_entries_at b e pg i :
  0 ≤ b → b ≤ e < 2048 → page_ok pg → 0 ≤ i < 2048 →
  entry_of (clear_entries b e pg) i =
    if decide (b ≤ i ≤ e) then InvalidBlockNumber else entry_of pg i.
Proof.
  intros Hb He [Hlen _] Hi. change (Z.to_nat MAP_ENTRIES_PER_PAGE) with 2048%nat in Hlen.
  unfold entry_of, clear_entries. case_decide as Hall.
  { unfold ff_page. rewrite lookup_replicate_2 by (change MAP_ENTRIES_PER_PAGE with 2048; lia).
    by rewrite decide_True by (change MAP_ENTRIES_PER_PAGE with 2048 in Hall; lia). }
  destruct (decide (i < b)) as [Hlt|Hge].
  { rewrite lookup_app_l by (rewrite length_take; lia). rewrite lookup_take_lt by lia.
    by rewrite decide_False by lia. }
  rewrite lookup_app_r by (rewrite length_take; lia). rewrite length_take, Hlen.
  destruct (decide (i ≤ e)) as [Hle|Hgt].
  - rewrite lookup_app_l by (rewrite length_replicate; lia). rewrite lookup_replicate_2 by lia.
    by rewrite decide_True by lia.
  - rewrite lookup_app_r by (rewrite length_replicate; lia). rewrite length_replicate, lookup_drop.
    rewrite decide_False by lia. do 2 f_equal. lia.
Qed.

Lemma clear_entries_nonzero b e pg :
  0 ≤ b → b ≤ e < 2048 → page_ok pg → nonzero (clear_entries b e pg).
Proof.
  intros Hb He Hok. pose proof (clear_entries_ok b e pg Hb He Hok) as Hok'.
  pose proof (clear_entries_at b e pg b Hb He Hok ltac:(lia)) as Hat.
  rewrite decide_True in Hat by lia. unfold entry_of in Hat.
  destruct (clear_entries b e pg !! Z.to_nat b) as [x|] eqn:Hx.
  - cbn in Hat. eapply nonzero_entry; [done|exact Hx|]. by rewrite Hat.
  - apply lookup_ge_None in Hx. destruct Hok' as [Hl _]. rewrite Hl in Hx.
    change (Z.to_nat MAP_ENTRIES_PER_PAGE) with 2048%nat in Hx. lia.
Qed.

(** The cleared part of page [q] when blocks [n, old) go. *)
Definition cut_page (n old q : Z) (pg : list Z) : list Z :=
  clear_entries (if decide (q = n / 2048) then n mod 2048 else 0)
    (if decide (q = (old - 1) / 2048) then (old - 1) mod 2048 else 2047) pg.

(** The pages before [hi] are cut, everything else is as it was. *)
Definition cut_upto s r f n old hi s' : Prop :=
  (∀ q, n / 2048 ≤ q < hi → map_page s' r f (page_pos f q) =
     cut_page n old q <$> map_page s r f (page_pos f q)) ∧
  ∀ r' f' blk, (∀ q, n / 2048 ≤ q < hi → (r', f', blk) ≠ (r, f, page_pos f q)) →
    map_page s' r' f' blk = map_page s r' f' blk.

Lemma page_pos_inj f q q' : is_u32 q → is_u32 q' → page_pos f q = page_pos f q' → q = q'.
Proof.
  intros Hq Hq' Heq. unfold page_pos in Heq. destruct f; unfold_layout; ulia.
Qed.

Lemma cut_bounds n old q :
  0 ≤ n < old → n / 2048 ≤ q ≤ (old - 1) / 2048 →
  let b := if decide (q = n / 2048) then n mod 2048 else 0 in
  let e := if decide (q = (old - 1) / 2048) then (old - 1) mod 2048 else 2047 in
  0 ≤ b ∧ b ≤ e < 2048.
Proof. intros Hn Hq. cbv zeta. repeat case_decide; ulia. Qed.

(** The state during a truncation. *)
Definition cutting s r f n old hi s' : Prop :=
  map_inv s' ∧ io_step (ms_world s) (ms_world s') ∧ same_backend s s' ∧
  cut_upto s r f n old hi s'.

Section truncate.
Context (s : S) (r : RelFileLocator) (f : ForkNumber) (n old : Z).
Context (Hf : fork_mapped f) (Hn : 0 ≤ n < old) (Hold : old ≤ max_mapped_lblk f + 1).
Context (Hsize : trusted_size (w_store (ms_world s)) r f = Some old).
Context (Hcov : covered s r f n old).
Context (Hfile : is_Some (fl_content (files s) r UMBRA_METADATA_FORKNUM
                            (page_pos f ((old - 1) / 2048)))).
Local Abbreviation range :=
  (MkTruncRange (n / 2048) (n mod 2048) ((old - 1) / 2048) ((old - 1) mod 2048)).

(** Page [q] is cut. *)
Lemma cut_step q s1 i pg s2 :
  n / 2048 ≤ q ≤ (old - 1) / 2048 → cutting s r f n old q s1 →
  map_page s r f (page_pos f q) = Some pg → page_ok pg →
  set_post s1 r f (page_pos f q) (cut_page n old q pg) i s2 →
  cutting s r f n old (q + 1) s2.
Proof using Hf Hn Hold Hsize.
  intros Hq (Hi1 & Hio1 & Hb1 & Hcut1 & Hrest1) Hpg Hok (Hbut & Hio2 & Hb2 & (c & Hc & Ht & Hd) & Hpi & Hv).
  pose proof (max_mapped_u32 f). destruct (cut_bounds n old q Hn Hq) as [Hlo Hhi].
  assert (is_u32 (q * 2048) ∧ q * 2048 ≤ max_mapped_lblk f) as [Hqu Hqm] by ulia.
  destruct (page_pos_at f (q * 2048) Hf Hqu Hqm) as [Hpos Hdec]. rewrite Z.div_mul in Hpos, Hdec by lia.
  pose proof Ht as (Er & Ef & Ep). cbn in Er, Ef, Ep.
  assert (io_step (ms_world s) (ms_world s2)) as Hio by (by etrans).
  split_and!; [|done|by eapply same_backend_trans|split].
  - eapply (map_inv_close i s2 c f); [done|done|done|done|by rewrite Er, (proj1 Hio)|].
    unfold agrees. rewrite Hd, Ep. split; [by apply clear_entries_nonzero|].
    rewrite <-(Z.div_mul q 2048), within_entry by (rewrite ?Z.div_mul by lia; done || lia).
    intros Hout%bool_decide_eq_false. ulia.
  - intros q' Hq'. rewrite Hv. destruct (decide (q' = q)) as [->|Hne].
    + by rewrite decide_True, Hpg by done.
    + rewrite decide_False. { apply Hcut1. lia. }
      intros [= Heq]. apply Hne. by eapply page_pos_inj; [ulia|ulia|].
  - intros r' f' blk Hne. rewrite Hv, decide_False by (apply Hne; lia).
    apply Hrest1. intros q' Hq'. apply Hne. lia.
Qed.

Lemma wp_truncate_pages k q s1 lsn :
  Z.of_nat k = (old - 1) / 2048 + 1 - q → n / 2048 ≤ q → cutting s r f n old q s1 →
  wp (truncate_pages env k r f range q lsn)
    (λ _ s', cutting s r f n old ((old - 1) / 2048 + 1) s') (λ e _, range_error e) s1.
Proof using All.
  revert q s1. induction k as [|k IH]; intros q s1 Hk Hq Hcut.
  { apply wp_ret. by replace ((old - 1) / 2048 + 1) with q by lia. }
  pose proof (max_mapped_u32 f). pose proof Hcut as (Hi1 & Hio1 & _ & _ & Hrest).
  assert (is_u32 (q * 2048) ∧ q * 2048 ≤ max_mapped_lblk f) as [Hqu Hqm] by ulia.
  destruct (page_pos_at f (q * 2048) Hf Hqu Hqm) as [Hpos Hdec]. rewrite Z.div_mul in Hpos, Hdec by lia.
  cbn [truncate_pages]. apply wp_bind. unfold truncate_page.
  apply wp_bind, (wp_lift _ (page_pos f q)).
  { rewrite page_index_spec by (done || ulia). by rewrite decide_False by lia. }
  apply wp_bind, wp_gets.
  assert (page_pos f q < fl_nblocks (w_files (ms_world s1)) r UMBRA_METADATA_FORKNUM) as Hlt.
  { destruct Hio1 as (_ & _ & _ & Hkeep & _).
    assert (0 ≤ page_pos f ((old - 1) / 2048) ∧ page_pos f q ≤ page_pos f ((old - 1) / 2048))
      as [Hge Hle] by (unfold page_pos; destruct f; ulia).
    destruct (Hkeep _ _ Hge Hfile) as [d Hd]. apply fl_nblocks_spec in Hd; [lia|done]. }
  rewrite decide_False by lia. cbn [start_map_page start_entry_idx end_map_page end_entry_idx].
  change (MAP_ENTRIES_PER_PAGE - 1) with 2047.
  destruct (Hcov (Z.max n (q * 2048))) as [pg Hpg]; [ulia|].
  replace (Z.max n (q * 2048) / 2048) with q in Hpg by ulia.
  assert (map_page s1 r f (page_pos f q) = Some pg) as Hpg1.
  { rewrite Hrest; [done|]. intros q' Hq' [= Heq]. apply page_pos_inj in Heq; [|ulia|ulia]. lia. }
  pose proof (map_page_ok s1 r f _ pg Hi1 (proj1 Hpos) Hpg1) as Hok.
  destruct (cut_bounds n old q Hn) as [Hlo Hhi]; [lia|].
  apply wp_bind. eapply wp_mono; [eapply (wp_rewrite env s1 r f (page_pos f q) q old lsn pg
    (cut_page n old q)) with (Q := λ _ s2, cutting s r f n old (q + 1) s2)| |].
  - by apply clear_entries_ok.
  - done.
  - done.
  - done.
  - by rewrite (proj1 Hio1).
  - done.
  - intros i s2 Hset. eapply (cut_step q s1 i pg); [lia|done|done|done|done].
  - intros [] s2 Hcut2. apply wp_ret. rewrite u32_small by ulia. apply IH; [lia|lia|done].
  - intros e s2 He. exists (ms_sys s1). exact He.
Qed.

Lemma wp_truncate lsn :
  map_inv s → lsn ≠ InvalidXLogRecPtr →
  wp (MapTruncate env r f n lsn)
    (λ _ s', cutting s r f n old ((old - 1) / 2048 + 1) s') (λ e _, range_error e) s.
Proof using All.
  intros Hinv Hlsn. pose proof (max_mapped_u32 f).
  assert (f ≠ UMBRA_METADATA_FORKNUM) as Hne by (by destruct Hf as [->|[->| ->]]).
  unfold MapTruncate. rewrite !decide_False by done. apply wp_bind, wp_gets.
  change (w_files (ms_world s)) with (files s). rewrite (mi_exists _ Hinv _ _ _ Hsize). cbn [negb].
  apply wp_bind. unfold wp at 1, on_world. rewrite (trusted_size_run _ _ _ _ _ Hsize).
  replace (MkMapState (ms_world s) (ms_sys s) (ms_local s)) with s by (by destruct s).
  unfold MapTruncateEntryRange. rewrite decide_False by lia. rewrite u32_small by ulia.
  change MAP_ENTRIES_PER_PAGE with 2048. cbn [start_map_page end_map_page].
  apply wp_truncate_pages; [ulia|lia|]. split_and!; [done|done|apply same_backend_refl|].
  split; [intros; lia|done].
Qed.

(** The map after a truncation, entry by entry. *)
Lemma cut_entries s' l :
  cutting s r f n old ((old - 1) / 2048 + 1) s' → map_inv s → is_u32 l →
  l ≤ max_mapped_lblk f →
  entry_at s' r f l = if decide (n ≤ l < old) then InvalidBlockNumber else entry_at s r f l.
Proof using Hf Hn Hold Hcov.
  intros (_ & _ & _ & Hcut & Hrest) Hinv Hl Hm. unfold entry_at. pose proof (max_mapped_u32 f).
  destruct (decide (n / 2048 ≤ l / 2048 ≤ (old - 1) / 2048)) as [Hin|Hout].
  - rewrite Hcut by lia. destruct (Hcov (Z.max n (l / 2048 * 2048))) as [pg Hpg]; [ulia|].
    replace (Z.max n (l / 2048 * 2048) / 2048) with (l / 2048) in Hpg by ulia.
    rewrite Hpg. cbn. destruct (page_pos_at f l Hf Hl Hm) as [Hpos _].
    unfold cut_page. destruct (cut_bounds n old (l / 2048) Hn Hin) as [Hlo Hhi].
    rewrite clear_entries_at; [|done|done|by eapply map_page_ok; [done|apply Hpos|]|ulia].
    apply decide_ext. repeat case_decide; ulia.
  - rewrite decide_False by ulia. rewrite Hrest; [done|].
    intros q Hq [= Heq]. apply page_pos_inj in Heq; ulia.
Qed.
End truncate.
End pages.

(** ** Shrinking *)

Section shrink.
Context {T F : Type} `{SuperStoreLaws T} `{FileLayerLaws F} (env : Env).
Local Abbreviation S := (MapState T F).
Implicit Types s : S.

Lemma within_page n f blk q :
  MapDecodeMapBlkno blk = Some (f, q) → is_u32 q →
  MapMapPageWithinLogicalRange (Some n) f blk = bool_decide (q * 2048 < n).
Proof.
  intros Hdec Hq. cbn. rewrite Hdec, decide_False by auto.
  change MAP_ENTRIES_PER_PAGE with 2048. rewrite u64_small by ulia.
  repeat case_bool_decide; lia || done.
Qed.

(** Shrinking a fork keeps the pages that stay in range, and those that were
    not in range before. *)
Lemma reload_shrink (fs : F) n old r f blk :
  n ≤ old →
  reload fs n r f blk = reload fs old r f blk ∨
  (reload fs n r f blk = Some ff_page ∧
   ∃ q, MapDecodeMapBlkno blk = Some (f, q) ∧ n ≤ q * 2048 < old).
Proof.
  intros Hle. unfold reload. destruct (MapDecodeMapBlkno blk) as [[g q]|] eqn:Hdec.
  2: { left. cbn. by rewrite Hdec. }
  destruct (decide (g = f)) as [->|Hne]; [|left; cbn; by rewrite Hdec, !decide_True by done].
  rewrite !(within_page _ _ _ q) by (done || by eapply decode_u32).
  repeat case_bool_decide; [by left|lia|right; eauto with lia|by left].
Qed.

Lemma shrink_inv s r f n old w :
  map_inv s → trusted_size (w_store (ms_world s)) r f = Some old → n ≤ old →
  w_files w = files s →
  (∀ r' g, trusted_size (w_store w) r' g =
     if decide ((r', g) = (r, f)) then Some n else trusted_size (w_store (ms_world s)) r' g) →
  (∀ q, n ≤ q * 2048 < old → map_page s r f (page_pos f q) = Some ff_page) →
  let s' := MkMapState w (ms_sys s) (ms_local s) in
  map_inv s' ∧ ∀ r' f' blk, 0 < blk ≤ MaxBlockNumber → map_page s' r' f' blk = map_page s r' f' blk.
Proof.
  intros [Hp Hc Hfork Hex Hag] Hold Hle Hfs Hts Hff s'.
  assert (files s' = files s) as Hfs' by done.
  assert (∀ blk, 0 < blk ≤ MaxBlockNumber →
    reload (files s) n r f blk = reload (files s) old r f blk ∨
    (reload (files s) n r f blk = Some ff_page ∧ map_page s r f blk = Some ff_page)) as Hre.
  { intros blk Hb. destruct (reload_shrink (files s) n old r f blk Hle) as [?|[Hr (q & Hq & Hin)]];
      [by left|]. right. split; [done|]. rewrite (decode_pos _ _ _ Hb Hq). by apply Hff. }
  split; [split|]; cbn [ms_sys ms_world s']; [done|done|done|..].
  - intros r' g m. rewrite Hts, Hfs'. case_decide as Heq; [|apply Hex].
    injection Heq as -> ->. intros _. by eapply Hex.
  - intros i b g pg m Hb Hg Hpg. rewrite Hts, Hfs'. case_decide as Heq; [|by apply (Hag i)].
    injection Heq as Er ->. intros [= <-]. rewrite <-Er in Hold.
    specialize (Hag i b f pg old Hb Hg Hpg Hold). unfold agrees in *.
    destruct (co_tag _ Hc i b f Hb Hg) as [Hpos Hk].
    assert (map_page s r f (page_number b) = Some pg) as Hv.
    { unfold map_page. rewrite Er in *. by rewrite Hk, Hold, Nat2Z.id. }
    destruct (Hfork i b f Hb Hg) as [q Hq]. pose proof (decode_u32 _ _ _ Hq) as Hqu.
    destruct (bdirty b).
    + destruct Hag as [Hnz Hout]. split; [done|]. rewrite !(within_page _ _ _ q) in * by done.
      intros Hn%bool_decide_eq_false. destruct (decide (q * 2048 < old)) as [Hlt|Hge].
      * rewrite (decode_pos _ _ _ Hpos Hq), Hff in Hv by lia. by injection Hv.
      * apply Hout, bool_decide_eq_false_2. lia.
    + rewrite Er in *. destruct (Hre (page_number b) Hpos) as [->|[-> Hv']]; [done|congruence].
  - intros r' g blk Hb. unfold map_page. rewrite Hfs'. unfold s'. cbn [ms_sys ms_world]. rewrite Hts.
    case_decide as Heq; [|done]. injection Heq as -> ->. rewrite Hold.
    destruct (cache (pool (ms_sys s)) !! (r, f, blk)) as [slot|] eqn:Hk; [done|].
    destruct (Hre blk Hb) as [->|[-> Hv]]; [done|]. unfold map_page in Hv.
    rewrite Hk, Hold in Hv. done.
Qed.
End shrink.

(** ** Truncation as a whole *)

Section truncation.
Context {T F : Type} `{SuperStoreLaws T} `{FileLayerLaws F} (env : Env).
Local Abbreviation S := (MapState T F).
Implicit Types s : S.

(** Entries first, size second, in the order of [umtruncate]. *)
Definition truncate_fork (r : RelFileLocator) (f : ForkNumber) (n lsn : Z) : M S unit :=
  MapTruncate env r f n lsn;; on_world (MapSBlockSetLogicalNblocks env r f n lsn).

Lemma unmapped_page pg :
  page_ok pg → (∀ i, 0 ≤ i < 2048 → entry_of pg i = InvalidBlockNumber) → pg = ff_page.
Proof.
  intros [Hlen Hall] Hinv. apply list_eq_same_length with (n := 2048%nat); [done|done|].
  intros i x y Hi Hx Hy. unfold ff_page in Hy. apply lookup_replicate in Hy as [-> _].
  specialize (Hinv (Z.of_nat i) ltac:(lia)). unfold entry_of in Hinv.
  rewrite Nat2Z.id, Hx in Hinv. done.
Qed.

Lemma truncate_run s r f n old lsn e :
  map_inv s → fork_mapped f → 0 ≤ n < old → old ≤ max_mapped_lblk f + 1 →
  ss_wf (w_store (ms_world s)) → ss_map (w_store (ms_world s)) !! r = Some e →
  entry_untrusted e = false → trusted_size (w_store (ms_world s)) r f = Some old →
  covered s r f n old →
  is_Some (fl_content (files s) r UMBRA_METADATA_FORKNUM (page_pos f ((old - 1) / 2048))) →
  (∀ l, old ≤ l → l / 2048 = (old - 1) / 2048 → entry_at s r f l = InvalidBlockNumber) →
  lsn ≠ InvalidXLogRecPtr →
  wp (truncate_fork r f n lsn)
    (λ _ s', map_inv s' ∧ same_backend s s' ∧
       (∀ r' f', trusted_size (w_store (ms_world s')) r' f' =
          if decide ((r', f') = (r, f)) then Some n
          else trusted_size (w_store (ms_world s)) r' f') ∧
       (∀ r' f' l, fork_mapped f' → 0 ≤ l ≤ max_mapped_lblk f' → entry_at s' r' f' l =
          if decide ((r', f') = (r, f) ∧ n ≤ l < old) then InvalidBlockNumber
          else entry_at s r' f' l))
    (λ er _, range_error (F := F) er) s.
Proof.
  intros Hinv Hf Hn Hold Hwf He Hu Hsize Hcov Hfile Htail Hlsn. pose proof (max_mapped_u32 f).
  apply wp_bind. eapply wp_mono; [by eapply (wp_truncate env s r f n old)| |done].
  intros [] s1 Hcut. pose proof Hcut as (Hi1 & Hio & Hb1 & Hpages & Hrest).
  assert (∀ l, is_u32 l → l ≤ max_mapped_lblk f → entry_at s1 r f l =
    if decide (n ≤ l < old) then InvalidBlockNumber else entry_at s r f l) as Hent.
  { intros l Hl Hm. by apply (cut_entries s r f n old). }
  rewrite <-(proj1 Hio) in Hwf, He, Hsize.
  destruct (update_trusted env (ms_world s1) r f old n lsn false e)
    as (w' & Hrun & Hfs & _ & Hts); [done..|unfold MaxBlockNumber, InvalidBlockNumber in *; lia|done|].
  unfold wp, on_world, MapSBlockSetLogicalNblocks. rewrite Hrun.
  destruct (shrink_inv s1 r f n old w') as [Hi Hv]; [done|done|lia|done|done| |].
  { intros q Hq. destruct (Hcov (q * 2048)) as [pg Hpg]; [lia|]. rewrite Z.div_mul in Hpg by lia.
    rewrite Hpages, Hpg by ulia. cbn. f_equal. destruct (page_pos_at f (q * 2048) Hf) as [Hpos _]; [ulia|lia|].
    rewrite Z.div_mul in Hpos by lia. pose proof (map_page_ok s r f _ pg Hinv (proj1 Hpos) Hpg) as Hok.
    destruct (cut_bounds n old q Hn) as [Hlo Hhi]; [ulia|].
    apply unmapped_page; [by apply clear_entries_ok|]. intros i Hi. unfold cut_page.
    rewrite clear_entries_at by done.
    specialize (Htail (q * 2048 + i)). unfold entry_at in Htail.
    replace ((q * 2048 + i) / 2048) with q in Htail by ulia.
    replace ((q * 2048 + i) mod 2048) with i in Htail by ulia.
    rewrite Hpg in Htail. repeat case_decide; first [done|apply Htail; ulia]. }
  split_and!; [done|done|cbn; by rewrite <-(proj1 Hio)|].
  intros r' f' l Hf' Hl. unfold entry_at at 1. pose proof (max_mapped_u32 f').
  destruct (page_pos_at f' l Hf') as [Hpos _]; [unfold is_u32; lia|lia|]. rewrite Hv by done.
  change (entry_at s1 r' f' l = if decide ((r', f') = (r, f) ∧ n ≤ l < old)
    then InvalidBlockNumber else entry_at s r' f' l).
  destruct (decide ((r', f') = (r, f))) as [[= -> ->]|Hne].
  - rewrite Hent by (unfold is_u32; lia). apply decide_ext. tauto.
  - rewrite decide_False by tauto. unfold entry_at. rewrite Hrest; [done|]. intros q _ [= -> -> _]. done.
Qed.
End truncation.

(** ** Properties *)

(** C5: the translation of a run of logical blocks returns how many of them,
    from the first one on, are mapped to consecutive physical blocks of one
    file segment.  The run is maximal: where it is shorter than asked for, the
    next block is unmapped, is elsewhere, or is in the next segment.  The map,
    the invariant and the pins of the backend stay as they were. *)
Theorem pblk_run_correct `{SuperStore T} `{FileLayerLaws F} env (s : MapState T F) r f l maxblocks n :
  map_inv s → fork_mapped f → 0 ≤ l → 0 < maxblocks → l + maxblocks ≤ max_mapped_lblk f + 1 →
  trusted_size (w_store (ms_world s)) r f = Some n → covered s r f l (l + maxblocks) →
  match MapTryLookupPblkRun env r f l maxblocks s with
  | (Ok run, s') => run_post s r f l maxblocks run s'
  | (Err e, _) => range_error (F := F) e
  end.
Proof. intros. by eapply (wp_pblk_run env). Qed.


(** ** A concrete system *)

Lemma demo_covered : covered demo_published demo_rel MAIN_FORKNUM 0 1.
Proof.
  intros l Hl. replace l with 0 by lia. destruct demo_published_ok as (_ & _ & Hv).
  change (page_pos MAIN_FORKNUM (0 / 2048)) with 3. rewrite Hv. by eexists.
Qed.

Lemma pblk_run_correct_witness :
  ∃ run s', MapTryLookupPblkRun demo_env demo_rel MAIN_FORKNUM 0 1 demo_published = (Ok run, s') ∧
    run_post demo_published demo_rel MAIN_FORKNUM 0 1 run s' ∧ start_pblkno run = 7 ∧ run_blocks run = 1.
Proof.
  destruct demo_published_ok as (Hi & Hn & _).
  pose proof (pblk_run_correct demo_env demo_published demo_rel MAIN_FORKNUM 0 1 1 Hi
    (or_introl eq_refl) ltac:(lia) ltac:(lia) ltac:(discriminate) Hn demo_covered) as Hrun.
  assert ((MapTryLookupPblkRun demo_env demo_rel MAIN_FORKNUM 0 1 demo_published).1 =
    Ok (MkPblkRun 7 8 1)) as Hres by (vm_compute; exact eq_refl).
  destruct (MapTryLookupPblkRun _ _ _ _ _ _) as [[run|e] s']; [|discriminate Hres].
  injection Hres as ->. exists (MkPblkRun 7 8 1), s'. split; [exact eq_refl|].
  split; [exact Hrun|]. split; exact eq_refl.
Defined.

Lemma demo_published_entry :
  ∃ e, ss_map (w_store (ms_world demo_published)) !! demo_rel = Some e ∧ entry_untrusted e = false.
Proof.
  destruct (ss_map (w_store (ms_world demo_published)) !! demo_rel) as [e|] eqn:He; [|by vm_compute in He].
  exists e. split; [done|]. vm_compute in He. injection He as <-. by vm_compute.
Qed.

Lemma demo_tail l :
  1 ≤ l → l / 2048 = 0 → entry_at demo_published demo_rel MAIN_FORKNUM l = InvalidBlockNumber.
Proof.
  intros Hl H0. unfold entry_at. rewrite H0. change (page_pos MAIN_FORKNUM 0) with 3.
  destruct demo_published_ok as (_ & _ & ->). unfold entry_of.
  rewrite list_lookup_insert_ne by ulia. unfold ff_page.
  rewrite lookup_replicate_2 by (change MAP_ENTRIES_PER_PAGE with 2048; ulia). done.
Qed.

Lemma demo_published_file :
  is_Some (fl_content (files demo_published) demo_rel UMBRA_METADATA_FORKNUM 3).
Proof.
  assert (bool_decide (is_Some (fl_content (files demo_published) demo_rel UMBRA_METADATA_FORKNUM 3)) = true)
    as Hb by (vm_compute; exact eq_refl).
  by apply bool_decide_eq_true in Hb.
Qed.

