(* ===== verification/MapFaults.v ===== *)
(** * Map pages: what errors leave behind

    An error raised inside a page operation leaves shared memory as it is at
    that point.  A failed writeback keeps the buffer's I/O flag until the
    abort routine runs, and a page that cannot be read stays in the cache. *)

From S2P Require Import Prelude MapLayout Superblock SuperTable FileLayer SBlock SBlockInv.
From S2P Require Import SBlockSafety SBlockSpec.
From S2P Require Import BufState MapBuf MapClock PoolInv MapPage MapPageSpec MapEntries.

Local Open Scope Z_scope.

Lemma terminate_error_word ref u fl :
  word_ok ref u fl →
  ∃ fl', terminate_io false MAPBUF_IO_ERROR (word ref u fl) = word ref u fl' ∧ word_ok ref u fl' ∧
    Z.testbit fl' 0 = Z.testbit fl 0 ∧ Z.testbit fl' 1 = false.
Proof.
  intros Hok. unfold terminate_io.
  destruct (word_clear ref u fl 6 Hok) as [Hok1 E1]; [lia|].
  destruct (word_update ref u _ 4 0 Hok1) as [Hok2 E2]; [lia..|].
  unfold MapBufferUpdateStateBits in E2. change (Z.shiftl 0 14) with 0 in E2.
  rewrite !Z.ldiff_0_r in *.
  change (Z.lor MAPBUF_IO_IN_PROGRESS MAPBUF_IO_ERROR) with (Z.shiftl 6 14).
  change MAPBUF_IO_ERROR with (Z.shiftl 4 14). rewrite E1, E2.
  eexists. split_and!; [done|done|..]; rewrite Z.lor_spec, Z.ldiff_spec; cbn;
    by rewrite ?andb_true_r, ?orb_false_r, ?andb_false_r.
Qed.

Section fault.
Context {T F : Type} `{SuperStore T} `{FileLayerLaws F} (env : Env).
Local Abbreviation S := (MapState T F).
Implicit Types s : S.

(** The state in which a failed writeback leaves the buffer. *)
Lemma failed_write_run s i b f pg e :
  map_inv s → buffers (pool (ms_sys s)) !! i = Some b → pages (pool (ms_sys s)) !! i = Some pg →
  forknum b = Some f → bdirty b = true →
  fl_write (files s) (rnode b) UMBRA_METADATA_FORKNUM (page_number b) (page_bytes pg) = Err e →
  ∃ s' ref u fl', MapFlushBuffer env i s = (Err e, s') ∧
    in_progress (ms_sys s') = Some i ∧ word_ok ref u fl' ∧
    Z.testbit fl' 0 = true ∧ Z.testbit fl' 1 = true ∧
    buffers (pool (ms_sys s')) !! i = Some (with_state (word ref u fl') b).
Proof.
  intros Hinv Hb Hpg Hf Hd Hw. pose proof Hinv as [Hp Hc _ _ _].
  destruct (po_buf _ Hp i b Hb) as [Hs Hu _ Hio _].
  destruct (co_tag _ Hc i b f Hb Hf) as [Hpos _].
  destruct (u32_word _ Hs) as (ref & u & fl & Hsw & Hok).
  destruct (start_io 0 (state b)) as [s1|] eqn:Hst.
  2: { exfalso. unfold start_io in Hst. case_decide as Hg; [|done]. rewrite Z.land_0_r in Hg.
       destruct Hg as [Hg|Hg]; [|done]. apply has_flag_zero in Hg. unfold bdirty in Hd. congruence. }
  rewrite Hsw in Hst.
  destruct (start_io_word _ _ _ _ _ Hok Hst) as (fl' & Hs1 & Hok' & _ & H0' & H1' & _).
  set (b1 := with_state (word ref u fl') b).
  assert (wp (MapFlushBuffer env i) (λ _ _, False) (λ e' s', e' = e ∧
    in_progress (ms_sys s') = Some i ∧ buffers (pool (ms_sys s')) !! i = Some b1) s) as Hwp.
  { apply wp_bind, wp_on_sys. apply wp_bind, (wp_get_buf _ i b); [done|]. rewrite Hio, Hsw, Hst, Hs1.
    apply wp_bind, (wp_set_buf _ i pg); [done|]. cbn [at_sys].
    set (sys1 := progress (Some i) (upd (ms_sys s) i b1 pg (cache (pool (ms_sys s))) 0)).
    apply wp_bind, wp_modify, wp_ret. change (MkSys _ _ (Some i)) with sys1.
    assert (buffers (pool sys1) !! i = Some b1) as Hb1 by (by eapply upd_buf_at).
    apply wp_bind, wp_on_sys, (wp_get_buf _ i b1); [done|]. cbn [b1 with_state page_number].
    rewrite decide_False by lia. rewrite decide_False by (unfold MAP_BLOCK_SUPER; lia).
    apply wp_bind, wp_on_sys, (wp_get_page _ i pg); [by eapply upd_page_at|].
    apply wp_bind, wp_write_err with e; [done|]. done. }
  unfold wp in Hwp. destruct (MapFlushBuffer env i s) as [[|e'] s']; [done|].
  destruct Hwp as (-> & Hpr & Hbi). by exists s', ref, u, fl'.
Qed.

(** The invariant says nothing about relations without a trusted superblock. *)
Lemma detached_inv s (w : World T F) local :
  map_inv s → (∀ r f, trusted_size (w_store w) r f = None) →
  map_inv (MkMapState w (ms_sys s) local).
Proof.
  intros [Hp Hc Hf _ _] Hnone. split; [done..| |]; cbn [ms_world ms_sys].
  - intros r f n. by rewrite Hnone.
  - intros i b f pg n _ _ _. by rewrite Hnone.
Qed.
End fault.

(** ** Properties *)

(** C37: when the file layer fails to write a dirty page, the error
    leaves the buffer with its I/O flag set and owned by this backend, so every
    further attempt to write it, by any backend, finds it busy and waits.
    Only [MapAbortBufferIO] ends this: it clears the I/O flag and keeps the
    page dirty. *)
Theorem failed_write_wedges_buffer `{SuperStore T} `{FileLayerLaws F} env (s : MapState T F)
    i b f pg e :
  map_inv s → buffers (pool (ms_sys s)) !! i = Some b → pages (pool (ms_sys s)) !! i = Some pg →
  forknum b = Some f → bdirty b = true →
  fl_write (files s) (rnode b) UMBRA_METADATA_FORKNUM (page_number b) (page_bytes pg) = Err e →
  ∃ s', MapFlushBuffer env i s = (Err e, s') ∧
    (∀ bits, (MapStartBufferIO i bits (ms_sys s')).1 = Ok IoBusy) ∧
    ∃ sys b', MapAbortBufferIO (ms_sys s') = (Ok tt, sys) ∧ in_progress sys = None ∧
      buffers (pool sys) !! i = Some b' ∧ bdirty b' = true ∧
      has_flag (state b') MAPBUF_IO_IN_PROGRESS = false.
Proof.
  intros Hinv Hb Hpg Hf Hd Hw.
  destruct (failed_write_run env s i b f pg e) as (s' & ref & u & fl & Hrun & Hpr & Hok & H0' & H1' & Hbi);
    [done..|].
  exists s'. split; [done|]. split.
  - intros bits. unfold MapStartBufferIO, mbind, M_bind, get_buf. rewrite Hbi.
    cbn [with_state state]. by rewrite word_io_flag, H1' by done.
  - destruct (terminate_error_word ref u fl Hok) as (fl' & Ht & Hok' & Hd0 & Hi1).
    unfold MapAbortBufferIO, gets, mbind, M_bind, get_buf. rewrite Hpr, Hbi.
    cbn [with_state state]. rewrite word_io_flag, H1' by done.
    unfold MapTerminateBufferIO, update_state, mbind, M_bind, get_buf. rewrite Hbi.
    cbn [with_state state]. rewrite Ht.
    eexists _, (with_state (word ref u fl') b). split; [done|]. split; [done|].
    split; [cbn; by rewrite list_lookup_insert_eq by (by eapply lookup_lt_Some)|].
    rewrite bdirty_core. cbn [with_state state]. rewrite word_wflags, word_io_flag by done.
    split; congruence.
Qed.

(** The page of the published extension, in a server whose files are gone. *)
Definition lost_state : MapState MapSuperTable RefFiles :=
  MkMapState (MkWorld (MapSuperTableShmemInit 4 2) (MkRefFiles ∅) ∅ 0 0) (ms_sys demo_published) [].

Lemma lost_state_inv : map_inv lost_state.
Proof.
  unfold lost_state. apply detached_inv; [apply demo_published_ok|]. cbn [w_store].
  intros r f. unfold trusted_size. rewrite ss_find_spec by (by apply (init_table_wf 4 1)).
  assert (ss_map (MapSuperTableShmemInit 4 2) = ∅) as E by (vm_compute; exact eq_refl).
  by rewrite E, lookup_empty.
Qed.

Lemma failed_write_wedges_buffer_witness :
  ∃ s', MapFlushBuffer demo_env 0 lost_state = (Err rf_no_file, s') ∧
    (MapStartBufferIO 0 0 (ms_sys s')).1 = Ok IoBusy.
Proof.
  destruct (buffers (pool (ms_sys lost_state)) !! 0%nat) as [b|] eqn:Hb; [|by vm_compute in Hb].
  destruct (pages (pool (ms_sys lost_state)) !! 0%nat) as [pg|] eqn:Hpg; [|by vm_compute in Hpg].
  assert (forknum b = Some MAIN_FORKNUM ∧ bdirty b = true) as [Hf Hd].
  { clear Hpg. vm_compute in Hb. injection Hb as <-. vm_compute. split; exact eq_refl. }
  destruct (failed_write_wedges_buffer demo_env lost_state 0 b MAIN_FORKNUM pg rf_no_file
    lost_state_inv Hb Hpg Hf Hd eq_refl) as (s' & Hrun & Hbusy & _).
  exists s'. split; [exact Hrun|apply Hbusy].
Defined.

(** A relation of one block whose map page never reached the disk: the
    metadata fork has its four blocks, all but the superblock zero. *)
Definition torn_state : MapState MapSuperTable RefFiles :=
  let w := (MapSBlockBumpLogicalNblocks demo_env demo_rel MAIN_FORKNUM 1 96 demo_start).2 in
  let fs := match fl_zeroextend (w_files w) demo_rel UMBRA_METADATA_FORKNUM 1 3 with
            | Ok fs => fs
            | Err _ => w_files w
            end in
  MkMapState (set_files fs w) (init_sys 2) [].

