(* ===== verification/MapInflight.v ===== *)
(** * In-flight remaps

    Ownership of the map entries that are being remapped
    ([storage/map/mapinflight.c]): a shared bit per entry of a cached map page,
    and a private table of the entries this backend owns.  On top of it the
    reservation of a physical block for a logical block
    ([storage/map/map.c]). *)

From S2P Require Import Prelude MapLayout Superblock SuperTable FileLayer SBlock.
From S2P Require Import BufState MapBuf MapPage.

Local Open Scope Z_scope.

Record MapInflightBarrier := MkBarrier {
  valid : bool;
  slot_id : Z;
  entry_idx : Z;
}.

(** ** The shared bits *)

Definition word_idx (idx : Z) : nat := Z.to_nat (idx / MAP_PENDING_BITS_PER_WORD).

Definition MapInflightEntryMask (idx : Z) : Z :=
  u64 (Z.shiftl 1 (idx mod MAP_PENDING_BITS_PER_WORD)).

Definition pending_word (b : MapBufferDesc) (idx : Z) : Z :=
  default 0 (pending_bits b !! word_idx idx).

(** [(buf->pending_bits[word_idx] & mask) != 0] *)
Definition pending_bit (b : MapBufferDesc) (idx : Z) : bool :=
  bool_decide (Z.land (pending_word b idx) (MapInflightEntryMask idx) ≠ 0).

Definition claim_bit (idx : Z) (b : MapBufferDesc) : MapBufferDesc :=
  with_pending (pending_count b + 1)
    (<[word_idx idx := Z.lor (pending_word b idx) (MapInflightEntryMask idx)]> (pending_bits b)) b.

Definition release_bit (idx : Z) (b : MapBufferDesc) : MapBufferDesc :=
  with_pending (pending_count b - 1)
    (<[word_idx idx := Z.land (pending_word b idx)
                         (u64 (Z.lnot (MapInflightEntryMask idx)))]> (pending_bits b)) b.

(** The tag test of this file, which does not look at the sign. *)
Definition inflight_tag (b : MapBufferDesc) (r : RelFileLocator) (f : ForkNumber) (blk : Z)
    : bool :=
  bool_decide (page_number b = blk) && bool_decide (forknum b = Some f) &&
  bool_decide (rnode b = r).

Definition MapInflightBufferTryClaim (r : RelFileLocator) (f : ForkNumber) (blk : Z)
    (slot : nat) (idx : Z) : M BufSys bool :=
  b ← get_buf slot;
  if inflight_tag b r f blk && negb (pending_bit b idx)
  then set_buf slot (claim_bit idx b);; mret true
  else mret false.

Definition MapInflightBufferRelease (slot : nat) (idx : Z) : M BufSys unit :=
  b ← get_buf slot;
  (if pending_bit b idx then set_buf slot (release_bit idx b) else mret tt);;
  MapUnpinBuffer slot.

(** ** The backend's own table *)

Definition local_key (e : LocalEntry) : RelFileLocator * ForkNumber * Z :=
  (le_rnode e, le_fork e, le_lblkno e).

Definition MapInflightLocalFind (r : RelFileLocator) (f : ForkNumber) (l : Z)
    (es : list LocalEntry) : option (nat * LocalEntry) :=
  list_find (λ e, local_key e = (r, f, l)) es.

Definition MapInflightLocalRememberPrepared (r : RelFileLocator) (f : ForkNumber) (l p : Z)
    (slot : nat) (idx : Z) (es : list LocalEntry) : list LocalEntry :=
  es ++ [MkLocal r f l p slot idx].

(** The last entry moves into the hole. *)
Definition MapInflightLocalForget (r : RelFileLocator) (f : ForkNumber) (l : Z)
    (es : list LocalEntry) : list LocalEntry :=
  match MapInflightLocalFind r f l es with
  | None => es
  | Some (i, _) =>
      let count := (length es - 1)%nat in
      match es !! count with
      | Some e => take count (<[i := e]> es)
      | None => es
      end
  end.

Definition with_pblkno (p : Z) (e : LocalEntry) : LocalEntry :=
  MkLocal (le_rnode e) (le_fork e) (le_lblkno e) p (le_slot e) (le_idx e).

Definition claim_owned : pg_error :=
  PgError ERROR ERRCODE_INTERNAL_ERROR
    "cannot claim write barrier while owning in-flight remap".
Definition claim_disappeared : pg_error :=
  PgError ERROR ERRCODE_INTERNAL_ERROR "in-flight remap claim disappeared".

Section ops.
Context {T F : Type} `{SuperStore T} `{FileLayer F} (env : Env).
Local Abbreviation S := (MapState T F).

Definition on_local (g : list LocalEntry → list LocalEntry) : M S unit :=
  modify (λ s : S, MkMapState (ms_world s) (ms_sys s) (g (ms_local s))).

Definition MapInflightLookupOwnedPblk (r : RelFileLocator) (f : ForkNumber) (l : Z)
    : M S (option Z) :=
  gets (λ s, match MapInflightLocalFind r f l (ms_local s) with
             | Some (_, e) =>
                 if decide (le_pblkno e = InvalidBlockNumber) then None else Some (le_pblkno e)
             | None => None
             end).

(** [None] is the [false] return. *)
Definition MapInflightTryClaimBarrier (r : RelFileLocator) (f : ForkNumber) (l : Z)
    : M S (option MapInflightBarrier) :=
  es ← gets ms_local;
  match MapInflightLocalFind r f l es with
  | Some _ => throw claim_owned
  | None =>
      loc ← lift (entry_location f l);
      slot ← MapReadBuffer env r f loc.1;
      claimed ← on_sys (MapInflightBufferTryClaim r f loc.1 slot loc.2);
      if (claimed : bool) then mret (Some (MkBarrier true (Z.of_nat slot) loc.2))
      else on_sys (MapUnpinBuffer slot);; mret None
  end.

Definition MapInflightReleaseBarrier (br : MapInflightBarrier) : M S MapInflightBarrier :=
  if valid br then
    on_sys (MapInflightBufferRelease (Z.to_nat (slot_id br)) (entry_idx br));;
    mret (MkBarrier false (-1) (-1))
  else mret br.

Definition MapInflightTryClaim (r : RelFileLocator) (f : ForkNumber) (l : Z) : M S bool :=
  es ← gets ms_local;
  match MapInflightLocalFind r f l es with
  | Some _ => mret false
  | None =>
      loc ← lift (entry_location f l);
      slot ← MapReadBuffer env r f loc.1;
      claimed ← on_sys (MapInflightBufferTryClaim r f loc.1 slot loc.2);
      if (claimed : bool) then
        on_local (MapInflightLocalRememberPrepared r f l InvalidBlockNumber slot loc.2);;
        mret true
      else on_sys (MapUnpinBuffer slot);; mret false
  end.

Definition MapInflightFinishClaim (r : RelFileLocator) (f : ForkNumber) (l p : Z) : M S unit :=
  es ← gets ms_local;
  match MapInflightLocalFind r f l es with
  | None => throw claim_disappeared
  | Some (i, _) => on_local (alter (with_pblkno p) i)
  end.

Definition MapInflightRelease (r : RelFileLocator) (f : ForkNumber) (l : Z) : M S unit :=
  es ← gets ms_local;
  match MapInflightLocalFind r f l es with
  | None => mret tt
  | Some (_, e) =>
      on_local (MapInflightLocalForget r f l);;
      on_sys (MapInflightBufferRelease (le_slot e) (le_idx e))
  end.

Definition MapInflightBitIsSet (r : RelFileLocator) (f : ForkNumber) (l : Z) : M S bool :=
  loc ← lift (entry_location f l);
  cached ← on_sys (MapCacheLookup r f loc.1);
  match cached with
  | None => mret false
  | Some slot =>
      on_sys (MapPinBuffer slot false);;
      b ← on_sys (get_buf slot);
      on_sys (MapUnpinBuffer slot);;
      mret (inflight_tag b r f loc.1 && pending_bit b loc.2)
  end.

(** Every turn removes one entry of the table: its length is enough fuel. *)
Fixpoint cleanup_loop (fuel : nat) : M S unit :=
  es ← gets ms_local;
  match es, fuel with
  | [], _ => mret tt
  | _ :: _, O => throw retrying
  | e :: _, Datatypes.S fuel =>
      MapInflightRelease (le_rnode e) (le_fork e) (le_lblkno e);;
      cleanup_loop fuel
  end.

Definition MapInflightCleanupOwned : M S unit :=
  es ← gets ms_local; cleanup_loop (length es).

(** ** Reservation of a physical block *)

(** [got_lock]: whether a [nowait] caller obtained the entry lock. *)
Definition MapTryReserveFreshPblknoInternal (r : RelFileLocator) (f : ForkNumber) (l : Z)
    (got_lock : bool) : M S (option Z) :=
  if negb (MapForkHasMappedState f) then mret None
  else
    loaded ← on_world (MapSBlockEnsureLoaded r);
    if negb loaded then mret None
    else
      claimed ← MapInflightTryClaim r f l;
      if negb claimed then mret None
      else
        o ← catch
              (o ← on_world (reserve_frontier env r f got_lock);
               match o with
               | Some next => MapInflightFinishClaim r f l next;; mret (Some next)
               | None => mret None
               end)
              (λ e, MapInflightRelease r f l;; throw e);
        match o with
        | Some next => mret (Some next)
        | None => MapInflightRelease r f l;; mret None
        end.

Definition MapTryReserveFreshPblkno := MapTryReserveFreshPblknoInternal.

Definition MapReserveNextPblkno (r : RelFileLocator) (f : ForkNumber) (l : Z)
    (got_lock : bool) : M S (option Z) :=
  owned ← MapInflightLookupOwnedPblk r f l;
  match owned with
  | Some p => mret (Some p)
  | None =>
      fresh ← MapTryReserveFreshPblknoInternal r f l got_lock;
      match fresh with
      | Some p => mret (Some p)
      | None => MapInflightLookupOwnedPblk r f l
      end
  end.
End ops.
