(* ===== verification/MapInflightSpec.v ===== *)
(** * In-flight remaps exclude each other

    Claims and releases of several backends on one pool of map buffers, with
    lookups and remaps of any entry in between: the shared bits are exactly
    the claims the backends hold, no entry is owned twice, and a page with an
    owned entry stays in its buffer. *)

From S2P Require Import Prelude MapLayout Superblock SuperTable FileLayer SBlock SBlockInv.
From S2P Require Import SBlockSafety SBlockSpec.
From S2P Require Import BufState MapBuf MapClock PoolInv MapPage MapPageSpec MapEntries MapInflight.

Local Open Scope Z_scope.

(** ** Bits *)

Lemma mask_pow idx : MapInflightEntryMask idx = 2 ^ (idx mod 64).
Proof.
  unfold MapInflightEntryMask, MAP_PENDING_BITS_PER_WORD.
  pose proof (Z.mod_pos_bound idx 64 ltac:(lia)) as Hm.
  rewrite Z.shiftl_mul_pow2, Z.mul_1_l by lia. apply u64_small.
  split; [apply Z.pow_nonneg; lia|apply Z.pow_lt_mono_r; lia].
Qed.

Lemma pending_bit_testbit b idx :
  pending_bit b idx = Z.testbit (pending_word b idx) (idx mod 64).
Proof.
  unfold pending_bit. rewrite mask_pow. pose proof (Z.mod_pos_bound idx 64 ltac:(lia)) as Hm.
  destruct (Z.testbit (pending_word b idx) (idx mod 64)) eqn:Ht.
  - apply bool_decide_eq_true_2. intros Hz.
    assert (Z.testbit (Z.land (pending_word b idx) (2 ^ (idx mod 64))) (idx mod 64) = true) as Hb.
    { by rewrite Z.land_spec, Ht, Z.pow2_bits_true by lia. }
    by rewrite Hz, Z.bits_0 in Hb.
  - apply bool_decide_eq_false_2. intros Hz. apply Hz. apply Z.bits_inj'. intros n Hn.
    rewrite Z.bits_0, Z.land_spec. destruct (decide (n = idx mod 64)) as [->|Hne].
    + by rewrite Ht.
    + rewrite Z.pow2_bits_false by lia. apply andb_false_r.
Qed.

Definition is_entry (idx : Z) : Prop := 0 ≤ idx < 2048.

Lemma set_word_bit b c idx v j :
  length (pending_bits b) = 32%nat → is_entry idx → is_entry j →
  pending_bit (with_pending c (<[word_idx idx := v]> (pending_bits b)) b) j =
    if decide (j / 64 = idx / 64) then Z.testbit v (j mod 64) else pending_bit b j.
Proof.
  intros Hlen Hi Hj. rewrite !pending_bit_testbit. unfold pending_word, word_idx.
  change MAP_PENDING_BITS_PER_WORD with 64. cbn [with_pending pending_bits]. unfold is_entry in *.
  case_decide as Heq.
  - rewrite Heq, list_lookup_insert_eq; [done|]. rewrite Hlen. ulia.
  - rewrite list_lookup_insert_ne; [done|]. ulia.
Qed.

Lemma entry_split j idx : j / 64 = idx / 64 → j mod 64 = idx mod 64 → j = idx.
Proof. ulia. Qed.

Lemma claim_bit_spec b idx j :
  length (pending_bits b) = 32%nat → is_entry idx → is_entry j →
  pending_bit (claim_bit idx b) j = bool_decide (j = idx) || pending_bit b j.
Proof.
  intros Hlen Hi Hj. unfold claim_bit. rewrite set_word_bit by done.
  case_decide as Heq; [|rewrite bool_decide_eq_false_2; [done|by intros ->]].
  rewrite Z.lor_spec, mask_pow. pose proof (Z.mod_pos_bound idx 64 ltac:(lia)).
  rewrite pending_bit_testbit. unfold pending_word, word_idx. change MAP_PENDING_BITS_PER_WORD with 64.
  rewrite <-Heq. case_bool_decide as Hc; [subst; rewrite Z.pow2_bits_true by lia; apply orb_true_r|].
  rewrite Z.pow2_bits_false; [apply orb_false_r|]. intros Hm. apply Hc. by apply entry_split.
Qed.

Lemma release_bit_spec b idx j :
  length (pending_bits b) = 32%nat → is_entry idx → is_entry j →
  pending_bit (release_bit idx b) j = negb (bool_decide (j = idx)) && pending_bit b j.
Proof.
  intros Hlen Hi Hj. unfold release_bit. rewrite set_word_bit by done.
  case_decide as Heq; [|rewrite (bool_decide_eq_false_2 (j = idx)); [done|by intros ->]].
  rewrite Z.land_spec, mask_pow. pose proof (Z.mod_pos_bound idx 64 ltac:(lia)).
  pose proof (Z.mod_pos_bound j 64 ltac:(lia)). unfold u64.
  rewrite Z.mod_pow2_bits_low, Z.lnot_spec by lia.
  rewrite pending_bit_testbit. unfold pending_word, word_idx. change MAP_PENDING_BITS_PER_WORD with 64.
  rewrite <-Heq. case_bool_decide as Hc; [subst; rewrite Z.pow2_bits_true by lia; apply andb_false_r|].
  rewrite Z.pow2_bits_false; [apply andb_true_r|]. intros Hm. apply Hc. by apply entry_split.
Qed.

Lemma zero_pending_bit b idx : pending_bits b = zero_pending → pending_bit b idx = false.
Proof.
  intros Hz. rewrite pending_bit_testbit. unfold pending_word. rewrite Hz. unfold zero_pending.
  destruct (replicate MAP_PENDING_BITMAP_WORDS 0 !! word_idx idx) eqn:Hl; [|apply Z.bits_0].
  apply lookup_replicate in Hl as [-> _]. apply Z.bits_0.
Qed.

(** ** Backends on one pool *)

(** Pins, owned remaps and write barriers of one backend. *)
Record Backend := MkBackend {
  bk_private : list Z;
  bk_local : list LocalEntry;
  bk_barriers : list (nat * Z);
}.

Definition bk_pins (i : nat) (k : Backend) : Z := default 0 (bk_private k !! i).

(** The map entries it holds, as buffer slot and index. *)
Definition bk_holds (k : Backend) : list (nat * Z) :=
  ((λ e, (le_slot e, le_idx e)) <$> bk_local k) ++ bk_barriers k.

Definition holders (ks : list Backend) : list (nat * Z) := ks ≫= bk_holds.
Definition total_pins (i : nat) (ks : list Backend) : Z :=
  foldr (λ k n, bk_pins i k + n) 0 ks.

(** How many entries of buffer [i] are held. *)
Definition held_at (i : nat) (hs : list (nat * Z)) : Z :=
  Z.of_nat (length (filter (λ h, h.1 = i) hs)).

Lemma held_at_cons i h hs : held_at i (h :: hs) = held_at i hs + if decide (h.1 = i) then 1 else 0.
Proof. unfold held_at. rewrite list.filter_cons. case_decide; cbn [length]; lia. Qed.

Lemma held_at_app i hs hs' : held_at i (hs ++ hs') = held_at i hs + held_at i hs'.
Proof. unfold held_at. rewrite list.filter_app, length_app. lia. Qed.

Lemma held_at_perm i hs hs' : hs ≡ₚ hs' → held_at i hs = held_at i hs'.
Proof. intros Hp. unfold held_at. by rewrite Hp. Qed.

Lemma held_at_pos i hs : 0 ≤ held_at i hs.
Proof. unfold held_at. lia. Qed.

Lemma held_at_in i idx hs : (i, idx) ∈ hs → 0 < held_at i hs.
Proof.
  intros Hin. unfold held_at. assert ((i, idx) ∈ filter (λ h, h.1 = i) hs) as Hf
    by (by apply list_elem_of_filter). destruct (filter _ hs); [by apply not_elem_of_nil in Hf|]. cbn; lia.
Qed.

Lemma held_at_none i hs : held_at i hs = 0 → ∀ idx, (i, idx) ∉ hs.
Proof. intros Hz idx Hin%held_at_in. lia. Qed.

Lemma holders_cons k ks : holders (k :: ks) = bk_holds k ++ holders ks.
Proof. done. Qed.

Lemma holds_local k e : e ∈ bk_local k → (le_slot e, le_idx e) ∈ bk_holds k.
Proof.
  intros He. apply elem_of_app. left. apply list_elem_of_fmap. by exists e.
Qed.

Lemma holders_in k ks h : k ∈ ks → h ∈ bk_holds k → h ∈ holders ks.
Proof. intros Hk Hh. apply list_elem_of_bind. by exists k. Qed.

#[global] Instance holders_perm : Proper ((≡ₚ) ==> (≡ₚ)) holders.
Proof. intros ks ks' Hp. unfold holders. by rewrite Hp. Qed.

Lemma total_pins_perm i ks ks' : ks ≡ₚ ks' → total_pins i ks = total_pins i ks'.
Proof. unfold total_pins. induction 1; cbn [foldr]; lia. Qed.

(** ** The private table *)

Lemma local_find_none r f l es e :
  MapInflightLocalFind r f l es = None → e ∈ es → local_key e ≠ (r, f, l).
Proof. intros Hf%list_find_None He. by eapply list.Forall_forall in Hf. Qed.

Lemma local_find_some r f l es i e :
  MapInflightLocalFind r f l es = Some (i, e) → es !! i = Some e ∧ local_key e = (r, f, l).
Proof. intros Hf. apply list_find_Some in Hf as (? & ? & _). done. Qed.

Lemma replace_perm {A} (es : list A) i e y : es !! i = Some e → y :: es ≡ₚ e :: <[i := y]> es.
Proof.
  intros He. rewrite <-(take_drop_middle es i e He) at 1.
  rewrite insert_take_drop by (by eapply lookup_lt_Some). solve_Permutation.
Qed.

Lemma local_forget r f l es i e :
  MapInflightLocalFind r f l es = Some (i, e) → es ≡ₚ e :: MapInflightLocalForget r f l es.
Proof.
  intros Hf. unfold MapInflightLocalForget. rewrite Hf.
  apply local_find_some in Hf as [He _]. pose proof (lookup_lt_Some _ _ _ He) as Hi.
  destruct (es !! (length es - 1)%nat) as [x|] eqn:Hx.
  2: { apply lookup_ge_None in Hx. lia. }
  destruct es as [|y es _] using rev_ind; [done|]. rewrite length_app in *. cbn [length] in *.
  replace (length es + 1 - 1)%nat with (length es) in * by lia.
  rewrite list_lookup_middle in Hx by done. injection Hx as <-.
  destruct (decide (i = length es)) as [->|Hne].
  - rewrite list_lookup_middle in He by done. injection He as <-.
    rewrite insert_app_r_alt, Nat.sub_diag by lia. cbn. rewrite take_app_length. solve_Permutation.
  - rewrite lookup_app_l in He by lia. rewrite insert_app_l by lia.
    rewrite take_app_le by (rewrite length_insert; lia).
    rewrite take_ge, <-(replace_perm es i e y) by (done || rewrite length_insert; lia).
    solve_Permutation.
Qed.

Section server.
Context {T F : Type} `{SuperStore T} `{FileLayerLaws F} (env : Env).
Local Abbreviation S := (MapState T F).
Implicit Types (s : S) (w : World T F) (p : MapPool).

Definition view w p (k : Backend) : S := MkMapState w (MkSys p (bk_private k) None) (bk_local k).

(** The claim bits of buffer [i] are the entries held. *)
Record marked (hs : list (nat * Z)) (i : nat) (b : MapBufferDesc) : Prop := {
  mk_words : length (pending_bits b) = 32%nat;
  mk_count : pending_count b = held_at i hs;
  mk_bits : ∀ idx, is_entry idx → pending_bit b idx = bool_decide ((i, idx) ∈ hs);
}.

(** An owned remap names the entry of the page in its buffer. *)
Definition owns p (e : LocalEntry) : Prop :=
  ∃ blk b, entry_location (le_fork e) (le_lblkno e) = Ok (blk, le_idx e) ∧
    buffers p !! le_slot e = Some b ∧ tagged b (le_rnode e, le_fork e, blk).

Record server_inv w p (ks : list Backend) : Prop := {
  si_map : ∀ k, k ∈ ks → map_inv (view w p k);
  si_pins : ∀ i b, buffers p !! i = Some b → total_pins i ks ≤ MAPBUF_GET_REFCOUNT (state b);
  si_nodup : NoDup (holders ks);
  si_marked : ∀ i b, buffers p !! i = Some b → marked (holders ks) i b;
  si_range : ∀ i idx, (i, idx) ∈ holders ks → is_entry idx ∧ is_Some (buffers p !! i);
  si_owns : ∀ k e, k ∈ ks → e ∈ bk_local k → owns p e;
  si_held : ∀ k i, k ∈ ks → held_at i (bk_holds k) ≤ bk_pins i k;
}.

Lemma server_inv_perm w p ks ks' : ks ≡ₚ ks' → server_inv w p ks → server_inv w p ks'.
Proof.
  intros Hp [Hm Hpi Hnd Hmk Hr Ho Hh].
  assert (holders ks ≡ₚ holders ks') as Hph by (by rewrite Hp).
  split.
  - intros k. rewrite <-Hp. apply Hm.
  - intros i b Hb. rewrite <-(total_pins_perm i _ _ Hp). by apply Hpi.
  - by rewrite <-Hph.
  - intros i b Hb. destruct (Hmk i b Hb) as [Hw Hc Hbits].
    split; [done|by rewrite <-(held_at_perm i _ _ Hph)|].
    intros idx Hi. rewrite Hbits by done. apply bool_decide_ext. by rewrite Hph.
  - intros i idx. rewrite <-Hph. apply Hr.
  - intros k e. rewrite <-Hp. apply Ho.
  - intros k i. rewrite <-Hp. apply Hh.
Qed.

(** ** The running backend and the others *)

Definition bk_of s (bars : list (nat * Z)) : Backend :=
  MkBackend (private_ref (ms_sys s)) (ms_local s) bars.

Definition shared (ks : list Backend) (bars : list (nat * Z)) s : Prop :=
  in_progress (ms_sys s) = None ∧
  server_inv (ms_world s) (pool (ms_sys s)) (bk_of s bars :: ks).

Lemma view_of s bars :
  in_progress (ms_sys s) = None → view (ms_world s) (pool (ms_sys s)) (bk_of s bars) = s.
Proof. destruct s as [w [p pr o] l]. cbn. by intros ->. Qed.

Lemma shared_map ks bars s : shared ks bars s → map_inv s.
Proof.
  intros [Hid Hinv]. rewrite <-(view_of s bars) by done. apply (si_map _ _ _ Hinv). by left.
Qed.

Lemma map_inv_view w p k k' :
  map_inv (view w p k) → length (bk_private k') = length (buffers p) →
  (∀ i b, buffers p !! i = Some b → 0 ≤ bk_pins i k' ≤ MAPBUF_GET_REFCOUNT (state b)) →
  map_inv (view w p k').
Proof.
  intros [[Hck Hfr Hpg Hpr Hpo Hbuf Hid] [Hf Ht] Hfk He Ha] Hlen Hpins.
  split; [|by split|done|done|done]. split; [by destruct Hck; split|by destruct Hfr; split|done|done|done| |done].
  intros i b Hb. destruct (Hbuf i b Hb) as [? ? _ ? ?]. split; [done..| |done|done]. by apply Hpins.
Qed.

Lemma pins_nonneg w p k i : map_inv (view w p k) → 0 ≤ bk_pins i k.
Proof. intros Hi. apply (private_nonneg _ i (mi_pool _ Hi)). Qed.

Lemma total_pins_pos w p ks i : (∀ k, k ∈ ks → map_inv (view w p k)) → 0 ≤ total_pins i ks.
Proof.
  unfold total_pins. induction ks as [|k ks IH]; intros Hm; cbn [foldr]; [done|].
  pose proof (pins_nonneg w p k i (Hm k ltac:(by left))).
  specialize (IH ltac:(intros k' Hk'; apply Hm; by right)). lia.
Qed.

Lemma pins_le_total w p ks i k :
  (∀ k, k ∈ ks → map_inv (view w p k)) → k ∈ ks → bk_pins i k ≤ total_pins i ks.
Proof.
  unfold total_pins. induction ks as [|k' ks IH]; intros Hm Hk; [by apply not_elem_of_nil in Hk|].
  cbn [foldr]. pose proof (pins_nonneg w p k' i (Hm k' ltac:(by left))).
  assert (∀ k, k ∈ ks → map_inv (view w p k)) as Hm' by (intros x Hx; apply Hm; by right).
  pose proof (total_pins_pos w p ks i Hm') as Ht. unfold total_pins in Ht.
  apply elem_of_cons in Hk as [->|Hk]; [lia|]. specialize (IH Hm' Hk). lia.
Qed.

Lemma keeps_back (s1 s2 : BufSys) j b' :
  keeps s1 s2 → buffers (pool s2) !! j = Some b' → ∃ b, buffers (pool s1) !! j = Some b ∧
    MAPBUF_GET_REFCOUNT (state b') - private_count j s2 =
      MAPBUF_GET_REFCOUNT (state b) - private_count j s1 ∧ same_marks b b'.
Proof.
  intros [Hl Hk] Hb'. assert (j < length (buffers (pool s1)))%nat as Hj.
  { rewrite <-Hl. by eapply lookup_lt_Some. }
  apply lookup_lt_is_Some in Hj as [b Hb]. exists b. split; [done|].
  destruct (Hk j b Hb) as (x & Hx & ?). by simplify_eq.
Qed.

Lemma marked_same hs i b b' : same_marks b b' → marked hs i b → marked hs i b'.
Proof.
  intros [Hc Hm] [Hw Hcnt Hb]. destruct Hm as [(_ & _ & _ & Hp)|[Hz Hp]].
  - split; [by rewrite Hp|congruence|]. intros idx Hi. rewrite <-Hb by done.
    unfold pending_bit, pending_word. by rewrite Hp.
  - split; [by rewrite Hp|congruence|]. intros idx Hi. rewrite zero_pending_bit by done.
    symmetry. apply bool_decide_eq_false_2, held_at_none. congruence.
Qed.

Lemma owns_same hs e (s1 s2 : BufSys) :
  owns (pool s1) e → keeps s1 s2 → (∀ i b, buffers (pool s1) !! i = Some b → marked hs i b) →
  (le_slot e, le_idx e) ∈ hs → owns (pool s2) e.
Proof.
  intros (blk & b & Hloc & Hb & Ht) Hk Hmk Hin.
  destruct (proj2 Hk _ b Hb) as (b' & Hb' & _ & Hsm).
  exists blk, b'. split_and!; [done|done|]. destruct Hsm as [_ [(Er & Ef & Ep & _)|[Hz _]]].
  - unfold tagged in *. intuition congruence.
  - exfalso. rewrite (mk_count _ _ _ (Hmk _ b Hb)) in Hz. by apply (held_at_none _ _ Hz (le_idx e)).
Qed.

(** Operations that keep what belongs to others and the claims. *)
Lemma shared_frame ks bars s s' :
  shared ks bars s → map_inv s' → ms_local s' = ms_local s → keeps (ms_sys s) (ms_sys s') →
  (∀ j, held_at j (bk_holds (bk_of s bars)) ≤ private_count j (ms_sys s')) →
  shared ks bars s'.
Proof.
  intros Hsh Hi' Hlo Hk Hh. pose proof (shared_map _ _ _ Hsh) as Hi.
  destruct Hsh as [Hid [Hm Hpi Hnd Hmk Hr Ho Hhd]].
  assert (bk_holds (bk_of s' bars) = bk_holds (bk_of s bars)) as Hbh
    by (unfold bk_holds; cbn; by rewrite Hlo).
  assert (holders (bk_of s' bars :: ks) = holders (bk_of s bars :: ks)) as Hhs
    by (by rewrite !holders_cons, Hbh).
  assert (∀ k, k ∈ ks → map_inv (view (ms_world s) (pool (ms_sys s)) k)) as Hmk'
    by (intros k Hin; apply Hm; by right).
  pose proof (po_idle _ (mi_pool _ Hi')) as Hid'. split; [done|]. split; rewrite ?Hhs.
  - intros k [->|Hin]%elem_of_cons; [by rewrite view_of|].
    apply (map_inv_view _ _ (bk_of s' bars)); [by rewrite view_of| |].
    { destruct (Hmk' k Hin) as [[? ? ? Hpr ? ? ?] ? ? ? ?]. rewrite (proj1 Hk). apply Hpr. }
    intros i b' Hb'. destruct (keeps_back _ _ i b' Hk Hb') as (b & Hb & Href & _).
    split; [by apply (pins_nonneg _ _ _ _ (Hmk' k Hin))|]. specialize (Hpi i b Hb).
    pose proof (pins_le_total _ _ ks i k Hmk' Hin). pose proof (private_nonneg _ i (mi_pool _ Hi')).
    unfold total_pins in *. cbn [foldr] in Hpi. change (bk_pins i (bk_of s bars))
      with (private_count i (ms_sys s)) in Hpi. lia.
  - intros i b' Hb'. destruct (keeps_back _ _ i b' Hk Hb') as (b & Hb & Href & _).
    specialize (Hpi i b Hb). unfold total_pins in *. cbn [foldr] in *.
    change (bk_pins i (bk_of s bars)) with (private_count i (ms_sys s)) in Hpi.
    change (bk_pins i (bk_of s' bars)) with (private_count i (ms_sys s')). lia.
  - done.
  - intros i b' Hb'. destruct (keeps_back _ _ i b' Hk Hb') as (b & Hb & _ & Hsm).
    eapply marked_same; [done|by apply Hmk].
  - intros i idx Hin. destruct (Hr i idx Hin) as [? [b Hb]]. split; [done|].
    destruct (proj2 Hk i b Hb) as (b' & Hb' & _). by exists b'.
  - intros k e Hin He.
    assert (∃ k0, k0 ∈ bk_of s bars :: ks ∧ e ∈ bk_local k0) as (k0 & Hk0 & He0).
    { apply elem_of_cons in Hin as [->|Hin]; [exists (bk_of s bars)|exists k].
      - split; [by left|]. cbn in *. by rewrite <-Hlo.
      - split; [by right|done]. }
    eapply (owns_same (holders (bk_of s bars :: ks))); [by eapply Ho|done|done|].
    by eapply holders_in, holds_local.
  - intros k i [->|Hin]%elem_of_cons; [rewrite Hbh; apply Hh|apply Hhd; by right].
Qed.

(** ** Changing the bits of one buffer *)

Definition set_slot p (i : nat) (b : MapBufferDesc) : MapPool :=
  set_buffers (<[i := b]> (buffers p)) p.

Lemma set_slot_lookup p i b c bits j x :
  buffers p !! i = Some b → buffers (set_slot p i (with_pending c bits b)) !! j = Some x →
  (j = i ∧ x = with_pending c bits b) ∨ (j ≠ i ∧ buffers p !! j = Some x).
Proof.
  intros Hb Hx. cbn in Hx. apply list_lookup_insert_Some in Hx as [(<- & <- & _)|[Hne Hx]]; auto.
Qed.

(** The map does not depend on the bits. *)
Lemma map_inv_pending w p k i b c bits :
  map_inv (view w p k) → buffers p !! i = Some b →
  map_inv (view w (set_slot p i (with_pending c bits b)) k).
Proof.
  intros [Hp Hc Hf He Ha] Hb. cbn [view ms_sys] in *.
  destruct (pages p !! i) as [pg|] eqn:Hpg.
  2: { apply lookup_ge_None in Hpg. pose proof (po_pages _ Hp). cbn in *.
       apply lookup_lt_Some in Hb. lia. }
  set (b' := with_pending c bits b).
  assert (view w (set_slot p i b') k =
    MkMapState w (upd (MkSys p (bk_private k) None) i b' pg (cache p) 0) (bk_local k)) as ->.
  { unfold view, upd, set_slot, set_pages, set_cache, set_buffers. cbn. f_equal. f_equal.
    - by rewrite (list_insert_id (pages p)).
    - symmetry. apply list_alter_id. intros x. lia. }
  split; cbn [ms_sys ms_world]; try done.
  - apply upd_pool_ok with b; [done..|by apply (po_page _ Hp i)|]. rewrite Z.add_0_r.
    destruct (po_buf _ Hp i b Hb). by split.
  - by apply (upd_cache_ok (MkSys p (bk_private k) None) i b).
  - intros j x f [[-> ->]|[_ Hj]]%upd_lookup Hx; [by apply (Hf i b)|by eapply Hf].
  - intros j x f q n Hj Hx Hq Hn. cbn in Hq. rewrite (list_insert_id (pages p)) in Hq by done.
    apply upd_lookup in Hj as [[-> ->]|[_ Hj]]; [by apply (Ha i b)|by eapply Ha].
Qed.

Lemma set_slot_some p i b j :
  is_Some (buffers (set_slot p i b) !! j) ↔ is_Some (buffers p !! j).
Proof. rewrite !lookup_lt_is_Some. cbn. by rewrite length_insert. Qed.

(** One entry of buffer [i] more or less. *)
Lemma marked_other hs hs' i idx j x :
  hs' ≡ₚ (i, idx) :: hs → j ≠ i → marked hs j x ↔ marked hs' j x.
Proof.
  intros Hhs Hne.
  assert (held_at j hs' = held_at j hs) as Hc.
  { rewrite (held_at_perm _ _ _ Hhs), held_at_cons, decide_False by (cbn; congruence). lia. }
  assert (∀ y, (j, y) ∈ hs' ↔ (j, y) ∈ hs) as Hin.
  { intros y. rewrite Hhs, elem_of_cons. naive_solver. }
  split; intros [Hw Hcnt Hb]; (split; [done|congruence|]);
    intros y Hy; rewrite Hb by done; by apply bool_decide_ext.
Qed.

Lemma marked_claim hs hs' i idx b :
  hs' ≡ₚ (i, idx) :: hs → is_entry idx → marked hs i b → marked hs' i (claim_bit idx b).
Proof.
  intros Hhs Hi [Hw Hc Hb]. split; [cbn; by rewrite length_insert|..].
  - rewrite (held_at_perm _ _ _ Hhs), held_at_cons, decide_True by done.
    cbn [claim_bit with_pending pending_count]. lia.
  - intros x Hx. rewrite claim_bit_spec, Hb by done. rewrite <-bool_decide_or.
    apply bool_decide_ext. rewrite Hhs, elem_of_cons. naive_solver.
Qed.

Lemma marked_release hs hs' i idx b :
  hs ≡ₚ (i, idx) :: hs' → NoDup hs → is_entry idx → marked hs i b →
  pending_bit b idx = true ∧ marked hs' i (release_bit idx b).
Proof.
  intros Hhs Hnd Hi [Hw Hc Hb]. rewrite Hhs in Hnd.
  apply list.NoDup_cons in Hnd as [Hnew _]. split.
  { rewrite Hb by done. apply bool_decide_eq_true_2. rewrite Hhs. by left. }
  split; [cbn; by rewrite length_insert|..].
  - rewrite (held_at_perm _ _ _ Hhs), held_at_cons, decide_True in Hc by done.
    cbn [release_bit with_pending pending_count]. lia.
  - intros x Hx. rewrite release_bit_spec, Hb by done.
    rewrite <-bool_decide_not, <-bool_decide_and.
    apply bool_decide_ext. rewrite Hhs, elem_of_cons. naive_solver.
Qed.

Section bits.
Context (w : World T F) (p : MapPool) (k k' : Backend) (ks : list Backend).
Context (i : nat) (b : MapBufferDesc) (idx : Z).
Context (Hb : buffers p !! i = Some b) (Hidx : is_entry idx).
Context (Hpr : bk_private k' = bk_private k).
Context (Hinv : server_inv w p (k :: ks)).

Lemma owns_slot c bits e : owns p e → owns (set_slot p i (with_pending c bits b)) e.
Proof using Hb.
  intros (blk & x & Hloc & Hx & Ht). destruct (decide (le_slot e = i)) as [He|Hne].
  - exists blk, (with_pending c bits b). rewrite He in *. simplify_eq.
    split_and!; [done| |done]. cbn. apply list_lookup_insert_eq. by eapply lookup_lt_Some.
  - exists blk, x. split_and!; [done| |done]. cbn. by rewrite list_lookup_insert_ne.
Qed.

(** What does not depend on which entries are held. *)
Lemma server_bits c bits :
  let p' := set_slot p i (with_pending c bits b) in
  (∀ x, x ∈ k' :: ks → map_inv (view w p' x)) ∧
  (∀ j x, buffers p' !! j = Some x → total_pins j (k' :: ks) ≤ MAPBUF_GET_REFCOUNT (state x)).
Proof using Hb Hpr Hinv.
  intros p'. split.
  - intros x Hx. apply map_inv_pending; [|done]. apply elem_of_cons in Hx as [->|Hx].
    + assert (view w p k' = MkMapState w (MkSys p (bk_private k) None) (bk_local k')) as ->
        by (unfold view; by rewrite Hpr). destruct (si_map _ _ _ Hinv k ltac:(by left)). by split.
    + apply (si_map _ _ _ Hinv). by right.
  - intros j x Hx. assert (total_pins j (k' :: ks) = total_pins j (k :: ks)) as ->.
    { unfold total_pins, bk_pins. cbn [foldr]. by rewrite Hpr. }
    apply (set_slot_lookup p i b) in Hx as [[-> ->]|[_ Hx]]; [..|done].
    + by apply (si_pins _ _ _ Hinv i b).
    + by apply (si_pins _ _ _ Hinv).
Qed.

Lemma server_claim :
  pending_bit b idx = false → bk_holds k' ≡ₚ (i, idx) :: bk_holds k →
  (∀ e, e ∈ bk_local k' → e ∈ bk_local k ∨ owns p e) →
  held_at i (bk_holds k) < bk_pins i k →
  server_inv w (set_slot p i (claim_bit idx b)) (k' :: ks).
Proof using Hb Hidx Hpr Hinv.
  intros Hfree Hholds Hown Hroom. pose proof Hinv as [_ _ Hnd Hmk Hr Ho Hh].
  destruct (server_bits (pending_count b + 1) (pending_bits (claim_bit idx b))) as [Hm Hpi].
  assert (holders (k' :: ks) ≡ₚ (i, idx) :: holders (k :: ks)) as Hhs.
  { rewrite !holders_cons, Hholds. done. }
  assert ((i, idx) ∉ holders (k :: ks)) as Hnew.
  { rewrite (mk_bits _ _ _ (Hmk i b Hb)) in Hfree by done. by apply bool_decide_eq_false in Hfree. }
  split; [done|done|..].
  - rewrite Hhs. by constructor.
  - intros j x Hx. apply (set_slot_lookup p i b) in Hx as [[-> ->]|[Hne Hx]]; [..|done].
    + by eapply marked_claim; [..|by apply Hmk].
    + apply (marked_other _ _ i idx j x Hhs Hne). by apply Hmk.
  - intros j x. rewrite Hhs, elem_of_cons, set_slot_some.
    intros [[= -> ->]|Hin]; [by split; [|exists b]|by apply Hr].
  - intros x e [->|Hx]%elem_of_cons He; apply owns_slot.
    + destruct (Hown e He) as [Hin|]; [|done]. by apply (Ho k); [left|].
    + by apply (Ho x); [right|].
  - intros x j [->|Hx]%elem_of_cons; [|by apply Hh; right].
    rewrite (held_at_perm _ _ _ Hholds), held_at_cons. unfold bk_pins. rewrite Hpr.
    fold (bk_pins j k). pose proof (Hh k j ltac:(by left)). cbn [fst]. case_decide; subst; lia.
Qed.

Lemma server_release :
  bk_holds k ≡ₚ (i, idx) :: bk_holds k' → (∀ e, e ∈ bk_local k' → e ∈ bk_local k) →
  pending_bit b idx = true ∧ server_inv w (set_slot p i (release_bit idx b)) (k' :: ks).
Proof using Hb Hidx Hpr Hinv.
  intros Hholds Hown. pose proof Hinv as [_ _ Hnd Hmk Hr Ho Hh].
  destruct (server_bits (pending_count b - 1) (pending_bits (release_bit idx b))) as [Hm Hpi].
  assert (holders (k :: ks) ≡ₚ (i, idx) :: holders (k' :: ks)) as Hhs.
  { rewrite !holders_cons, Hholds. done. }
  destruct (marked_release _ _ i idx b Hhs Hnd Hidx (Hmk i b Hb)) as [Hbit Hmi].
  split; [done|]. split; [done|done|..].
  - rewrite Hhs in Hnd. by apply list.NoDup_cons in Hnd as [_ Hnd].
  - intros j x Hx. apply (set_slot_lookup p i b) in Hx as [[-> ->]|[Hne Hx]]; [done|..|done].
    apply (marked_other _ _ i idx j x Hhs Hne). by apply Hmk.
  - intros j x Hin. rewrite set_slot_some. apply Hr. rewrite Hhs. by right.
  - intros x e [->|Hx]%elem_of_cons He; apply owns_slot.
    + by apply (Ho k); [left|apply Hown].
    + by apply (Ho x); [right|].
  - intros x j [->|Hx]%elem_of_cons; [|by apply Hh; right].
    pose proof (Hh k j ltac:(by left)) as Hk. rewrite (held_at_perm _ _ _ Hholds), held_at_cons in Hk.
    unfold bk_pins in *. rewrite Hpr. case_decide; lia.
Qed.
End bits.

(** ** Operations *)

(** The entry of [l] can be read: the premises of [MapReadBuffer]. *)
Record ready s (r : RelFileLocator) (f : ForkNumber) (l blk idx n : Z) (pg : list Z) : Prop := {
  rd_fork : fork_mapped f;
  rd_block : is_u32 l;
  rd_loc : entry_location f l = Ok (blk, idx);
  rd_size : trusted_size (w_store (ms_world s)) r f = Some n;
  rd_page : map_page s r f blk = Some pg;
}.

Lemma at_local s l :
  map_inv s → map_inv (MkMapState (ms_world s) (ms_sys s) l).
Proof. intros []. by split. Qed.

Lemma shared_same ks bars s s' :
  shared ks bars s → map_inv s' → same_backend s s' → shared ks bars s'.
Proof.
  intros Hsh Hi (Hpins & Hlo & Hk). apply (shared_frame ks bars s); [done..|].
  intros j. rewrite Hpins. apply (si_held _ _ _ (proj2 Hsh) (bk_of s bars)). by left.
Qed.

Definition with_slot s (i : nat) (b : MapBufferDesc) : S :=
  at_sys s (set_pool (set_slot (pool (ms_sys s)) i b) (ms_sys s)).

Lemma wp_try_bit s i b r f blk idx Q (E : pg_error → S → Prop) :
  buffers (pool (ms_sys s)) !! i = Some b → tagged b (r, f, blk) →
  (pending_bit b idx = true → Q false s) →
  (pending_bit b idx = false → Q true (with_slot s i (claim_bit idx b))) →
  wp (on_sys (MapInflightBufferTryClaim r f blk i idx)) Q E s.
Proof.
  intros Hb (Er & Ef & Ep) Ht Hf. cbn in Er, Ef, Ep. apply wp_on_sys, wp_bind, (wp_get_buf _ i b); [done|].
  unfold inflight_tag. rewrite !bool_decide_eq_true_2 by done. cbn [andb].
  destruct (pending_bit b idx); cbn [negb].
  - apply wp_ret. replace (at_sys s (ms_sys s)) with s by (by destruct s). by apply Ht.
  - apply wp_bind, wp_modify, wp_ret. by apply Hf.
Qed.

(** Some backend holds entry [idx] of page [blk]. *)
Definition entry_held s (hs : list (nat * Z)) (r : RelFileLocator) (f : ForkNumber) (blk idx : Z)
    : Prop :=
  ∃ i b, buffers (pool (ms_sys s)) !! i = Some b ∧ tagged b (r, f, blk) ∧ (i, idx) ∈ hs.

Lemma held_kept s s1 hs r f blk idx i b :
  map_inv s1 → keeps (ms_sys s) (ms_sys s1) →
  (∀ j x, buffers (pool (ms_sys s)) !! j = Some x → marked hs j x) → is_entry idx →
  buffers (pool (ms_sys s1)) !! i = Some b → tagged b (r, f, blk) → marked hs i b →
  pending_bit b idx = true ↔ entry_held s hs r f blk idx.
Proof.
  intros Hinv Hk Hmk Hi Hb Ht Hm. rewrite (mk_bits _ _ _ Hm) by done. rewrite bool_decide_eq_true. split.
  - intros Hin. destruct (keeps_back _ _ i b Hk Hb) as (b0 & Hb0 & _ & Hpc & Hsm). exists i, b0.
    split_and!; [done| |done]. destruct Hsm as [(? & ? & ? & _)|[Hz _]].
    + unfold tagged in *. intuition congruence.
    + apply held_at_in in Hin. rewrite (mk_count _ _ _ Hm) in Hpc. lia.
  - intros (j & x & Hj & Htx & Hin). destruct (proj2 Hk j x Hj) as (x1 & Hx1 & _ & _ & Hsm).
    destruct Hsm as [(Er & Ef & Ep & _)|[Hz _]].
    + replace i with j; [done|]. destruct Htx as (R & G & P), Ht as (R' & G' & P').
      cbn in R, G, P, R', G', P'. destruct (mi_cache _ Hinv) as [_ Htag].
      destruct (Htag j x1 f Hx1) as [_ C1]; [congruence|]. destruct (Htag i b f Hb) as [_ C2]; [congruence|].
      rewrite Er, Ep, R, P in C1. rewrite R', P', C1 in C2. injection C2. lia.
    + apply held_at_in in Hin. rewrite (mk_count _ _ _ (Hmk j x Hj)) in Hz. lia.
Qed.

(** The pins a backend has beyond those of its claims. *)
Definition slack (bars : list (nat * Z)) s (j : nat) : Z :=
  private_count j (ms_sys s) - held_at j (bk_holds (bk_of s bars)).
Definition same_slack (bars : list (nat * Z)) s s' : Prop := ∀ j, slack bars s' j = slack bars s j.

Lemma same_slack_trans bars s1 s2 s3 : same_slack bars s1 s2 → same_slack bars s2 s3 → same_slack bars s1 s3.
Proof. intros E1 E2 j. by rewrite E2. Qed.

Lemma backend_slack bars s s' : same_backend s s' → same_slack bars s s'.
Proof. intros (Hp & Hl & _) j. unfold slack, bk_holds. cbn [bk_of bk_local]. by rewrite Hp, Hl. Qed.

Lemma slack_pinned bars s s' i :
  (∀ j, private_count j (ms_sys s') = private_count j (ms_sys s) + if decide (j = i) then 1 else 0) →
  (∀ j, held_at j (bk_holds (bk_of s' bars)) =
     held_at j (bk_holds (bk_of s bars)) + if decide (j = i) then 1 else 0) →
  same_slack bars s s'.
Proof. intros Hp Hh j. unfold slack. rewrite Hp, Hh. case_decide; lia. Qed.

(** Reading the page and trying the bit, for claims and barriers alike. *)
Lemma wp_claim_entry {A} ks bars s r f l blk idx n pg (yes : Z * Z → nat → M S A) (no : A) Q :
  shared ks bars s → ready s r f l blk idx n pg →
  (∀ s', shared ks bars s' → same_map s s' → same_backend s s' →
     entry_held s (holders (bk_of s bars :: ks)) r f blk idx → Q no s') →
  (∀ i s1 b, ¬ entry_held s (holders (bk_of s bars :: ks)) r f blk idx → shared ks bars s1 → same_map s s1 → ms_local s1 = ms_local s →
     buffers (pool (ms_sys s1)) !! i = Some b → tagged b (r, f, blk) → pending_bit b idx = false →
     held_at i (bk_holds (bk_of s1 bars)) < private_count i (ms_sys s1) →
     (∀ j, private_count j (ms_sys s1) = private_count j (ms_sys s) + if decide (j = i) then 1 else 0) →
     wp (yes (blk, idx) i) Q (λ e _, read_error (F := F) (ms_sys s) e) (with_slot s1 i (claim_bit idx b))) →
  wp (loc ← lift (entry_location f l);
      slot ← MapReadBuffer env r f loc.1;
      claimed ← on_sys (MapInflightBufferTryClaim r f loc.1 slot loc.2);
      if (claimed : bool) then yes loc slot
      else on_sys (MapUnpinBuffer slot);; mret no)
    Q (λ e _, read_error (F := F) (ms_sys s) e) s.
Proof.
  intros Hsh [Hf Hl Hloc Hn Hview] Hno Hyes. pose proof (shared_map _ _ _ Hsh) as Hinv.
  destruct (entry_location_ok f l blk idx Hf Hl Hloc) as (_ & Hix & Hpos & Hdec).
  apply wp_bind, (wp_lift _ (blk, idx)); [done|]. cbn [fst snd].
  apply wp_bind, (wp_read env s r f blk (l / 2048) n pg); [done..|]. intros i s1 Hpost.
  pose proof Hpost as [Hinv1 Hm1 Hlo1 Hpg1 Hk1 Hpins1 Hkeep1].
  pose proof (λ j, si_held _ _ _ (proj2 Hsh) (bk_of s bars) j ltac:(by left)) as Hh.
  change (∀ j, held_at j (bk_holds (bk_of s bars)) ≤ private_count j (ms_sys s)) in Hh.
  assert (shared ks bars s1) as Hsh1.
  { apply (shared_frame ks bars s); [done..|]. intros j. rewrite Hpins1. specialize (Hh j).
    case_decide; lia. }
  destruct (co_find _ (mi_cache _ Hinv1) _ _ Hk1) as (j & b & Hj%Nat2Z.inj & Hb & Ht). subst j.
  assert (pending_bit b idx = true ↔ entry_held s (holders (bk_of s bars :: ks)) r f blk idx) as Hheld.
  { apply (held_kept s s1 _ r f blk idx i); [done|done|apply (si_marked _ _ _ (proj2 Hsh))| |done|done|].
    - unfold is_entry. ulia.
    - pose proof (si_marked _ _ _ (proj2 Hsh1) i b Hb) as Hmk. rewrite holders_cons in *.
      unfold bk_holds in Hmk at 1. cbn [bk_of bk_local] in Hmk. by rewrite Hlo1 in Hmk. }
  apply wp_bind, (wp_try_bit s1 i b); [done|done|..]; intros Hbit.
  - apply wp_bind, (wp_unread s s1 r f blk pg); [done..|]. intros s2 Hi2 Hm2 Hb2.
    apply wp_ret, Hno; [by apply (shared_same ks bars s)|done|done|by apply Hheld].
  - apply Hyes; [rewrite <-Hheld; congruence|done..| |done]. unfold bk_holds at 1. cbn [bk_of bk_local]. rewrite Hlo1, Hpins1.
    rewrite decide_True by done. specialize (Hh i). unfold bk_holds in Hh. cbn in *. lia.
Qed.

(** A claim that was granted is recorded as an owned entry or as a barrier. *)
Lemma shared_granted ks bars s i b r f l blk idx e bars' :
  shared ks bars s → fork_mapped f → is_u32 l → entry_location f l = Ok (blk, idx) →
  buffers (pool (ms_sys s)) !! i = Some b → tagged b (r, f, blk) → pending_bit b idx = false →
  held_at i (bk_holds (bk_of s bars)) < private_count i (ms_sys s) →
  (e = [MkLocal r f l InvalidBlockNumber i idx] ∧ bars' = bars ∨ e = [] ∧ bars' = (i, idx) :: bars) →
  shared ks bars' (MkMapState (ms_world s) (set_pool (set_slot (pool (ms_sys s)) i (claim_bit idx b))
                                              (ms_sys s)) (ms_local s ++ e)).
Proof.
  intros Hsh Hf Hl Hloc Hb Ht Hbit Hroom Hcase. split; [apply Hsh|]. cbn.
  destruct (entry_location_ok f l blk idx Hf Hl Hloc) as (_ & -> & _).
  apply (server_claim _ _ (bk_of s bars)); [done|unfold is_entry; ulia|done|apply Hsh|done|..|done].
  - unfold bk_holds. cbn. rewrite fmap_app.
    destruct Hcase as [[-> ->]|[-> ->]]; cbn; [|rewrite app_nil_r]; solve_Permutation.
  - cbn. intros x [Hx|Hx]%elem_of_app; [by left|]. right.
    destruct Hcase as [[-> _]|[-> _]]; [|by apply not_elem_of_nil in Hx].
    apply list_elem_of_singleton in Hx as ->. by exists blk, b.
Qed.

Lemma same_map_slot s i b l :
  same_map s (MkMapState (ms_world s) (set_pool (set_slot (pool (ms_sys s)) i b) (ms_sys s)) l).
Proof. done. Qed.

(** An entry in this backend's own table is held. *)
Lemma local_held ks bars s r f l blk idx j e :
  shared ks bars s → entry_location f l = Ok (blk, idx) →
  MapInflightLocalFind r f l (ms_local s) = Some (j, e) →
  entry_held s (holders (bk_of s bars :: ks)) r f blk idx.
Proof.
  intros Hsh Hloc [He [= <- <- <-]]%local_find_some. apply list_elem_of_lookup_2 in He.
  destruct (si_owns _ _ _ (proj2 Hsh) (bk_of s bars) e ltac:(by left) He) as (blk' & b & Hl & Hb & Ht).
  rewrite Hloc in Hl. injection Hl as <- ->. exists (le_slot e), b. split_and!; [done|done|].
  apply (holders_in (bk_of s bars)); [by left|]. by apply holds_local.
Qed.

Lemma wp_try_claim ks bars s r f l blk idx n pg Q :
  shared ks bars s → ready s r f l blk idx n pg →
  (∀ s', shared ks bars s' → same_map s s' → ms_local s' = ms_local s →
     entry_held s (holders (bk_of s bars :: ks)) r f blk idx → same_slack bars s s' → Q false s') →
  (∀ s' i, shared ks bars s' → same_map s s' →
     ¬ entry_held s (holders (bk_of s bars :: ks)) r f blk idx →
     MapInflightLocalFind r f l (ms_local s) = None →
     ms_local s' = ms_local s ++ [MkLocal r f l InvalidBlockNumber i idx] → same_slack bars s s' →
     Q true s') →
  wp (MapInflightTryClaim env r f l) Q (λ e _, read_error (F := F) (ms_sys s) e) s.
Proof.
  intros Hsh Hrd Hno Hyes. apply wp_bind, wp_gets.
  destruct (MapInflightLocalFind r f l (ms_local s)) as [[j e]|] eqn:Hfind.
  { apply wp_ret, Hno; [done..| |done]. destruct Hrd. by eapply local_held. }
  apply (wp_claim_entry ks bars s r f l blk idx n pg); [done|done|..].
  - intros s' Hs' Hm Hb Hheld. apply Hno; [done|done|apply Hb|done|by apply backend_slack].
  - intros i s1 b Hfree Hs1 Hm1 Hlo Hb Ht Hbit Hroom Hpins. destruct Hrd as [Hf Hl Hloc _ _].
    apply wp_bind, wp_modify, wp_ret. cbn [with_slot at_sys ms_world ms_sys ms_local snd].
    apply (Hyes _ i); [|by apply (same_map_trans _ s1)|done|done| |apply (slack_pinned _ _ _ i); [exact Hpins|]].
    + by eapply shared_granted; [..|left].
    + cbn. unfold MapInflightLocalRememberPrepared. by rewrite Hlo.
    + intros j. unfold bk_holds, MapInflightLocalRememberPrepared. cbn. rewrite Hlo, fmap_app, <-app_assoc, !held_at_app. cbn [fmap list_fmap app le_slot le_idx].
      rewrite held_at_cons. change (held_at j []) with 0. cbn [fst]. repeat case_decide; try congruence; lia.
Qed.

Lemma wp_try_barrier ks bars s r f l blk idx n pg Q :
  shared ks bars s → ready s r f l blk idx n pg →
  (∀ s', shared ks bars s' → same_map s s' → ms_local s' = ms_local s →
     entry_held s (holders (bk_of s bars :: ks)) r f blk idx → Q None s') →
  (∀ s' i, shared ks ((i, idx) :: bars) s' → same_map s s' → ms_local s' = ms_local s →
     Q (Some (MkBarrier true (Z.of_nat i) idx)) s') →
  wp (MapInflightTryClaimBarrier env r f l) Q
    (λ e _, (e = claim_owned ∧ MapInflightLocalFind r f l (ms_local s) ≠ None) ∨
            read_error (F := F) (ms_sys s) e) s.
Proof.
  intros Hsh Hrd Hno Hyes. apply wp_bind, wp_gets.
  destruct (MapInflightLocalFind r f l (ms_local s)) eqn:Hfind; [apply wp_throw; by left|].
  eapply wp_mono; [apply (wp_claim_entry ks bars s r f l blk idx n pg) with (Q := Q); [done|done|..]|done|by right].
  - intros s' Hs' Hm (_ & Hlo & _) Hheld. by apply Hno.
  - intros i s1 b Hfree Hs1 Hm1 Hlo Hb Ht Hbit Hroom _. destruct Hrd as [Hf Hl Hloc _ _].
    apply wp_ret. cbn [snd]. apply Hyes; [|by apply (same_map_trans _ s1)|done].
    pose proof (shared_granted ks bars s1 i b r f l blk idx [] ((i, idx) :: bars)) as Hg.
    rewrite app_nil_r in Hg. by apply Hg; try done; right.
Qed.

(** Giving a pin back that no claim needs. *)
Lemma wp_unpin_shared ks bars s i b Q (E : pg_error → S → Prop) :
  shared ks bars s → buffers (pool (ms_sys s)) !! i = Some b →
  held_at i (bk_holds (bk_of s bars)) < private_count i (ms_sys s) →
  (∀ s', shared ks bars s' → same_map s s' → ms_local s' = ms_local s →
     (∀ j, slack bars s' j = slack bars s j - if decide (j = i) then 1 else 0) → Q tt s') →
  wp (on_sys (MapUnpinBuffer i)) Q E s.
Proof.
  intros Hsh Hb Hroom HQ. pose proof (shared_map _ _ _ Hsh) as Hinv.
  pose proof (mi_pool _ Hinv) as Hp. destruct (po_buf _ Hp _ _ Hb) as [Hst _ Hpins _ _].
  pose proof (held_at_pos i (bk_holds (bk_of s bars))) as Hpos.
  pose proof (lookup_lt_Some _ _ _ Hb) as Hlt. rewrite <-(po_pages _ Hp) in Hlt.
  apply lookup_lt_is_Some in Hlt as [pg Hpg].
  apply wp_on_sys, (wp_unpin _ i b pg); [done|done|done|lia|]. intros b' Hre.
  destruct (map_inv_score s (upd (ms_sys s) i b' pg (cache (pool (ms_sys s))) (-1)))
    as [Hi2 Hm2]; [done|eapply repin_pool; [done..|lia]|by eapply repin_score|].
  apply HQ; [|done|done|].
  2: { intros j. unfold slack. cbn [at_sys ms_sys]. rewrite (private_upd_at _ _ _ _ _ _ _ _ Hp Hb).
       unfold bk_holds. cbn. case_decide; lia. }
  apply (shared_frame ks bars s); [done|done|done|by eapply keeps_repin|].
  intros j. cbn [at_sys ms_sys]. rewrite (private_upd_at _ _ _ _ _ _ _ _ Hp Hb).
  pose proof (si_held _ _ _ (proj2 Hsh) (bk_of s bars) j ltac:(by left)) as Hhj.
  change (bk_pins j (bk_of s bars)) with (private_count j (ms_sys s)) in Hhj.
  case_decide; subst; lia.
Qed.

(** Giving an entry back never fails. *)
Lemma wp_buffer_release ks bars bars' l' s i idx Q (E : pg_error → S → Prop) :
  shared ks bars s →
  bk_holds (bk_of s bars) ≡ₚ (i, idx) :: bk_holds (MkBackend (private_ref (ms_sys s)) l' bars') →
  (∀ e, e ∈ l' → e ∈ ms_local s) →
  (∀ s', shared ks bars' s' → same_map s s' → ms_local s' = l' →
     (∀ j, slack bars' s' j = slack bars s j) → Q tt s') →
  wp (on_sys (MapInflightBufferRelease i idx)) Q E (MkMapState (ms_world s) (ms_sys s) l').
Proof.
  intros Hsh Hholds Hsub HQ. destruct Hsh as [Hid Hinvs].
  destruct (si_range _ _ _ Hinvs i idx) as [Hidx [b Hb]].
  { apply (holders_in (bk_of s bars)); [by left|]. rewrite Hholds. by left. }
  pose proof (si_held _ _ _ Hinvs (bk_of s bars) i ltac:(by left)) as Hh.
  rewrite (held_at_perm _ _ _ Hholds), held_at_cons, decide_True in Hh by done.
  set (k' := MkBackend (private_ref (ms_sys s)) l' bars') in *.
  change (bk_pins i (bk_of s bars)) with (private_count i (ms_sys s)) in Hh.
  destruct (server_release (ms_world s) (pool (ms_sys s)) (bk_of s bars) k' ks i b idx)
    as [Hbit Hrel]; [done..|].
  set (s1 := MkMapState (ms_world s) (set_pool (set_slot (pool (ms_sys s)) i (release_bit idx b))
               (ms_sys s)) l').
  assert (shared ks bars' s1) as Hsh1 by (split; [done|]; exact Hrel).
  assert (buffers (pool (ms_sys s1)) !! i = Some (release_bit idx b)) as Hb1.
  { cbn. apply list_lookup_insert_eq. by eapply lookup_lt_Some. }
  apply wp_on_sys, wp_bind, (wp_get_buf _ i b); [done|]. rewrite Hbit. apply wp_bind, wp_modify.
  assert (wp (on_sys (MapUnpinBuffer i)) Q E s1) as Hgoal.
  { eapply (wp_unpin_shared ks bars' s1); [done|done| |].
    - change (held_at i (bk_holds k') < private_count i (ms_sys s)). lia.
    - intros s' Hs' Hm Hlo Hsl. apply HQ; [done|by apply (same_map_trans _ s1)|done|].
      intros j. rewrite Hsl. unfold slack. rewrite (held_at_perm j _ _ Hholds), held_at_cons. cbn [fst].
      change (private_count j (ms_sys s1)) with (private_count j (ms_sys s)).
      change (bk_holds (bk_of s1 bars')) with (bk_holds k'). repeat case_decide; try congruence; lia. }
  revert Hgoal. unfold wp, on_sys. cbn [s1 ms_sys ms_world ms_local].
  destruct (MapUnpinBuffer i _) as [[] ?]; done.
Qed.

Lemma wp_release ks bars s r f l Q (E : pg_error → S → Prop) :
  shared ks bars s →
  (∀ s', shared ks bars s' → same_map s s' →
     ms_local s' = MapInflightLocalForget r f l (ms_local s) → same_slack bars s s' → Q tt s') →
  wp (MapInflightRelease r f l) Q E s.
Proof.
  intros Hsh HQ. apply wp_bind, wp_gets.
  destruct (MapInflightLocalFind r f l (ms_local s)) as [[i e]|] eqn:Hfind.
  2: { apply wp_ret, HQ; [done|done| |done]. unfold MapInflightLocalForget. by rewrite Hfind. }
  pose proof (local_forget _ _ _ _ _ _ Hfind) as Hp.
  apply wp_bind, wp_modify, (wp_buffer_release ks bars bars); [done|..|done].
  - unfold bk_holds. cbn. by rewrite Hp at 1.
  - intros x Hx. rewrite Hp. by right.
Qed.

Lemma wp_release_barrier ks bars s n i idx Q (E : pg_error → S → Prop) :
  shared ks bars s → bars !! n = Some (i, idx) →
  (∀ s', shared ks (delete n bars) s' → same_map s s' → Q (MkBarrier false (-1) (-1)) s') →
  wp (MapInflightReleaseBarrier (MkBarrier true (Z.of_nat i) idx)) Q E s.
Proof.
  intros Hsh Hn HQ. apply wp_bind. cbn [slot_id entry_idx valid]. rewrite Nat2Z.id.
  destruct s as [w sys l]. apply (wp_buffer_release ks bars (delete n bars) l (MkMapState w sys l));
    [done|..|done|].
  - unfold bk_holds. cbn. rewrite (delete_Permutation bars n (i, idx)) at 1 by done. solve_Permutation.
  - intros s' Hs' Hm _ _. by apply wp_ret, HQ.
Qed.

(** Recording the reserved block of an owned remap. *)
Lemma wp_finish_local ks bars s r f l pblk i e Q (E : pg_error → S → Prop) :
  shared ks bars s → MapInflightLocalFind r f l (ms_local s) = Some (i, e) →
  (∀ s', shared ks bars s' → same_map s s' →
     ms_local s' = alter (with_pblkno pblk) i (ms_local s) → same_slack bars s s' → Q tt s') →
  wp (MapInflightFinishClaim r f l pblk) Q E s.
Proof.
  intros Hsh Hfind HQ. apply wp_bind, wp_gets. rewrite Hfind.
  apply wp_modify, HQ; [|done|done|].
  2: { intros j. unfold slack, bk_holds. cbn. rewrite (list_fmap_alter _ _ id) by (by apply Forall_true).
       by rewrite list_alter_id. }
  destruct Hsh as [Hid [Hm Hpi Hnd Hmk Hr Ho Hh]]. split; [done|].
  set (s' := MkMapState _ _ _). assert (bk_holds (bk_of s' bars) = bk_holds (bk_of s bars)) as Hbh.
  { unfold bk_holds. cbn. f_equal. rewrite (list_fmap_alter _ _ id) by (by apply Forall_true).
    by rewrite list_alter_id. }
  assert (holders (bk_of s' bars :: ks) = holders (bk_of s bars :: ks)) as Hhs
    by (by rewrite !holders_cons, Hbh).
  split; rewrite ?Hhs; try done.
  - intros k [->|Hin]%elem_of_cons; [|apply Hm; by right].
    destruct (Hm (bk_of s bars) ltac:(by left)). by split.
  - intros k x [->|Hin]%elem_of_cons Hx; [|by apply (Ho k); [right|]].
    cbn in Hx. apply list_elem_of_lookup in Hx as [j Hj].
    destruct (decide (j = i)) as [->|Hne].
    + rewrite list_lookup_alter_eq in Hj. apply fmap_Some in Hj as (y & Hy & ->).
      destruct (Ho (bk_of s bars) y ltac:(by left)) as (blk & b & ?);
        [by eapply list_elem_of_lookup_2|by exists blk, b].
    + rewrite list_lookup_alter_ne in Hj by done. apply (Ho (bk_of s bars)); [by left|]. by eapply list_elem_of_lookup_2.
  - intros k j [->|Hin]%elem_of_cons; [rewrite Hbh; apply (Hh (bk_of s bars)); by left|].
    apply Hh. by right.
Qed.

Lemma wp_finish ks bars s r f l pblk Q :
  shared ks bars s →
  (∀ s', shared ks bars s' → same_map s s' → Q tt s') →
  wp (MapInflightFinishClaim r f l pblk) Q (λ e _, e = claim_disappeared) s.
Proof.
  intros Hsh HQ. destruct (MapInflightLocalFind r f l (ms_local s)) as [[i e]|] eqn:Hfind.
  - eapply wp_finish_local; [done|done|]. intros. by apply HQ.
  - apply wp_bind, wp_gets. rewrite Hfind. by apply wp_throw.
Qed.

Lemma wp_bit_is_set ks bars s r f l blk idx n pg Q :
  shared ks bars s → ready s r f l blk idx n pg →
  (∀ s' x, shared ks bars s' → same_map s s' → Q x s') →
  wp (MapInflightBitIsSet r f l) Q (λ e _, read_error (F := F) (ms_sys s) e) s.
Proof.
  intros Hsh [Hf Hl Hloc Hn Hview] HQ. pose proof (shared_map _ _ _ Hsh) as Hinv.
  destruct (entry_location_ok f l blk idx Hf Hl Hloc) as (_ & _ & Hpos & Hdec).
  apply wp_bind, (wp_lift _ (blk, idx)); [done|]. cbn [fst snd].
  apply wp_bind, wp_on_sys, wp_gets. replace (at_sys s (ms_sys s)) with s by (by destruct s).
  destruct (cache (pool (ms_sys s)) !! (r, f, blk)) as [slot|] eqn:Hk; [|by apply wp_ret, HQ].
  assert (0 ≤ slot) as Hge by (destruct (co_find _ (mi_cache _ Hinv) _ _ Hk) as (i & _ & -> & _); lia).
  rewrite decide_True by done.
  eapply wp_bind, (wp_pin_cached s r f blk n pg); [done..|]. intros s1 b Hb Htm Hpost.
  apply wp_bind, wp_on_sys, (wp_get_buf _ _ b); [done|].
  replace (at_sys s1 (ms_sys s1)) with s1 by (by destruct s1).
  apply wp_bind, (wp_unread s s1 r f blk pg); [done|done|]. intros s2 Hi2 Hm2 Hp2.
  apply wp_ret, HQ; [by apply (shared_same ks bars s)|done].
Qed.

(** The exit handler's loop ends with an empty table. *)
Lemma wp_cleanup ks bars s Q (E : pg_error → S → Prop) :
  shared ks bars s →
  (∀ s', shared ks bars s' → same_map s s' → ms_local s' = [] → Q tt s') →
  wp MapInflightCleanupOwned Q E s.
Proof.
  intros Hsh HQ. apply wp_bind, wp_gets.
  remember (length (ms_local s)) as m eqn:Hm. revert s Hsh HQ Hm.
  induction m as [|m IH]; intros s Hsh HQ Hm; cbn [cleanup_loop]; apply wp_bind, wp_gets;
    destruct (ms_local s) as [|e es] eqn:Hlo; try done.
  - by apply wp_ret, HQ.
  - assert (MapInflightLocalFind (le_rnode e) (le_fork e) (le_lblkno e) (e :: es) = Some (0%nat, e)) as Hfind.
    { unfold MapInflightLocalFind. cbn. by rewrite decide_True. }
    apply wp_bind, (wp_release ks bars); [done|]. intros s1 Hs1 Hm1 Hl1 _. rewrite Hlo in Hl1.
    apply IH; [done| |].
    + intros s' Hs' Hm' Hl'. apply HQ; [done|by apply (same_map_trans _ s1)|done].
    + pose proof (local_forget _ _ _ _ _ _ Hfind) as Hp%Permutation_length. rewrite Hl1.
      cbn [length] in *. lia.
Qed.

(** ** The server *)

Inductive InflightOp :=
  | OpClaim (r : RelFileLocator) (f : ForkNumber) (l : Z)
  | OpFinish (r : RelFileLocator) (f : ForkNumber) (l pblk : Z)
  | OpRelease (r : RelFileLocator) (f : ForkNumber) (l : Z)
  | OpBarrier (r : RelFileLocator) (f : ForkNumber) (l : Z)
  | OpUnbarrier (n : nat)
  | OpTest (r : RelFileLocator) (f : ForkNumber) (l : Z)
  | OpLookup (r : RelFileLocator) (f : ForkNumber) (l : Z)
  | OpSet (r : RelFileLocator) (f : ForkNumber) (l pblk lsn : Z)
  | OpExit.

(** Runs one operation and returns the barriers the backend holds then. *)
Definition run_op (op : InflightOp) (bars : list (nat * Z)) : M S (list (nat * Z)) :=
  match op with
  | OpClaim r f l => MapInflightTryClaim env r f l;; mret bars
  | OpFinish r f l pblk => MapInflightFinishClaim r f l pblk;; mret bars
  | OpRelease r f l => MapInflightRelease r f l;; mret bars
  | OpBarrier r f l =>
      o ← MapInflightTryClaimBarrier env r f l;
      mret match o with
           | Some br => (Z.to_nat (slot_id br), entry_idx br) :: bars
           | None => bars
           end
  | OpUnbarrier n =>
      match bars !! n with
      | Some (i, idx) =>
          MapInflightReleaseBarrier (MkBarrier true (Z.of_nat i) idx);; mret (delete n bars)
      | None => mret bars
      end
  | OpTest r f l => MapInflightBitIsSet r f l;; mret bars
  | OpLookup r f l => MapTryLookup env r f l;; mret bars
  | OpSet r f l pblk lsn => MapSetMapping env r f l pblk lsn;; mret bars
  | OpExit => MapInflightCleanupOwned;; mret bars
  end.

Definition op_ready s (op : InflightOp) : Prop :=
  match op with
  | OpClaim r f l | OpBarrier r f l | OpTest r f l | OpLookup r f l =>
      ∃ blk idx n pg, ready s r f l blk idx n pg
  | OpSet r f l pblk _ =>
      ∃ blk idx n pg, ready s r f l blk idx n pg ∧ is_u32 pblk ∧ l < n ∧
        nonzero (<[Z.to_nat idx := pblk]> pg)
  | OpFinish _ _ _ _ | OpRelease _ _ _ | OpUnbarrier _ | OpExit => True
  end.

Lemma wp_then_ret {A B} (m : M S A) (x : B) (Q : B → S → Prop) (E : pg_error → S → Prop) s :
  wp m (λ _ s', Q x s') E s → wp (m;; mret x) Q (λ _ _, True) s.
Proof. intros Hm. apply wp_bind. eapply wp_mono; [done| |done]. intros a s' HQ. by apply wp_ret. Qed.

Lemma op_shared ks bars op s :
  shared ks bars s → op_ready s op →
  wp (run_op op bars) (λ bars' s', shared ks bars' s') (λ _ _, True) s.
Proof.
  intros Hsh Hrd. pose proof (shared_map _ _ _ Hsh) as Hinv.
  destruct op as [r f l|r f l pblk|r f l|r f l|n|r f l|r f l|r f l pblk lsn|];
    cbn [run_op op_ready] in *.
  - destruct Hrd as (blk & idx & n & pg & Hrd). eapply wp_then_ret, (wp_try_claim ks bars); done.
  - by eapply wp_then_ret, (wp_finish ks bars).
  - by eapply wp_then_ret, (wp_release ks bars _ _ _ _ _ (λ _ _, True)).
  - destruct Hrd as (blk & idx & n & pg & Hrd). apply wp_bind.
    eapply wp_mono; [eapply (wp_try_barrier ks bars) with
      (Q := λ o, shared ks match o with
                          | Some br => (Z.to_nat (slot_id br), entry_idx br) :: bars
                          | None => bars
                          end); [done|done|done|]|intros ? ? ?; by apply wp_ret|done].
    intros s' i Hs' _ _. cbn. by rewrite Nat2Z.id.
  - destruct (bars !! n) as [[i idx]|] eqn:Hn; [|by apply wp_ret].
    by eapply wp_then_ret, (wp_release_barrier ks bars _ n _ _ _ (λ _ _, True)).
  - destruct Hrd as (blk & idx & n & pg & Hrd). eapply wp_then_ret, (wp_bit_is_set ks bars); done.
  - destruct Hrd as (blk & idx & n & pg & [Hf Hl Hloc Hn Hv]).
    eapply wp_then_ret, (wp_lookup env s r f l blk idx n pg); [done..|].
    intros o s' (_ & Hi & _ & Hb). by apply (shared_same ks bars s).
  - destruct Hrd as (blk & idx & n & pg & [Hf Hl Hloc Hn Hv] & Hp & Hln & Hnz).
    eapply wp_then_ret, wp_mono; [by apply (set_run env s r f l blk idx n pblk lsn pg)| |done].
    intros [] s' (Hi & _ & Hb & _). by apply (shared_same ks bars s).
  - by eapply wp_then_ret, (wp_cleanup ks bars _ _ (λ _ _, True)).
Qed.

Record Server := MkServer {
  sv_world : World T F;
  sv_pool : MapPool;
  sv_backs : list Backend;
}.

(** One operation of one backend, run to its end. *)
Inductive server_step : Server → Server → Prop :=
  | Step sv a k op bars s' :
      sv_backs sv !! a = Some k →
      op_ready (view (sv_world sv) (sv_pool sv) k) op →
      run_op op (bk_barriers k) (view (sv_world sv) (sv_pool sv) k) = (Ok bars, s') →
      server_step sv (MkServer (ms_world s') (pool (ms_sys s'))
                        (<[a := bk_of s' bars]> (sv_backs sv))).

Definition server_ok (sv : Server) : Prop :=
  server_inv (sv_world sv) (sv_pool sv) (sv_backs sv).

Lemma step_ok sv sv' : server_ok sv → server_step sv sv' → server_ok sv'.
Proof.
  intros Hok Hst. destruct Hst as [sv a k op bars s' Hk Hrd Hrun].
  pose proof (delete_Permutation _ _ _ Hk) as Hp.
  set (s := view (sv_world sv) (sv_pool sv) k) in *.
  assert (shared (delete a (sv_backs sv)) (bk_barriers k) s) as Hsh.
  { split; [done|]. destruct k. by apply (server_inv_perm _ _ (sv_backs sv)). }
  pose proof (op_shared _ _ op s Hsh Hrd) as Hw. unfold wp in Hw. rewrite Hrun in Hw.
  destruct Hw as [_ Hw]. eapply server_inv_perm; [|exact Hw].
  pose proof (lookup_lt_Some _ _ _ Hk). rewrite insert_take_drop by done.
  rewrite delete_take_drop. solve_Permutation.
Qed.

Definition idle_backend (n : nat) : Backend := MkBackend (replicate n 0) [] [].

(** [m] backends on an empty pool of [n] buffers. *)
Definition server_start w (n m : nat) : Server :=
  MkServer w (MapShmemInit n) (replicate m (idle_backend n)).

Lemma start_ok w n m :
  0 < Z.of_nat n < 2 ^ 31 →
  (∀ r f x, trusted_size (w_store w) r f = Some x →
     fl_exists (w_files w) r UMBRA_METADATA_FORKNUM = true) →
  server_ok (server_start w n m).
Proof.
  intros Hn Hex. assert (holders (replicate m (idle_backend n)) = []) as Hhs.
  { clear. unfold holders. induction m; [done|]. cbn in *. by rewrite IHm. }
  assert (∀ i, total_pins i (replicate m (idle_backend n)) = 0) as Hpins.
  { intros i. clear. unfold total_pins, bk_pins. induction m as [|m IH]; [done|].
    cbn [replicate foldr]. rewrite IH. cbn. destruct (replicate n 0 !! i) as [z|] eqn:Hz; [|done].
    by apply lookup_replicate in Hz as [-> _]. }
  split; cbn [server_start sv_world sv_pool sv_backs]; rewrite ?Hhs.
  - intros k [-> _]%elem_of_replicate. by apply (start_inv w n []).
  - intros i b [-> _]%init_lookup. rewrite Hpins. done.
  - constructor.
  - intros i b [-> _]%init_lookup. split; [done|done|]. intros idx _. by rewrite zero_pending_bit.
  - intros i idx []%not_elem_of_nil.
  - intros k e [-> _]%elem_of_replicate []%not_elem_of_nil.
  - intros k i [-> _]%elem_of_replicate. cbn. unfold bk_pins. cbn.
    destruct (replicate n 0 !! i) as [z|] eqn:Hz; [|done]. by apply lookup_replicate in Hz as [-> _].
Qed.

Lemma reach_ok sv sv' : rtc server_step sv sv' → server_ok sv → server_ok sv'.
Proof. induction 1; eauto using step_ok. Qed.

(** ** No two owners *)

Lemma holders_index (ks : list Backend) h k1 k2 a b :
  NoDup (holders ks) → ks !! a = Some k1 → ks !! b = Some k2 →
  h ∈ bk_holds k1 → h ∈ bk_holds k2 → a = b.
Proof.
  intros Hnd. assert (∀ a b k1 k2, (a < b)%nat → ks !! a = Some k1 → ks !! b = Some k2 →
    h ∈ bk_holds k1 → h ∈ bk_holds k2 → False) as Hlt.
  { clear -Hnd. intros a b k1 k2 Hab Ha Hb Hh1 Hh2.
    rewrite <-(take_drop_middle ks b k2 Hb) in Hnd. unfold holders in Hnd.
    rewrite bind_app in Hnd. apply list.NoDup_app in Hnd as (_ & Hdis & _). apply (Hdis h).
    - apply (holders_in k1); [|done]. apply (list_elem_of_lookup_2 _ a). by rewrite lookup_take_lt.
    - apply elem_of_app. by left. }
  intros Ha Hb Hh1 Hh2. destruct (Nat.lt_trichotomy a b) as [?|[?|?]]; [|done|]; exfalso; eauto.
Qed.

Lemma holds_nodup ks k : NoDup (holders ks) → k ∈ ks → NoDup (bk_holds k).
Proof.
  intros Hnd [a Ha]%list_elem_of_lookup. rewrite <-(take_drop_middle ks a k Ha) in Hnd.
  unfold holders in Hnd. rewrite bind_app in Hnd. apply list.NoDup_app in Hnd as (_ & _ & Hnd).
  cbn in Hnd. by apply list.NoDup_app in Hnd as (Hnd & _).
Qed.

Lemma local_slot_inj k e1 e2 :
  NoDup (bk_holds k) → e1 ∈ bk_local k → e2 ∈ bk_local k →
  (le_slot e1, le_idx e1) = (le_slot e2, le_idx e2) → e1 = e2.
Proof.
  intros Hnd [i Hi]%list_elem_of_lookup [j Hj]%list_elem_of_lookup Heq.
  apply list.NoDup_app in Hnd as (Hnd & _). rewrite list.NoDup_alt in Hnd.
  enough (i = j) by congruence. eapply (Hnd i j (le_slot e1, le_idx e1)).
  - by rewrite list_lookup_fmap, Hi.
  - rewrite list_lookup_fmap, Hj, Heq. done.
Qed.

Lemma owner_slot w p ks k1 k2 e1 e2 :
  server_inv w p ks → k1 ∈ ks → k2 ∈ ks → e1 ∈ bk_local k1 → e2 ∈ bk_local k2 →
  local_key e1 = local_key e2 → (le_slot e1, le_idx e1) = (le_slot e2, le_idx e2).
Proof.
  intros Hinv Hk1 Hk2 Hh1 Hh2 Hkey. unfold local_key in Hkey. injection Hkey as Er Ef El.
  destruct (si_owns _ _ _ Hinv k1 e1 Hk1 Hh1) as (blk1 & b1 & L1 & B1 & T1).
  destruct (si_owns _ _ _ Hinv k2 e2 Hk2 Hh2) as (blk2 & b2 & L2 & B2 & T2).
  rewrite Ef, El, L2 in L1. injection L1 as <- Hi.
  destruct (mi_cache _ (si_map _ _ _ Hinv k1 Hk1)) as [_ Htag].
  destruct T1 as (R1 & F1 & P1), T2 as (R2 & F2 & P2). cbn in R1, F1, P1, R2, F2, P2.
  destruct (Htag _ b1 _ B1 F1) as [_ C1]. destruct (Htag _ b2 _ B2 F2) as [_ C2].
  rewrite R1, P1, Er, Ef in C1. rewrite R2, P2, C1 in C2. injection C2 as C2%Nat2Z.inj. congruence.
Qed.
End server.

(** ** Properties *)

(** C23: whatever claims, releases, barriers, lookups, remaps and exits
    the backends run, one after the other, on a pool that started empty: no
    two backends own the same logical block of a fork, no owned block is under
    a write barrier, and the page of an owned block is still in its buffer,
    pinned, with the entry's bit set. *)
Theorem inflight_exclusion `{SuperStore T} `{FileLayerLaws F} env (w : World T F) n m sv
    a b k1 k2 e1 e2 :
  0 < Z.of_nat n < 2 ^ 31 →
  (∀ r f x, trusted_size (w_store w) r f = Some x →
     fl_exists (w_files w) r UMBRA_METADATA_FORKNUM = true) →
  rtc (server_step env) (server_start w n m) sv →
  sv_backs sv !! a = Some k1 → sv_backs sv !! b = Some k2 →
  e1 ∈ bk_local k1 → e2 ∈ bk_local k2 →
  (local_key e1 = local_key e2 → a = b ∧ e1 = e2) ∧
  (∀ h, h ∈ bk_barriers k2 → h ≠ (le_slot e1, le_idx e1)) ∧
  ∃ blk buf, entry_location (le_fork e1) (le_lblkno e1) = Ok (blk, le_idx e1) ∧
    buffers (sv_pool sv) !! le_slot e1 = Some buf ∧ tagged buf (le_rnode e1, le_fork e1, blk) ∧
    pending_bit buf (le_idx e1) = true ∧ 0 < MAPBUF_GET_REFCOUNT (state buf).
Proof.
  intros Hn Hex Hr Ha Hb He1 He2.
  pose proof (reach_ok env _ _ Hr (start_ok w n m Hn Hex)) as Hok.
  assert (k1 ∈ sv_backs sv) as Hk1 by (by eapply list_elem_of_lookup_2).
  assert (k2 ∈ sv_backs sv) as Hk2 by (by eapply list_elem_of_lookup_2).
  pose proof (holds_local _ _ He1) as Hh1. pose proof (holds_local _ _ He2) as Hh2. split_and!.
  - intros Hkey. pose proof (owner_slot _ _ _ _ _ _ _ Hok Hk1 Hk2 He1 He2 Hkey) as Hs.
    rewrite Hs in Hh1.
    pose proof (holders_index _ _ _ _ _ _ (si_nodup _ _ _ Hok) Ha Hb Hh1 Hh2) as ->.
    split; [done|]. assert (k1 = k2) as -> by congruence.
    apply (local_slot_inj k2); [|done..]. exact (holds_nodup _ _ (si_nodup _ _ _ Hok) Hk2).
  - intros h Hh ->. assert ((le_slot e1, le_idx e1) ∈ bk_holds k2) as Hh3
      by (apply elem_of_app; by right).
    pose proof (holders_index _ _ _ _ _ _ (si_nodup _ _ _ Hok) Ha Hb Hh1 Hh3) as ->.
    assert (k1 = k2) as -> by congruence. pose proof (holds_nodup _ _ (si_nodup _ _ _ Hok) Hk2) as Hnd.
    apply list.NoDup_app in Hnd as (_ & Hdis & _). apply (Hdis (le_slot e1, le_idx e1)); [|done].
    apply list_elem_of_fmap. by exists e1.
  - destruct (si_owns _ _ _ Hok k1 e1 Hk1 He1) as (blk & buf & Hloc & Hbuf & Ht).
    exists blk, buf. pose proof (holders_in _ _ _ Hk1 Hh1) as Hin.
    split_and!; [done..| |].
    + rewrite (mk_bits _ _ _ (si_marked _ _ _ Hok _ _ Hbuf)) by (by eapply si_range).
      by apply bool_decide_eq_true_2.
    + pose proof (si_held _ _ _ Hok k1 (le_slot e1) Hk1). pose proof (held_at_in _ _ _ Hh1).
      pose proof (si_pins _ _ _ Hok _ _ Hbuf).
      pose proof (pins_le_total _ _ _ (le_slot e1) _ (si_map _ _ _ Hok) Hk1). lia.
Qed.

(** In a server state that satisfies the invariant, a claim is
    granted exactly when no backend holds the entry, and a granted claim is
    recorded as the backend's own; the claims of all others, and every map,
    stay as they were.  It can only fail as a page read fails. *)
Theorem claim_granted_iff_free `{SuperStore T} `{FileLayerLaws F} env (w : World T F) p k ks
    r f l blk idx n pg :
  server_inv w p (k :: ks) → ready (view w p k) r f l blk idx n pg →
  match MapInflightTryClaim env r f l (view w p k) with
  | (Ok granted, s') =>
      server_inv (ms_world s') (pool (ms_sys s')) (bk_of s' (bk_barriers k) :: ks) ∧
      same_map (view w p k) s' ∧
      (granted = true ↔ ¬ entry_held (view w p k) (holders (k :: ks)) r f blk idx) ∧
      if granted
      then ∃ i, ms_local s' = bk_local k ++ [MkLocal r f l InvalidBlockNumber i idx]
      else ms_local s' = bk_local k
  | (Err e, _) => read_error (F := F) (ms_sys (view w p k)) e
  end.
Proof.
  intros Hinv Hrd. assert (shared ks (bk_barriers k) (view w p k)) as Hsh by (by destruct k).
  assert (bk_of (view w p k) (bk_barriers k) = k) as Hk by (by destruct k).
  apply (wp_try_claim env ks (bk_barriers k) _ r f l blk idx n pg); [done|done|..]; rewrite Hk.
  - intros s' [_ Hs'] Hm Hlo Hheld. split; [done|]. split; [done|]. split; [|done]. split; [done|tauto].
  - intros s' i [_ Hs'] Hm Hfree _ Hlo. split; [done|]. split; [done|]. split; [done|by exists i].
Qed.

(** The exit handler's clean-up of owned remaps terminates without
    error in any server state that satisfies the invariant, leaves this
    backend owning nothing, and keeps the claims of all others. *)
Theorem exit_cleanup_releases_all `{SuperStore T} `{FileLayerLaws F} (w : World T F) p k ks :
  server_inv w p (k :: ks) →
  ∃ s', MapInflightCleanupOwned (view w p k) = (Ok tt, s') ∧ ms_local s' = [] ∧
    same_map (view w p k) s' ∧
    server_inv (ms_world s') (pool (ms_sys s')) (bk_of s' (bk_barriers k) :: ks).
Proof.
  intros Hinv. assert (shared ks (bk_barriers k) (view w p k)) as Hsh by (by destruct k).
  pose proof (wp_cleanup ks (bk_barriers k) (view w p k)
    (λ _ s', ms_local s' = [] ∧ same_map (view w p k) s' ∧ shared ks (bk_barriers k) s')
    (λ _ _, False) Hsh ltac:(done)) as Hw.
  unfold wp in Hw. destruct (MapInflightCleanupOwned (view w p k)) as [[[]|e] s']; [|done].
  destruct Hw as (Hl & Hm & [_ Hs']). by exists s'.
Qed.

(** ** A concrete server *)

Lemma demo_server : server_ok (server_start demo_start 2 2).
Proof. apply start_ok; [done|exact demo_exists]. Qed.

Lemma demo_ready : ready demo_state demo_rel MAIN_FORKNUM 0 3 0 0 ff_page.
Proof.
  split; [by left|exact (u32_of_bool 0 eq_refl)|exact demo_location|exact demo_size|exact demo_page].
Qed.

Definition demo_claimed : MapState MapSuperTable RefFiles :=
  (MapInflightTryClaim demo_env demo_rel MAIN_FORKNUM 0 demo_state).2.

Lemma demo_claim :
  MapInflightTryClaim demo_env demo_rel MAIN_FORKNUM 0 demo_state = (Ok true, demo_claimed).
Proof.
  assert ((MapInflightTryClaim demo_env demo_rel MAIN_FORKNUM 0 demo_state).1 = Ok true) as Hok
    by (vm_compute; exact eq_refl).
  unfold demo_claimed. rewrite <-Hok. apply surjective_pairing.
Qed.

Lemma demo_claimed_local :
  ms_local demo_claimed = [MkLocal demo_rel MAIN_FORKNUM 0 InvalidBlockNumber 0 0].
Proof. vm_compute. exact eq_refl. Qed.

Definition demo_claimed_server : Server (T := MapSuperTable) (F := RefFiles) :=
  MkServer (ms_world demo_claimed) (pool (ms_sys demo_claimed))
    [bk_of demo_claimed []; idle_backend 2].

Lemma demo_reach : rtc (server_step demo_env) (server_start demo_start 2 2) demo_claimed_server.
Proof.
  apply rtc_once. apply (Step demo_env (server_start demo_start 2 2) 0 (idle_backend 2)
    (OpClaim demo_rel MAIN_FORKNUM 0) [] demo_claimed); [exact eq_refl| |].
  - exists 3, 0, 0, ff_page. exact demo_ready.
  - change (view _ _ _) with demo_state. cbn [run_op bk_barriers idle_backend].
    unfold mbind, M_bind. rewrite demo_claim. exact eq_refl.
Qed.

Lemma inflight_exclusion_witness :
  ∃ buf, buffers (sv_pool demo_claimed_server) !! 0%nat = Some buf ∧
    tagged buf (demo_rel, MAIN_FORKNUM, 3) ∧ pending_bit buf 0 = true.
Proof.
  assert (MkLocal demo_rel MAIN_FORKNUM 0 InvalidBlockNumber 0 0 ∈ bk_local (bk_of demo_claimed []))
    as Hin by (cbn [bk_of bk_local]; rewrite demo_claimed_local; by left).
  destruct (inflight_exclusion demo_env demo_start 2 2 demo_claimed_server 0 0 _ _ _ _
    (conj eq_refl eq_refl) demo_exists demo_reach eq_refl eq_refl Hin Hin)
    as (_ & _ & blk & buf & Hloc & Hb & Ht & Hbit & _).
  cbn [le_fork le_lblkno le_idx le_slot le_rnode] in *.
  rewrite demo_location in Hloc. injection Hloc as <-. exists buf.
  split; [exact Hb|]. split; [exact Ht|exact Hbit].
Defined.

Lemma claim_granted_iff_free_witness :
  ¬ entry_held demo_state (holders [idle_backend 2; idle_backend 2]) demo_rel MAIN_FORKNUM 3 0.
Proof.
  pose proof (claim_granted_iff_free demo_env demo_start (MapShmemInit 2) (idle_backend 2)
    [idle_backend 2] demo_rel MAIN_FORKNUM 0 3 0 0 ff_page demo_server demo_ready) as Hc.
  change (view demo_start (MapShmemInit 2) (idle_backend 2)) with demo_state in Hc.
  rewrite demo_claim in Hc. destruct Hc as (_ & _ & [Hc _] & _). exact (Hc eq_refl).
Defined.

Lemma demo_claimed_inv :
  server_inv (ms_world demo_claimed) (pool (ms_sys demo_claimed))
    [bk_of demo_claimed []; idle_backend 2].
Proof. exact (reach_ok demo_env _ _ demo_reach demo_server). Qed.

Lemma exit_cleanup_releases_all_witness :
  ∃ s', MapInflightCleanupOwned (view (ms_world demo_claimed) (pool (ms_sys demo_claimed))
          (bk_of demo_claimed [])) = (Ok tt, s') ∧ ms_local s' = [].
Proof.
  destruct (exit_cleanup_releases_all (ms_world demo_claimed) (pool (ms_sys demo_claimed))
    (bk_of demo_claimed []) [idle_backend 2] demo_claimed_inv) as (s' & Hrun & Hl & _).
  exists s'. split; [exact Hrun|exact Hl].
Defined.
