(* ===== verification/MapReserve.v ===== *)
(** * Reserving a physical block for a logical block

    [MapTryReserveFreshPblknoInternal] of [storage/map/map.c] composes the
    claim of a map entry ([MapInflight]) with the reservation frontier of the
    superblock ([SBlock]): either both happen or the claim is given back. *)

From S2P Require Import Prelude MapLayout Superblock SuperTable FileLayer SBlock SBlockInv.
From S2P Require Import SBlockSafety SBlockSpec.
From S2P Require Import BufState MapBuf MapClock PoolInv MapPage MapPageSpec MapEntries.
From S2P Require Import MapInflight MapInflightSpec.

Local Open Scope Z_scope.

Section reserve.
Context {T F : Type} `{SuperStoreLaws T} `{FileLayerLaws F} (env : Env).
Local Abbreviation S := (MapState T F).
Implicit Types (s : S) (w : World T F).

(** Same sizes and same pages of every map. *)
Definition same_pages s s' : Prop :=
  (∀ r f, trusted_size (w_store (ms_world s')) r f = trusted_size (w_store (ms_world s)) r f) ∧
  ∀ r f blk, map_page s' r f blk = map_page s r f blk.

Lemma same_pages_trans s1 s2 s3 : same_pages s1 s2 → same_pages s2 s3 → same_pages s1 s3.
Proof. intros [E1 M1] [E2 M2]. split; intros; [by rewrite E2, E1|by rewrite M2, M1]. Qed.

Lemma same_map_pages s s' : same_map s s' → same_pages s s'.
Proof. intros [[E _] M]. split; [|done]. intros. by rewrite E. Qed.

(** ** The frontier *)

Lemma reserve_frontier_cases w r f got e :
  ss_wf (w_store w) → ss_map (w_store w) !! r = Some e → fork_mapped f →
  ∃ v, MapSuperGetReservedNextFree e f = Ok v ∧
  ((∃ er, reserve_frontier env r f got w = (Err er, w)) ∨
   reserve_frontier env r f got w = (Ok None, w) ∨
   ∃ e', reserve_frontier env r f got w = (Ok (Some v), set_store (ss_put (w_store w) r e') w) ∧
     super e' = super e ∧ eflags e' = eflags e ∧ key e' = key e ∧ in_use e' = in_use e).
Proof.
  intros Hwf He Hf.
  assert (∃ v, MapSuperGetReservedNextFree e f = Ok v) as [v Hv].
  { unfold MapSuperGetReservedNextFree. destruct Hf as [->|[->| ->]]; cbn; eauto. }
  exists v. split; [done|]. unfold reserve_frontier, find_entry, gets, mbind, M_bind.
  rewrite ss_find_spec, He by done. destruct got; [|right; by left].
  destruct (entry_untrusted e); [destruct (InRecovery env); [right; by left|left; by eexists]|].
  unfold lift. rewrite Hv. case_decide; [left; by eexists|]. right. right.
  assert (∃ p, pf_set (reserved_next_free e) f (MapNormalizeForkBlockCount f (u32 (v + 1))) = Some p)
    as [p Hp] by (destruct Hf as [->|[->| ->]]; cbn; eauto).
  exists (with_reserved p e). unfold MapSuperSetReservedNextFree. cbn zeta. rewrite Hp. done.
Qed.

Lemma trusted_put w r e e' r' f :
  ss_wf (w_store w) → ss_map (w_store w) !! r = Some e → super e' = super e →
  eflags e' = eflags e → key e' = key e → in_use e' = in_use e →
  trusted_size (ss_put (w_store w) r e') r' f = trusted_size (w_store w) r' f.
Proof.
  intros Hwf He Es Ef Ek Eu. destruct (ss_key _ _ _ Hwf He) as [Hk Hu].
  destruct (ss_put_spec (w_store w) r e e') as [Hwf' Hm]; [done|done|congruence|congruence|].
  unfold trusted_size. rewrite !ss_find_spec, Hm by done. destruct (decide (r' = r)) as [->|Hne].
  - by rewrite lookup_insert_eq, He, Es, Ef.
  - by rewrite lookup_insert_ne.
Qed.

Lemma map_inv_world s w :
  map_inv s → w_files w = files s →
  (∀ r f, trusted_size (w_store w) r f = trusted_size (w_store (ms_world s)) r f) →
  map_inv (MkMapState w (ms_sys s) (ms_local s)) ∧
  same_pages s (MkMapState w (ms_sys s) (ms_local s)).
Proof.
  intros [Hp Hc Hf He Ha] Hfs Hts.
  split; [split; [done|done|done|..]|split; [done|]]; unfold map_page, files in *; cbn [ms_world ms_sys];
    rewrite ?Hfs; intros; try (rewrite Hts in *); eauto.
Qed.

Lemma shared_world ks bars s w :
  shared ks bars s → w_files w = files s →
  (∀ r f, trusted_size (w_store w) r f = trusted_size (w_store (ms_world s)) r f) →
  shared ks bars (MkMapState w (ms_sys s) (ms_local s)).
Proof.
  intros [Hid [Hm Hpi Hnd Hmk Hr Ho Hh]] Hfs Hts. split; [done|]. split; try done.
  intros k Hk. destruct (map_inv_world (view (ms_world s) (pool (ms_sys s)) k) w); [by apply Hm|done..].
Qed.

(** ** Forgetting the entry that was remembered last *)

Lemma find_last r f l es e :
  MapInflightLocalFind r f l es = None → local_key e = (r, f, l) →
  MapInflightLocalFind r f l (es ++ [e]) = Some (length es, e).
Proof.
  intros Hn Hk. unfold MapInflightLocalFind in *. rewrite list_find_app_r by done.
  cbn. rewrite decide_True by done. done.
Qed.

Lemma forget_last r f l es e :
  MapInflightLocalFind r f l es = None → local_key e = (r, f, l) →
  MapInflightLocalForget r f l (es ++ [e]) = es.
Proof.
  intros Hn Hk. unfold MapInflightLocalForget. rewrite (find_last r f l es e), length_app by done.
  cbn [length]. replace (length es + 1 - 1)%nat with (length es) by lia.
  rewrite list_lookup_middle by done. rewrite insert_app_r_alt, Nat.sub_diag by lia. cbn.
  apply take_app_length.
Qed.

(** ** The reservation *)

Section run.
Context (ks : list Backend) (bars : list (nat * Z)) (s : S).
Context (r : RelFileLocator) (f : ForkNumber) (l blk idx n : Z) (pg : list Z) (e : MapSuperEntry).
Context (Hsh : shared ks bars s) (Hrd : ready s r f l blk idx n pg).
Context (Hwf : ss_wf (w_store (ms_world s))) (He : ss_map (w_store (ms_world s)) !! r = Some e).

Definition reserved_post (o : option Z) s' : Prop :=
  shared ks bars s' ∧ same_pages s s' ∧
  match o with
  | Some p => MapSuperGetReservedNextFree e f = Ok p ∧
      ¬ entry_held s (holders (bk_of s bars :: ks)) r f blk idx ∧
      ∃ i, ms_local s' = ms_local s ++ [MkLocal r f l p i idx]
  | None => ms_local s' = ms_local s
  end.

(** Errors of the page read come before the claim, errors of the frontier
    leave no claim. *)
Definition reserved_error (er : pg_error) s' : Prop :=
  read_error (F := F) (ms_sys s) er ∨ reserved_post None s'.

Lemma wp_unclaim {A} s1 i p (m : M S A) Q (E : pg_error → S → Prop) :
  shared ks bars s1 → same_pages s s1 → MapInflightLocalFind r f l (ms_local s) = None →
  ms_local s1 = ms_local s ++ [MkLocal r f l p i idx] →
  (∀ s', reserved_post None s' → wp m Q E s') →
  wp (MapInflightRelease r f l;; m) Q E s1.
Proof using Type.
  intros Hs1 Hm1 Hn Hl1 Hk. apply wp_bind, (wp_release ks bars); [done|].
  intros s' Hs' Hm' Hl' _. apply Hk. split; [done|].
  split; [by eapply same_pages_trans, same_map_pages|]. cbn. rewrite Hl', Hl1. by apply forget_last.
Qed.

Lemma wp_frontier s1 i got Q (E : pg_error → S → Prop) :
  shared ks bars s1 → same_map s s1 → MapInflightLocalFind r f l (ms_local s) = None →
  ¬ entry_held s (holders (bk_of s bars :: ks)) r f blk idx →
  ms_local s1 = ms_local s ++ [MkLocal r f l InvalidBlockNumber i idx] →
  (∀ er, E er s1) → Q None s1 → (∀ p s', reserved_post (Some p) s' → Q (Some p) s') →
  wp (o ← on_world (reserve_frontier env r f got);
      match o with
      | Some next => MapInflightFinishClaim r f l next;; mret (Some next)
      | None => mret None
      end) Q E s1.
Proof using Hwf He Hrd.
  intros Hs1 Hm1 Hn Hfree Hl1 HE HN HS. apply wp_bind. destruct Hrd as [Hf _ _ _ _].
  assert (ss_wf (w_store (ms_world s1))) as Hwf1 by (by rewrite (proj1 (proj1 Hm1))).
  assert (ss_map (w_store (ms_world s1)) !! r = Some e) as He1 by (by rewrite (proj1 (proj1 Hm1))).
  destruct (reserve_frontier_cases (ms_world s1) r f got e Hwf1 He1 Hf)
    as (v & Hv & [[er Hrun]|[Hrun|(e' & Hrun & Es & Ef & Ek & Eu)]]);
    unfold wp, on_world; rewrite Hrun.
  - replace (MkMapState _ _ _) with s1 by (by destruct s1). by apply HE.
  - replace (MkMapState _ _ _) with s1 by (by destruct s1). by apply wp_ret.
  - set (w := set_store _ _).
    assert (∀ r' f', trusted_size (w_store w) r' f' = trusted_size (w_store (ms_world s1)) r' f') as Hts.
    { intros. unfold w. cbn. by apply trusted_put with e. }
    pose proof (shared_world ks bars s1 w Hs1 eq_refl Hts) as Hs2.
    destruct (map_inv_world s1 w (shared_map _ _ _ Hs1) eq_refl Hts) as [_ Hm2].
    set (s2 := MkMapState w (ms_sys s1) (ms_local s1)) in *.
    apply wp_bind, (wp_finish_local ks bars s2 r f l v (length (ms_local s))
      (MkLocal r f l InvalidBlockNumber i idx)); [done|cbn; rewrite Hl1; by apply find_last|].
    intros s' Hs' Hm' Hl' _. apply wp_ret, HS. split; [done|]. split.
    { eapply same_pages_trans; [by apply same_map_pages|]. eapply same_pages_trans; [done|]. by apply same_map_pages. }
    split; [done|]. split; [done|]. exists i. rewrite Hl'. cbn. rewrite Hl1.
    rewrite alter_app_r_alt, Nat.sub_diag by lia. done.
Qed.

Lemma wp_reserve got :
  wp (MapTryReserveFreshPblknoInternal env r f l got) reserved_post reserved_error s.
Proof using All.
  pose proof (shared_map _ _ _ Hsh) as Hinv. pose proof Hrd as [Hf Hl Hloc Hn Hv].
  assert (MapForkHasMappedState f = true) as Hms by (by destruct Hf as [->|[->| ->]]).
  assert (same_pages s s) as Hrefl by done.
  unfold MapTryReserveFreshPblknoInternal. rewrite Hms. cbn [negb].
  apply wp_bind. assert (MapSBlockEnsureLoaded r (ms_world s) = (Ok true, ms_world s)) as Hload.
  { unfold MapSBlockEnsureLoaded, gets, find_entry, mbind, M_bind. cbn.
    change (w_files (ms_world s)) with (files s). rewrite (mi_exists _ Hinv r f n Hn). cbn.
    by rewrite ss_find_spec, He. }
  unfold wp at 1, on_world. rewrite Hload. cbn [negb].
  replace (MkMapState _ _ _) with s by (by destruct s).
  apply wp_bind. eapply wp_mono; [apply (wp_try_claim env ks bars s r f l blk idx n pg) with
    (Q := λ g s1, shared ks bars s1 ∧ same_map s s1 ∧
      if (g : bool) then ¬ entry_held s (holders (bk_of s bars :: ks)) r f blk idx ∧
        MapInflightLocalFind r f l (ms_local s) = None ∧
        ∃ i, ms_local s1 = ms_local s ++ [MkLocal r f l InvalidBlockNumber i idx]
      else ms_local s1 = ms_local s); [done|done|done|]|..].
  { intros s' i ??????. split; [done|]. split; [done|]. cbn. eauto. }
  2: { intros er s' Her. by left. }
  intros [] s1 (Hs1 & Hm1 & Hg); cbn [negb].
  2: { apply wp_ret. split; [done|]. split; [by apply same_map_pages|done]. }
  destruct Hg as (Hfree & Hfind & i & Hl1). apply same_map_pages in Hm1 as Hp1.
  apply wp_bind, wp_catch, (wp_frontier s1 i); [done|done|done|done|done|..].
  - intros er. eapply wp_unclaim; [done|done|done|done|]. intros s' Hs'. apply wp_throw. by right.
  - eapply wp_unclaim; [done|done|done|done|]. intros s' Hs'. by apply wp_ret.
  - intros p s' Hs'. by apply wp_ret.
Qed.
End run.
End reserve.

(** ** Properties *)


