(* ===== verification/WalRecord.v ===== *)
(** * WAL records with remap headers

    Assembly of a WAL record from the registered blocks
    ([XLogRecordAssembleUmbra] of [access/transam/xloginsert.c]), its final
    checksum ([access/transam/xlog.c]), and validation, decoding and page image
    restoration by the reader ([access/transam/xlogreader.c]).  The format is
    that of [include/access/xlogrecord.h] in an Umbra build. *)

From S2P Require Import Prelude Crc32c.

Local Open Scope Z_scope.

(** ** Format *)

Definition XLR_MAX_BLOCK_ID : Z := 32.
Definition XLR_BLOCK_ID_DATA_SHORT : Z := 255.
Definition XLR_BLOCK_ID_DATA_LONG : Z := 254.
Definition XLR_BLOCK_ID_ORIGIN : Z := 253.
Definition XLR_BLOCK_ID_TOPLEVEL_XID : Z := 252.
Definition SizeOfXLogRecord : nat := 24.
Definition XLogRecordMaxSize : Z := 1020 * 1024 * 1024.
Definition XLR_UMBRA_REMAP_FORMAT_MASK : Z := 0x0C.

Definition BKPBLOCK_FORK_MASK : Z := 0x07.
Definition BKPBLOCK_HAS_REMAP : Z := 0x08.
Definition BKPBLOCK_HAS_IMAGE : Z := 0x10.
Definition BKPBLOCK_HAS_DATA : Z := 0x20.
Definition BKPBLOCK_WILL_INIT : Z := 0x40.
Definition BKPBLOCK_SAME_REL : Z := 0x80.

Definition BKPIMAGE_HAS_HOLE : Z := 0x01.
Definition BKPIMAGE_APPLY : Z := 0x02.
Definition BKPIMAGE_COMPRESS_PGLZ : Z := 0x04.
Definition BKPIMAGE_COMPRESS_LZ4 : Z := 0x08.
Definition BKPIMAGE_COMPRESS_ZSTD : Z := 0x10.
Definition BKPIMAGE_COMPRESSED (info : Z) : bool := has_flag info 0x1C.

Definition REGBUF_WILL_INIT : Z := 0x06.
Definition REGBUF_STANDARD : Z := 0x08.

Definition SizeOfPageHeaderData : Z := 24.

Inductive WalCompression := WAL_COMPRESSION_PGLZ | WAL_COMPRESSION_LZ4 | WAL_COMPRESSION_ZSTD.

Record XLogRecordBlockRemapHeader := MkRemap {
  rm_old_pblkno : Z;
  rm_new_pblkno : Z;
  rm_logical_nblocks : Z;
  rm_next_free_pblkno : Z;
}.

(** ** Registered blocks

    The part of [registered_buffer] the assembly reads, and what its first
    loop decided for the block. *)
Record registered_buffer := MkRegBuf {
  rb_flags : Z;
  rb_rlocator : RelFileLocator;
  rb_forkno : ForkNumber;
  rb_block : Z;
  rb_page : list Z;
  rb_rdata : list Z;
  rb_remap : XLogRecordBlockRemapHeader;
}.

Record BlockPlan := MkPlan {
  needs_backup : bool;
  needs_data : bool;
  include_image : bool;
  include_remap : bool;
}.

Section assemble.

(** The compression libraries: [pglz_compress], [LZ4_compress_default] and
    [ZSTD_compress], [None] when they fail.  [None] for [wal_compression] is
    [WAL_COMPRESSION_NONE]. *)
Context (compress : WalCompression → list Z → option (list Z)).
Context (wal_compression : option WalCompression).

Definition page_u16 (page : list Z) (offset : nat) : Z := le_val (take 2 (drop offset page)).

(** [hole_offset] and [hole_length]. *)
Definition image_hole (rb : registered_buffer) : Z * Z :=
  if decide (has_flag (rb_flags rb) REGBUF_STANDARD = true) then
    let lower := page_u16 (rb_page rb) 12 in
    let upper := page_u16 (rb_page rb) 14 in
    if decide (SizeOfPageHeaderData ≤ lower ∧ lower < upper ∧ upper ≤ BLCKSZ)
    then (lower, upper - lower)
    else (0, 0)
  else (0, 0).

Definition skip_hole (page : list Z) (hole_offset hole_length : Z) : list Z :=
  take (Z.to_nat hole_offset) page ++ drop (Z.to_nat (hole_offset + hole_length)) page.

Definition XLogCompressBackupBlock (method : WalCompression) (page : list Z)
    (hole_offset hole_length : Z) : option (list Z) :=
  let orig_len := BLCKSZ - hole_length in
  let extra_bytes := if decide (hole_length ≠ 0) then 2 else 0 in
  let source := if decide (hole_length ≠ 0) then skip_hole page hole_offset hole_length
                else page in
  match compress method source with
  | Some dest =>
      if decide (Z.of_nat (length dest) + extra_bytes < orig_len) then Some dest else None
  | None => None
  end.

Definition compress_flag (method : WalCompression) : Z :=
  match method with
  | WAL_COMPRESSION_PGLZ => BKPIMAGE_COMPRESS_PGLZ
  | WAL_COMPRESSION_LZ4 => BKPIMAGE_COMPRESS_LZ4
  | WAL_COMPRESSION_ZSTD => BKPIMAGE_COMPRESS_ZSTD
  end.

(** [XLogRecordBlockImageHeader], [XLogRecordBlockCompressHeader] and the
    bytes that go to the data part. *)
Record BlockImage := MkImage {
  im_hole_offset : Z;
  im_hole_length : Z;
  im_info : Z;
  im_compressed : bool;
  im_bytes : list Z;
}.

Definition block_image (rb : registered_buffer) (plan : BlockPlan) : BlockImage :=
  let '(hole_offset, hole_length) := image_hole rb in
  let info := Z.lor (if decide (hole_length = 0) then 0 else BKPIMAGE_HAS_HOLE)
                    (if needs_backup plan then BKPIMAGE_APPLY else 0) in
  let plain := MkImage hole_offset hole_length info false
                 (skip_hole (rb_page rb) hole_offset hole_length) in
  match wal_compression with
  | None => plain
  | Some method =>
      match XLogCompressBackupBlock method (rb_page rb) hole_offset hole_length with
      | Some bytes =>
          MkImage hole_offset hole_length (Z.lor info (compress_flag method)) true bytes
      | None => plain
      end
  end.

Definition rloc_bytes (r : RelFileLocator) : list Z :=
  pack_fields [4; 4; 4]%nat [spcOid r; dbOid r; relNumber r].

Definition remap_bytes (rm : XLogRecordBlockRemapHeader) : list Z :=
  pack_fields [4; 4; 4; 4]%nat
    [rm_old_pblkno rm; rm_new_pblkno rm; rm_logical_nblocks rm; rm_next_free_pblkno rm].

Definition image_bytes (im : BlockImage) : list Z :=
  pack_fields [2; 2; 1]%nat [Z.of_nat (length (im_bytes im)); im_hole_offset im; im_info im] ++
  (if bool_decide (im_hole_length im ≠ 0) && im_compressed im
   then pack_fields [2]%nat [im_hole_length im] else []).

Definition fork_flags (rb : registered_buffer) (plan : BlockPlan) (samerel : bool) : Z :=
  let add (b : bool) flag z := Z.lor z (if b then flag else 0) in
  add samerel BKPBLOCK_SAME_REL
    (add (needs_data plan) BKPBLOCK_HAS_DATA
       (add (include_image plan) BKPBLOCK_HAS_IMAGE
          (add (include_remap plan) BKPBLOCK_HAS_REMAP
             (add (bool_decide (Z.land (rb_flags rb) REGBUF_WILL_INIT = REGBUF_WILL_INIT))
                BKPBLOCK_WILL_INIT (fork_code (rb_forkno rb)))))).

(** One turn of the second loop: what goes to the header scratch area and
    what is chained to the data. *)
Definition block_header (block_id : Z) (rb : registered_buffer) (plan : BlockPlan)
    (samerel : bool) : list Z :=
  pack_fields [1; 1; 2]%nat
    [block_id; fork_flags rb plan samerel;
     if needs_data plan then Z.of_nat (length (rb_rdata rb)) else 0] ++
  (if include_remap plan then remap_bytes (rb_remap rb) else []) ++
  (if include_image plan then image_bytes (block_image rb plan) else []) ++
  (if samerel then [] else rloc_bytes (rb_rlocator rb)) ++
  pack_fields [4]%nat [rb_block rb].

Definition block_data (rb : registered_buffer) (plan : BlockPlan) : list Z :=
  (if include_image plan then im_bytes (block_image rb plan) else []) ++
  (if needs_data plan then rb_rdata rb else []).

(** The second loop over the registered blocks; [None] is a slot that is not
    in use. *)
Fixpoint block_headers (block_id : Z) (prev : option RelFileLocator)
    (bs : list (option (registered_buffer * BlockPlan))) : list Z :=
  match bs with
  | [] => []
  | None :: bs => block_headers (block_id + 1) prev bs
  | Some (rb, plan) :: bs =>
      block_header block_id rb plan (bool_decide (prev = Some (rb_rlocator rb))) ++
      block_headers (block_id + 1) (Some (rb_rlocator rb)) bs
  end.

Fixpoint block_datas (bs : list (option (registered_buffer * BlockPlan))) : list Z :=
  match bs with
  | [] => []
  | None :: bs => block_datas bs
  | Some (rb, plan) :: bs => block_data rb plan ++ block_datas bs
  end.

(** What the rest of the record is made of. *)
Record RecordParts := MkParts {
  rp_rmid : Z;
  rp_info : Z;
  rp_xid : Z;
  rp_blocks : list (option (registered_buffer * BlockPlan));
  rp_origin : option Z;           (* replication origin, when included *)
  rp_topxid : option Z;           (* top-level transaction, when logged *)
  rp_main : list Z;
}.

Definition origin_header (o : option Z) : list Z :=
  match o with
  | Some o => pack_fields [1; 2]%nat [XLR_BLOCK_ID_ORIGIN; o]
  | None => []
  end.

Definition topxid_header (o : option Z) : list Z :=
  match o with
  | Some x => pack_fields [1; 4]%nat [XLR_BLOCK_ID_TOPLEVEL_XID; x]
  | None => []
  end.

Definition main_header (main : list Z) : list Z :=
  let n := Z.of_nat (length main) in
  if decide (0 < n) then
    if decide (255 < n) then pack_fields [1; 4]%nat [XLR_BLOCK_ID_DATA_LONG; n]
    else pack_fields [1; 1]%nat [XLR_BLOCK_ID_DATA_SHORT; n]
  else [].

Definition tail_headers (p : RecordParts) : list Z :=
  origin_header (rp_origin p) ++ topxid_header (rp_topxid p) ++ main_header (rp_main p).

Definition record_body (p : RecordParts) : list Z :=
  block_headers 0 None (rp_blocks p) ++ tail_headers p ++
  block_datas (rp_blocks p) ++ rp_main p.

(** The fixed header; the two padding bytes are zero. *)
Definition record_header (tot_len xid prev info rmid crc : Z) : list Z :=
  pack_fields [4; 4; 8; 1; 1; 2; 4]%nat [tot_len; xid; prev; info; rmid; 0; crc].

(** The CRC routine; the alignment of the data does not matter to it. *)
Definition COMP_CRC32C (crc : Z) (data : list Z) : Z := pg_comp_crc32c_sb8 0 crc data.

Definition oversized : pg_error :=
  PgError ERROR ERRCODE_INTERNAL_ERROR "oversized WAL record".
Definition too_much_data : pg_error :=
  PgError ERROR ERRCODE_INTERNAL_ERROR "too much WAL data".

(** Header, body and unfinished checksum. *)
Definition assemble_record (p : RecordParts) : result (Z * list Z * Z) :=
  let body := record_body p in
  let total_len := Z.of_nat (SizeOfXLogRecord + length body) in
  if decide (2 ^ 32 - 1 < Z.of_nat (length (rp_main p))) then Err too_much_data
  else if decide (XLogRecordMaxSize < total_len) then Err oversized
  else Ok (total_len, body, COMP_CRC32C INIT_CRC32C body).

(** [XLogInsertRecord]: the previous link is filled in, the header goes into
    the checksum and the record is complete. *)
Definition finish_record (p : RecordParts) (xl_prev : Z) : result (list Z) :=
  a ← assemble_record p;
  let '(total_len, body, rdata_crc) := a in
  let head := take 20 (record_header total_len (rp_xid p) xl_prev (rp_info p) (rp_rmid p) 0) in
  Ok (record_header total_len (rp_xid p) xl_prev (rp_info p) (rp_rmid p)
        (FIN_CRC32C (COMP_CRC32C rdata_crc head)) ++ body).
End assemble.

(** ** Reading *)

Record DecodedBkpBlock := MkDecoded {
  db_rlocator : RelFileLocator;
  db_forknum : Z;
  db_blkno : Z;
  db_flags : Z;
  db_has_remap : bool;
  db_remap : XLogRecordBlockRemapHeader;
  db_has_image : bool;
  db_apply_image : bool;
  db_bimg_len : Z;
  db_hole_offset : Z;
  db_hole_length : Z;
  db_bimg_info : Z;
  db_has_data : bool;
  db_data_len : Z;
  db_bkp_image : list Z;
  db_data : list Z;
}.

(** [None] in [dr_blocks] is a block id that is not in use; its length is
    [max_block_id + 1]. *)
Record DecodedXLogRecord := MkRecord {
  dr_origin : Z;
  dr_toplevel_xid : Z;
  dr_main_data : list Z;
  dr_blocks : list (option DecodedBkpBlock);
}.

Definition invalid_record (msg : string) : pg_error := PgError ERROR ERRCODE_DATA_CORRUPTED msg.
Definition shortdata : pg_error := invalid_record "record with invalid length".

(** [ptr] and [remaining]. *)
Definition Reader : Type := list Z * Z.

Definition COPY_HEADER_FIELD (size : nat) : M Reader (list Z) := λ '(ptr, remaining),
  if decide (remaining < Z.of_nat size) then (Err shortdata, (ptr, remaining))
  else (Ok (take size ptr), (drop size ptr, remaining - Z.of_nat size)).

Definition header_int (size : nat) : M Reader Z :=
  bs ← COPY_HEADER_FIELD size; mret (le_val bs).

Definition check (ok : bool) (msg : string) : M Reader unit :=
  if ok then mret tt else throw (invalid_record msg).

Definition no_remap : XLogRecordBlockRemapHeader :=
  MkRemap InvalidBlockNumber InvalidBlockNumber InvalidBlockNumber InvalidBlockNumber.

Definition decode_remap (xl_info : Z) (has_remap : bool) : M Reader XLogRecordBlockRemapHeader :=
  if has_remap then
    check (negb (has_flag xl_info XLR_UMBRA_REMAP_FORMAT_MASK)) "unsupported remap format bits";;
    old_pblkno ← header_int 4;
    new_pblkno ← header_int 4;
    logical_nblocks ← header_int 4;
    next_free_pblkno ← header_int 4;
    mret (MkRemap old_pblkno new_pblkno logical_nblocks next_free_pblkno)
  else mret no_remap.

(** Image length, hole and flags; all zero when the block has no image. *)
Record ImageFields := MkFields {
  if_bimg_len : Z;
  if_hole_offset : Z;
  if_hole_length : Z;
  if_bimg_info : Z;
}.

Definition decode_image (has_image : bool) : M Reader ImageFields :=
  if has_image then
    bimg_len ← header_int 2;
    hole_offset ← header_int 2;
    bimg_info ← header_int 1;
    hole_length ← (if BKPIMAGE_COMPRESSED bimg_info then
                     if has_flag bimg_info BKPIMAGE_HAS_HOLE then header_int 2 else mret 0
                   else mret (u16 (BLCKSZ - bimg_len)));
    let has_hole := has_flag bimg_info BKPIMAGE_HAS_HOLE in
    check (negb (has_hole && (bool_decide (hole_offset = 0) || bool_decide (hole_length = 0) ||
                              bool_decide (bimg_len = BLCKSZ))))
      "BKPIMAGE_HAS_HOLE set, but hole offset, length or block image length wrong";;
    check (negb (negb has_hole && (bool_decide (hole_offset ≠ 0) || bool_decide (hole_length ≠ 0))))
      "BKPIMAGE_HAS_HOLE not set, but hole offset or length";;
    check (negb (BKPIMAGE_COMPRESSED bimg_info && bool_decide (bimg_len = BLCKSZ)))
      "BKPIMAGE_COMPRESSED set, but block image length";;
    check (negb (negb has_hole && negb (BKPIMAGE_COMPRESSED bimg_info) &&
                 bool_decide (bimg_len ≠ BLCKSZ)))
      "neither BKPIMAGE_HAS_HOLE nor BKPIMAGE_COMPRESSED set, but block image length";;
    mret (MkFields bimg_len hole_offset hole_length bimg_info)
  else mret (MkFields 0 0 0 0).

Definition decode_rlocator (samerel : bool) (prev : option RelFileLocator)
    : M Reader RelFileLocator :=
  if samerel then
    match prev with
    | Some r => mret r
    | None => throw (invalid_record "BKPBLOCK_SAME_REL set but no previous rel")
    end
  else
    bs ← COPY_HEADER_FIELD 12;
    let v := unpack_fields [4; 4; 4]%nat bs in
    mret (MkRel (v !!! 0%nat) (v !!! 1%nat) (v !!! 2%nat)).

(** One block reference, after its id; payloads are filled in later. *)
Definition decode_block (xl_info : Z) (prev : option RelFileLocator) : M Reader DecodedBkpBlock :=
  fork_flags ← header_int 1;
  let has_remap := has_flag fork_flags BKPBLOCK_HAS_REMAP in
  let has_image := has_flag fork_flags BKPBLOCK_HAS_IMAGE in
  let has_data := has_flag fork_flags BKPBLOCK_HAS_DATA in
  data_len ← header_int 2;
  check (negb (has_data && bool_decide (data_len = 0)))
    "BKPBLOCK_HAS_DATA set, but no data included";;
  check (negb (negb has_data && bool_decide (data_len ≠ 0)))
    "BKPBLOCK_HAS_DATA not set, but data length";;
  remap ← decode_remap xl_info has_remap;
  im ← decode_image has_image;
  r ← decode_rlocator (has_flag fork_flags BKPBLOCK_SAME_REL) prev;
  blkno ← header_int 4;
  mret (MkDecoded r (Z.land fork_flags BKPBLOCK_FORK_MASK) blkno fork_flags has_remap remap
          has_image (has_image && has_flag (if_bimg_info im) BKPIMAGE_APPLY)
          (if_bimg_len im) (if_hole_offset im) (if_hole_length im) (if_bimg_info im)
          has_data data_len [] []).

(** What the header loop has collected. *)
Record Headers := MkHeaders {
  h_origin : Z;
  h_xid : Z;
  h_main_len : Z;
  h_prev : option RelFileLocator;
  h_datatotal : Z;
  h_blocks : list (option DecodedBkpBlock);
}.

Definition no_headers : Headers := MkHeaders 0 0 0 None 0 [].

Definition add_block (id : Z) (b : DecodedBkpBlock) (h : Headers) : Headers :=
  MkHeaders (h_origin h) (h_xid h) (h_main_len h) (Some (db_rlocator b))
    (u32 (h_datatotal h + db_data_len b + (if db_has_image b then db_bimg_len b else 0)))
    (h_blocks h ++ replicate (Z.to_nat id - length (h_blocks h)) None ++ [Some b]).

Definition add_main (n : Z) (h : Headers) : Headers :=
  MkHeaders (h_origin h) (h_xid h) n (h_prev h) (u32 (h_datatotal h + n)) (h_blocks h).

(** The header loop.  Every turn reads at least one byte, so [remaining]
    turns are enough. *)
Fixpoint decode_headers (fuel : nat) (xl_info : Z) (h : Headers) : M Reader Headers :=
  remaining ← gets snd;
  if decide (h_datatotal h < remaining) then
    match fuel with
    | O => throw shortdata
    | S fuel =>
        id ← header_int 1;
        if decide (id = XLR_BLOCK_ID_DATA_SHORT) then
          n ← header_int 1; mret (add_main n h)
        else if decide (id = XLR_BLOCK_ID_DATA_LONG) then
          n ← header_int 4; mret (add_main n h)
        else if decide (id = XLR_BLOCK_ID_ORIGIN) then
          o ← header_int 2;
          decode_headers fuel xl_info
            (MkHeaders o (h_xid h) (h_main_len h) (h_prev h) (h_datatotal h) (h_blocks h))
        else if decide (id = XLR_BLOCK_ID_TOPLEVEL_XID) then
          x ← header_int 4;
          decode_headers fuel xl_info
            (MkHeaders (h_origin h) x (h_main_len h) (h_prev h) (h_datatotal h) (h_blocks h))
        else if decide (id ≤ XLR_MAX_BLOCK_ID) then
          check (bool_decide (Z.of_nat (length (h_blocks h)) ≤ id)) "out-of-order block_id";;
          b ← decode_block xl_info (h_prev h);
          decode_headers fuel xl_info (add_block id b h)
        else throw (invalid_record "invalid block_id")
    end
  else mret h.

(** The payloads follow in block order, the image of a block first. *)
Fixpoint fill_blocks (bs : list (option DecodedBkpBlock)) (ptr : list Z)
    : list (option DecodedBkpBlock) * list Z :=
  match bs with
  | [] => ([], ptr)
  | None :: bs => let '(bs', ptr) := fill_blocks bs ptr in (None :: bs', ptr)
  | Some b :: bs =>
      let n := if db_has_image b then Z.to_nat (db_bimg_len b) else O in
      let image := take n ptr in
      let ptr := drop n ptr in
      let m := if db_has_data b then Z.to_nat (db_data_len b) else O in
      let data := take m ptr in
      let ptr := drop m ptr in
      let b' := MkDecoded (db_rlocator b) (db_forknum b) (db_blkno b) (db_flags b)
                  (db_has_remap b) (db_remap b) (db_has_image b) (db_apply_image b)
                  (db_bimg_len b) (db_hole_offset b) (db_hole_length b) (db_bimg_info b)
                  (db_has_data b) (db_data_len b) image data in
      let '(bs', ptr) := fill_blocks bs ptr in (Some b' :: bs', ptr)
  end.

Definition record_field (rec : list Z) (k : nat) : Z :=
  unpack_fields [4; 4; 8; 1; 1; 2; 4]%nat rec !!! k.

Definition DecodeXLogRecord (rec : list Z) : result DecodedXLogRecord :=
  let xl_tot_len := record_field rec 0 in
  let xl_info := record_field rec 3 in
  let remaining := u32 (xl_tot_len - Z.of_nat SizeOfXLogRecord) in
  match decode_headers (Z.to_nat remaining) xl_info no_headers
          (drop SizeOfXLogRecord rec, remaining) with
  | (Err e, _) => Err e
  | (Ok h, (ptr, remaining)) =>
      if decide (remaining ≠ h_datatotal h) then Err shortdata
      else
        let '(bs, ptr) := fill_blocks (h_blocks h) ptr in
        Ok (MkRecord (h_origin h) (h_xid h) (take (Z.to_nat (h_main_len h)) ptr) bs)
  end.

(** [ValidXLogRecord] *)
Definition ValidXLogRecord (rec : list Z) : bool :=
  let xl_tot_len := record_field rec 0 in
  let crc := COMP_CRC32C INIT_CRC32C
               (take (Z.to_nat xl_tot_len - SizeOfXLogRecord) (drop SizeOfXLogRecord rec)) in
  let crc := FIN_CRC32C (COMP_CRC32C crc (take 20 rec)) in
  bool_decide (record_field rec 6 = crc).

(** ** Restoring a page image *)

Section restore.
(** [pglz_decompress], [LZ4_decompress_safe] and [ZSTD_decompress] with the
    expected length, [None] when they fail. *)
Context (decompress : WalCompression → list Z → Z → option (list Z)).

Definition image_method (info : Z) : option WalCompression :=
  if has_flag info BKPIMAGE_COMPRESS_PGLZ then Some WAL_COMPRESSION_PGLZ
  else if has_flag info BKPIMAGE_COMPRESS_LZ4 then Some WAL_COMPRESSION_LZ4
  else if has_flag info BKPIMAGE_COMPRESS_ZSTD then Some WAL_COMPRESSION_ZSTD
  else None.

(** [None] is the [false] return. *)
Definition RestoreBlockImage (r : DecodedXLogRecord) (block_id : nat) : option (list Z) :=
  match dr_blocks r !! block_id with
  | Some (Some b) =>
      if db_has_image b then
        ptr ← (if BKPIMAGE_COMPRESSED (db_bimg_info b) then
                 match image_method (db_bimg_info b) with
                 | Some method =>
                     decompress method (db_bkp_image b) (BLCKSZ - db_hole_length b)
                 | None => None
                 end
               else Some (db_bkp_image b));
        let off := Z.to_nat (db_hole_offset b) in
        if decide (db_hole_length b = 0) then Some (take (Z.to_nat BLCKSZ) ptr)
        else Some (take off ptr ++ replicate (Z.to_nat (db_hole_length b)) 0 ++
                   take (Z.to_nat (BLCKSZ - (db_hole_offset b + db_hole_length b))) (drop off ptr))
      else None
  | _ => None
  end.
End restore.
