(* ===== verification/WalRecordSpec.v ===== *)
(** * Decoding gives back what was assembled

    Every record the assembly produces passes the reader's checksum, decodes
    to the registered blocks with their remap headers, images and data, and
    restores the page images. *)

From S2P Require Import Prelude Crc32c WalRecord.

Local Open Scope Z_scope.

(** ** The reader on a known prefix *)

Definition rd (l : list Z) : Reader := (l, Z.of_nat (length l)).

Lemma copy_run n bs rest : length bs = n → COPY_HEADER_FIELD n (rd (bs ++ rest)) = (Ok bs, rd rest).
Proof.
  intros <-. unfold COPY_HEADER_FIELD, rd. rewrite length_app, decide_False by lia.
  rewrite take_app_length, drop_app_length. repeat f_equal. lia.
Qed.

Lemma int_run n v rest : fits n v → header_int n (rd (le_bytes n v ++ rest)) = (Ok v, rd rest).
Proof.
  intros Hv. unfold header_int, mbind, M_bind. rewrite copy_run by apply length_le_bytes.
  cbn. by rewrite le_val_bytes.
Qed.

Lemma bind_run {A B} (m : M Reader A) (k : A → M Reader B) s a s' :
  m s = (Ok a, s') → (m ≫= k) s = k a s'.
Proof. intros Hm. unfold mbind, M_bind. by rewrite Hm. Qed.

Lemma bind_check {B} ok msg (k : M Reader B) s : ok = true → (check ok msg;; k) s = k s.
Proof. by intros ->. Qed.

(** ** Flags *)

Lemma fork_flags_bits rb plan samerel :
  rb_forkno rb ≠ InvalidForkNumber →
  let ff := fork_flags rb plan samerel in
  fits 1 ff ∧ Z.land ff BKPBLOCK_FORK_MASK = fork_code (rb_forkno rb) ∧
  has_flag ff BKPBLOCK_HAS_REMAP = include_remap plan ∧
  has_flag ff BKPBLOCK_HAS_IMAGE = include_image plan ∧
  has_flag ff BKPBLOCK_HAS_DATA = needs_data plan ∧
  has_flag ff BKPBLOCK_SAME_REL = samerel.
Proof.
  intros Hf. unfold fork_flags. destruct (bool_decide (Z.land (rb_flags rb) _ = _)), samerel,
    (needs_data plan), (include_image plan), (include_remap plan), (rb_forkno rb);
    try done; by vm_compute.
Qed.

(** ** Well-formed inputs *)

Definition rloc_wf (r : RelFileLocator) : Prop :=
  is_u32 (spcOid r) ∧ is_u32 (dbOid r) ∧ is_u32 (relNumber r).

Definition remap_wf (rm : XLogRecordBlockRemapHeader) : Prop :=
  is_u32 (rm_old_pblkno rm) ∧ is_u32 (rm_new_pblkno rm) ∧
  is_u32 (rm_logical_nblocks rm) ∧ is_u32 (rm_next_free_pblkno rm).

Record block_wf (rb : registered_buffer) (plan : BlockPlan) : Prop := {
  bw_rloc : rloc_wf (rb_rlocator rb);
  bw_fork : rb_forkno rb ≠ InvalidForkNumber;
  bw_block : is_u32 (rb_block rb);
  bw_remap : include_remap plan = true → remap_wf (rb_remap rb);
  bw_page : length (rb_page rb) = Z.to_nat BLCKSZ ∧ Forall is_byte (rb_page rb);
  bw_data : needs_data plan = true →
    0 < Z.of_nat (length (rb_rdata rb)) < 2 ^ 16 ∧ Forall is_byte (rb_rdata rb);
}.

Lemma page_u16_range page off : Forall is_byte page → is_u16 (page_u16 page off).
Proof.
  intros Hp. unfold page_u16. assert (Forall is_byte (take 2 (drop off page))) as Hb
    by (by apply Forall_take, Forall_drop).
  pose proof (le_val_range _ Hb) as Hr. assert (length (take 2 (drop off page)) ≤ 2)%nat as Hl
    by (rewrite length_take; lia).
  unfold is_u16. split; [lia|]. eapply Z.lt_le_trans; [apply Hr|].
  change (2 ^ 16) with (256 ^ 2). apply Z.pow_le_mono_r; lia.
Qed.

Lemma hole_cases rb plan off len :
  block_wf rb plan → image_hole rb = (off, len) →
  (off = 0 ∧ len = 0) ∨ (24 ≤ off ∧ 0 < len ∧ off + len ≤ 8192).
Proof.
  intros [_ _ _ _ [Hl Hb] _]. unfold image_hole.
  pose proof (page_u16_range (rb_page rb) 12 Hb). pose proof (page_u16_range (rb_page rb) 14 Hb).
  unfold SizeOfPageHeaderData, BLCKSZ in *. repeat case_decide; intros [= <- <-]; [right|left; done..]. lia.
Qed.

Lemma skip_hole_length rb plan off len :
  block_wf rb plan → image_hole rb = (off, len) →
  Z.of_nat (length (skip_hole (rb_page rb) off len)) = 8192 - len.
Proof.
  intros Hw Hh. destruct (bw_page _ _ Hw) as [Hl _]. unfold BLCKSZ in Hl.
  unfold skip_hole. rewrite length_app, length_take, length_drop, Hl.
  destruct (hole_cases rb plan off len Hw Hh) as [[-> ->]|?]; lia.
Qed.

Section image.
Context (compress : WalCompression → list Z → option (list Z)) (wc : option WalCompression).

(** The two forms of an image. *)
Lemma image_cases rb plan :
  block_wf rb plan → let im := block_image compress wc rb plan in
  image_hole rb = (im_hole_offset im, im_hole_length im) ∧
  let base := Z.lor (if decide (im_hole_length im = 0) then 0 else BKPIMAGE_HAS_HOLE)
                (if needs_backup plan then BKPIMAGE_APPLY else 0) in
  (im_compressed im = false ∧ im_info im = base ∧
     im_bytes im = skip_hole (rb_page rb) (im_hole_offset im) (im_hole_length im)) ∨
  (∃ m, wc = Some m ∧ im_compressed im = true ∧ im_info im = Z.lor base (compress_flag m) ∧
     compress m (if decide (im_hole_length im ≠ 0)
                 then skip_hole (rb_page rb) (im_hole_offset im) (im_hole_length im)
                 else rb_page rb) = Some (im_bytes im) ∧
     Z.of_nat (length (im_bytes im)) < 8192 - im_hole_length im).
Proof.
  intros Hw. unfold block_image. destruct (image_hole rb) as [off len].
  destruct wc as [m|]; [|split; [done|by left]].
  unfold XLogCompressBackupBlock. destruct (compress m _) as [dest|] eqn:Hc; [|split; [done|by left]].
  destruct (decide (Z.of_nat (length dest) + _ < _)) as [Hlt|]; [|split; [done|by left]].
  split; [done|]. right. exists m. cbn. split_and!; try done.
  unfold BLCKSZ in Hlt. repeat case_decide; lia.
Qed.

Lemma info_bits (h a : bool) :
  let base := Z.lor (if h then BKPIMAGE_HAS_HOLE else 0) (if a then BKPIMAGE_APPLY else 0) in
  fits 1 base ∧ has_flag base BKPIMAGE_HAS_HOLE = h ∧ has_flag base BKPIMAGE_APPLY = a ∧
  BKPIMAGE_COMPRESSED base = false.
Proof. destruct h, a; by vm_compute. Qed.

Lemma info_bits_compressed (h a : bool) m :
  let base := Z.lor (Z.lor (if h then BKPIMAGE_HAS_HOLE else 0) (if a then BKPIMAGE_APPLY else 0))
                (compress_flag m) in
  fits 1 base ∧ has_flag base BKPIMAGE_HAS_HOLE = h ∧ has_flag base BKPIMAGE_APPLY = a ∧
  BKPIMAGE_COMPRESSED base = true ∧ image_method base = Some m.
Proof. destruct h, a, m; by vm_compute. Qed.

Lemma image_bits rb plan :
  block_wf rb plan → let im := block_image compress wc rb plan in
  fits 1 (im_info im) ∧ has_flag (im_info im) BKPIMAGE_HAS_HOLE = bool_decide (im_hole_length im ≠ 0) ∧
  has_flag (im_info im) BKPIMAGE_APPLY = needs_backup plan ∧
  BKPIMAGE_COMPRESSED (im_info im) = im_compressed im ∧
  Z.of_nat (length (im_bytes im)) ≤ 8192 - im_hole_length im ∧
  (im_compressed im = false → Z.of_nat (length (im_bytes im)) = 8192 - im_hole_length im) ∧
  (im_compressed im = true → Z.of_nat (length (im_bytes im)) < 8192 - im_hole_length im).
Proof.
  intros Hw im. destruct (image_cases rb plan Hw) as [Hh Hc]. fold im in Hh, Hc.
  assert ((if decide (im_hole_length im = 0) then 0 else BKPIMAGE_HAS_HOLE) =
    if bool_decide (im_hole_length im ≠ 0) then BKPIMAGE_HAS_HOLE else 0) as Hbase
    by (case_decide; case_bool_decide; done).
  rewrite Hbase in Hc. pose proof (skip_hole_length rb plan _ _ Hw Hh) as Hlen.
  destruct Hc as [(-> & -> & ->)|(m & _ & -> & -> & _ & Hlt)].
  - destruct (info_bits (bool_decide (im_hole_length im ≠ 0)) (needs_backup plan)) as (? & ? & ? & ?).
    split_and!; try done; lia.
  - destruct (info_bits_compressed (bool_decide (im_hole_length im ≠ 0)) (needs_backup plan) m)
      as (? & ? & ? & ? & _). split_and!; try done; lia.
Qed.

Definition image_fields (im : BlockImage) : ImageFields :=
  MkFields (Z.of_nat (length (im_bytes im))) (im_hole_offset im) (im_hole_length im) (im_info im).

Lemma decode_image_run rb plan rest :
  block_wf rb plan → let im := block_image compress wc rb plan in
  decode_image true (rd (image_bytes im ++ rest)) = (Ok (image_fields im), rd rest).
Proof.
  intros Hw im. destruct (image_bits rb plan Hw) as (Hfit & Hhole & _ & Hcomp & Hle & Hpl & Hcl).
  destruct (image_cases rb plan Hw) as [Hh _]. fold im in Hfit, Hhole, Hcomp, Hle, Hpl, Hcl, Hh.
  pose proof (hole_cases rb plan _ _ Hw Hh) as Hc. unfold image_bytes. cbn [pack_fields].
  rewrite <-!app_assoc, !app_nil_l. unfold decode_image.
  rewrite (bind_run _ _ _ _ _ (int_run 2 _ _ (fits2 (Z.of_nat (length (im_bytes im))) ltac:(ulia)))).
  rewrite (bind_run _ _ _ _ _ (int_run 2 _ _ (fits2 (im_hole_offset im) ltac:(ulia)))).
  rewrite (bind_run _ _ _ _ _ (int_run 1 _ _ Hfit)). rewrite Hcomp, Hhole.
  set (tail := (if _ && _ then _ else _) ++ rest).
  assert ((if im_compressed im
           then if bool_decide (im_hole_length im ≠ 0) then header_int 2 else mret 0
           else mret (u16 (BLCKSZ - Z.of_nat (length (im_bytes im))))) (rd tail) =
    (Ok (im_hole_length im), rd rest)) as Hl.
  { unfold tail. destruct (im_compressed im) eqn:Hcc.
    - case_bool_decide; cbn [andb app]; [|by replace (im_hole_length im) with 0 by lia].
      rewrite app_nil_r. apply int_run, fits2. ulia.
    - rewrite andb_false_r, (Hpl eq_refl). cbn [app]. unfold BLCKSZ, u16. unfold mret, M_ret.
      do 2 f_equal. rewrite Z.mod_small; lia. }
  rewrite (bind_run _ _ _ _ _ Hl). unfold BLCKSZ.
  rewrite !bind_check; [done|..];
    clear Hl tail; repeat case_bool_decide; try lia; try done;
    destruct (im_compressed im); try done;
    (specialize (Hcl eq_refl) || specialize (Hpl eq_refl)); lia.
Qed.

(** ** One block reference *)

Lemma decode_remap_run info plan rb rest :
  block_wf rb plan → has_flag info XLR_UMBRA_REMAP_FORMAT_MASK = false →
  decode_remap info (include_remap plan)
    (rd ((if include_remap plan then remap_bytes (rb_remap rb) else []) ++ rest)) =
  (Ok (if include_remap plan then rb_remap rb else no_remap), rd rest).
Proof.
  intros Hw Hi. destruct (include_remap plan) eqn:Hr; [|done].
  destruct (bw_remap _ _ Hw Hr) as (H1 & H2 & H3 & H4). unfold decode_remap, remap_bytes.
  cbn [pack_fields]. rewrite app_nil_r, <-!app_assoc, bind_check by (by rewrite Hi).
  rewrite (bind_run _ _ _ _ _ (int_run 4 _ _ (fits4 _ H1))).
  rewrite (bind_run _ _ _ _ _ (int_run 4 _ _ (fits4 _ H2))).
  rewrite (bind_run _ _ _ _ _ (int_run 4 _ _ (fits4 _ H3))).
  rewrite (bind_run _ _ _ _ _ (int_run 4 _ _ (fits4 _ H4))). by destruct (rb_remap rb).
Qed.

Lemma decode_rlocator_run r samerel prev rest :
  rloc_wf r → (samerel = true → prev = Some r) →
  decode_rlocator samerel prev (rd ((if samerel then [] else rloc_bytes r) ++ rest)) = (Ok r, rd rest).
Proof.
  intros (H1 & H2 & H3) Hp. unfold decode_rlocator. destruct samerel; [by rewrite Hp|].
  assert (length (rloc_bytes r) = 12%nat) as Hl by (by apply length_pack_fields).
  rewrite (bind_run _ _ _ _ _ (copy_run 12 _ rest Hl)).
  unfold rloc_bytes. rewrite <-(app_nil_r (pack_fields _ _)), unpack_pack_fields; [by destruct r|].
  repeat constructor; by apply fits4.
Qed.

(** The block the reader sees, before and after its payload is copied. *)
Definition header_block (rb : registered_buffer) (plan : BlockPlan) (samerel : bool)
    : DecodedBkpBlock :=
  let im := if include_image plan then image_fields (block_image compress wc rb plan)
            else MkFields 0 0 0 0 in
  MkDecoded (rb_rlocator rb) (fork_code (rb_forkno rb)) (rb_block rb) (fork_flags rb plan samerel)
    (include_remap plan) (if include_remap plan then rb_remap rb else no_remap)
    (include_image plan) (include_image plan && needs_backup plan)
    (if_bimg_len im) (if_hole_offset im) (if_hole_length im) (if_bimg_info im)
    (needs_data plan) (if needs_data plan then Z.of_nat (length (rb_rdata rb)) else 0) [] [].

Lemma decode_block_run info rb plan id samerel prev rest :
  block_wf rb plan → has_flag info XLR_UMBRA_REMAP_FORMAT_MASK = false → fits 1 id →
  (samerel = true → prev = Some (rb_rlocator rb)) →
  ∃ mid, header_int 1 (rd (block_header compress wc id rb plan samerel ++ rest)) = (Ok id, rd mid) ∧
    decode_block info prev (rd mid) = (Ok (header_block rb plan samerel), rd rest).
Proof.
  intros Hw Hi Hid Hprev. destruct (fork_flags_bits rb plan samerel (bw_fork _ _ Hw))
    as (Hff & Hfork & Hrm & Him & Hdt & Hsr).
  set (dlen := if needs_data plan then Z.of_nat (length (rb_rdata rb)) else 0).
  assert (fits 2 dlen ∧ (needs_data plan = true → dlen ≠ 0) ∧ (needs_data plan = false → dlen = 0))
    as (Hd & Hd1 & Hd0).
  { unfold dlen. destruct (needs_data plan) eqn:Hn; [|done].
    destruct (bw_data _ _ Hw Hn) as [? _]. split; [apply fits2; ulia|]. split; [lia|done]. }
  unfold block_header. fold dlen. cbn [pack_fields]. rewrite !app_nil_r, <-!app_assoc.
  eexists. split; [by apply int_run|].
  unfold decode_block. rewrite (bind_run _ _ _ _ _ (int_run 1 _ _ Hff)). cbv zeta.
  rewrite Hrm, Him, Hdt, Hsr, Hfork. rewrite (bind_run _ _ _ _ _ (int_run 2 _ _ Hd)).
  rewrite !bind_check by (destruct (needs_data plan); case_bool_decide; naive_solver).
  rewrite (bind_run _ _ _ _ _ (decode_remap_run info plan rb _ Hw Hi)).
  set (im := if include_image plan then image_fields (block_image compress wc rb plan)
             else MkFields 0 0 0 0).
  assert (∀ tl, decode_image (include_image plan)
    (rd ((if include_image plan then image_bytes (block_image compress wc rb plan) else []) ++ tl)) =
    (Ok im, rd tl)) as Hdi.
  { intros tl. unfold im. destruct (include_image plan); [|done]. by apply decode_image_run. }
  rewrite (bind_run _ _ _ _ _ (Hdi _)).
  rewrite (bind_run _ _ _ _ _ (decode_rlocator_run _ _ _ _ (bw_rloc _ _ Hw) Hprev)).
  rewrite (bind_run _ _ _ _ _ (int_run 4 _ _ (fits4 _ (bw_block _ _ Hw)))).
  unfold header_block. fold im dlen. unfold mret, M_ret. do 3 f_equal.
  unfold im. destruct (include_image plan); [|done]. cbn [andb if_bimg_info image_fields].
  by destruct (image_bits rb plan Hw) as (_ & _ & -> & _).
Qed.

(** ** The header loop *)

Abbreviation Blocks := (list (option (registered_buffer * BlockPlan))).

Definition blocks_wf (bs : Blocks) : Prop :=
  ∀ i rb plan, bs !! i = Some (Some (rb, plan)) → block_wf rb plan.

Lemma blocks_wf_cons o bs : blocks_wf (o :: bs) →
  (∀ rb plan, o = Some (rb, plan) → block_wf rb plan) ∧ blocks_wf bs.
Proof.
  intros Hw. split.
  - intros rb plan ->. by apply (Hw 0%nat).
  - intros i rb plan Hi. by apply (Hw (S i)).
Qed.

(** The decoded blocks after [gap] unused ids. *)
Fixpoint decoded_blocks (g : registered_buffer → BlockPlan → bool → DecodedBkpBlock) (gap : nat)
    (prev : option RelFileLocator) (bs : Blocks) : list (option DecodedBkpBlock) :=
  match bs with
  | [] => []
  | None :: bs => decoded_blocks g (S gap) prev bs
  | Some (rb, plan) :: bs =>
      replicate gap None ++ Some (g rb plan (bool_decide (prev = Some (rb_rlocator rb)))) ::
      decoded_blocks g 0 (Some (rb_rlocator rb)) bs
  end.

Definition last_rel (prev : option RelFileLocator) (bs : Blocks) : option RelFileLocator :=
  foldl (λ a o, match o with Some (rb, _) => Some (rb_rlocator rb) | None => a end) prev bs.

Definition after_blocks (id : nat) (h : Headers) (bs : Blocks) : Headers :=
  MkHeaders (h_origin h) (h_xid h) (h_main_len h) (last_rel (h_prev h) bs)
    (h_datatotal h + Z.of_nat (length (block_datas compress wc bs)))
    (h_blocks h ++ decoded_blocks header_block (id - length (h_blocks h)) (h_prev h) bs).

Definition in_use_count (bs : Blocks) : nat := length (filter is_Some bs).

Lemma block_data_length rb plan :
  Z.of_nat (length (block_data compress wc rb plan)) =
    db_data_len (header_block rb plan false) +
    (if include_image plan then db_bimg_len (header_block rb plan false) else 0).
Proof.
  unfold block_data, header_block. cbn. rewrite length_app.
  destruct (include_image plan), (needs_data plan); cbn; lia.
Qed.

(** One turn of the loop that reads a block reference. *)
Lemma loop_block fuel info h id rb plan samerel rest :
  block_wf rb plan → has_flag info XLR_UMBRA_REMAP_FORMAT_MASK = false →
  (length (h_blocks h) ≤ id)%nat → (id ≤ 32)%nat →
  (samerel = true → h_prev h = Some (rb_rlocator rb)) →
  h_datatotal h ≤ Z.of_nat (length rest) →
  decode_headers (S fuel) info h
    (rd (block_header compress wc (Z.of_nat id) rb plan samerel ++ rest)) =
  decode_headers fuel info (add_block (Z.of_nat id) (header_block rb plan samerel) h) (rd rest).
Proof.
  intros Hw Hi Hlen Hid Hprev Hgo.
  destruct (decode_block_run info rb plan (Z.of_nat id) samerel (h_prev h) rest)
    as (mid & Hhd & Hblk); [done|done|apply fits1; ulia|done|].
  cbn [decode_headers]. rewrite (bind_run _ _ _ _ _ (eq_refl : gets snd _ = _)). cbn [rd snd].
  rewrite decide_True.
  2: { unfold block_header. rewrite !length_app, length_pack_fields by done. cbn. lia. }
  change (_, Z.of_nat _) with (rd (block_header compress wc (Z.of_nat id) rb plan samerel ++ rest)).
  rewrite (bind_run _ _ _ _ _ Hhd).
  rewrite !decide_False by (unfold XLR_BLOCK_ID_DATA_SHORT, XLR_BLOCK_ID_DATA_LONG,
    XLR_BLOCK_ID_ORIGIN, XLR_BLOCK_ID_TOPLEVEL_XID; lia).
  rewrite decide_True by (unfold XLR_MAX_BLOCK_ID; lia).
  rewrite bind_check by (apply bool_decide_eq_true_2; lia). by rewrite (bind_run _ _ _ _ _ Hblk).
Qed.

Lemma loop_blocks info bs : has_flag info XLR_UMBRA_REMAP_FORMAT_MASK = false → blocks_wf bs →
  ∀ id h rest fuel, (length (h_blocks h) ≤ id)%nat → (id + length bs ≤ 33)%nat →
    0 ≤ h_datatotal h →
    h_datatotal h + Z.of_nat (length (block_datas compress wc bs)) ≤ Z.of_nat (length rest) →
    Z.of_nat (length rest) < 2 ^ 32 →
    decode_headers (in_use_count bs + fuel) info h
      (rd (block_headers compress wc (Z.of_nat id) (h_prev h) bs ++ rest)) =
    decode_headers fuel info (after_blocks id h bs) (rd rest).
Proof.
  intros Hi. induction bs as [|o bs IH]; intros Hw id h rest fuel Hlen Hid Hpos Htot Hmax.
  - unfold after_blocks. cbn. destruct h. cbn. by rewrite Z.add_0_r, app_nil_r.
  - apply blocks_wf_cons in Hw as [Hwo Hw]. cbn [length] in Hid.
    destruct o as [[rb plan]|]; cbn [block_headers].
    2: { replace (Z.of_nat id + 1) with (Z.of_nat (S id)) by lia.
         change (in_use_count (None :: bs)) with (in_use_count bs).
         rewrite IH by (done || lia). unfold after_blocks. cbn [decoded_blocks block_datas last_rel foldl].
         by replace (S id - length (h_blocks h))%nat with (S (id - length (h_blocks h))) by lia. }
    specialize (Hwo rb plan eq_refl). set (samerel := bool_decide (h_prev h = Some (rb_rlocator rb))).
    change (in_use_count (Some (rb, plan) :: bs)) with (S (in_use_count bs)).
    set (hb := header_block rb plan samerel).
    assert (db_data_len hb + (if db_has_image hb then db_bimg_len hb else 0) =
      Z.of_nat (length (block_data compress wc rb plan))) as Hdl
      by (rewrite block_data_length; done).
    cbn [block_datas] in Htot. rewrite length_app, Nat2Z.inj_add in Htot.
    rewrite <-app_assoc. replace (S (in_use_count bs) + fuel)%nat with (S (in_use_count bs + fuel)) by lia.
    rewrite loop_block; [|done|done|lia|lia|by intros ?%bool_decide_eq_true|rewrite length_app; lia].
    fold hb. set (h' := add_block (Z.of_nat id) hb h).
    assert (h_datatotal h' = h_datatotal h + Z.of_nat (length (block_data compress wc rb plan))) as Hdt.
    { unfold h'. cbn [add_block h_datatotal]. rewrite <-Z.add_assoc, Hdl. apply u32_small. split; lia. }
    assert (length (h_blocks h') = S id) as Hlen'.
    { unfold h'. cbn. rewrite !length_app, length_replicate. cbn. lia. }
    replace (Z.of_nat id + 1) with (Z.of_nat (S id)) by lia.
    change (Some (rb_rlocator rb)) with (h_prev h'). rewrite IH by (done || lia).
    f_equal. unfold after_blocks. cbn [decoded_blocks block_datas last_rel foldl].
    rewrite length_app, Nat2Z.inj_add, Hdt, Hlen', Nat.sub_diag, Z.add_assoc. f_equal.
    unfold h'. cbn [add_block h_blocks]. rewrite Nat2Z.id, <-!app_assoc. done.
Qed.

(** ** Origin, top-level transaction and main data *)

Record parts_wf (p : RecordParts) : Prop := {
  pw_blocks : blocks_wf (rp_blocks p);
  pw_count : (length (rp_blocks p) ≤ 33)%nat;
  pw_rmid : 0 ≤ rp_rmid p < 256;
  pw_info : 0 ≤ rp_info p < 256 ∧ has_flag (rp_info p) XLR_UMBRA_REMAP_FORMAT_MASK = false;
  pw_xid : is_u32 (rp_xid p);
  pw_main : Forall is_byte (rp_main p);
  pw_origin : ∀ o, rp_origin p = Some o → 0 ≤ o < 65536;
  pw_topxid : ∀ x, rp_topxid p = Some x → is_u32 x;
}.

Definition opt_count (o : option Z) : nat := match o with Some _ => 1 | None => 0 end.

Definition tail_count (p : RecordParts) : nat :=
  opt_count (rp_origin p) + opt_count (rp_topxid p) +
  (match rp_main p with [] => 0 | _ => 1 end).

Definition after_tail (p : RecordParts) (h : Headers) : Headers :=
  MkHeaders (default (h_origin h) (rp_origin p)) (default (h_xid h) (rp_topxid p))
    (match rp_main p with [] => h_main_len h | m => Z.of_nat (length m) end) (h_prev h)
    (h_datatotal h + Z.of_nat (length (rp_main p))) (h_blocks h).

(** One header of the tail: the loop goes on, reads the id byte and comes to
    its branch. *)
Lemma loop_enter fuel info h id rest :
  0 ≤ id < 256 → h_datatotal h < Z.of_nat (length (le_bytes 1 id ++ rest)) →
  decode_headers (S fuel) info h (rd (le_bytes 1 id ++ rest)) =
  (if decide (id = XLR_BLOCK_ID_DATA_SHORT) then
     n ← header_int 1; mret (add_main n h)
   else if decide (id = XLR_BLOCK_ID_DATA_LONG) then
     n ← header_int 4; mret (add_main n h)
   else if decide (id = XLR_BLOCK_ID_ORIGIN) then
     o ← header_int 2;
     decode_headers fuel info
       (MkHeaders o (h_xid h) (h_main_len h) (h_prev h) (h_datatotal h) (h_blocks h))
   else if decide (id = XLR_BLOCK_ID_TOPLEVEL_XID) then
     x ← header_int 4;
     decode_headers fuel info
       (MkHeaders (h_origin h) x (h_main_len h) (h_prev h) (h_datatotal h) (h_blocks h))
   else if decide (id ≤ XLR_MAX_BLOCK_ID) then
     check (bool_decide (Z.of_nat (length (h_blocks h)) ≤ id)) "out-of-order block_id";;
     b ← decode_block info (h_prev h);
     decode_headers fuel info (add_block id b h)
   else throw (invalid_record "invalid block_id")) (rd rest).
Proof.
  intros Hid Hgo. cbn [decode_headers]. rewrite (bind_run _ _ _ _ _ (eq_refl : gets snd _ = _)).
  cbn [rd snd]. rewrite decide_True by done. fold (rd (le_bytes 1 id ++ rest)).
  by rewrite (bind_run _ _ _ _ _ (int_run 1 _ _ (fits1 _ Hid))).
Qed.

Lemma loop_origin fuel info h o rest :
  (∀ x, o = Some x → 0 ≤ x < 65536) → h_datatotal h ≤ Z.of_nat (length rest) →
  decode_headers (opt_count o + fuel) info h (rd (origin_header o ++ rest)) =
  decode_headers fuel info (MkHeaders (default (h_origin h) o) (h_xid h) (h_main_len h) (h_prev h)
                              (h_datatotal h) (h_blocks h)) (rd rest).
Proof.
  intros Hw Hgo. destruct o as [x|]; [|by destruct h].
  cbn [origin_header pack_fields Nat.add opt_count]. rewrite app_nil_r, <-app_assoc, loop_enter; [|done|].
  - rewrite !decide_False, decide_True by done.
    by rewrite (bind_run _ _ _ _ _ (int_run 2 _ _ (fits2 _ (Hw x eq_refl)))).
  - rewrite !length_app, !length_le_bytes. lia.
Qed.

Lemma loop_topxid fuel info h o rest :
  (∀ x, o = Some x → is_u32 x) → h_datatotal h ≤ Z.of_nat (length rest) →
  decode_headers (opt_count o + fuel) info h (rd (topxid_header o ++ rest)) =
  decode_headers fuel info (MkHeaders (h_origin h) (default (h_xid h) o) (h_main_len h) (h_prev h)
                              (h_datatotal h) (h_blocks h)) (rd rest).
Proof.
  intros Hw Hgo. destruct o as [x|]; [|by destruct h].
  cbn [topxid_header pack_fields Nat.add opt_count]. rewrite app_nil_r, <-app_assoc, loop_enter; [|done|].
  - rewrite !decide_False, decide_True by done.
    by rewrite (bind_run _ _ _ _ _ (int_run 4 _ _ (fits4 _ (Hw x eq_refl)))).
  - rewrite !length_app, !length_le_bytes. lia.
Qed.

Lemma loop_main fuel info h main rest :
  0 ≤ h_datatotal h → Z.of_nat (length rest) = h_datatotal h + Z.of_nat (length main) →
  Z.of_nat (length rest) < 2 ^ 32 →
  decode_headers ((match main with [] => 0 | _ => 1 end) + fuel) info h
    (rd (main_header main ++ rest)) =
  (Ok (MkHeaders (h_origin h) (h_xid h)
         (match main with [] => h_main_len h | _ => Z.of_nat (length main) end) (h_prev h)
         (h_datatotal h + Z.of_nat (length main)) (h_blocks h)), rd rest).
Proof.
  intros Hpos Hrest Hmax. unfold main_header. cbv zeta. destruct main as [|x m].
  - cbn [length app Z.of_nat]. rewrite decide_False by lia. rewrite Z.add_0_r in *. cbn [app].
    destruct fuel; cbn [decode_headers Nat.add];
      rewrite (bind_run _ _ _ _ _ (eq_refl : gets snd _ = _)); cbn [rd snd];
      rewrite decide_False by (cbn in Hrest; lia); by destruct h.
  - set (n := Z.of_nat (length (x :: m))) in *. assert (0 < n) as Hn by (unfold n; cbn; lia).
    rewrite decide_True by done. cbn [Nat.add].
    assert (u32 (h_datatotal h + n) = h_datatotal h + n) as Hu by (apply u32_small; split; lia).
    case_decide; cbn [pack_fields]; rewrite app_nil_r, <-app_assoc;
      rewrite loop_enter; try done; try (rewrite !length_app, !length_le_bytes; lia).
    + rewrite decide_False, decide_True by done.
      rewrite (bind_run _ _ _ _ _ (int_run 4 _ _ (fits4 n ltac:(split; lia)))).
      unfold add_main, mret, M_ret. by rewrite Hu.
    + rewrite decide_True by done.
      rewrite (bind_run _ _ _ _ _ (int_run 1 _ _ (fits1 n ltac:(ulia)))).
      unfold add_main, mret, M_ret. by rewrite Hu.
Qed.

Lemma loop_tail p info h rest fuel :
  parts_wf p → 0 ≤ h_datatotal h →
  Z.of_nat (length rest) = h_datatotal h + Z.of_nat (length (rp_main p)) →
  Z.of_nat (length rest) < 2 ^ 32 →
  decode_headers (tail_count p + fuel) info h (rd (tail_headers p ++ rest)) =
  (Ok (after_tail p h), rd rest).
Proof.
  intros Hw Hpos Hrest Hmax. unfold tail_headers, tail_count, after_tail.
  rewrite <-!app_assoc, <-!Nat.add_assoc.
  rewrite loop_origin by (apply Hw || (rewrite !length_app; lia)).
  rewrite loop_topxid by (apply Hw || (cbn; rewrite !length_app; lia)).
  rewrite loop_main by done. by destruct (rp_main p).
Qed.

(** ** Payloads *)

Definition full_block (rb : registered_buffer) (plan : BlockPlan) (samerel : bool) : DecodedBkpBlock :=
  let b := header_block rb plan samerel in
  MkDecoded (db_rlocator b) (db_forknum b) (db_blkno b) (db_flags b) (db_has_remap b) (db_remap b)
    (db_has_image b) (db_apply_image b) (db_bimg_len b) (db_hole_offset b) (db_hole_length b)
    (db_bimg_info b) (db_has_data b) (db_data_len b)
    (if include_image plan then im_bytes (block_image compress wc rb plan) else [])
    (if needs_data plan then rb_rdata rb else []).

Lemma fill_gap gap bs ptr :
  fill_blocks (replicate gap None ++ bs) ptr =
  (replicate gap None ++ (fill_blocks bs ptr).1, (fill_blocks bs ptr).2).
Proof.
  induction gap as [|gap IH]; cbn; [by destruct (fill_blocks bs ptr)|]. by rewrite IH.
Qed.

Lemma fill_decoded bs gap prev rest :
  fill_blocks (decoded_blocks header_block gap prev bs) (block_datas compress wc bs ++ rest) =
  (decoded_blocks full_block gap prev bs, rest).
Proof.
  revert gap prev. induction bs as [|[[rb plan]|] bs IH]; intros gap prev;
    cbn [decoded_blocks block_datas]; [done| |done].
  rewrite fill_gap, <-app_assoc. cbn [fill_blocks]. unfold block_data.
  set (hb := header_block rb plan _).
  assert ((if db_has_image hb then Z.to_nat (db_bimg_len hb) else O) =
    length (if include_image plan then im_bytes (block_image compress wc rb plan) else [])) as ->.
  { unfold hb, header_block. cbn. destruct (include_image plan); [|done]. cbn. by rewrite Nat2Z.id. }
  assert ((if db_has_data hb then Z.to_nat (db_data_len hb) else O) =
    length (if needs_data plan then rb_rdata rb else [])) as ->.
  { unfold hb, header_block. cbn. destruct (needs_data plan); [|done]. by rewrite Nat2Z.id. }
  rewrite <-app_assoc, take_app_length, drop_app_length, take_app_length, drop_app_length, IH. done.
Qed.

Lemma decoded_lookup g bs gap prev i :
  ∃ samerel, mjoin (decoded_blocks g gap prev bs !! (gap + i)%nat) =
    (λ x, g x.1 x.2 samerel) <$> mjoin (bs !! i).
Proof.
  revert gap prev i. induction bs as [|[[rb plan]|] bs IH]; intros gap prev i; cbn [decoded_blocks].
  - by exists false.
  - rewrite lookup_app_r, length_replicate by (rewrite length_replicate; lia).
    replace (gap + i - gap)%nat with i by lia. destruct i as [|i]; [by eexists|].
    cbn. apply (IH 0%nat).
  - destruct i as [|i].
    + exists false. rewrite Nat.add_0_r. cbn. clear IH.
      assert (∀ n, (gap < n)%nat → mjoin (decoded_blocks g n prev bs !! gap) = None) as Hgap; [|apply Hgap; lia].
      induction bs as [|[[rb plan]|] bs IH]; intros n Hn; cbn [decoded_blocks]; [done| |apply IH; lia].
      by rewrite lookup_app_l, lookup_replicate_2 by (rewrite ?length_replicate; lia).
    + replace (gap + S i)%nat with (S gap + i)%nat by lia. apply (IH (S gap) prev i).
Qed.

(** ** The whole record *)

Lemma headers_count bs id prev :
  (in_use_count bs ≤ length (block_headers compress wc id prev bs))%nat.
Proof.
  revert id prev. induction bs as [|[[rb plan]|] bs IH]; intros id prev; cbn [block_headers].
  - done.
  - change (in_use_count (Some (rb, plan) :: bs)) with (S (in_use_count bs)).
    rewrite length_app. specialize (IH (id + 1) (Some (rb_rlocator rb))).
    unfold block_header. rewrite length_app, length_pack_fields by done. cbn. lia.
  - apply IH.
Qed.

Lemma tail_count_le p : (tail_count p ≤ length (tail_headers p))%nat.
Proof.
  unfold tail_count, tail_headers, main_header. rewrite !length_app. cbv zeta.
  assert (opt_count (rp_origin p) ≤ length (origin_header (rp_origin p)))%nat
    by (destruct (rp_origin p); [by vm_compute; lia|done]).
  assert (opt_count (rp_topxid p) ≤ length (topxid_header (rp_topxid p)))%nat
    by (destruct (rp_topxid p); [by vm_compute; lia|done]).
  destruct (rp_main p) as [|x m]; [cbn; lia|]. rewrite decide_True by (cbn; lia).
  case_decide; rewrite length_pack_fields by done; cbn; lia.
Qed.

Lemma decode_body p :
  parts_wf p → Z.of_nat (length (record_body compress wc p)) < 2 ^ 32 →
  decode_headers (length (record_body compress wc p)) (rp_info p) no_headers
    (rd (record_body compress wc p)) =
  (Ok (after_tail p (after_blocks 0 no_headers (rp_blocks p))),
   rd (block_datas compress wc (rp_blocks p) ++ rp_main p)).
Proof.
  intros Hw Hmax. set (bs := rp_blocks p). unfold record_body in *. fold bs in Hmax |- *.
  rewrite !length_app in Hmax.
  assert (∃ k, length (block_headers compress wc 0 None bs ++ tail_headers p ++
    block_datas compress wc bs ++ rp_main p) = (in_use_count bs + (tail_count p + k)))%nat as [k ->].
  { pose proof (headers_count bs 0 None). pose proof (tail_count_le p). rewrite !length_app.
    exists (length (block_headers compress wc 0 None bs) - in_use_count bs +
      (length (tail_headers p) - tail_count p) + length (block_datas compress wc bs) +
      length (rp_main p))%nat. lia. }
  rewrite (loop_blocks (rp_info p) bs (proj2 (pw_info _ Hw)) (pw_blocks _ Hw) 0 no_headers);
    [|cbn; lia|apply Hw|done|cbn; rewrite !length_app; lia|rewrite !length_app; lia].
  apply loop_tail; [done|cbn; lia|cbn; rewrite !length_app; fold bs; lia|rewrite !length_app; lia].
Qed.

Lemma header_fields tot xid prev info rmid crc rest k :
  fits 4 tot → fits 4 xid → fits 8 prev → fits 1 info → fits 1 rmid → fits 4 crc →
  record_field (record_header tot xid prev info rmid crc ++ rest) k =
    [tot; xid; prev; info; rmid; 0; crc] !!! k.
Proof.
  intros. unfold record_field, record_header. rewrite unpack_pack_fields; [done|].
  assert (fits 2 0) by (by apply fits2). do 7 (constructor; [done|]). constructor.
Qed.

Lemma record_header_length tot xid prev info rmid crc :
  length (record_header tot xid prev info rmid crc) = 24%nat.
Proof. unfold record_header. by apply length_pack_fields. Qed.

Definition total_length (p : RecordParts) : Z :=
  Z.of_nat (24 + length (record_body compress wc p)).

(** Shape of a finished record. *)
Lemma finish_inv p prev rec :
  parts_wf p → finish_record compress wc p prev = Ok rec →
  let crc := FIN_CRC32C (COMP_CRC32C (COMP_CRC32C INIT_CRC32C (record_body compress wc p))
    (take 20 (record_header (total_length p) (rp_xid p) prev (rp_info p) (rp_rmid p) 0))) in
  rec = record_header (total_length p) (rp_xid p) prev (rp_info p) (rp_rmid p) crc ++
        record_body compress wc p ∧
  total_length p ≤ XLogRecordMaxSize.
Proof.
  intros Hw. unfold finish_record, assemble_record, mbind, result_bind. cbv zeta.
  case_decide; [done|]. case_decide as Hle; [done|]. intros [= <-].
  split; [done|]. unfold total_length. change SizeOfXLogRecord with 24%nat in Hle. lia.
Qed.

Lemma total_fits p : total_length p ≤ XLogRecordMaxSize → fits 4 (total_length p).
Proof. unfold total_length, XLogRecordMaxSize. intros. apply fits4. split; lia. Qed.

Lemma decode_finished p prev rec :
  parts_wf p → is_u64 prev → finish_record compress wc p prev = Ok rec →
  is_u32 (FIN_CRC32C (COMP_CRC32C (COMP_CRC32C INIT_CRC32C (record_body compress wc p))
    (take 20 (record_header (total_length p) (rp_xid p) prev (rp_info p) (rp_rmid p) 0)))) →
  DecodeXLogRecord rec =
    Ok (MkRecord (default 0 (rp_origin p)) (default 0 (rp_topxid p)) (rp_main p)
          (decoded_blocks full_block 0 None (rp_blocks p))).
Proof.
  intros Hw Hprev Hfin Hcrc. destruct (finish_inv p prev rec Hw Hfin) as [-> Hle].
  pose proof (total_fits p Hle) as Htot. set (crc := FIN_CRC32C _) in *.
  unfold DecodeXLogRecord.
  assert (∀ k, record_field (record_header (total_length p) (rp_xid p) prev (rp_info p) (rp_rmid p) crc
    ++ record_body compress wc p) k =
    [total_length p; rp_xid p; prev; rp_info p; rp_rmid p; 0; crc] !!! k) as Hf.
  { intros k. apply header_fields; [done|apply fits4, Hw|done|apply fits1, Hw|apply fits1, Hw|by apply fits4]. }
  rewrite !Hf. cbn [lookup_total list_lookup_total].
  rewrite (drop_app_length' _ _ SizeOfXLogRecord) by (by rewrite record_header_length).
  assert (u32 (total_length p - Z.of_nat SizeOfXLogRecord) =
    Z.of_nat (length (record_body compress wc p))) as ->.
  { change SizeOfXLogRecord with 24%nat. unfold total_length, XLogRecordMaxSize in *.
    rewrite u32_small; [lia|split; lia]. }
  rewrite Nat2Z.id. fold (rd (record_body compress wc p)).
  rewrite decode_body; [|done|unfold total_length, XLogRecordMaxSize in *; lia].
  cbn [after_tail after_blocks h_datatotal h_blocks h_main_len no_headers h_origin h_xid h_prev app length].
  unfold rd. rewrite length_app, decide_False by (cbn; lia).
  rewrite fill_decoded. do 2 f_equal.
  destruct (rp_main p) as [|x m]; [done|]. apply take_ge. cbn [length]. lia.
Qed.

(** ** Checksum *)

Definition compress_bytes : Prop :=
  ∀ m x y, compress m x = Some y → Forall is_byte x → Forall is_byte y.

Lemma skip_hole_bytes page off len : Forall is_byte page → Forall is_byte (skip_hole page off len).
Proof. intros Hp. apply Forall_app. split; [by apply Forall_take|by apply Forall_drop]. Qed.

Lemma im_bytes_ok rb plan :
  compress_bytes → block_wf rb plan → Forall is_byte (im_bytes (block_image compress wc rb plan)).
Proof.
  intros Hc Hw. destruct (bw_page _ _ Hw) as [_ Hb].
  destruct (image_cases rb plan Hw) as [_ [(_ & _ & ->)|(m & _ & _ & _ & Hm & _)]].
  - by apply skip_hole_bytes.
  - eapply Hc; [done|]. case_decide; [by apply skip_hole_bytes|done].
Qed.

Lemma body_bytes p : compress_bytes → parts_wf p → Forall is_byte (record_body compress wc p).
Proof.
  intros Hc Hw. unfold record_body. rewrite !Forall_app. split_and!.
  - generalize 0, (@None RelFileLocator). induction (rp_blocks p) as [|[[rb plan]|] bs IH]; intros id prev;
      cbn [block_headers]; [done| |apply IH].
    apply Forall_app. split; [|apply IH]. unfold block_header. rewrite !Forall_app.
    split_and!; repeat case_match; try apply pack_fields_is_byte; try done.
    unfold image_bytes. apply Forall_app. split; repeat case_match; try apply pack_fields_is_byte; done.
  - unfold tail_headers, origin_header, topxid_header, main_header. rewrite !Forall_app. cbv zeta.
    split_and!; repeat case_match; try case_decide; try case_decide;
      try apply pack_fields_is_byte; done.
  - pose proof (pw_blocks _ Hw) as Hbs. induction (rp_blocks p) as [|[[rb plan]|] bs IH];
      cbn [block_datas]; [done| |].
    + apply blocks_wf_cons in Hbs as [Hwo Hbs]. specialize (Hwo rb plan eq_refl).
      apply Forall_app. split; [|by apply IH]. unfold block_data. apply Forall_app. split.
      * destruct (include_image plan); [by apply im_bytes_ok|done].
      * destruct (needs_data plan) eqn:Hn; [by apply (bw_data _ _ Hwo)|done].
    + apply blocks_wf_cons in Hbs as [_ Hbs]. by apply IH.
  - apply Hw.
Qed.

Lemma COMP_CRC32C_range crc data : is_u32 crc → Forall is_byte data → is_u32 (COMP_CRC32C crc data).
Proof. intros. unfold COMP_CRC32C. rewrite sb8_comp_ref by done. by apply crc32c_ref_range. Qed.

Lemma FIN_CRC32C_range crc : is_u32 crc → is_u32 (FIN_CRC32C crc).
Proof. intros. by apply lxor_u32_range. Qed.

Lemma header_prefix tot xid prev info rmid crc rest :
  take 20 (record_header tot xid prev info rmid crc ++ rest) =
  take 20 (record_header tot xid prev info rmid 0).
Proof.
  rewrite take_app_le by (rewrite record_header_length; lia). unfold record_header.
  cbn [pack_fields]. rewrite !app_assoc.
  by rewrite !(take_app_le _ _ 20), !take_ge by (rewrite !length_app, !length_le_bytes; lia).
Qed.

Lemma finished_crc p prev :
  compress_bytes → parts_wf p →
  is_u32 (FIN_CRC32C (COMP_CRC32C (COMP_CRC32C INIT_CRC32C (record_body compress wc p))
    (take 20 (record_header (total_length p) (rp_xid p) prev (rp_info p) (rp_rmid p) 0)))).
Proof.
  intros Hc Hw. apply FIN_CRC32C_range, COMP_CRC32C_range; [apply COMP_CRC32C_range; [done|by apply body_bytes]|].
  apply Forall_take, pack_fields_is_byte.
Qed.

Lemma valid_finished p prev rec :
  compress_bytes → parts_wf p → is_u64 prev → finish_record compress wc p prev = Ok rec →
  ValidXLogRecord rec = true.
Proof.
  intros Hc Hw Hprev Hfin. destruct (finish_inv p prev rec Hw Hfin) as [-> Hle].
  pose proof (total_fits p Hle) as Htot. pose proof (finished_crc p prev Hc Hw) as Hcrc.
  unfold ValidXLogRecord. rewrite !header_fields by
    (done || apply fits4, Hw || apply fits1, Hw || by apply fits4).
  cbn [lookup_total list_lookup_total]. rewrite header_prefix.
  rewrite (drop_app_length' _ _ SizeOfXLogRecord) by (by rewrite record_header_length).
  rewrite (take_ge (record_body compress wc p)) by (change SizeOfXLogRecord with 24%nat; unfold total_length; lia).
  by apply bool_decide_eq_true_2.
Qed.

(** ** Page images *)

(** The page with its hole zeroed. *)
Definition clear_hole (rb : registered_buffer) : list Z :=
  let '(off, len) := image_hole rb in
  take (Z.to_nat off) (rb_page rb) ++ replicate (Z.to_nat len) 0 ++
  drop (Z.to_nat (off + len)) (rb_page rb).

Section restore.
Context (decompress : WalCompression → list Z → Z → option (list Z)).

Definition decompress_inverts : Prop :=
  ∀ m x y, compress m x = Some y → decompress m y (Z.of_nat (length x)) = Some x.

Lemma restore_image rb plan samerel r i :
  decompress_inverts → block_wf rb plan → include_image plan = true →
  mjoin (dr_blocks r !! i) = Some (full_block rb plan samerel) →
  RestoreBlockImage decompress r i = Some (clear_hole rb).
Proof.
  intros Hd Hw Hinc Hb. unfold RestoreBlockImage.
  destruct (dr_blocks r !! i) as [[b|]|]; [|done..]. cbn in Hb. injection Hb as ->.
  unfold full_block, header_block. rewrite Hinc. cbn. unfold clear_hole.
  destruct (image_bits rb plan Hw) as (_ & _ & _ & Hcomp & _).
  destruct (image_cases rb plan Hw) as [Hh Hc]. set (im := block_image compress wc rb plan) in *.
  rewrite Hcomp, Hh. pose proof (hole_cases rb plan _ _ Hw Hh) as Hoff.
  pose proof (skip_hole_length rb plan _ _ Hw Hh) as Hsl. destruct (bw_page _ _ Hw) as [Hpl _].
  set (src := if decide (im_hole_length im ≠ 0)
              then skip_hole (rb_page rb) (im_hole_offset im) (im_hole_length im) else rb_page rb) in *.
  assert ((if im_compressed im then
      match image_method (im_info im) with
      | Some method => decompress method (im_bytes im) (BLCKSZ - im_hole_length im)
      | None => None
      end else Some (im_bytes im)) = Some src) as ->.
  { assert (src = skip_hole (rb_page rb) (im_hole_offset im) (im_hole_length im)) as Hsrc.
    { unfold src. destruct (decide (im_hole_length im ≠ 0)); [done|].
      assert (im_hole_length im = 0) as Hz by lia.
      assert (im_hole_offset im = 0) as Hz' by lia. by rewrite Hz, Hz'. }
    destruct Hc as [(-> & _ & ->)|(m & _ & -> & Hinfo & Hm & _)]; [by rewrite Hsrc|].
    assert (image_method (im_info im) = Some m) as ->.
    { rewrite Hinfo. pose proof (info_bits_compressed (bool_decide (im_hole_length im ≠ 0))
        (needs_backup plan) m) as (_ & _ & _ & _ & Hmm).
      replace (if decide (im_hole_length im = 0) then 0 else BKPIMAGE_HAS_HOLE)
        with (if bool_decide (im_hole_length im ≠ 0) then BKPIMAGE_HAS_HOLE else 0); [done|].
      destruct (decide (im_hole_length im = 0)); case_bool_decide; done. }
    rewrite <-(Hd m src (im_bytes im) Hm). f_equal. rewrite Hsrc, Hsl. done. }
  cbn. unfold src, BLCKSZ in *. destruct (decide (im_hole_length im = 0)) as [Hz|Hz].
  - rewrite decide_False by lia. rewrite Hz in *. assert (im_hole_offset im = 0) as -> by lia.
    cbn. by rewrite take_ge by lia.
  - rewrite decide_True by done. unfold skip_hole.
    rewrite take_app_le by (rewrite length_take; lia). rewrite take_take, Nat.min_id.
    rewrite drop_app_ge by (rewrite length_take; lia). rewrite length_take.
    rewrite Nat.min_l, Nat.sub_diag, drop_0 by lia. rewrite (take_ge (drop _ _)); [done|].
    rewrite length_drop. lia.
Qed.
End restore.
End image.

(** What the reader reports of a registered block. *)
Definition block_matches (rb : registered_buffer) (plan : BlockPlan) (b : DecodedBkpBlock) : Prop :=
  db_rlocator b = rb_rlocator rb ∧ db_forknum b = fork_code (rb_forkno rb) ∧
  db_blkno b = rb_block rb ∧ db_has_remap b = include_remap plan ∧
  (include_remap plan = true → db_remap b = rb_remap rb) ∧
  db_has_image b = include_image plan ∧ db_apply_image b = include_image plan && needs_backup plan ∧
  db_has_data b = needs_data plan ∧ (needs_data plan = true → db_data b = rb_rdata rb).

(** ** Properties *)

(** C25: a WAL record assembled from registered blocks passes the
    reader's checksum test and decodes to what was registered: the same main
    data, origin and top-level transaction, and for every block id either no
    block or one with the same relation, fork, block number, remap header and
    data, whose page image is restored up to the bytes of the page's hole.
    The compression routines are assumed to be inverted by the decompression
    routines. *)
Theorem wal_record_roundtrip compress decompress wc p prev rec :
  compress_bytes compress → decompress_inverts compress decompress →
  parts_wf p → is_u64 prev → finish_record compress wc p prev = Ok rec →
  ValidXLogRecord rec = true ∧
  ∃ r, DecodeXLogRecord rec = Ok r ∧ dr_main_data r = rp_main p ∧
    dr_origin r = default 0 (rp_origin p) ∧ dr_toplevel_xid r = default 0 (rp_topxid p) ∧
    ∀ i, match mjoin (rp_blocks p !! i) with
         | Some (rb, plan) => ∃ b, mjoin (dr_blocks r !! i) = Some b ∧ block_matches rb plan b ∧
             (include_image plan = true →
                RestoreBlockImage decompress r i = Some (clear_hole rb))
         | None => mjoin (dr_blocks r !! i) = None
         end.
Proof.
  intros Hc Hd Hw Hprev Hfin. split; [by eapply valid_finished|].
  eexists. split; [eapply decode_finished; [done|done|done|by apply finished_crc]|].
  split_and!; [done..|]. intros i. cbn [dr_blocks].
  destruct (decoded_lookup (full_block compress wc) (rp_blocks p) 0 None i) as [samerel Hl].
  cbn [Nat.add] in Hl. rewrite Hl.
  destruct (rp_blocks p !! i) as [[[rb plan]|]|] eqn:Hi; [|done..]. cbn in *.
  eexists. split; [done|]. split.
  - unfold block_matches, full_block, header_block. cbn.
    split_and!; try done; intros ->; done.
  - intros Hinc. by eapply (restore_image compress wc decompress rb plan samerel);
      [done|by eapply (pw_blocks _ Hw)|..].
Qed.

(** ** A concrete record *)

(** A codec for strings of one repeated byte. *)
Definition demo_compress (m : WalCompression) (x : list Z) : option (list Z) :=
  match x with
  | b :: _ => if bool_decide (x = replicate (length x) b) then Some [b] else None
  | [] => None
  end.

Definition demo_decompress (m : WalCompression) (y : list Z) (n : Z) : option (list Z) :=
  match y with
  | [b] => Some (replicate (Z.to_nat n) b)
  | _ => None
  end.

Lemma demo_codec : compress_bytes demo_compress ∧ decompress_inverts demo_compress demo_decompress.
Proof.
  split; intros m [|b x] y; cbn [demo_compress]; try done; case_bool_decide as Hx; try done;
    intros [= <-].
  - inversion 1; subst. by constructor.
  - cbn [demo_decompress]. by rewrite Nat2Z.id, <-Hx.
Qed.

Definition demo_block (flags n : Z) : registered_buffer :=
  MkRegBuf flags (MkRel 1663 5 16384) MAIN_FORKNUM n (replicate (Z.to_nat BLCKSZ) 0) [1; 2; 3]
    (MkRemap 7 (20 + n) 12 (21 + n)).

(** Two blocks with a gap, one remapped with data, one with an image. *)
Definition demo_parts : RecordParts :=
  MkParts 10 0 731
    [Some (demo_block 0 4, MkPlan false true false true); None;
     Some (demo_block 1 5, MkPlan true false true false)]
    (Some 3) None [9; 9].

Lemma demo_block_wf flags n plan : 0 ≤ n < 100 → block_wf (demo_block flags n) plan.
Proof.
  intros Hn. split; try done.
  - split; cbn; lia.
  - intros _. split_and!; cbn; unfold is_u32; lia.
  - cbn [demo_block rb_page]. split; [by rewrite length_replicate|by apply Forall_replicate].
  - intros _. split; [done|by repeat constructor].
Qed.

Lemma demo_parts_wf : parts_wf demo_parts.
Proof.
  split; try done.
  - intros [|[|[|i]]] rb plan Hi; try discriminate Hi; injection Hi as <- <-; by apply demo_block_wf.
  - cbn. lia.
  - by repeat constructor.
  - by intros o [= <-].
Qed.

Lemma demo_prev : is_u64 96.
Proof. unfold is_u64. lia. Qed.

Lemma wal_record_roundtrip_witness :
  ∃ rec r b, finish_record demo_compress (Some WAL_COMPRESSION_PGLZ) demo_parts 96 = Ok rec ∧
    DecodeXLogRecord rec = Ok r ∧ mjoin (dr_blocks r !! 0%nat) = Some b ∧
    db_remap b = MkRemap 7 24 12 25.
Proof.
  destruct (finish_record demo_compress (Some WAL_COMPRESSION_PGLZ) demo_parts 96) as [rec|e] eqn:Hfin.
  - destruct (wal_record_roundtrip demo_compress demo_decompress (Some WAL_COMPRESSION_PGLZ) demo_parts
      96 rec (proj1 demo_codec) (proj2 demo_codec) demo_parts_wf demo_prev Hfin)
      as (_ & r & Hr & _ & _ & _ & Hb).
    specialize (Hb 0%nat). cbn [mjoin] in Hb. destruct Hb as (b & Hl & (_ & _ & _ & _ & Hm & _) & _).
    exists rec, r, b. split; [exact eq_refl|]. split; [exact Hr|]. split; [exact Hl|]. exact (Hm eq_refl).
  - exfalso. vm_compute in Hfin. discriminate.
Defined.
