(* ===== verification/SmgrFiles.v ===== *)
(** * What the storage manager relies on from the file layer

    The calls of [storage/smgr/umfile.c] that [umbra.c] uses for data forks, on
    top of those of [FileLayer]: reads and writes of runs of blocks inside one
    segment, extension, truncation, and the two hints. *)

From S2P Require Import Prelude FileLayer.

Local Open Scope Z_scope.

Definition PG_IOV_MAX : Z := 128.

Definition full_block (d : list Z) : Prop := length d = Z.to_nat BLCKSZ ∧ Forall is_byte d.

(** [lenient] stands for [InRecovery]: missing segments are created and a read
    past the end gives zeros. *)
Class DataFiles (F : Type) := {
  (** [umfile_readv] *)
  fl_readv : bool → F → RelFileLocator → ForkNumber → Z → nat → result (F * list (list Z));
  (** [umfile_writev] *)
  fl_writev : bool → F → RelFileLocator → ForkNumber → Z → list (list Z) → result F;
  (** [umfile_extend] *)
  fl_extend : F → RelFileLocator → ForkNumber → Z → list Z → result F;
  (** [umfile_ctx_extend] with [umfile_ctx_register_dirty]; the fork may be missing *)
  fl_ctx_extend : F → RelFileLocator → ForkNumber → Z → list Z → result F;
  (** [umfile_ctx_get_nblocks], sparse *)
  fl_nblocks_sparse : F → RelFileLocator → ForkNumber → Z;
  (** [umfile_ctx_segment_exists] *)
  fl_segment_exists : F → RelFileLocator → ForkNumber → Z → bool;
  (** [umfile_truncate] from a number of blocks to another *)
  fl_truncate : bool → F → RelFileLocator → ForkNumber → Z → Z → result F;
  (** [umfile_prefetch] *)
  fl_prefetch : F → RelFileLocator → ForkNumber → Z → Z → result bool;
  (** [umfile_writeback] *)
  fl_writeback : F → RelFileLocator → ForkNumber → Z → Z → result unit;
}.

(** What a write of blocks [b, b + n) of a fork leaves alone. *)
Definition run_frame `{FileLayerLaws F} (f f' : F) (r : RelFileLocator) (k : ForkNumber)
    (b n : Z) : Prop :=
  (∀ r' k' b', (r', k') ≠ (r, k) → fl_content f' r' k' b' = fl_content f r' k' b') ∧
  (∀ b', ¬ (b ≤ b' < b + n) → block_kept (fl_content f r k b') (fl_content f' r k b')) ∧
  (∀ r', fl_exists f' r' UMBRA_METADATA_FORKNUM = fl_exists f r' UMBRA_METADATA_FORKNUM).

Class DataFilesLaws (F : Type) `{FileLayerLaws F} `{DataFiles F} := {
  fl_readv_data : ∀ lenient f r k b n f' ds, fl_readv lenient f r k b n = Ok (f', ds) →
    length ds = n ∧
    ∀ i d, ds !! i = Some d →
      fl_content f r k (b + Z.of_nat i) = Some d ∨
      (lenient = true ∧ fl_content f r k (b + Z.of_nat i) = None ∧ d = zero_block);
  fl_readv_content : ∀ f r k b n f' ds r' k' b', fl_readv false f r k b n = Ok (f', ds) →
    fl_content f' r' k' b' = fl_content f r' k' b';
  fl_readv_exists : ∀ lenient f r k b n f' ds r', fl_readv lenient f r k b n = Ok (f', ds) →
    fl_exists f' r' UMBRA_METADATA_FORKNUM = fl_exists f r' UMBRA_METADATA_FORKNUM;
  fl_writev_data : ∀ lenient f r k b ds f', fl_writev lenient f r k b ds = Ok f' →
    Forall full_block ds →
    ∀ i d, ds !! i = Some d → fl_content f' r k (b + Z.of_nat i) = Some d;
  fl_writev_frame : ∀ lenient f r k b ds f', fl_writev lenient f r k b ds = Ok f' →
    run_frame f f' r k b (Z.of_nat (length ds));
  fl_extend_data : ∀ f r k b d f', fl_extend f r k b d = Ok f' → full_block d →
    fl_content f' r k b = Some d;
  fl_extend_frame : ∀ f r k b d f', fl_extend f r k b d = Ok f' → run_frame f f' r k b 1;
  fl_ctx_extend_data : ∀ f r k b d f', fl_ctx_extend f r k b d = Ok f' → full_block d →
    fl_content f' r k b = Some d;
  fl_ctx_extend_frame : ∀ f r k b d f', fl_ctx_extend f r k b d = Ok f' →
    k ≠ UMBRA_METADATA_FORKNUM → run_frame f f' r k b 1;
  fl_truncate_kept : ∀ lenient f r k old n f' b', fl_truncate lenient f r k old n = Ok f' →
    b' < n → block_kept (fl_content f r k b') (fl_content f' r k b');
  fl_truncate_frame : ∀ lenient f r k old n f' r' k' b', fl_truncate lenient f r k old n = Ok f' →
    (r', k') ≠ (r, k) → fl_content f' r' k' b' = fl_content f r' k' b';
}.

(** ** The reference file system *)

Definition rf_cross : pg_error :=
  PgError ERROR ERRCODE_INTERNAL_ERROR "access crosses segment boundary".

(** A run of blocks that one vectored call can transfer. *)
Definition one_segment (b n : Z) : bool :=
  bool_decide (b mod RELSEG_SIZE + n ≤ RELSEG_SIZE ∧ n ≤ PG_IOV_MAX).

Definition rf_read_block (lenient : bool) (f : RefFiles) (r : RelFileLocator) (k : ForkNumber)
    (b : Z) : result (list Z) :=
  match rf_content f r k b with
  | Some d => Ok d
  | None => if lenient then Ok zero_block else Err rf_short_read
  end.

Fixpoint rf_readv (lenient : bool) (f : RefFiles) (r : RelFileLocator) (k : ForkNumber) (b : Z)
    (n : nat) : result (list (list Z)) :=
  match n with
  | O => Ok []
  | S n =>
      d ← rf_read_block lenient f r k b;
      ds ← rf_readv lenient f r k (b + 1) n;
      Ok (d :: ds)
  end.

Fixpoint rf_writev (f : RefFiles) (r : RelFileLocator) (k : ForkNumber) (b : Z)
    (ds : list (list Z)) : result RefFiles :=
  match ds with
  | [] => Ok f
  | d :: ds =>
      match rf_forks f !! (r, k) with
      | None => Err rf_no_file
      | Some _ =>
          if rf_block_ok d then rf_writev (rf_set f r k b d) r k (b + 1) ds else Err rf_bad_write
      end
  end.

Definition rf_ensure (f : RefFiles) (r : RelFileLocator) (k : ForkNumber) : RefFiles :=
  match rf_forks f !! (r, k) with
  | Some _ => f
  | None => MkRefFiles (<[(r, k) := ∅]> (rf_forks f))
  end.

#[global] Instance ref_data_files : DataFiles RefFiles := {
  fl_readv lenient f r k b n :=
    if one_segment b (Z.of_nat n) then
      ds ← rf_readv lenient f r k b n; Ok (f, ds)
    else Err rf_cross;
  fl_writev lenient f r k b ds :=
    if one_segment b (Z.of_nat (length ds)) then rf_writev f r k b ds else Err rf_cross;
  fl_extend f r k b d := rf_writev f r k b [d];
  fl_ctx_extend f r k b d := rf_writev (rf_ensure f r k) r k b [d];
  fl_nblocks_sparse f r k := fl_nblocks f r k;
  fl_segment_exists f r k segno := fl_exists f r k;
  fl_truncate lenient f r k old n :=
    if decide (n > old) then if lenient then Ok f else Err rf_bad_write
    else Ok (MkRefFiles (alter (filter (λ bd, bd.1 < n)) (r, k) (rf_forks f)));
  fl_prefetch f r k b n := Ok true;
  fl_writeback f r k b n := Ok tt;
}.

Lemma rf_readv_spec lenient f r k b n ds :
  rf_readv lenient f r k b n = Ok ds →
  length ds = n ∧ ∀ i d, ds !! i = Some d →
    rf_content f r k (b + Z.of_nat i) = Some d ∨
    (lenient = true ∧ rf_content f r k (b + Z.of_nat i) = None ∧ d = zero_block).
Proof.
  revert b ds. induction n as [|n IH]; intros b ds; cbn [rf_readv].
  { intros [= <-]. split; [done|]. intros i d. by rewrite lookup_nil. }
  unfold mbind, result_bind. destruct (rf_read_block _ _ _ _ _) as [d|] eqn:Hd; [|done].
  destruct (rf_readv _ _ _ _ _ n) as [ds'|] eqn:Hds; [|done]. intros [= <-].
  destruct (IH _ _ Hds) as [Hl Hall]. split; [cbn; lia|]. intros [|i] d' Hi.
  - injection Hi as <-. rewrite Z.add_0_r. unfold rf_read_block in Hd.
    destruct (rf_content f r k b); [left; congruence|]. destruct lenient; [|done].
    injection Hd as <-. by right.
  - replace (b + Z.of_nat (S i)) with (b + 1 + Z.of_nat i) by lia. by apply Hall.
Qed.

Lemma rf_content_set f r k b d r' k' b' :
  is_Some (rf_forks f !! (r, k)) → rf_block_ok d = true →
  rf_content (rf_set f r k b d) r' k' b' =
    if decide ((r', k', b') = (r, k, b)) then Some d else rf_content f r' k' b'.
Proof.
  intros Hs Hok. unfold rf_content. rewrite rf_block_set by done. case_decide; [|done]. by rewrite Hok.
Qed.

Lemma rf_set_exists f r k b d r' k' :
  is_Some (rf_forks (rf_set f r k b d) !! (r', k')) ↔ is_Some (rf_forks f !! (r', k')).
Proof. unfold rf_set. cbn. apply lookup_alter_is_Some. Qed.

Lemma rf_writev_spec f r k b ds f' :
  rf_writev f r k b ds = Ok f' →
  (∀ r' k' b', rf_content f' r' k' b' =
     if decide ((r', k') = (r, k) ∧ b ≤ b' < b + Z.of_nat (length ds))
     then ds !! Z.to_nat (b' - b) else rf_content f r' k' b') ∧
  ∀ r' k', is_Some (rf_forks f' !! (r', k')) ↔ is_Some (rf_forks f !! (r', k')).
Proof.
  revert f b. induction ds as [|d ds IH]; intros f b; cbn [rf_writev length].
  { intros [= <-]. split; [|done]. intros. by rewrite decide_False by lia. }
  destruct (rf_forks f !! (r, k)) as [m|] eqn:Hm; [|done].
  destruct (rf_block_ok d) eqn:Hok; [|done]. intros Hw. destruct (IH _ _ Hw) as [Hc Hx].
  split; [|intros; by rewrite Hx, rf_set_exists]. intros r' k' b'. rewrite Hc.
  rewrite rf_content_set by eauto. destruct (decide ((r', k') = (r, k))) as [[= -> ->]|Hne].
  2: { rewrite !decide_False; [done|tauto|intros [= -> -> ->]; done|tauto]. }
  destruct (decide (b' = b)) as [->|Hb].
  - rewrite decide_False by lia. rewrite decide_True by done.
    rewrite decide_True by (split; [done|lia]). by rewrite Z.sub_diag.
  - rewrite (decide_False (P := (r, k, b') = (r, k, b))) by congruence.
    destruct (decide (b < b' < b + 1 + Z.of_nat (length ds))) as [Hin|Hout].
    + rewrite !decide_True by (split; [done|lia]). by replace (Z.to_nat (b' - b)) with (S (Z.to_nat (b' - (b + 1)))) by lia.
    + rewrite !decide_False by lia. done.
Qed.

Lemma rf_writev_frame f r k b ds f' :
  rf_writev f r k b ds = Ok f' → run_frame f f' r k b (Z.of_nat (length ds)).
Proof.
  intros [Hc Hx]%rf_writev_spec. split_and!; cbn [fl_content ref_file_laws].
  - intros r' k' b' Hne. rewrite Hc, decide_False; [done|tauto].
  - intros b' Hout. left. rewrite Hc, decide_False; [done|tauto].
  - intros r'. cbn. by apply bool_decide_ext.
Qed.

Lemma rf_ensure_content f r k r' k' b : rf_content (rf_ensure f r k) r' k' b = rf_content f r' k' b.
Proof.
  unfold rf_ensure. destruct (rf_forks f !! (r, k)) eqn:Hk; [done|]. unfold rf_content, rf_block. cbn.
  destruct (decide ((r, k) = (r', k'))) as [[= <- <-]|]; [by rewrite lookup_insert_eq, Hk, lookup_empty|].
  by rewrite lookup_insert_ne.
Qed.

Lemma rf_ensure_exists f r k r' k' :
  (r', k') ≠ (r, k) → is_Some (rf_forks (rf_ensure f r k) !! (r', k')) ↔ is_Some (rf_forks f !! (r', k')).
Proof. intros Hne. unfold rf_ensure. destruct (rf_forks f !! (r, k)); [done|]. cbn. by rewrite lookup_insert_ne. Qed.

#[global] Instance ref_data_laws : DataFilesLaws RefFiles.
Proof.
  split.
  - intros lenient f r k b n f' ds. cbn. destruct (one_segment _ _); [|done].
    unfold mbind, result_bind. destruct (rf_readv _ _ _ _ _ _) eqn:Hr; [|done].
    intros [= <- <-]. by apply rf_readv_spec.
  - intros f r k b n f' ds r' k' b'. cbn. destruct (one_segment _ _); [|done].
    unfold mbind, result_bind. destruct (rf_readv _ _ _ _ _ _); [|done]. by intros [= <- <-].
  - intros lenient f r k b n f' ds r'. cbn. destruct (one_segment _ _); [|done].
    unfold mbind, result_bind. destruct (rf_readv _ _ _ _ _ _); [|done]. by intros [= <- <-].
  - intros lenient f r k b ds f'. cbn. destruct (one_segment _ _); [|done]. intros [Hc _]%rf_writev_spec _ i d Hi.
    pose proof (lookup_lt_Some _ _ _ Hi). rewrite Hc, decide_True by (split; [done|lia]).
    by replace (Z.to_nat _) with i by lia.
  - intros lenient f r k b ds f'. cbn. destruct (one_segment _ _); [|done]. apply rf_writev_frame.
  - intros f r k b d f' [Hc _]%rf_writev_spec _. cbn [fl_content ref_file_laws].
    rewrite Hc, decide_True by (cbn; split; [done|lia]). by rewrite Z.sub_diag.
  - intros f r k b d f'. apply (rf_writev_frame f r k b [d]).
  - intros f r k b d f' [Hc _]%rf_writev_spec _. cbn [fl_content ref_file_laws].
    rewrite Hc, decide_True by (cbn; split; [done|lia]). by rewrite Z.sub_diag.
  - intros f r k b d f' [Hc Hx]%rf_writev_spec Hk. split_and!; cbn [fl_content ref_file_laws].
    + intros r' k' b' Hne. rewrite Hc, decide_False, rf_ensure_content; [done|tauto].
    + intros b' Hout. left. rewrite Hc, decide_False, rf_ensure_content; [done|]. cbn in *. tauto.
    + intros r'. cbn. apply bool_decide_ext. rewrite Hx. apply rf_ensure_exists. congruence.
  - intros lenient f r k old n f' b'. cbn.
    case_decide; [destruct lenient; [intros [= <-]; by left|done]|].
    intros [= <-] Hb. left. unfold rf_content, rf_block. cbn. rewrite lookup_alter_eq.
    destruct (rf_forks f !! (r, k)) as [m|]; [|done]. cbn.
    destruct (m !! b') as [d|] eqn:Hd; [by rewrite (map_lookup_filter_Some_2 _ _ _ d)|].
    by rewrite map_lookup_filter_None_2 by auto.
  - intros lenient f r k old n f' r' k' b'. cbn.
    case_decide; [destruct lenient; [by intros [= <-]|done]|].
    intros [= <-] Hne. unfold rf_content, rf_block. cbn. by rewrite lookup_alter_ne by congruence.
Qed.
