(* ===== verification/SmgrAccess.v ===== *)
(** * The storage manager: access to blocks

    The part of [storage/smgr/umbra.c] that serves requests for logical blocks:
    the policy of a relation handle, the translation of a logical block for
    reading, writing and write-back, the vectored read and write with their
    in-flight barriers, sizes, and truncation with the preloaded map pages of
    [storage/map/map.c]. *)

From S2P Require Import Prelude MapLayout Superblock SuperTable FileLayer SmgrFiles SBlock.
From S2P Require Import BufState MapBuf MapPage MapRange MapInflight.

Local Open Scope Z_scope.

(** ** Handles and state *)

Inductive UmbraMapPolicy :=
  | UMBRA_MAP_POLICY_UNKNOWN
  | UMBRA_MAP_POLICY_BYPASS_MAP
  | UMBRA_MAP_POLICY_SKIP_WAL_PENDING_MAP
  | UMBRA_MAP_POLICY_REQUIRE_MAP.

#[global] Instance UmbraMapPolicy_eq_dec : EqDecision UmbraMapPolicy.
Proof. solve_decision. Defined.

Definition INVALID_PROC_NUMBER : Z := -1.

(** [RelFileLocatorBackend], the identity of an [SMgrRelation]. *)
Record SMgrRelation := MkReln {
  locator : RelFileLocator;
  backend : Z;
}.

#[global] Instance SMgrRelation_eq_dec : EqDecision SMgrRelation.
Proof. solve_decision. Defined.
#[global] Instance SMgrRelation_countable : Countable SMgrRelation.
Proof.
  apply (inj_countable' (λ r, (locator r, backend r)) (λ p, MkReln p.1 p.2)). by intros [].
Defined.

Definition SmgrIsTemp (reln : SMgrRelation) : bool :=
  bool_decide (backend reln ≠ INVALID_PROC_NUMBER).

Definition UmbraForkUsesMapTranslation (f : ForkNumber) : bool :=
  bool_decide (f = MAIN_FORKNUM ∨ f = FSM_FORKNUM ∨ f = VISIBILITYMAP_FORKNUM).

Definition UmbraForkIsAuxiliaryMapped (f : ForkNumber) : bool :=
  bool_decide (f = FSM_FORKNUM ∨ f = VISIBILITYMAP_FORKNUM).

Definition um_fork_uses_wal_owned_firstborn (f : ForkNumber) : bool :=
  UmbraForkUsesMapTranslation f && negb (UmbraForkIsAuxiliaryMapped f).

Record UmbraAccessState := MkAccess {
  policy : UmbraMapPolicy;
  map_available : bool;
}.

Inductive UmbraAccessResolveMode :=
  | UMBRA_ACCESS_RESOLVE_READ
  | UMBRA_ACCESS_RESOLVE_WRITE
  | UMBRA_ACCESS_RESOLVE_WRITEBACK.

(** The result, with the output parameter where it is set. *)
Inductive UmbraAccessResolveResult :=
  | UMBRA_ACCESS_RESOLVED_PBLK (pblkno : Z)
  | UMBRA_ACCESS_RESOLVED_ZERO
  | UMBRA_ACCESS_RESOLVED_SKIP.

Definition um_state_uses_map (p : UmbraMapPolicy) : bool :=
  bool_decide (p = UMBRA_MAP_POLICY_REQUIRE_MAP).

Definition um_state_requires_durable_sync (p : UmbraMapPolicy) : bool :=
  bool_decide (p = UMBRA_MAP_POLICY_REQUIRE_MAP ∨ p = UMBRA_MAP_POLICY_SKIP_WAL_PENDING_MAP).

(** The state of one backend: the map layer it shares, the files of its own
    temporary relations, the policy cached in each of its relation handles
    ([smgr_private]), and the map pages it holds for a truncation
    ([MapTruncatePreload], one entry per fork). *)
Record SmgrState (T F : Type) := MkSmgr {
  sm_map : MapState T F;
  sm_temp : F;
  sm_handles : gmap SMgrRelation UmbraMapPolicy;
  sm_preload : gmap ForkNumber (RelFileLocator * list nat);
}.
Arguments MkSmgr {T F} _ _ _ _.
Arguments sm_map {T F} _.
Arguments sm_temp {T F} _.
Arguments sm_handles {T F} _.
Arguments sm_preload {T F} _.

Definition UMBRA_WRITE_BARRIER_WAIT_RETRIES : nat := Z.to_nat 10000.

Section ops.
Context {T F : Type} `{SuperStore T} `{FileLayer F} `{DataFiles F} (env : Env).
Local Abbreviation S := (SmgrState T F).

Definition on_map {A} (m : M (MapState T F) A) : M S A := λ s,
  let '(r, ms) := m (sm_map s) in (r, MkSmgr ms (sm_temp s) (sm_handles s) (sm_preload s)).

Definition on_smgr_world {A} (m : M (World T F) A) : M S A := on_map (on_world m).

(** The files of a relation. *)
Definition reln_files (reln : SMgrRelation) (s : S) : F :=
  if SmgrIsTemp reln then sm_temp s else w_files (ms_world (sm_map s)).

Definition set_reln_files (reln : SMgrRelation) (fs : F) (s : S) : S :=
  if SmgrIsTemp reln then MkSmgr (sm_map s) fs (sm_handles s) (sm_preload s)
  else MkSmgr (MkMapState (set_files fs (ms_world (sm_map s))) (ms_sys (sm_map s)) (ms_local (sm_map s)))
         (sm_temp s) (sm_handles s) (sm_preload s).

Definition file_get {A} (reln : SMgrRelation) (g : F → A) : M S A := gets (λ s, g (reln_files reln s)).

Definition file_do (reln : SMgrRelation) (m : F → result F) : M S unit := λ s,
  match m (reln_files reln s) with
  | Ok fs => (Ok tt, set_reln_files reln fs s)
  | Err e => (Err e, s)
  end.

Definition file_do_val {A} (reln : SMgrRelation) (m : F → result (F * A)) : M S A := λ s,
  match m (reln_files reln s) with
  | Ok (fs, a) => (Ok a, set_reln_files reln fs s)
  | Err e => (Err e, s)
  end.

Definition UmMetadataExists (reln : SMgrRelation) : M S bool :=
  file_get reln (λ fs, fl_exists fs (locator reln) UMBRA_METADATA_FORKNUM).

(** ** Policy *)

Definition um_map_state_cached (reln : SMgrRelation) : M S UmbraMapPolicy :=
  gets (λ s, default UMBRA_MAP_POLICY_UNKNOWN (sm_handles s !! reln)).

Definition um_set_cached_map_state (reln : SMgrRelation) (p : UmbraMapPolicy) : M S unit :=
  modify (λ s, MkSmgr (sm_map s) (sm_temp s) (<[reln := p]> (sm_handles s)) (sm_preload s)).

Definition um_open_map_state (reln : SMgrRelation) : M S UmbraMapPolicy :=
  exists_ ← UmMetadataExists reln;
  if SmgrIsTemp reln || negb exists_ then mret UMBRA_MAP_POLICY_BYPASS_MAP
  else
    pending ← on_smgr_world (MapSBlockIsSkipWalPending (locator reln));
    mret (if (pending : bool) then UMBRA_MAP_POLICY_SKIP_WAL_PENDING_MAP
          else UMBRA_MAP_POLICY_REQUIRE_MAP).

Definition umopen (reln : SMgrRelation) : M S unit :=
  p ← um_map_state_cached reln;
  if decide (p ≠ UMBRA_MAP_POLICY_UNKNOWN) then mret tt
  else q ← um_open_map_state reln; um_set_cached_map_state reln q.

Definition umdestroy (reln : SMgrRelation) : M S unit :=
  modify (λ s, MkSmgr (sm_map s) (sm_temp s) (delete reln (sm_handles s)) (sm_preload s)).

Definition umsetmapstate := um_set_cached_map_state.

Definition um_relation_requires_durable_sync (reln : SMgrRelation) : M S bool :=
  p ← um_map_state_cached reln;
  if um_state_requires_durable_sync p then mret true else UmMetadataExists reln.

Definition um_map_policy_for_access (reln : SMgrRelation) (f : ForkNumber) : M S UmbraMapPolicy :=
  if negb (UmbraForkUsesMapTranslation f) then mret UMBRA_MAP_POLICY_BYPASS_MAP
  else um_map_state_cached reln.

Definition um_classify_access (reln : SMgrRelation) (f : ForkNumber) : M S UmbraAccessState :=
  p ← um_map_policy_for_access reln f;
  mret (MkAccess p (um_state_uses_map p)).

(** ** Sizes *)

Definition umnblocks_for_access (reln : SMgrRelation) (f : ForkNumber) (access : UmbraAccessState)
    : M S Z :=
  if negb (map_available access) then file_get reln (λ fs, fl_nblocks fs (locator reln) f)
  else
    n ← on_smgr_world (MapSBlockTryGetLogicalNblocks env (locator reln) f);
    match n with
    | Some n => mret n
    | None => ereport ERROR ERRCODE_DATA_CORRUPTED "missing or invalid MAP superblock"
    end.

Definition umnblocks (reln : SMgrRelation) (f : ForkNumber) : M S Z :=
  access ← um_classify_access reln f; umnblocks_for_access reln f access.

Definition um_mapped_exists_from_super (reln : SMgrRelation) (f : ForkNumber) : M S bool :=
  exists_ ← UmMetadataExists reln;
  if negb exists_ then mret false
  else on_smgr_world (MapSBlockForkExists (locator reln) f).

Definition umexists (reln : SMgrRelation) (f : ForkNumber) : M S bool :=
  if negb (UmbraForkUsesMapTranslation f)
  then file_get reln (λ fs, fl_exists fs (locator reln) f)
  else
    p ← um_map_policy_for_access reln f;
    if decide (p ≠ UMBRA_MAP_POLICY_REQUIRE_MAP)
    then file_get reln (λ fs, fl_exists fs (locator reln) f)
    else um_mapped_exists_from_super reln f.

(** ** Translation *)

Definition unmapped_entry : pg_error :=
  PgError ERROR ERRCODE_DATA_CORRUPTED "MAP entry is unmapped".

Definition um_report_unmapped_map_entry {A} (reln : SMgrRelation) (f : ForkNumber) : M S A :=
  on_smgr_world (MapSBlockTryGetLogicalNblocks env (locator reln) f);;
  match f with
  | FSM_FORKNUM | VISIBILITYMAP_FORKNUM | MAIN_FORKNUM => throw unmapped_entry
  | _ => elog ERROR "unsupported fork number in map miss report"
  end.

Definition um_is_stale_post_truncate_lblk_with_eof (f : ForkNumber) (logical_nblocks lblkno : Z)
    : bool :=
  if negb (UmbraForkUsesMapTranslation f) then false
  else if decide (logical_nblocks = InvalidBlockNumber) then false
  else bool_decide (logical_nblocks ≤ lblkno).

(** The size, from [lookup_state] if it is there, and the new [lookup_state]. *)
Definition looked_up_nblocks (reln : SMgrRelation) (f : ForkNumber) (access : UmbraAccessState)
    (lookup_state : option Z) : M S Z :=
  match lookup_state with
  | Some n => mret n
  | None => umnblocks_for_access reln f access
  end.

Definition um_lblk_precedes_logical_eof_for_access (reln : SMgrRelation) (f : ForkNumber)
    (access : UmbraAccessState) (lookup_state : option Z) (lblkno : Z) : M S (bool * option Z) :=
  if negb (map_available access) then mret (false, lookup_state)
  else if negb (UmbraForkUsesMapTranslation f) then mret (false, lookup_state)
  else
    n ← looked_up_nblocks reln f access lookup_state;
    mret (bool_decide (lblkno < n), Some n).

Definition um_is_stale_post_truncate_lblk_for_access (reln : SMgrRelation) (f : ForkNumber)
    (access : UmbraAccessState) (lookup_state : option Z) (lblkno : Z) : M S (bool * option Z) :=
  if negb (map_available access) then mret (false, lookup_state)
  else if negb (UmbraForkUsesMapTranslation f) then mret (false, lookup_state)
  else if InRecovery env && negb (UmbraForkIsAuxiliaryMapped f) then mret (false, lookup_state)
  else
    n ← looked_up_nblocks reln f access lookup_state;
    mret (um_is_stale_post_truncate_lblk_with_eof f n lblkno, Some n).

Definition um_is_logical_unmaterialized_for_access (reln : SMgrRelation) (f : ForkNumber)
    (access : UmbraAccessState) (lblkno : Z) : M S bool :=
  inside ← um_lblk_precedes_logical_eof_for_access reln f access None lblkno;
  if negb inside.1 then mret false
  else
    o ← on_map (MapTryLookup env (locator reln) f lblkno);
    mret (bool_decide (o = None)).

Definition um_resolve_lblk_for_read (reln : SMgrRelation) (f : ForkNumber)
    (access : UmbraAccessState) (lookup_state : option Z) (lblkno : Z)
    : M S (UmbraAccessResolveResult * option Z) :=
  n ← looked_up_nblocks reln f access lookup_state;
  if InRecovery env && UmbraForkIsAuxiliaryMapped f && bool_decide (n ≠ InvalidBlockNumber) &&
     um_is_stale_post_truncate_lblk_with_eof f n lblkno
  then mret (UMBRA_ACCESS_RESOLVED_ZERO, Some n)
  else if decide (n ≠ InvalidBlockNumber ∧ lblkno < n)
  then mret (UMBRA_ACCESS_RESOLVED_ZERO, Some n)
  else um_report_unmapped_map_entry reln f.

Definition um_resolve_lblk_for_write (reln : SMgrRelation) (f : ForkNumber)
    : M S (UmbraAccessResolveResult * option Z) :=
  um_report_unmapped_map_entry reln f.

Definition um_resolve_lblk_for_writeback (reln : SMgrRelation) (f : ForkNumber)
    (access : UmbraAccessState) (lookup_state : option Z) (lblkno : Z)
    : M S (UmbraAccessResolveResult * option Z) :=
  inside ← um_lblk_precedes_logical_eof_for_access reln f access lookup_state lblkno;
  if (inside.1 : bool) then
    owned ← on_map (MapInflightLookupOwnedPblk (locator reln) f lblkno);
    mret (match owned with
          | Some p => UMBRA_ACCESS_RESOLVED_PBLK p
          | None => UMBRA_ACCESS_RESOLVED_SKIP
          end, inside.2)
  else
    stale ← um_is_stale_post_truncate_lblk_for_access reln f access inside.2 lblkno;
    if (stale.1 : bool) then mret (UMBRA_ACCESS_RESOLVED_SKIP, stale.2)
    else um_report_unmapped_map_entry reln f.

Definition um_resolve_lblk_for_access (reln : SMgrRelation) (f : ForkNumber)
    (access : UmbraAccessState) (lookup_state : option Z) (lblkno : Z)
    (mode : UmbraAccessResolveMode) : M S (UmbraAccessResolveResult * option Z) :=
  if negb (map_available access) then mret (UMBRA_ACCESS_RESOLVED_PBLK lblkno, lookup_state)
  else
    found ← on_map (MapTryLookup env (locator reln) f lblkno);
    match found with
    | Some p => mret (UMBRA_ACCESS_RESOLVED_PBLK p, lookup_state)
    | None =>
        match mode with
        | UMBRA_ACCESS_RESOLVE_READ => um_resolve_lblk_for_read reln f access lookup_state lblkno
        | UMBRA_ACCESS_RESOLVE_WRITE => um_resolve_lblk_for_write reln f
        | UMBRA_ACCESS_RESOLVE_WRITEBACK =>
            um_resolve_lblk_for_writeback reln f access lookup_state lblkno
        end
    end.

(** The number of blocks, the first physical block, and [lookup_state]. *)
Definition um_resolve_mapped_read_run (reln : SMgrRelation) (f : ForkNumber)
    (access : UmbraAccessState) (lookup_state : option Z) (blocknum maxblocks : Z)
    : M S (Z * Z * option Z) :=
  run ← on_map (MapTryLookupPblkRun env (locator reln) f blocknum maxblocks);
  if decide (run_blocks run > 0) then mret (run_blocks run, start_pblkno run, lookup_state)
  else
    res ← um_resolve_lblk_for_access reln f access lookup_state blocknum UMBRA_ACCESS_RESOLVE_READ;
    match res.1 with
    | UMBRA_ACCESS_RESOLVED_PBLK pblk => mret (1, pblk, res.2)
    | _ => mret (0, InvalidBlockNumber, res.2)
    end.

Definition umphysicalblock (reln : SMgrRelation) (f : ForkNumber) (lblkno : Z) : M S Z :=
  access ← um_classify_access reln f;
  if negb (map_available access) then mret lblkno
  else
    o ← on_map (MapTryLookup env (locator reln) f lblkno);
    match o with
    | Some p => mret p
    | None => um_report_unmapped_map_entry reln f
    end.

Definition UmMapAccessAvailable (reln : SMgrRelation) (f : ForkNumber) : M S bool :=
  access ← um_classify_access reln f; mret (map_available access).

Definition UmWalOwnedRemapAvailable (reln : SMgrRelation) (f : ForkNumber) : M S bool :=
  access ← um_classify_access reln f;
  mret (bool_decide (policy access = UMBRA_MAP_POLICY_REQUIRE_MAP)).

(** [wal_insert]: [XLogInsertAllowed()] outside bootstrap and initialisation. *)
Definition UmWalOwnedFirstbornAvailable (wal_insert : bool) (reln : SMgrRelation) (f : ForkNumber)
    : M S bool :=
  access ← um_classify_access reln f;
  mret (bool_decide (policy access = UMBRA_MAP_POLICY_REQUIRE_MAP) && wal_insert &&
        um_fork_uses_wal_owned_firstborn f).

Definition UmMapTryLookupPblkno (reln : SMgrRelation) (f : ForkNumber) (lblkno : Z)
    : M S (option Z) :=
  access ← um_classify_access reln f;
  if negb (map_available access) then mret (Some lblkno)
  else on_map (MapTryLookup env (locator reln) f lblkno).

Definition UmMapIsLogicalUnmaterialized (reln : SMgrRelation) (f : ForkNumber) (lblkno : Z)
    : M S bool :=
  access ← um_classify_access reln f;
  um_is_logical_unmaterialized_for_access reln f access lblkno.

Definition UmMapSetMapping (reln : SMgrRelation) (f : ForkNumber) (lblkno new_pblkno map_lsn : Z)
    : M S unit :=
  access ← um_classify_access reln f;
  if negb (map_available access) then mret tt
  else on_map (MapSetMapping env (locator reln) f lblkno new_pblkno map_lsn).

(** ** Reading *)

(** [frame] and [fuel] are those of [MapSBlockEnsurePhysicalNblocks]. *)
Definition um_ensure_datafork_batch_ready_for_access (frame : Z) (fuel : nat) (reln : SMgrRelation)
    (f : ForkNumber) (access : UmbraAccessState) (pblkno : Z) : M S unit :=
  if negb (map_available access) then mret tt
  else if decide (pblkno = InvalidBlockNumber) then mret tt
  else if decide (u32 (pblkno + 1) = 0)
  then ereport ERROR ERRCODE_PROGRAM_LIMIT_EXCEEDED "physical block overflow"
  else
    on_smgr_world (MapSBlockEnsurePhysicalNblocks env frame fuel (locator reln) f (u32 (pblkno + 1)));;
    mret tt.

(** Each turn fills at least one of the [remaining] buffers. *)
Fixpoint read_runs (frame : Z) (fuel turns : nat) (reln : SMgrRelation) (f : ForkNumber)
    (access : UmbraAccessState) (aux_recovery_read : bool) (lookup_state : option Z)
    (blocknum remaining : Z) : M S (list (list Z)) :=
  match turns with
  | O => mret []
  | Datatypes.S turns =>
      if decide (remaining ≤ 0) then mret []
      else
        res ← um_resolve_mapped_read_run reln f access lookup_state blocknum
                (if aux_recovery_read then 1 else remaining);
        let '(run, pblk, lookup_state) := res in
        if decide (run = 0) then
          rest ← read_runs frame fuel turns reln f access aux_recovery_read lookup_state
                   (u32 (blocknum + 1)) (remaining - 1);
          mret (zero_block :: rest)
        else
          when aux_recovery_read
            (um_ensure_datafork_batch_ready_for_access frame fuel reln f access pblk);;
          data ← file_do_val reln (λ fs, fl_readv (InRecovery env) fs (locator reln) f pblk (Z.to_nat run));
          rest ← read_runs frame fuel turns reln f access aux_recovery_read lookup_state
                   (u32 (blocknum + run)) (remaining - run);
          mret (data ++ rest)
  end.

Definition umreadv (frame : Z) (fuel : nat) (reln : SMgrRelation) (f : ForkNumber)
    (blocknum nblocks : Z) : M S (list (list Z)) :=
  access ← um_classify_access reln f;
  if negb (map_available access)
  then file_do_val reln (λ fs, fl_readv (InRecovery env) fs (locator reln) f blocknum (Z.to_nat nblocks))
  else read_runs frame fuel (Z.to_nat nblocks) reln f access
         (InRecovery env && UmbraForkIsAuxiliaryMapped f) None blocknum nblocks.

Fixpoint prefetch_blocks (nblocks : nat) (reln : SMgrRelation) (f : ForkNumber)
    (access : UmbraAccessState) (lookup_state : option Z) (lblk : Z) : M S bool :=
  match nblocks with
  | O => mret true
  | Datatypes.S nblocks =>
      res ← um_resolve_lblk_for_access reln f access lookup_state lblk UMBRA_ACCESS_RESOLVE_READ;
      match res.1 with
      | UMBRA_ACCESS_RESOLVED_PBLK pblk =>
          r ← file_get reln (λ fs, fl_prefetch fs (locator reln) f pblk 1);
          ok ← lift r;
          if (ok : bool) then prefetch_blocks nblocks reln f access res.2 (u32 (lblk + 1))
          else mret false
      | _ => prefetch_blocks nblocks reln f access res.2 (u32 (lblk + 1))
      end
  end.

Definition umprefetch (reln : SMgrRelation) (f : ForkNumber) (blocknum nblocks : Z) : M S bool :=
  access ← um_classify_access reln f;
  if negb (map_available access)
  then r ← file_get reln (λ fs, fl_prefetch fs (locator reln) f blocknum nblocks); lift r
  else prefetch_blocks (Z.to_nat nblocks) reln f access None blocknum.

(** [umfile_maxcombine] *)
Definition umfile_maxcombine (blocknum : Z) : Z := RELSEG_SIZE - blocknum mod RELSEG_SIZE.

Definition ummaxcombine (io_max_combine_limit : Z) (reln : SMgrRelation) (f : ForkNumber)
    (blocknum : Z) : M S Z :=
  access ← um_classify_access reln f;
  if map_available access then
    if InRecovery env && UmbraForkIsAuxiliaryMapped f then mret 1
    else
      res ← um_resolve_mapped_read_run reln f access None blocknum
              (Z.min io_max_combine_limit (umfile_maxcombine blocknum));
      mret (Z.max 1 res.1.1)
  else mret (umfile_maxcombine blocknum).

(** What is handed to the asynchronous I/O layer: a read of physical blocks on
    behalf of logical ones, or a completed read of one zero page. *)
Inductive StartedRead :=
  | ReadPhysical (blocknum pblk nblocks : Z)
  | ReadZero (blocknum : Z).

Definition um_startreadv_mapped_physical (frame : Z) (fuel : nat) (reln : SMgrRelation)
    (f : ForkNumber) (access : UmbraAccessState) (aux_recovery_read : bool)
    (blocknum nblocks pblk : Z) : M S StartedRead :=
  there ← file_get reln (λ fs, fl_block_exists fs (locator reln) f pblk);
  when (aux_recovery_read && negb there)
    (um_ensure_datafork_batch_ready_for_access frame fuel reln f access pblk);;
  mret (ReadPhysical blocknum pblk nblocks).

Definition umstartreadv (frame : Z) (fuel : nat) (reln : SMgrRelation) (f : ForkNumber)
    (blocknum nblocks : Z) : M S StartedRead :=
  access ← um_classify_access reln f;
  if negb (map_available access) then mret (ReadPhysical blocknum blocknum nblocks)
  else
    let aux_recovery_read := InRecovery env && UmbraForkIsAuxiliaryMapped f in
    res ← um_resolve_mapped_read_run reln f access None blocknum
            (if aux_recovery_read then 1 else nblocks);
    if decide (res.1.1 > 0)
    then um_startreadv_mapped_physical frame fuel reln f access aux_recovery_read
           blocknum res.1.1 res.1.2
    else mret (ReadZero blocknum).

(** ** Writing *)

(** [sleep] is what the rest of the system does while the backend sleeps. *)
Fixpoint um_claim_write_barrier (sleep : MapState T F → MapState T F) (retries : nat)
    (reln : SMgrRelation) (f : ForkNumber) (lblkno : Z) : M S MapInflightBarrier :=
  match retries with
  | O => ereport ERROR ERRCODE_LOCK_NOT_AVAILABLE "timed out waiting for in-flight remap"
  | Datatypes.S retries =>
      o ← on_map (MapInflightTryClaimBarrier env (locator reln) f lblkno);
      match o with
      | Some barrier => mret barrier
      | None => on_map (modify sleep);; um_claim_write_barrier sleep retries reln f lblkno
      end
  end.

Fixpoint um_release_write_barriers (barriers : list MapInflightBarrier) : M S unit :=
  match barriers with
  | [] => mret tt
  | br :: barriers => on_map (MapInflightReleaseBarrier br);; um_release_write_barriers barriers
  end.

(** The local variables of [umwritev]; the run has as many blocks as barriers.
    They live in the state because the [PG_CATCH] block reads them. *)
Record WriteLocals := MkLocals {
  run_start_pblk : Z;
  run_start_idx : nat;
  run_barriers : list MapInflightBarrier;
  pending_barrier : MapInflightBarrier;
  materialized_nblocks : Z;
  max_extended_pblk : Z;
  write_lookup : option Z;
}.

Definition no_barrier : MapInflightBarrier := MkBarrier false (-1) (-1).

Definition with_run (p : Z) (i : nat) (brs : list MapInflightBarrier) (v : WriteLocals) : WriteLocals :=
  MkLocals p i brs (pending_barrier v) (materialized_nblocks v) (max_extended_pblk v) (write_lookup v).
Definition with_pending_barrier (br : MapInflightBarrier) (v : WriteLocals) : WriteLocals :=
  MkLocals (run_start_pblk v) (run_start_idx v) (run_barriers v) br (materialized_nblocks v)
    (max_extended_pblk v) (write_lookup v).
Definition with_materialized (n m : Z) (v : WriteLocals) : WriteLocals :=
  MkLocals (run_start_pblk v) (run_start_idx v) (run_barriers v) (pending_barrier v) n m (write_lookup v).
Definition with_write_lookup (o : option Z) (v : WriteLocals) : WriteLocals :=
  MkLocals (run_start_pblk v) (run_start_idx v) (run_barriers v) (pending_barrier v)
    (materialized_nblocks v) (max_extended_pblk v) o.

Local Abbreviation L := (SmgrState T F * WriteLocals)%type.

Definition in_smgr {A} (m : M S A) : M L A := λ l, let '(r, s) := m l.1 in (r, (s, l.2)).
Definition set_locals (g : WriteLocals → WriteLocals) : M L unit := modify (λ l, (l.1, g l.2)).

Definition um_flush_write_barrier_run (reln : SMgrRelation) (f : ForkNumber)
    (buffers : list (list Z)) : M L unit :=
  v ← gets snd;
  match run_barriers v with
  | [] => mret tt
  | brs =>
      in_smgr (file_do reln (λ fs, fl_writev (InRecovery env) fs (locator reln) f (run_start_pblk v)
                                (take (length brs) (drop (run_start_idx v) buffers))));;
      in_smgr (um_release_write_barriers brs);;
      set_locals (with_run (run_start_pblk v) (run_start_idx v) [])
  end.

Definition can_extend_run (v : WriteLocals) (pblk : Z) : bool :=
  let run := Z.of_nat (length (run_barriers v)) in
  bool_decide (run > 0) && bool_decide (pblk = u32 (run_start_pblk v + run)) &&
  bool_decide (run < PG_IOV_MAX) &&
  bool_decide (u32 (run_start_pblk v mod RELSEG_SIZE + run) < RELSEG_SIZE).

Definition assert_failed {A} : M L A := elog PANIC "failed assertion".

(** The body of the loop for buffer [i]. *)
Definition write_block (sleep : MapState T F → MapState T F) (reln : SMgrRelation) (f : ForkNumber)
    (access : UmbraAccessState) (buffers : list (list Z)) (i : nat) (lblk : Z) (buffer : list Z)
    : M L unit :=
  set_locals (with_pending_barrier no_barrier);;
  br ← in_smgr (um_claim_write_barrier sleep UMBRA_WRITE_BARRIER_WAIT_RETRIES reln f lblk);
  set_locals (with_pending_barrier br);;
  v ← gets snd;
  res ← in_smgr (um_resolve_lblk_for_access reln f access (write_lookup v) lblk
                   UMBRA_ACCESS_RESOLVE_WRITE);
  set_locals (with_write_lookup res.2);;
  match res.1 with
  | UMBRA_ACCESS_RESOLVED_PBLK pblk =>
      if decide (pblk < materialized_nblocks v) then
        (match run_barriers v with
         | [] => set_locals (with_run pblk i [])
         | _ =>
             if can_extend_run v pblk then mret tt
             else um_flush_write_barrier_run reln f buffers;;
                  set_locals (with_run pblk i [])
         end);;
        set_locals (λ v, with_pending_barrier (MkBarrier false (slot_id br) (entry_idx br))
                           (with_run (run_start_pblk v) (run_start_idx v)
                              (run_barriers v ++ [br]) v))
      else
        um_flush_write_barrier_run reln f buffers;;
        set_locals (λ v, with_run InvalidBlockNumber (run_start_idx v) (run_barriers v) v);;
        in_smgr (file_do reln (λ fs, fl_extend fs (locator reln) f pblk buffer));;
        br ← in_smgr (on_map (MapInflightReleaseBarrier br));
        set_locals (with_pending_barrier br);;
        set_locals (λ v, with_materialized
                      (if decide (materialized_nblocks v < u32 (pblk + 1)) then u32 (pblk + 1)
                       else materialized_nblocks v)
                      (if decide (max_extended_pblk v = InvalidBlockNumber ∨ pblk > max_extended_pblk v)
                       then pblk else max_extended_pblk v) v)
  | _ => assert_failed
  end.

Fixpoint write_blocks (sleep : MapState T F → MapState T F) (reln : SMgrRelation) (f : ForkNumber)
    (access : UmbraAccessState) (buffers : list (list Z)) (blocknum : Z) (i : nat)
    (rest : list (list Z)) : M L unit :=
  match rest with
  | [] => um_flush_write_barrier_run reln f buffers
  | buffer :: rest =>
      write_block sleep reln f access buffers i (u32 (blocknum + Z.of_nat i)) buffer;;
      write_blocks sleep reln f access buffers blocknum (i + 1) rest
  end.

Definition umwritev (sleep : MapState T F → MapState T F) (reln : SMgrRelation) (f : ForkNumber)
    (blocknum : Z) (buffers : list (list Z)) : M S unit :=
  access ← um_classify_access reln f;
  if negb (map_available access)
  then file_do reln (λ fs, fl_writev (InRecovery env) fs (locator reln) f blocknum buffers)
  else
    phys ← on_smgr_world (MapSBlockTryGetPhysicalNblocks env (locator reln) f);
    let start := MkLocals InvalidBlockNumber 0 [] no_barrier (default 0 phys) InvalidBlockNumber None in
    max_ext ← (λ s,
      let '(r, l) :=
        catch (write_blocks sleep reln f access buffers blocknum 0 buffers)
          (λ e, v ← gets snd;
                in_smgr (on_map (MapInflightReleaseBarrier (pending_barrier v)));;
                in_smgr (um_release_write_barriers (run_barriers v));;
                throw e) (s, start) in
      (match r with Ok _ => Ok (max_extended_pblk l.2) | Err e => Err e end, l.1));
    (if decide (max_ext = InvalidBlockNumber) then mret tt
     else on_smgr_world (MapSBlockBumpPhysicalNblocks env (locator reln) f (u32 (max_ext + 1))
                           InvalidXLogRecPtr));;
    match buffers with
    | [] => mret tt
    | _ => umnblocks_for_access reln f access;; mret tt
    end.

(** ** Write-back *)

Definition do_writeback (reln : SMgrRelation) (f : ForkNumber) (pblk n : Z) : M S unit :=
  r ← file_get reln (λ fs, fl_writeback fs (locator reln) f pblk n); lift r.

Fixpoint writeback_blocks (nblocks : nat) (reln : SMgrRelation) (f : ForkNumber)
    (access : UmbraAccessState) (lookup_state : option Z) (lblk start run : Z) : M S unit :=
  match nblocks with
  | O => if decide (run > 0) then do_writeback reln f start run else mret tt
  | Datatypes.S nblocks =>
      res ← um_resolve_lblk_for_access reln f access lookup_state lblk
              UMBRA_ACCESS_RESOLVE_WRITEBACK;
      match res.1 with
      | UMBRA_ACCESS_RESOLVED_PBLK pblk =>
          if decide (run = 0)
          then writeback_blocks nblocks reln f access res.2 (u32 (lblk + 1)) pblk 1
          else if decide (run > 0 ∧ pblk = u32 (start + run))
          then writeback_blocks nblocks reln f access res.2 (u32 (lblk + 1)) start (u32 (run + 1))
          else do_writeback reln f start run;;
               writeback_blocks nblocks reln f access res.2 (u32 (lblk + 1)) pblk 1
      | UMBRA_ACCESS_RESOLVED_ZERO => elog PANIC "failed assertion"
      | UMBRA_ACCESS_RESOLVED_SKIP =>
          if decide (run > 0)
          then do_writeback reln f start run;;
               writeback_blocks nblocks reln f access res.2 (u32 (lblk + 1)) InvalidBlockNumber 0
          else writeback_blocks nblocks reln f access res.2 (u32 (lblk + 1)) start run
      end
  end.

Definition umwriteback (reln : SMgrRelation) (f : ForkNumber) (blocknum nblocks : Z) : M S unit :=
  access ← um_classify_access reln f;
  if negb (map_available access) then do_writeback reln f blocknum nblocks
  else writeback_blocks (Z.to_nat nblocks) reln f access None blocknum InvalidBlockNumber 0.

(** ** Truncation *)

Definition set_preload (f : ForkNumber) (o : option (RelFileLocator * list nat)) : M S unit :=
  modify (λ s, MkSmgr (sm_map s) (sm_temp s) (sm_handles s) (partial_alter (λ _, o) f (sm_preload s))).

Fixpoint unpin_slots (slots : list nat) : M S unit :=
  match slots with
  | [] => mret tt
  | slot :: slots => on_map (on_sys (MapUnpinBuffer slot));; unpin_slots slots
  end.

Definition MapTruncatePreloadResetEntry (f : ForkNumber) : M S unit :=
  p ← gets (λ s, sm_preload s !! f);
  match p with
  | None => mret tt
  | Some (_, slots) => unpin_slots slots;; set_preload f None
  end.

(** One page; [false] leaves the loop.  The slot is recorded at once, so a
    failure later in the loop leaves the pages read so far pinned. *)
Definition preload_page (r : RelFileLocator) (f : ForkNumber) (page_idx : Z) : M S bool :=
  map_blkno ← on_map (lift (MapForkPageIndexToMapBlkno f page_idx));
  files ← on_map get_files;
  if decide (fl_nblocks files r UMBRA_METADATA_FORKNUM ≤ map_blkno) then mret false
  else
    slot ← on_map (MapReadBuffer env r f map_blkno);
    p ← gets (λ s, sm_preload s !! f);
    set_preload f (Some (r, match p with Some (_, slots) => slots ++ [slot] | None => [slot] end));;
    mret true.

Fixpoint preload_pages (npages : nat) (r : RelFileLocator) (f : ForkNumber) (page_idx : Z)
    : M S unit :=
  match npages with
  | O => mret tt
  | Datatypes.S npages =>
      more ← preload_page r f page_idx;
      if (more : bool) then preload_pages npages r f (u32 (page_idx + 1)) else mret tt
  end.

Definition MapPreloadTruncatePages (r : RelFileLocator) (f : ForkNumber) (n_lblknos : Z) : M S unit :=
  files ← on_map get_files;
  if bool_decide (f = UMBRA_METADATA_FORKNUM) || negb (fl_exists files r UMBRA_METADATA_FORKNUM)
  then mret tt
  else
    old ← on_smgr_world (MapSBlockTryGetLogicalNblocks env r f);
    match old with
    | None => mret tt
    | Some old_n_lblknos =>
        match MapTruncateEntryRange f n_lblknos old_n_lblknos with
        | None => mret tt
        | Some range =>
            MapTruncatePreloadResetEntry f;;
            set_preload f (Some (r, []));;
            preload_pages (Z.to_nat (end_map_page range - start_map_page range + 1))
              r f (start_map_page range)
        end
    end.

Definition MapReleasePreloadedTruncatePages (r : RelFileLocator) (f : ForkNumber) : M S unit :=
  p ← gets (λ s, sm_preload s !! f);
  match p with
  | None => mret tt
  | Some (r', _) => if decide (r' = r) then MapTruncatePreloadResetEntry f else mret tt
  end.

(** Whether a truncation goes through the map. *)
Definition truncates_map (f : ForkNumber) (access : UmbraAccessState) : bool :=
  UmbraForkUsesMapTranslation f &&
  (bool_decide (policy access = UMBRA_MAP_POLICY_REQUIRE_MAP) || map_available access).

Definition umpretruncate (reln : SMgrRelation) (f : ForkNumber) (nblocks : Z) : M S unit :=
  access ← um_classify_access reln f;
  when (truncates_map f access) (MapPreloadTruncatePages (locator reln) f nblocks).

Definition umtruncate (reln : SMgrRelation) (f : ForkNumber) (old_blocks nblocks : Z) : M S unit :=
  access ← um_classify_access reln f;
  if truncates_map f access then
    let map_lsn := if InRecovery env then ReplayRecPtr env else WriteRecPtr env in
    on_map (MapTruncate env (locator reln) f nblocks map_lsn);;
    on_smgr_world (MapSBlockSetLogicalNblocks env (locator reln) f nblocks map_lsn);;
    MapReleasePreloadedTruncatePages (locator reln) f
  else file_do reln (λ fs, fl_truncate (InRecovery env) fs (locator reln) f old_blocks nblocks).
End ops.
