(* ===== verification/SmgrSpec.v ===== *)
(** * The storage manager as a store of logical blocks: reading

    A mapped relation stands for a store of logical blocks: the contents of the
    physical block a map entry names, or zeros where nothing is mapped.  A
    vectored read returns exactly these contents. *)

From S2P Require Import Prelude MapLayout Superblock SuperTable FileLayer SmgrFiles SBlock SBlockInv.
From S2P Require Import SBlockSafety SBlockSpec.
From S2P Require Import BufState MapBuf MapClock PoolInv MapPage MapPageSpec MapEntries.
From S2P Require Import MapCheckpoint MapCheckpointSpec MapRange MapRangeSpec MapInflight SmgrAccess.

Local Open Scope Z_scope.

Section files.
Context {T F : Type} `{SuperStore T} `{FileLayerLaws F}.
Local Abbreviation MS := (MapState T F).
Implicit Types s : MS.

(** ** Replacing the files under the map layer *)

Definition with_files (fs : F) s : MS :=
  MkMapState (set_files fs (ms_world s)) (ms_sys s) (ms_local s).

(** The metadata forks are the same. *)
Definition same_meta (fs fs' : F) : Prop :=
  (∀ r b, fl_content fs' r UMBRA_METADATA_FORKNUM b = fl_content fs r UMBRA_METADATA_FORKNUM b) ∧
  ∀ r, fl_exists fs' r UMBRA_METADATA_FORKNUM = fl_exists fs r UMBRA_METADATA_FORKNUM.

#[global] Instance same_meta_refl : Reflexive same_meta.
Proof. by split. Qed.

Lemma reload_meta fs fs' n r f blk : same_meta fs fs' → reload fs' n r f blk = reload fs n r f blk.
Proof. intros [Hc _]. unfold reload, stored. by rewrite Hc. Qed.

Lemma map_page_files s fs r f blk :
  same_meta (files s) fs → map_page (with_files fs s) r f blk = map_page s r f blk.
Proof.
  intros Hm. unfold map_page. change (files (with_files fs s)) with fs. cbn [with_files ms_sys ms_world].
  cbn [set_files w_store]. repeat case_match; try done. by apply reload_meta.
Qed.

Lemma map_inv_files s fs : map_inv s → same_meta (files s) fs → map_inv (with_files fs s).
Proof.
  intros [Hp Hc Hf He Ha] Hm. split; [done|done|done|..].
  - intros r f n Hn. change (files (with_files fs s)) with fs. rewrite (proj2 Hm). by eapply He.
  - intros i b f pg n Hb Hg Hpg Hn. specialize (Ha i b f pg n Hb Hg Hpg Hn).
    unfold agrees in *. change (files (with_files fs s)) with fs.
    destruct (bdirty b); [done|]. by rewrite (reload_meta (files s)).
Qed.

Lemma store_with_files fs s : w_store (ms_world (with_files fs s)) = w_store (ms_world s).
Proof. done. Qed.

Lemma same_backend_files s fs : same_backend s (with_files fs s).
Proof. split_and!; [done|done|apply keeps_refl]. Qed.

(** Files that differ in no content at all. *)
Lemma calm_files s fs :
  map_inv s → (∀ r k b, fl_content fs r k b = fl_content (files s) r k b) →
  (∀ r, fl_exists fs r UMBRA_METADATA_FORKNUM = fl_exists (files s) r UMBRA_METADATA_FORKNUM) →
  calm s (with_files fs s).
Proof.
  intros Hi Hc He. assert (same_meta (files s) fs) as Hm by (split; [intros; apply Hc|done]).
  split_and!; [by apply map_inv_files| |apply same_backend_files].
  split; [|intros; by apply map_page_files]. split_and!; cbn [with_files ms_world set_files w_store w_files w_flushed].
  - done.
  - done.
  - done.
  - intros r b _. by rewrite Hc.
  - intros r. unfold disk_super. by rewrite Hc.
  - intros r k b _. apply Hc.
Qed.

(** ** The logical store *)

Definition block_at (fs : F) (r : RelFileLocator) (f : ForkNumber) (entry : Z) : option (list Z) :=
  if decide (entry = InvalidBlockNumber) then Some zero_block else fl_content fs r f entry.

(** What a logical block holds. *)
Definition logical_block s (r : RelFileLocator) (f : ForkNumber) (l : Z) : option (list Z) :=
  block_at (files s) r f (entry_at s r f l).

Lemma calm_entry s s' r f l : calm s s' → entry_at s' r f l = entry_at s r f l.
Proof. intros (_ & [_ Hm] & _). unfold entry_at. by rewrite Hm. Qed.

Lemma calm_data s s' r f b :
  calm s s' → f ≠ UMBRA_METADATA_FORKNUM → fl_content (files s') r f b = fl_content (files s) r f b.
Proof. intros (_ & [(_ & _ & _ & _ & _ & Hd) _] & _) Hf. by apply Hd. Qed.

Lemma calm_logical s s' r f l :
  calm s s' → fork_mapped f → logical_block s' r f l = logical_block s r f l.
Proof.
  intros Hc Hf. unfold logical_block, block_at. rewrite (calm_entry s s') by done.
  case_decide; [done|]. apply calm_data; [done|]. by destruct Hf as [->|[->| ->]].
Qed.

Lemma calm_size s s' r f :
  calm s s' → trusted_size (w_store (ms_world s')) r f = trusted_size (w_store (ms_world s)) r f.
Proof. intros (_ & [(E & _) _] & _). by rewrite E. Qed.

Lemma calm_covered s s' r f lo hi : calm s s' → covered s r f lo hi → covered s' r f lo hi.
Proof. intros (_ & [_ Hm] & _) Hc l Hl. rewrite Hm. by apply Hc. Qed.

Lemma calm_inv s s' : calm s s' → map_inv s'.
Proof. by intros (? & _). Qed.
End files.

(** ** Mapped relations *)

Section smgr.
Context {T F : Type} `{SuperStore T} `{FileLayerLaws F} `{!DataFiles F} `{!DataFilesLaws F} (env : Env).
Local Abbreviation S := (SmgrState T F).
Implicit Types s : S.

Definition at_map s (ms : MapState T F) : S := MkSmgr ms (sm_temp s) (sm_handles s) (sm_preload s).

Lemma wp_on_map {A} (m : M (MapState T F) A) Q (E : pg_error → S → Prop) s :
  wp m (λ a ms, Q a (at_map s ms)) (λ e ms, E e (at_map s ms)) (sm_map s) → wp (on_map m) Q E s.
Proof. unfold wp, on_map, at_map. by destruct (m (sm_map s)) as [[]]. Qed.

(** The backend's own part is untouched and the map layer is calm. *)
Definition smgr_calm s s' : Prop :=
  calm (sm_map s) (sm_map s') ∧ s' = at_map s (sm_map s').

Lemma smgr_calm_refl s : map_inv (sm_map s) → smgr_calm s s.
Proof. intros Hi. split; [by apply calm_refl|]. by destruct s. Qed.

Lemma smgr_calm_trans s1 s2 s3 : smgr_calm s1 s2 → smgr_calm s2 s3 → smgr_calm s1 s3.
Proof. intros [C1 E1] [C2 E2]. split; [by eapply calm_trans|]. by rewrite E2, E1. Qed.

Lemma smgr_calm_map s ms : calm (sm_map s) ms → smgr_calm s (at_map s ms).
Proof. by split. Qed.

(** A permanent relation whose handle requires the map. *)
Record mapped_reln s (reln : SMgrRelation) (f : ForkNumber) : Prop := {
  mr_perm : SmgrIsTemp reln = false;
  mr_policy : sm_handles s !! reln = Some UMBRA_MAP_POLICY_REQUIRE_MAP;
  mr_fork : fork_mapped f;
}.

Definition mapped_access : UmbraAccessState := MkAccess UMBRA_MAP_POLICY_REQUIRE_MAP true.

Lemma wp_classify s reln f Q (E : pg_error → S → Prop) :
  mapped_reln s reln f → Q mapped_access s → wp (um_classify_access reln f) Q E s.
Proof.
  intros [_ Hp Hf] HQ. apply wp_bind. unfold um_map_policy_for_access.
  assert (UmbraForkUsesMapTranslation f = true) as -> by (by destruct Hf as [->|[->| ->]]).
  cbn [negb]. apply wp_gets. rewrite Hp. by apply wp_ret.
Qed.

Lemma mapped_calm s s' reln f : smgr_calm s s' → mapped_reln s reln f → mapped_reln s' reln f.
Proof. intros [_ E] [? Hp ?]. split; [done| |done]. by rewrite E. Qed.

Lemma wp_nblocks s reln f n Q (E : pg_error → S → Prop) :
  trusted_size (w_store (ms_world (sm_map s))) (locator reln) f = Some n → Q n s →
  wp (umnblocks_for_access env reln f mapped_access) Q E s.
Proof.
  intros Hn HQ. unfold umnblocks_for_access. cbn [map_available mapped_access negb].
  apply wp_bind, wp_on_map. unfold wp at 1, on_world. rewrite (trusted_size_run _ _ _ _ _ Hn).
  apply wp_ret. by destruct s as [[] ].
Qed.

(** The entry of a logical block, as a lookup returns it. *)
Definition lookup_at (ms : MapState T F) (r : RelFileLocator) (f : ForkNumber) (l : Z) : option Z :=
  if decide (entry_at ms r f l = InvalidBlockNumber) then None else Some (entry_at ms r f l).

Section access.
Context (s : S) (reln : SMgrRelation) (f : ForkNumber) (n : Z).
Local Abbreviation r := (locator reln).
Local Abbreviation ms := (sm_map s).
Context (Hinv : map_inv ms) (Hf : fork_mapped f) (Hmax : n ≤ max_mapped_lblk f + 1).
Context (Hn : trusted_size (w_store (ms_world ms)) r f = Some n) (Hcov : covered ms r f 0 n).

Lemma wp_lookup_smgr l Q :
  0 ≤ l < n → (∀ s', smgr_calm s s' → Q (lookup_at ms r f l) s') →
  wp (on_map (MapTryLookup env r f l)) Q (λ e _, range_error (F := F) e) s.
Proof using Hinv Hf Hmax Hn Hcov.
  intros Hl HQ. pose proof (max_mapped_u32 f).
  assert (is_u32 l ∧ l ≤ max_mapped_lblk f) as [Hu Hm] by (unfold is_u32; lia).
  destruct (Hcov l Hl) as [pg Hpg]. apply wp_on_map. eapply wp_mono; [eapply (wp_lookup env ms r f l) with
    (Q := λ o ms', o = lookup_at ms r f l ∧ calm ms ms'); [done|done|done|by apply entry_location_at|done|done|]| |].
  - intros o ms' (-> & Hi & Hs & Hb). split; [|done]. unfold mapped_block, lookup_at, entry_at.
    by rewrite Hpg.
  - intros o ms' [-> Hc]. by apply HQ, smgr_calm_map.
  - intros e ms' He. exists (ms_sys ms). by left.
Qed.

Context (Hrec : InRecovery env = false) (Hperm : mapped_reln s reln f).

(** A run of mapped blocks, or one unmapped block. *)
Definition read_run_post (l maxblocks : Z) (res : Z * Z * option Z) s' : Prop :=
  smgr_calm s s' ∧
  let '(run, pblk, lookup_state) := res in
  (lookup_state = None ∨ lookup_state = Some n) ∧ 0 ≤ run ≤ maxblocks ∧
  (run = 0 → entry_at ms r f l = InvalidBlockNumber) ∧
  ∀ i, 0 ≤ i < run → entry_at ms r f (l + i) = pblk + i ∧ pblk + i ≠ InvalidBlockNumber.

Lemma wp_read_run l maxblocks ls :
  0 ≤ l → 0 < maxblocks → l + maxblocks ≤ n → n ≠ InvalidBlockNumber → ls = None ∨ ls = Some n →
  wp (um_resolve_mapped_read_run env reln f mapped_access ls l maxblocks)
    (read_run_post l maxblocks) (λ e _, range_error (F := F) e) s.
Proof using Hinv Hf Hmax Hn Hcov Hrec.
  intros Hl Hpos Hend Hni Hls. apply wp_bind, wp_on_map.
  eapply wp_mono; [apply (wp_pblk_run env ms r f l maxblocks n); [done|done|done|done|lia|done|]| |done].
  { intros x Hx. apply Hcov. lia. }
  intros run ms' (Hc & (Hk0 & Hent & Hrun) & Hle & Hstop). pose proof (smgr_calm_map s ms' Hc) as Hsc.
  case_decide as Hgt.
  { apply wp_ret. split; [done|]. split_and!; [done|lia|lia|lia|]. intros i Hi.
    split; [by apply Hent|]. destruct Hrun as (_ & Hb & _); [lia|]. lia. }
  assert (run_blocks run = 0) as Hz by lia.
  assert (entry_at ms r f l = InvalidBlockNumber) as Hin.
  { destruct Hstop as [Hs|[Hs _]]; [lia| |lia]. by rewrite Hz, Z.add_0_r in Hs. }
  apply wp_bind. unfold um_resolve_lblk_for_access. cbn [map_available mapped_access negb].
  assert (∀ s2, smgr_calm (at_map s ms') s2 →
    wp (um_resolve_lblk_for_read env reln f mapped_access ls l)
      (λ res s3, s3 = s2 ∧ res.1 = UMBRA_ACCESS_RESOLVED_ZERO ∧ res.2 = Some n)
      (λ e _, range_error (F := F) e) s2) as Hres.
  { intros s2 Hc2. apply wp_bind.
    assert (wp (looked_up_nblocks env reln f mapped_access ls) (λ v s3, s3 = s2 ∧ v = n)
      (λ e _, range_error (F := F) e) s2) as Hlu.
    { destruct Hls as [->| ->]; [|by apply wp_ret]. apply (wp_nblocks s2 reln f n); [|done].
      rewrite (calm_size _ _ _ _ (proj1 Hc2)). by rewrite (calm_size _ _ _ _ Hc). }
    eapply wp_mono; [exact Hlu| |done]. intros v s3 [-> ->]. rewrite Hrec. cbn [andb].
    rewrite decide_True by (split; [done|lia]). by apply wp_ret. }
  apply wp_bind, wp_on_map. destruct (Hcov l ltac:(lia)) as [pg Hpg]. pose proof (max_mapped_u32 f).
  eapply wp_mono; [eapply (wp_lookup env ms' r f l) with (Q := λ o ms2, o = None ∧ calm ms' ms2);
    [by apply (calm_inv ms)|done|unfold is_u32; lia|apply entry_location_at; [done|unfold is_u32; lia|lia]
    |by rewrite (calm_size _ _ _ _ Hc)|by rewrite (proj2 (proj1 (proj2 Hc)))|]| |].
  - intros o ms2 (-> & Hi & Hs & Hb). split; [|done]. unfold mapped_block.
    unfold entry_at in Hin. rewrite Hpg in Hin. by rewrite decide_True.
  - intros o ms2 [-> Hc2]. pose proof (smgr_calm_map (at_map s ms') ms2 Hc2) as Hsc2.
    eapply wp_mono; [by apply Hres| |done]. intros [res ls'] s3 (-> & Hz1 & Hz2). cbn in Hz1, Hz2. subst.
    cbn [fst snd]. apply wp_ret. split; [by eapply smgr_calm_trans|]. split_and!; [by right|lia|lia|done|lia].
  - intros e ms2 He. exists (ms_sys ms'). by left.
Qed.
End access.

Lemma wp_file_val {A} s reln (m : F → result (F * A)) Q (E : pg_error → S → Prop) :
  SmgrIsTemp reln = false →
  (∀ e, m (files (sm_map s)) = Err e → E e s) →
  (∀ fs a, m (files (sm_map s)) = Ok (fs, a) → Q a (at_map s (with_files fs (sm_map s)))) →
  wp (file_do_val reln m) Q E s.
Proof.
  intros Ht HE HQ. unfold wp, file_do_val, reln_files, set_reln_files. rewrite Ht. fold (files (sm_map s)).
  destruct (m (files (sm_map s))) as [[fs a]|e]; [by apply HQ|by apply HE].
Qed.

(** An error of the map layer or of the read itself. *)
Definition smgr_read_error (r : RelFileLocator) (f : ForkNumber) (e : pg_error) : Prop :=
  range_error (F := F) e ∨ ∃ (fs : F) b k, fl_readv false fs r f b k = Err e.

Section read.
Context (s : S) (reln : SMgrRelation) (f : ForkNumber) (n : Z) (frame : Z) (fuel : nat).
Local Abbreviation r := (locator reln).
Local Abbreviation ms := (sm_map s).
Context (Hinv : map_inv ms) (Hmax : n ≤ max_mapped_lblk f + 1).
Context (Hn : trusted_size (w_store (ms_world ms)) r f = Some n) (Hcov : covered ms r f 0 n).
Context (Hrec : InRecovery env = false) (Hreln : mapped_reln s reln f).

(** The blocks read are those of the logical store. *)
Definition read_blocks_post (l k : Z) (ds : list (list Z)) s' : Prop :=
  smgr_calm s s' ∧ Z.of_nat (length ds) = k ∧
  ∀ i d, ds !! i = Some d → logical_block ms r f (l + Z.of_nat i) = Some d.

Lemma run_logical l run pblk fs fs' s2 ds i d :
  smgr_calm s s2 → fs = files (sm_map s2) →
  (∀ i, 0 ≤ i < run → entry_at ms r f (l + i) = pblk + i ∧ pblk + i ≠ InvalidBlockNumber) →
  fl_readv false fs r f pblk (Z.to_nat run) = Ok (fs', ds) → ds !! i = Some d →
  logical_block ms r f (l + Z.of_nat i) = Some d.
Proof using All.
  intros [Hc _] -> Hent Hr Hd. destruct (fl_readv_data _ _ _ _ _ _ _ _ Hr) as [Hlen Hdata].
  pose proof (lookup_lt_Some _ _ _ Hd). destruct (Hent (Z.of_nat i)) as [He Hni]; [lia|].
  unfold logical_block, block_at. rewrite He, decide_False by done.
  destruct (Hdata i d Hd) as [Hx|[Hx _]]; [|done].
  rewrite <-Hx. symmetry. apply calm_data; [done|]. by destruct (mr_fork _ _ _ Hreln) as [->|[->| ->]].
Qed.

Lemma wp_read_runs turns s1 ls l k :
  smgr_calm s s1 → 0 ≤ l → 0 ≤ k → l + k ≤ n → n ≠ InvalidBlockNumber → (Z.to_nat k ≤ turns)%nat →
  ls = None ∨ ls = Some n →
  wp (read_runs env frame fuel turns reln f mapped_access false ls l k) (read_blocks_post l k)
    (λ e _, smgr_read_error r f e) s1.
Proof using All.
  intros Hc1 Hl Hk Hend Hni. revert s1 ls l k Hc1 Hl Hk Hend. pose proof (mr_fork _ _ _ Hreln) as Hf.
  pose proof (max_mapped_u32 f) as Hu.
  induction turns as [|turns IH]; intros s1 ls l k Hc1 Hl Hk Hend Ht Hls; cbn [read_runs].
  { apply wp_ret. split_and!; [done|cbn; lia|]. intros i d. by rewrite lookup_nil. }
  case_decide as Hz.
  { apply wp_ret. split_and!; [done|cbn; lia|]. intros i d. by rewrite lookup_nil. }
  pose proof (proj1 Hc1) as Hc. apply wp_bind. eapply wp_mono.
  { apply (wp_read_run s1 reln f n); [by apply (calm_inv ms)|done|done|by rewrite (calm_size _ _ _ _ Hc)
      |by eapply calm_covered|done|done|lia|done|done|done]. }
  2: { intros e s2 He. by left. }
  intros [[run pblk] ls'] s2 (Hc2 & Hls' & Hrun & Hzero & Hent).
  assert (smgr_calm s s2) as Hcs2 by (by eapply smgr_calm_trans).
  assert (∀ x, entry_at (sm_map s1) r f x = entry_at ms r f x) as He1 by (intros; by apply calm_entry).
  case_decide as Hr0.
  - subst run. rewrite u32_small by (unfold is_u32; lia). apply wp_bind.
    eapply wp_mono; [apply (IH s2); [done|lia|lia|lia|lia|done]| |done].
    intros rest s3 (Hc3 & Hlen & Hrest). apply wp_ret. split_and!; [done|cbn; lia|].
    intros [|i] d Hi.
    + injection Hi as <-. rewrite Z.add_0_r. unfold logical_block, block_at.
      rewrite <-He1. by rewrite decide_True by auto.
    + replace (l + Z.of_nat (Datatypes.S i)) with (l + 1 + Z.of_nat i) by lia. by apply Hrest.
  - apply wp_bind. unfold when. apply wp_ret. apply wp_bind. rewrite Hrec.
    apply wp_file_val; [apply Hreln|intros e He; right; by eauto|]. intros fs ds Hrd.
    assert (smgr_calm s2 (at_map s2 (with_files fs (sm_map s2)))) as Hc2'.
    { apply smgr_calm_map, calm_files; [by apply (calm_inv ms), Hcs2|intros; by eapply fl_readv_content|].
      intros. by eapply fl_readv_exists. }
    apply wp_bind. rewrite u32_small by (unfold is_u32; lia).
    eapply wp_mono; [apply (IH (at_map s2 (with_files fs (sm_map s2)))); [by eapply smgr_calm_trans|lia..|done]| |done].
    intros rest s3 (Hc3 & Hlen & Hrest). apply wp_ret.
    destruct (fl_readv_data _ _ _ _ _ _ _ _ Hrd) as [Hdl _].
    split_and!; [done|rewrite length_app; lia|]. intros i d [Hi|[Hge Hi]]%lookup_app_Some.
    + eapply (run_logical l run pblk _ fs s2 ds); [done|done| |done|done]. intros x Hx. rewrite <-He1. by apply Hent.
    + apply Hrest in Hi. rewrite Hdl in Hi. replace (l + Z.of_nat i) with (l + run + Z.of_nat (i - Z.to_nat run)) by lia.
      done.
Qed.
End read.
End smgr.

(** ** Properties *)


(** ** A concrete system *)

Definition demo_reln : SMgrRelation := MkReln demo_rel INVALID_PROC_NUMBER.
Definition demo_data : list Z := replicate (Z.to_nat BLCKSZ) 5.

(** The published block of [MapEntries] with data in its physical block. *)
Definition demo_files : RefFiles :=
  rf_set (files demo_published) demo_rel MAIN_FORKNUM 7 demo_data.
Definition demo_smgr : SmgrState MapSuperTable RefFiles :=
  MkSmgr (with_files demo_files demo_published) (MkRefFiles ∅)
    {[ demo_reln := UMBRA_MAP_POLICY_REQUIRE_MAP ]} ∅.

Lemma demo_fork_there : is_Some (rf_forks (files demo_published) !! (demo_rel, MAIN_FORKNUM)).
Proof. apply (bool_decide_unpack _). vm_compute. exact I. Qed.

Lemma demo_data_ok : rf_block_ok demo_data = true.
Proof. vm_compute. exact eq_refl. Qed.

Lemma demo_same_meta : same_meta (files demo_published) demo_files.
Proof.
  split; intros r.
  - intros b. change (rf_content demo_files r UMBRA_METADATA_FORKNUM b =
      rf_content (files demo_published) r UMBRA_METADATA_FORKNUM b).
    unfold demo_files. rewrite rf_content_set by (exact demo_fork_there || exact demo_data_ok).
    rewrite decide_False by congruence. exact eq_refl.
  - apply bool_decide_ext. apply rf_set_exists.
Qed.

Lemma demo_smgr_inv : map_inv (sm_map demo_smgr).
Proof. unfold demo_smgr. cbn [sm_map]. apply map_inv_files; [exact (proj1 demo_published_ok)|exact demo_same_meta]. Qed.

Lemma demo_smgr_size : trusted_size (w_store (ms_world (sm_map demo_smgr))) demo_rel MAIN_FORKNUM = Some 1.
Proof.
  unfold demo_smgr. cbn [sm_map]. rewrite store_with_files. exact (proj1 (proj2 demo_published_ok)).
Qed.

Lemma demo_smgr_covered : covered (sm_map demo_smgr) demo_rel MAIN_FORKNUM 0 1.
Proof.
  intros l Hl. unfold demo_smgr. cbn [sm_map]. rewrite map_page_files by exact demo_same_meta.
  by apply demo_covered.
Qed.

Lemma demo_smgr_reln : mapped_reln demo_smgr demo_reln MAIN_FORKNUM.
Proof. split; [exact eq_refl|apply lookup_singleton_eq|by left]. Qed.

