(* ===== verification/SmgrWriteSpec.v ===== *)
(** * The storage manager as a store of logical blocks: writing

    A vectored write stores its buffers in the logical blocks it names and in
    no others.  Each block is written while its map entry is claimed by a
    barrier, blocks that lie side by side are written by one call, and every
    barrier is given back, also when a write fails. *)

From S2P Require Import Prelude MapLayout Superblock SuperTable FileLayer SmgrFiles SBlock SBlockInv.
From S2P Require Import SBlockSafety SBlockSpec.
From S2P Require Import BufState MapBuf MapClock PoolInv MapPage MapPageSpec MapEntries.
From S2P Require Import MapCheckpoint MapCheckpointSpec MapRange MapRangeSpec.
From S2P Require Import MapInflight MapInflightSpec MapReserve SmgrAccess SmgrSpec.

Local Open Scope Z_scope.

Section map_layer.
Context {T F : Type} `{SuperStoreLaws T} `{FileLayerLaws F} (env : Env).
Local Abbreviation MS := (MapState T F).
Implicit Types s : MS.

(** The backend holds the barriers [bars], and some other backends run. *)
Definition running (bars : list (nat * Z)) s : Prop := ∃ ks, shared ks bars s.

Lemma running_map bars s : running bars s → map_inv s.
Proof. intros [ks Hs]. by eapply shared_map. Qed.

Lemma running_calm bars s s' : running bars s → calm s s' → running bars s'.
Proof. intros [ks Hs] (Hi & _ & Hb). exists ks. by eapply shared_same. Qed.

Lemma running_files bars s fs :
  running bars s → same_meta (files s) fs → running bars (with_files fs s).
Proof.
  intros [ks [Hid [Hm Hpi Hnd Hmk Hr Ho Hh]]] Hfs. exists ks. split; [done|]. split; try done.
  intros k Hk. by apply (map_inv_files (view (ms_world s) (pool (ms_sys s)) k) fs); [apply Hm|].
Qed.

Lemma running_world bars s w :
  running bars s → w_files w = files s →
  (∀ r f, trusted_size (w_store w) r f = trusted_size (w_store (ms_world s)) r f) →
  running bars (MkMapState w (ms_sys s) (ms_local s)).
Proof. intros [ks Hs] ? ?. exists ks. by apply shared_world. Qed.

(** The superblock of [r] is cached and trusted. *)
Definition world_ready (r : RelFileLocator) (w : World T F) : Prop :=
  ss_wf (w_store w) ∧ ∃ e, ss_map (w_store w) !! r = Some e ∧ entry_untrusted e = false.
Definition super_ready (r : RelFileLocator) s : Prop := world_ready r (ms_world s).

(** What the other backends do while this one sleeps: they may claim and
    release entries and flush pages, but they do not remap, resize or write. *)
Definition steady (r : RelFileLocator) s s' : Prop :=
  same_pages s s' ∧ same_data (files s) (files s') ∧ (super_ready r s → super_ready r s').

Lemma same_map_steady r s s' : same_map s s' → steady r s s'.
Proof.
  intros Hm. split_and!; [by apply same_map_pages|apply Hm|]. unfold super_ready, world_ready.
  destruct Hm as [(E & _) _]. by rewrite E.
Qed.

(** ** The physical size *)

Lemma physical_run (w : World T F) r f n :
  trusted_size (w_store w) r f = Some n →
  ∃ o, MapSBlockTryGetPhysicalNblocks env r f w = (Ok o, w).
Proof.
  unfold trusted_size, MapSBlockTryGetPhysicalNblocks, read_super_field.
  destruct (ss_find (w_store w) r) as [e|] eqn:Hf; [|done].
  destruct (has_flag (eflags e) MAPSUPER_FLAG_VALID) eqn:Hv; [|done].
  destruct (MapForkHasMappedState f) eqn:Hms; [|done].
  destruct (has_flag (eflags e) MAPSUPER_FLAG_CORRUPT) eqn:Hc; [done|].
  destruct (MapSuperblockHasValidIdentity (super e)) eqn:Hi; [|done]. intros _. cbn.
  assert (fork_mapped f) as Hfm by (destruct f; try done; unfold fork_mapped; auto).
  destruct (mapped_getters f (super e) Hfm) as [_ (v & Hl & _)].
  unfold MapSBlockRead, find_entry, mbind, M_bind, gets. rewrite Hf, Hv. cbn.
  unfold entry_status. rewrite Hc, Hi. cbn. unfold lift. rewrite Hl. eauto.
Qed.

(** A superblock with the same identity and the same logical sizes. *)
Definition same_logical (b b' : MapSuperblock) : Prop :=
  MapSuperblockHasValidIdentity b' = MapSuperblockHasValidIdentity b ∧
  ∀ g, MapSuperblockGetLogicalNblocks b' g = MapSuperblockGetLogicalNblocks b g.

Lemma same_logical_lsn b b' lsn : same_logical b b' → same_logical b (MapSuperblockSetLastUpdatedLSN b' lsn).
Proof. intros [Hi Hl]. by destruct b'. Qed.

Lemma set_capacity_super (b : MapSuperblock) f v :
  fork_mapped f → ∃ b', MapSuperblockSetPhysCapacity b f v = Ok b' ∧ same_logical b b'.
Proof.
  intros Hf. destruct b; destruct Hf as [->|[->| ->]]; cbn; eexists; (split; [done|]);
    (split; [done|]); by intros [].
Qed.

Lemma set_next_super (b b' : MapSuperblock) f v :
  fork_mapped f → MapSuperblockSetNextFreePhysBlock b f v = Ok b' → same_logical b b'.
Proof.
  intros Hf. destruct b; destruct Hf as [->|[->| ->]]; cbn; intros [= <-]; (split; [done|]); by intros [].
Qed.

(** Reservations only grow, up to [v], and the boundary is moved by recovery
    alone. *)
Definition frontier_kept (v : Z) (e e' : MapSuperEntry) : Prop :=
  ∀ g, fork_mapped g → fork_reserved e g ≤ fork_reserved e' g ≤ Z.max v (fork_reserved e g) ∧
    (InRecovery env = false → fork_boundary e' g = fork_boundary e g).

(** The entry a bump of the frontier stores, before the capacity. *)
Lemma bump_next_kept e f v (do_next : bool) :
  fork_mapped f → (do_next = true → 0 ≤ v ≤ MaxBlockNumber) →
  ∃ e1, (if do_next then bump_next_free_entry env e f v else Ok e) = Ok e1 ∧
    same_logical (super e) (super e1) ∧ key e1 = key e ∧ in_use e1 = in_use e ∧
    eflags e1 = eflags e ∧ frontier_kept v e e1.
Proof.
  intros Hf Hv. destruct do_next.
  2: { exists e. split_and!; try done. intros g _. split; [lia|done]. }
  destruct (bump_next_total env e f v Hf) as [e1 He1]. exists e1.
  destruct (bump_next_spec env e f v e1 Hf (Hv eq_refl) He1) as (Hs & Ek & Eu & _ & Ef & _ & _ & Hr).
  split_and!; [done|by eapply set_next_super|done|done|done|]. intros g Hg.
  destruct (Hr g Hg) as [-> ->]. split; [destruct (decide (g = f)); lia|]. intros Hrec.
  by rewrite decide_False by (intros [_ ?]; congruence).
Qed.

(** Raising the frontier and the physical size touches no logical size. *)
Lemma bump_physical_trusted (w : World T F) r f n v bn bc lsn e :
  ss_wf (w_store w) → ss_map (w_store w) !! r = Some e → entry_untrusted e = false →
  fork_mapped f → trusted_size (w_store w) r f = Some n → (bn = true → 0 ≤ v ≤ MaxBlockNumber) →
  ∃ w' e', MapSBlockBumpPhysicalState env r f v bn bc lsn w = (Ok tt, w') ∧
    w_files w' = w_files w ∧ ss_wf (w_store w') ∧ ss_map (w_store w') !! r = Some e' ∧
    entry_untrusted e' = false ∧ frontier_kept v e e' ∧
    ∀ r' g, trusted_size (w_store w') r' g = trusted_size (w_store w) r' g.
Proof.
  intros Hwf He Hu Hf Hn Hv.
  assert (MapForkHasMappedState f = true) as Hms by (by destruct Hf as [->|[->| ->]]).
  unfold MapSBlockBumpPhysicalState. rewrite Hms. cbn [negb].
  unfold mbind at 1, M_bind at 1. rewrite (prepare_trusted env _ _ _ _ e) by done.
  destruct (mapped_getters f (super e) Hf) as [(nx & Hnx & _) (cp & Hcp & _)].
  rewrite Hnx, Hcp. unfold lift, mbind, M_bind. cbv zeta.
  set (do_next := bn && _). set (do_cap := bc && _).
  destruct (bump_next_kept e f v do_next Hf) as (e1 & -> & Hl1 & Ek & Eu & Ef & Hk).
  { intros [Hb _]%andb_true_iff. auto. }
  assert (∃ b, (if do_cap then MapSuperblockSetPhysCapacity (super e1) f v else Ok (super e1)) = Ok b ∧
    same_logical (super e) b) as (b & -> & Hl).
  { destruct do_cap; [|by exists (super e1)]. destruct (set_capacity_super (super e1) f v Hf) as (b & Hb & Hl).
    exists b. split; [done|]. destruct Hl1 as [I1 L1], Hl as [I2 L2].
    split; [congruence|]. intros. by rewrite L2, L1. }
  destruct (do_next || do_cap) eqn:Hch.
  2: { exists w, e. split_and!; try done. intros g _. split; [lia|done]. }
  change (with_super b e1) with (with_super b (with_super (super e) e1)).
  destruct (same_logical_lsn _ _ (update_lsn env lsn) Hl) as [Hid Hlog].
  destruct (put_super_trusted w r f n b (update_lsn env lsn) e (with_super (super e) e1))
    as (w' & -> & Hfs & (Hwf' & _ & e' & He' & Hu') & Ho & Hsame & _ & Hat); [done..|].
  exists w', e'. split_and!; [done..| |].
  - rewrite He' in Hat. by injection Hat as ->.
  - intros r' g. destruct (decide (r' = r)) as [->|Hne]; [by apply Hsame|by apply Ho].
Qed.
End map_layer.

Section smgr.
Context {T F : Type} `{SuperStoreLaws T} `{FileLayerLaws F} `{!DataFiles F} `{!DataFilesLaws F} (env : Env).
Local Abbreviation S := (SmgrState T F).
Local Abbreviation MS := (MapState T F).
Local Abbreviation L := (SmgrState T F * WriteLocals)%type.

Lemma wp_in_smgr {A} (m : M S A) Q (E : pg_error → L → Prop) sv :
  wp m (λ a s, Q a (s, sv.2)) (λ e s, E e (s, sv.2)) sv.1 → wp (in_smgr m) Q E sv.
Proof. unfold wp, in_smgr. by destruct (m sv.1) as [[]]. Qed.

Lemma wp_set_locals g Q (E : pg_error → L → Prop) sv :
  Q tt (sv.1, g sv.2) → wp (set_locals g) Q E sv.
Proof. done. Qed.

Lemma wp_file_do s reln (m : F → result F) Q (E : pg_error → S → Prop) :
  SmgrIsTemp reln = false →
  (∀ e, m (files (sm_map s)) = Err e → E e s) →
  (∀ fs, m (files (sm_map s)) = Ok fs → Q tt (at_map s (with_files fs (sm_map s)))) →
  wp (file_do reln m) Q E s.
Proof.
  intros Ht HE HQ. unfold wp, file_do, reln_files, set_reln_files. rewrite Ht. fold (files (sm_map s)).
  destruct (m (files (sm_map s))) as [fs|e]; [by apply HQ|by apply HE].
Qed.

Lemma at_map_eta (s : S) : at_map s (sm_map s) = s.
Proof. by destruct s. Qed.
Lemma map_state_eta (ms : MS) : MkMapState (ms_world ms) (ms_sys ms) (ms_local ms) = ms.
Proof. by destruct ms. Qed.

Definition mk_bar (x : nat * Z) : MapInflightBarrier := MkBarrier true (Z.of_nat x.1) x.2.

(** An error of the map layer, or one of giving a barrier back after it. *)
Definition write_trouble (e : pg_error) : Prop :=
  range_error (F := F) e ∨ e = claim_owned ∨
  ∃ br (s : MS), (MapInflightReleaseBarrier br s).1 = Err e.

Section write.
Context (s0 : S) (reln : SMgrRelation) (f : ForkNumber) (n l : Z) (data : list (list Z)).
Context (bars : list (nat * Z)) (sleep : MS → MS).
Local Abbreviation r := (locator reln).
Local Abbreviation ms0 := (sm_map s0).
Context (Hreln : mapped_reln s0 reln f) (Hmap : map_inv ms0).
Context (Hn : trusted_size (w_store (ms_world ms0)) r f = Some n) (Hmax : n ≤ max_mapped_lblk f + 1).
Context (Hcov : covered ms0 r f 0 n) (Hl : 0 ≤ l) (Hend : l + Z.of_nat (length data) ≤ n).
Context (Hdata : Forall full_block data).
Context (Hsleep : ∀ bs ms, running bs ms → running bs (sleep ms) ∧ steady r ms (sleep ms)).

(** The physical block of the [j]th buffer. *)
Definition target (j : nat) : Z := entry_at ms0 r f (l + Z.of_nat j).

Context (Hmapped : ∀ j, (j < length data)%nat → target j ≠ InvalidBlockNumber).
Context (Hinj : ∀ i j, (i < length data)%nat → (j < length data)%nat → target i = target j → i = j).

(** The first [i] buffers are in place; [brs] are the barriers of this write,
    the newest first. *)
Record writing (i : nat) (brs : list (nat * Z)) (ms : MS) : Prop := {
  wr_running : running (brs ++ bars) ms;
  wr_pages : same_pages ms0 ms;
  wr_super : super_ready r ms;
  wr_frame : ∀ r' k b, k ≠ UMBRA_METADATA_FORKNUM → (r', k) ≠ (r, f) →
    fl_content (files ms) r' k b = fl_content (files ms0) r' k b;
  wr_kept : ∀ b, (∀ j, (j < length data)%nat → target j ≠ b) →
    block_kept (fl_content (files ms0) r f b) (fl_content (files ms) r f b);
  wr_done : ∀ j d, (j < i)%nat → data !! j = Some d → fl_content (files ms) r f (target j) = Some d;
}.

Lemma fork_not_meta : f ≠ UMBRA_METADATA_FORKNUM.
Proof using All. by destruct (mr_fork _ _ _ Hreln) as [->|[->| ->]]. Qed.

Lemma writing_steady i brs brs' ms ms' :
  writing i brs ms → running (brs' ++ bars) ms' → steady r ms ms' → writing i brs' ms'.
Proof using All.
  intros [_ Hp Hsu Hfr Hk Hd] Hr (Hp' & Hd' & Hs'). pose proof fork_not_meta. split.
  - done.
  - by eapply same_pages_trans.
  - by apply Hs'.
  - intros. rewrite Hd' by done. by apply Hfr.
  - intros b Hb. rewrite Hd' by done. by apply Hk.
  - intros j d Hj Hx. rewrite Hd' by done. by apply Hd.
Qed.

Lemma writing_map i brs brs' ms ms' :
  writing i brs ms → running (brs' ++ bars) ms' → same_map ms ms' → writing i brs' ms'.
Proof using All. intros. by eapply writing_steady, same_map_steady. Qed.

(** A run of blocks has been written. *)
Lemma writing_run i k p brs ms fs :
  writing i brs ms → (i + k ≤ length data)%nat →
  (∀ t, (t < k)%nat → target (i + t) = p + Z.of_nat t) →
  run_frame (files ms) fs r f p (Z.of_nat k) →
  (∀ t d, (t < k)%nat → data !! (i + t)%nat = Some d → fl_content fs r f (p + Z.of_nat t) = Some d) →
  writing (i + k) brs (with_files fs ms).
Proof using All.
  intros [Hr Hp Hsu Hfr Hk Hd] Hle Htg (Fo & Fb & Fe) Hnew. pose proof fork_not_meta as Hnm.
  assert (same_meta (files ms) fs) as Hm by (split; [intros; apply Fo; congruence|done]).
  assert (∀ j, (j < length data)%nat → (j < i ∨ i + k ≤ j)%nat → ¬ (p ≤ target j < p + Z.of_nat k)) as Hout.
  { intros j Hj Hji Hin. pose proof (Htg (Z.to_nat (target j - p)) ltac:(lia)) as Ht.
    rewrite Z2Nat.id in Ht by lia.
    pose proof (Hinj (i + Z.to_nat (target j - p)) j ltac:(lia) Hj ltac:(lia)). lia. }
  split.
  - by apply running_files.
  - eapply same_pages_trans; [done|]. split; [done|]. intros. by apply map_page_files.
  - done.
  - intros r' g b Hg Hne. change (files (with_files fs ms)) with fs. rewrite Fo by done. by apply Hfr.
  - intros b Hb. change (files (with_files fs ms)) with fs. eapply block_kept_trans; [by apply Hk|].
    apply Fb. intros Hin. apply (Hb (i + Z.to_nat (b - p))%nat); [lia|].
    rewrite Htg by lia. lia.
  - intros j d Hj Hx. change (files (with_files fs ms)) with fs.
    destruct (decide (j < i)%nat) as [Hlt|Hge].
    + pose proof (Hd j d Hlt Hx) as Hold. destruct (Fb (target j)) as [Hsame|[Hnone _]]; [|congruence|congruence].
      apply Hout; lia.
    + replace j with (i + (j - i))%nat by lia. rewrite Htg by lia. apply Hnew; [lia|].
      by replace (i + (j - i))%nat with j by lia.
Qed.

(** ** Barriers *)

Lemma target_block j : (j < length data)%nat → u32 (l + Z.of_nat j) = l + Z.of_nat j ∧
  0 ≤ l + Z.of_nat j < n ∧ is_u32 (l + Z.of_nat j) ∧ l + Z.of_nat j ≤ max_mapped_lblk f.
Proof using All.
  intros Hj. pose proof (max_mapped_u32 f). split; [apply u32_small; unfold is_u32; lia|].
  unfold is_u32. lia.
Qed.

Lemma writing_ready i brs ms j :
  writing i brs ms → (j < length data)%nat →
  ∃ blk idx pg, ready ms r f (l + Z.of_nat j) blk idx n pg ∧ target j = entry_of pg idx.
Proof using All.
  intros Hw Hj. destruct (target_block j Hj) as (_ & Hr & Hu & Hm). destruct (Hcov _ Hr) as [pg Hpg].
  pose proof (mr_fork _ _ _ Hreln) as Hf. destruct (wr_pages _ _ _ Hw) as [Es Ep].
  eexists _, _, pg. split; [split; [done|done|by apply entry_location_at|by rewrite Es|by rewrite Ep]|].
  unfold target, entry_at. by rewrite Hpg.
Qed.

Lemma target_u32 j : (j < length data)%nat → is_u32 (target j).
Proof using All.
  intros Hj. destruct (target_block j Hj) as (_ & Hr & Hu & Hm). destruct (Hcov _ Hr) as [pg Hpg].
  destruct (page_pos_at f (l + Z.of_nat j) (mr_fork _ _ _ Hreln) Hu Hm) as [Hpos _].
  destruct (map_page_ok _ _ _ _ _ Hmap (proj1 Hpos) Hpg) as [_ Hall].
  unfold target, entry_at, entry_of. rewrite Hpg. destruct (pg !! _) as [x|] eqn:Hx; [|done].
  by eapply Forall_lookup_1 in Hall.
Qed.

Lemma wp_claim_barrier i brs retries s j Q (E : pg_error → S → Prop) :
  writing i brs (sm_map s) → (j < length data)%nat →
  (∀ x ms, writing i (x :: brs) ms → Q (mk_bar x) (at_map s ms)) →
  (∀ e s', write_trouble e → E e s') →
  (∀ e ms, writing i brs ms → E e (at_map s ms)) →
  wp (um_claim_write_barrier env sleep retries reln f (l + Z.of_nat j)) Q E s.
Proof using All.
  intros Hw Hj HQ Htr HE. revert s Hw HQ HE.
  induction retries as [|retries IH]; intros s Hw HQ HE; cbn [um_claim_write_barrier].
  { apply wp_throw. replace s with (at_map s (sm_map s)) by (by destruct s). by apply HE. }
  destruct (writing_ready _ _ _ j Hw Hj) as (blk & idx & pg & Hrd & _).
  destruct (wr_running _ _ _ Hw) as [ks Hsh].
  apply wp_bind, wp_on_map. eapply wp_mono; [eapply (wp_try_barrier env ks (brs ++ bars) (sm_map s)) with
    (Q := λ o ms, match o with
                  | None => writing i brs ms
                  | Some br => ∃ x, br = mk_bar x ∧ writing i (x :: brs) ms
                  end); [done|done|..]| |].
  - intros ms Hms Hm _ _. eapply writing_map; [done|by exists ks|done].
  - intros ms k Hms Hm _. exists (k, idx). split; [done|]. eapply writing_map; [done|by exists ks|done].
  - intros [br|] ms; [|intros Hms].
    { intros (x & -> & Hms). by apply wp_ret, HQ. }
    apply wp_bind, wp_on_map, wp_modify. destruct (Hsleep _ _ (wr_running _ _ _ Hms)) as [Hr Hst].
    apply IH; [by eapply writing_steady|done|done].
  - intros e ms [[-> _]|He]; apply Htr; [right; by left|left]. exists (ms_sys (sm_map s)). by left.
Qed.

(** Releasing the oldest barriers first. *)
Lemma wp_release_barriers i xs brs s Q (E : pg_error → S → Prop) :
  writing i (brs ++ rev xs) (sm_map s) →
  (∀ ms, writing i brs ms → Q tt (at_map s ms)) →
  wp (um_release_write_barriers (mk_bar <$> xs)) Q E s.
Proof using All.
  revert s. induction xs as [|x xs IH]; intros s Hw HQ.
  { apply wp_ret. rewrite app_nil_r in Hw. destruct s. by apply HQ. }
  cbn [fmap list_fmap um_release_write_barriers]. cbn [rev] in Hw.
  destruct (wr_running _ _ _ Hw) as [ks Hsh]. rewrite app_assoc, <-(app_assoc (brs ++ _)) in Hsh.
  apply wp_bind, wp_on_map. destruct x as [k idx]. cbn [app] in Hsh.
  eapply (wp_release_barrier ks _ _ (length (brs ++ rev xs))); [exact Hsh|by apply list_lookup_middle|].
  intros ms Hms Hm. rewrite delete_middle in Hms.
  apply (IH (at_map s ms)); [eapply writing_map; [done|by exists ks|done]|done].
Qed.

Lemma wp_release_one i x brs s Q (E : pg_error → S → Prop) :
  writing i (x :: brs) (sm_map s) →
  (∀ ms, writing i brs ms → Q no_barrier (at_map s ms)) →
  wp (on_map (MapInflightReleaseBarrier (mk_bar x))) Q E s.
Proof using All.
  intros Hw HQ. destruct (wr_running _ _ _ Hw) as [ks Hsh]. apply wp_on_map. destruct x as [k idx].
  eapply (wp_release_barrier ks _ _ 0); [exact Hsh|done|]. intros ms Hms Hm.
  apply HQ. eapply writing_map; [done|by exists ks|done].
Qed.

(** ** The loop *)

Definition pending_is (pend : list (nat * Z)) (br : MapInflightBarrier) : Prop :=
  match pend with
  | [] => valid br = false
  | [x] => br = mk_bar x
  | _ => False
  end.

(** The barriers of this write are those its locals name. *)
Record barriers_at (i : nat) (pend xs : list (nat * Z)) (sv : L) : Prop := {
  ba_run : run_barriers sv.2 = mk_bar <$> xs;
  ba_pend : pending_is pend (pending_barrier sv.2);
  ba_state : sv.1 = at_map s0 (sm_map sv.1);
  ba_writing : writing i (pend ++ rev xs) (sm_map sv.1);
}.

(** The state at buffer [i]: the last [length xs] buffers before it form the
    run that is not written yet. *)
Record loop_at (i : nat) (pend xs : list (nat * Z)) (sv : L) : Prop := {
  la_len : (length xs ≤ i ≤ length data)%nat;
  la_bars : barriers_at (i - length xs) pend xs sv;
  la_idx : xs ≠ [] → run_start_idx sv.2 = (i - length xs)%nat;
  la_run : ∀ t, (t < length xs)%nat → target (i - length xs + t) = run_start_pblk sv.2 + Z.of_nat t;
}.

Definition loop_error (e : pg_error) (sv : L) : Prop :=
  write_trouble e ∨ ∃ i pend xs, barriers_at i pend xs sv.

Lemma wp_flush_run i pend xs sv Q :
  loop_at i pend xs sv →
  (∀ s', loop_at i pend [] (s', with_run (run_start_pblk sv.2) (run_start_idx sv.2) [] sv.2) →
     Q tt (s', with_run (run_start_pblk sv.2) (run_start_idx sv.2) [] sv.2)) →
  wp (um_flush_write_barrier_run env reln f data) Q loop_error sv.
Proof using All.
  destruct sv as [s v]. intros [Hlen [Hrun Hpend Hst Hw] Hidx Htg] HQ. cbn [fst snd] in *.
  apply wp_bind, wp_gets. cbn [snd]. rewrite Hrun. destruct xs as [|x xs].
  { apply wp_ret. destruct v. cbn in *. subst. apply HQ. split; [done|by split|done|cbn; lia]. }
  set (ys := x :: xs) in *. change (mk_bar <$> ys) with (mk_bar x :: (mk_bar <$> xs)) at 1.
  cbv iota beta zeta. change (mk_bar x :: (mk_bar <$> xs)) with (mk_bar <$> ys).
  specialize (Hidx ltac:(done)). rewrite length_fmap.
  apply wp_bind, wp_in_smgr, wp_file_do; [apply Hreln| |].
  { intros e _. right. by exists (i - length ys)%nat, pend, ys. }
  intros fs Hfs. assert (writing (i - length ys + length ys) (pend ++ rev ys) (with_files fs (sm_map s))) as Hw'.
  { pose proof (fl_writev_frame _ _ _ _ _ _ _ Hfs) as Hfr. rewrite length_take, length_drop, Hidx in Hfr.
    replace (length ys `min` (length data - (i - length ys)))%nat with (length ys) in Hfr by lia.
    eapply writing_run; [done|lia|done|done|]. intros t d Ht Hd.
    eapply fl_writev_data; [exact Hfs|by apply Forall_take, Forall_drop|].
    rewrite lookup_take_Some, lookup_drop, Hidx. done. }
  apply wp_bind, wp_in_smgr. eapply (wp_release_barriers _ ys); [exact Hw'|].
  intros ms Hms. apply wp_set_locals. cbn [fst snd]. apply HQ. split; cbn [length]; [lia| |done|lia].
  rewrite Nat.sub_add in Hms by lia. rewrite Nat.sub_0_r. split; cbn; [done|done| |by rewrite app_nil_r].
  rewrite Hst. done.
Qed.

(** The claimed block joins the run. *)
Lemma loop_push i x xs s v m :
  loop_at i [x] xs (s, v) → (i < length data)%nat →
  target i = run_start_pblk v + Z.of_nat (length xs) → run_start_idx v = (i - length xs)%nat →
  valid m = false →
  loop_at (i + 1) [] (xs ++ [x]) (s, with_pending_barrier m
    (with_run (run_start_pblk v) (run_start_idx v) (run_barriers v ++ [mk_bar x]) v)).
Proof using All.
  intros [Hlen [Hrun Hpend Hst Hw] Hidx Htg] Hi Hx Hix Hm. cbn [fst snd] in *.
  assert (i + 1 - length (xs ++ [x]) = i - length xs)%nat as Hk by (rewrite length_app; cbn; lia).
  split; rewrite ?Hk; cbn.
  - rewrite length_app. cbn. lia.
  - split; cbn; [by rewrite Hrun, fmap_app|done|done|]. by rewrite rev_unit.
  - done.
  - intros t Ht. rewrite length_app in Ht. cbn in Ht. destruct (decide (t = length xs)) as [->|].
    + by replace (i - length xs + length xs)%nat with i by lia.
    + apply Htg. lia.
Qed.

Lemma loop_error_at i pend xs e sv : loop_at i pend xs sv → loop_error e sv.
Proof using Type. intros [_ Hb _ _]. right. eauto. Qed.

(** The block is inside the materialised part. *)
Lemma wp_join_run i x xs s v :
  loop_at i [x] xs (s, v) → (i < length data)%nat →
  wp ((match run_barriers v with
       | [] => set_locals (with_run (target i) i [])
       | _ =>
           if can_extend_run v (target i) then mret tt
           else um_flush_write_barrier_run env reln f data;; set_locals (with_run (target i) i [])
       end);;
      set_locals (λ v, with_pending_barrier (MkBarrier false (slot_id (mk_bar x)) (entry_idx (mk_bar x)))
                         (with_run (run_start_pblk v) (run_start_idx v)
                            (run_barriers v ++ [mk_bar x]) v)))
    (λ _ sv, ∃ xs, loop_at (i + 1) [] xs sv) loop_error (s, v).
Proof using All.
  intros Hla Hi. apply wp_bind. pose proof (ba_run _ _ _ _ (la_bars _ _ _ _ Hla)) as Hrun. cbn [snd] in Hrun.
  assert (∀ s' v', loop_at i [x] [] (s', v') → pending_barrier v' = mk_bar x →
    loop_at i [x] [] (s', with_run (target i) i [] v')) as Hrestart.
  { intros s' v' [Hlen [_ Hpend Hst Hw] _ _] Hpd. split; [done|split; done|done|cbn; lia]. }
  rewrite Hrun. destruct xs as [|y xs]; cbn [fmap list_fmap].
  { apply wp_set_locals, wp_set_locals. eexists. apply loop_push with (xs := []); cbn; [|done|lia|lia|done].
    apply Hrestart; [done|]. apply (ba_pend _ _ _ _ (la_bars _ _ _ _ Hla)). }
  destruct (can_extend_run v (target i)) eqn:Hc.
  - apply wp_ret, wp_set_locals. eexists. pose proof Hla as [Hlen _ Hidx Htg]. cbn [snd] in *.
    apply loop_push; [done|done| |by apply Hidx|done].
    unfold can_extend_run in Hc. rewrite Hrun, length_fmap in Hc. set (k := length (y :: xs)) in *.
    pose proof (target_u32 (i - k) ltac:(unfold k; cbn; lia)) as Hu.
    pose proof (Htg 0%nat ltac:(cbn; lia)) as H0'. rewrite Nat.add_0_r, Z.add_0_r in H0'.
    apply andb_prop in Hc as [Hc Hseg]. apply andb_prop in Hc as [Hc Hiov]. apply andb_prop in Hc as [_ Hp].
    apply bool_decide_eq_true in Hp, Hseg, Hiov. rewrite Hp. apply u32_small.
    unfold is_u32, RELSEG_SIZE, PG_IOV_MAX in *. rewrite u32_small in Hseg; ulia.
  - apply wp_bind. eapply wp_flush_run; [exact Hla|]. intros s' Hf'. apply wp_set_locals, wp_set_locals. eexists.
    apply loop_push with (xs := []); cbn; [|done|lia|lia|done]. apply Hrestart; [done|].
    apply (ba_pend _ _ _ _ (la_bars _ _ _ _ Hla)).
Qed.

(** The block lies past the materialised part. *)
Lemma wp_extend_block i x xs s v d :
  loop_at i [x] xs (s, v) → data !! i = Some d →
  wp (um_flush_write_barrier_run env reln f data;;
      set_locals (λ v, with_run InvalidBlockNumber (run_start_idx v) (run_barriers v) v);;
      in_smgr (file_do reln (λ fs, fl_extend fs r f (target i) d));;
      br ← in_smgr (on_map (MapInflightReleaseBarrier (mk_bar x)));
      set_locals (with_pending_barrier br);;
      set_locals (λ v, with_materialized
                    (if decide (materialized_nblocks v < u32 (target i + 1)) then u32 (target i + 1)
                     else materialized_nblocks v)
                    (if decide (max_extended_pblk v = InvalidBlockNumber ∨ target i > max_extended_pblk v)
                     then target i else max_extended_pblk v) v))
    (λ _ sv, ∃ xs, loop_at (i + 1) [] xs sv) loop_error (s, v).
Proof using All.
  intros Hla Hd. pose proof (lookup_lt_Some _ _ _ Hd) as Hi.
  apply wp_bind. eapply wp_flush_run; [exact Hla|]. intros s' [Hlen [_ Hpend Hst Hw] _ _].
  cbn [fst snd] in *. rewrite Nat.sub_0_r, app_nil_r in Hw. apply wp_bind, wp_set_locals.
  apply wp_bind, wp_in_smgr, wp_file_do; [apply Hreln| |].
  { intros e _. right. exists i, [x], []. by split. }
  intros fs Hfs. assert (writing (i + 1) [x] (with_files fs (sm_map s'))) as Hw'.
  { eapply (writing_run i 1 (target i)); [done|lia| |by apply (fl_extend_frame _ _ _ _ _ _ Hfs)|].
    - intros t Ht. replace t with 0%nat by lia. by rewrite Nat.add_0_r, Z.add_0_r.
    - intros t d' Ht Hd'. replace t with 0%nat in * by lia. rewrite Nat.add_0_r in Hd'.
      rewrite Z.add_0_r. assert (d' = d) as -> by congruence. eapply fl_extend_data; [done|].
      by apply (Forall_lookup_1 _ data i). }
  apply wp_bind, wp_in_smgr, (wp_release_one (i + 1) x []); [done|]. intros ms Hms.
  apply wp_bind, wp_set_locals, wp_set_locals. exists []. split; cbn; [lia| |done|lia].
  rewrite Nat.sub_0_r. by split; cbn; [|done|rewrite Hst|].
Qed.

Lemma wp_write_block i xs sv d :
  loop_at i [] xs sv → data !! i = Some d →
  wp (write_block env sleep reln f mapped_access data i (l + Z.of_nat i) d)
    (λ _ sv, ∃ xs, loop_at (i + 1) [] xs sv) loop_error sv.
Proof using All.
  destruct sv as [s v]. intros [Hlen [Hrun Hpend Hst Hw] Hidx Htg] Hd. cbn [fst snd] in *.
  pose proof (lookup_lt_Some _ _ _ Hd) as Hi. cbn [app] in Hw.
  apply wp_bind, wp_set_locals, wp_bind, wp_in_smgr.
  eapply wp_claim_barrier; [exact Hw|exact Hi| |intros; by left|].
  2: { intros e ms Hms. right. exists (i - length xs)%nat, [], xs. split; cbn; [done|done|by rewrite Hst|done]. }
  intros x ms Hms. cbn [fst snd].
  destruct (target_block i Hi) as (_ & Hb & Hu & Hm). destruct (writing_ready _ _ _ i Hms Hi) as
    (blk & idx & pg & [Hf Hl' Hloc Hsz Hpg] & Hent).
  apply wp_bind, wp_set_locals, wp_bind, wp_gets, wp_bind, wp_in_smgr. cbn [fst snd].
  unfold um_resolve_lblk_for_access. cbn [map_available mapped_access negb]. apply wp_bind, wp_on_map.
  eapply wp_mono; [eapply (wp_lookup env ms r f) with (Q := λ o ms', o = Some (target i) ∧ calm ms ms');
    [by eapply running_map, wr_running|done..|]| |].
  - intros o ms' (-> & Hi' & Hs' & Hb'). split; [|done]. unfold mapped_block. rewrite <-Hent.
    by rewrite decide_False by (by apply Hmapped).
  - intros o ms' [-> Hc]. apply wp_ret, wp_bind, wp_set_locals. cbn [fst snd].
    assert (loop_at i [x] xs (at_map s ms', with_write_lookup (write_lookup v) (with_pending_barrier (mk_bar x) v)))
      as Hla.
    { split; [done| |done|done]. split; cbn; [done|done|by rewrite Hst|].
      eapply writing_map; [exact Hms|by eapply running_calm; [eapply wr_running|]|apply Hc]. }
    case_decide; [exact (wp_join_run _ _ _ _ _ Hla Hi)|exact (wp_extend_block _ _ _ _ _ _ Hla Hd)].
  - intros e ms' He. left. left. exists (ms_sys ms). by left.
Qed.

Lemma wp_write_blocks rest i xs sv :
  loop_at i [] xs sv → rest = drop i data →
  wp (write_blocks env sleep reln f mapped_access data l i rest)
    (λ _ sv, loop_at (length data) [] [] sv) loop_error sv.
Proof using All.
  revert i xs sv. induction rest as [|d rest IH]; intros i xs sv Hla Hr; cbn [write_blocks].
  - assert (i = length data) as ->.
    { pose proof (la_len _ _ _ _ Hla). apply (f_equal length) in Hr. rewrite length_drop in Hr. cbn in Hr. lia. }
    by eapply wp_flush_run.
  - assert (data !! i = Some d) as Hd by (by rewrite <-(Nat.add_0_r i), <-lookup_drop, <-Hr).
    destruct (target_block i (lookup_lt_Some _ _ _ Hd)) as [-> _].
    apply wp_bind. eapply wp_mono; [by eapply wp_write_block| |done].
    intros _ sv' [xs' Hla']. eapply IH; [done|]. replace (i + 1)%nat with (Datatypes.S i) by lia.
    rewrite (drop_S _ _ _ Hd) in Hr. by injection Hr.
Qed.

(** ** The whole write *)

(** No block but the targets has changed, and no map. *)
Definition write_frame (s' : S) : Prop :=
  s' = at_map s0 (sm_map s') ∧ running bars (sm_map s') ∧ same_pages ms0 (sm_map s') ∧
  (∀ r' k b, k ≠ UMBRA_METADATA_FORKNUM → (r', k) ≠ (r, f) →
     fl_content (files (sm_map s')) r' k b = fl_content (files ms0) r' k b) ∧
  ∀ b, (∀ j, (j < length data)%nat → target j ≠ b) →
    block_kept (fl_content (files ms0) r f b) (fl_content (files (sm_map s')) r f b).

Definition written (s' : S) : Prop :=
  ∀ j d, data !! j = Some d → fl_content (files (sm_map s')) r f (target j) = Some d.

Lemma writing_frame i s' : s' = at_map s0 (sm_map s') → writing i [] (sm_map s') → write_frame s'.
Proof using Type. intros E []. unfold write_frame. by split_and!. Qed.

Lemma wp_any {St A} (m : M St A) Q (E : pg_error → St → Prop) s :
  (∀ a s', m s = (Ok a, s') → Q a s') → (∀ e s', m s = (Err e, s') → E e s') → wp m Q E s.
Proof using Type. intros HQ HE. unfold wp. destruct (m s) as [[]] eqn:Hm; eauto. Qed.

(** Releasing in a state nothing is known of. *)
Lemma wp_release_any br Q (E : pg_error → S → Prop) s :
  (∀ br' s', Q br' s') → (∀ e s', write_trouble e → E e s') →
  wp (on_map (MapInflightReleaseBarrier br)) Q E s.
Proof using Type.
  intros HQ HE. apply wp_on_map, wp_any; [done|]. intros e s' He. apply HE. right; right.
  exists br, (sm_map s). by rewrite He.
Qed.

Lemma wp_release_all_any brs (Q : unit → S → Prop) (E : pg_error → S → Prop) s :
  (∀ s', Q tt s') → (∀ e s', write_trouble e → E e s') → wp (um_release_write_barriers brs) Q E s.
Proof using Type.
  intros HQ HE. revert s. induction brs as [|br brs IH]; intros s; [by apply wp_ret|].
  apply wp_bind, wp_release_any; [|done]. intros _ s'. apply IH.
Qed.

(** The [PG_CATCH] block. *)
Lemma wp_write_handler e sv :
  loop_error e sv →
  wp (v ← gets snd;
      in_smgr (on_map (MapInflightReleaseBarrier (pending_barrier v)));;
      in_smgr (um_release_write_barriers (run_barriers v));;
      throw (A := unit) e) (λ _ _, False) (λ e' sv', write_trouble e' ∨ write_frame sv'.1) sv.
Proof using All.
  intros [Htr|(i & pend & xs & [Hrun Hpend Hst Hw])]; apply wp_bind, wp_gets, wp_bind, wp_in_smgr.
  { apply wp_release_any; [|by left]. intros _ s1. apply wp_bind, wp_in_smgr, wp_release_all_any; [|by left].
    intros s2. apply wp_throw. by left. }
  assert (∀ s1, s1 = at_map s0 (sm_map s1) → writing i (rev xs) (sm_map s1) →
    wp (in_smgr (um_release_write_barriers (run_barriers sv.2));; throw (A := unit) e) (λ _ _, False)
      (λ e' sv', write_trouble e' ∨ write_frame sv'.1) (s1, sv.2)) as Hrest.
  { intros s1 E1 H1'. apply wp_bind, wp_in_smgr. rewrite Hrun. eapply (wp_release_barriers i xs []); [done|].
    intros ms Hms. apply wp_throw. right. eapply writing_frame; [|done]. by rewrite E1. }
  destruct pend as [|x [|]]; [|cbn [pending_is] in Hpend; rewrite Hpend|done].
  - unfold MapInflightReleaseBarrier. rewrite Hpend. apply wp_on_map, wp_ret.
    rewrite at_map_eta. by apply Hrest.
  - eapply wp_release_one; [exact Hw|]. intros ms Hms. apply Hrest; [by rewrite Hst|done].
Qed.

(** The logical size is read for an assertion. *)
Lemma wp_write_end ms :
  writing (length data) [] ms →
  wp (match data with
      | [] => mret tt
      | _ => umnblocks_for_access env reln f mapped_access;; mret tt
      end) (λ _ s', write_frame s' ∧ written s')
    (λ e s', write_trouble e ∨ write_frame s') (at_map s0 ms).
Proof using All.
  intros Hms. assert (write_frame (at_map s0 ms) ∧ written (at_map s0 ms)) as HQ.
  { split; [by eapply writing_frame|]. intros j d Hd. eapply (wr_done _ _ _ Hms); [|done].
    by eapply lookup_lt_Some. }
  destruct data; [by apply wp_ret|]. apply wp_bind, (wp_nblocks env _ reln f n); [|by apply wp_ret].
  destruct (wr_pages _ _ _ Hms) as [-> _]. done.
Qed.

Lemma wp_write_bump i s v Q (E : pg_error → S → Prop) :
  writing i [] (sm_map s) → (∀ ms, writing i [] ms → Q tt (at_map s ms)) →
  wp (on_smgr_world (MapSBlockBumpPhysicalNblocks env r f v InvalidXLogRecPtr)) Q E s.
Proof using All.
  intros Hw HQ. apply wp_on_map. destruct (wr_super _ _ _ Hw) as [Hwf (e & He & Hu)].
  destruct (bump_physical_trusted env (ms_world (sm_map s)) r f n v false true InvalidXLogRecPtr e)
    as (w' & e' & Hb & Hfs & Hwf' & He' & Hu' & _ & Hts); [done..|apply Hreln| |done|].
  { by destruct (wr_pages _ _ _ Hw) as [-> _]. }
  unfold wp, on_world, MapSBlockBumpPhysicalNblocks. rewrite Hb. apply HQ.
  destruct Hw as [Hrn Hp _ Hfr Hk Hd]. destruct (map_inv_world (sm_map s) w') as [_ Hp'];
    [by eapply running_map|done|done|]. unfold files in *.
  split; [by apply running_world|by eapply same_pages_trans|split; [done|by eauto]|..];
    unfold files; cbn [ms_world]; intros; rewrite Hfs; eauto.
Qed.

Lemma wp_umwritev :
  running bars ms0 → super_ready r ms0 →
  wp (umwritev env sleep reln f l data) (λ _ s', write_frame s' ∧ written s')
    (λ e s', write_trouble e ∨ write_frame s') s0.
Proof using All.
  intros Hr Hsu. apply wp_bind, wp_classify with (1 := Hreln). cbn [map_available mapped_access negb].
  destruct (physical_run env (ms_world ms0) r f n Hn) as [o Ho].
  apply wp_bind, wp_on_map. unfold wp at 1, on_world. rewrite Ho.
  rewrite map_state_eta, at_map_eta. cbv zeta. apply wp_bind.
  set (start := MkLocals _ _ _ _ _ _ _).
  assert (loop_at 0 [] [] (s0, start)) as Hstart.
  { split; [cbn; lia| |done|cbn; lia]. split; [done|done|cbn; by rewrite at_map_eta|].
    split; cbn; try done; [by left|lia]. }
  pose proof (wp_catch _ _ _ _ _ (wp_mono _ _ _ _ _ _ (wp_write_blocks data 0 [] (s0, start) Hstart eq_refl)
    (λ _ _ HQ, HQ) (λ e sv He, wp_mono _ _ _ _ _ _ (wp_write_handler e sv He) (λ _ _ HF, False_ind _ HF)
      (λ _ _ HE, HE)))) as Hloop.
  unfold wp in Hloop |- * at 1. destruct (catch _ _ _) as [[u|e] [s1 v1]]; [|done].
  destruct Hloop as [_ [_ _ Hst Hw] _ _]. cbn [fst snd] in Hst, Hw |- *. rewrite Nat.sub_0_r in Hw.
  rewrite Hst. apply wp_bind. case_decide as Hmx; [by apply wp_ret, wp_write_end|].
  eapply wp_write_bump; [done|]. intros ms Hms. by apply wp_write_end.
Qed.
End write.
End smgr.

(** ** Properties *)

(** What a write of [k] blocks from [l] leaves alone: maps, sizes, barriers,
    every other relation and every other logical block. *)
Definition logical_frame `{SuperStoreLaws T} `{FileLayerLaws F} (s : SmgrState T F) reln f n l k bars s'
    : Prop :=
  s' = at_map s (sm_map s') ∧ running bars (sm_map s') ∧ same_pages (sm_map s) (sm_map s') ∧
  (∀ r' f' x, fork_mapped f' → (r', f') ≠ (locator reln, f) →
     logical_block (sm_map s') r' f' x = logical_block (sm_map s) r' f' x) ∧
  ∀ x, 0 ≤ x < n → ¬ (l ≤ x < l + k) →
    block_kept (logical_block (sm_map s) (locator reln) f x) (logical_block (sm_map s') (locator reln) f x).

(** No two blocks of the fork share a physical block. *)
Definition map_injective `{SuperStore T} `{FileLayerLaws F} (ms : MapState T F) r f n : Prop :=
  ∀ x y, 0 ≤ x < n → 0 ≤ y < n → entry_at ms r f x = entry_at ms r f y →
    entry_at ms r f x ≠ InvalidBlockNumber → x = y.

Lemma frame_logical `{SuperStoreLaws T} `{FileLayerLaws F} (s : SmgrState T F) reln f n l data bars s' :
  fork_mapped f → 0 ≤ l → l + Z.of_nat (length data) ≤ n →
  map_injective (sm_map s) (locator reln) f n →
  write_frame s reln f l data bars s' →
  logical_frame s reln f n l (Z.of_nat (length data)) bars s'.
Proof.
  intros Hf Hl Hend Hinj (Est & Hrun & Hp & Hfr & Hk).
  assert (∀ r' f' x, entry_at (sm_map s') r' f' x = entry_at (sm_map s) r' f' x) as He.
  { intros. unfold entry_at. by rewrite (proj2 Hp). }
  split_and!; [done|done|done|..].
  - intros r' f' x Hf' Hne. unfold logical_block, block_at. rewrite He. case_decide; [done|].
    apply Hfr; [by destruct Hf' as [->|[->| ->]]|done].
  - intros x Hx Hout. unfold logical_block, block_at. rewrite He. case_decide; [by left|].
    apply Hk. intros j Hj Heq. unfold target in Heq.
    pose proof (Hinj (l + Z.of_nat j) x ltac:(lia) Hx Heq ltac:(by rewrite Heq)). lia.
Qed.

(** C7: writing blocks of a mapped relation inside its logical size, each
    mapped to a physical block of its own, puts every buffer into its logical
    block, whether the physical blocks lie side by side or not and whether
    they have to be created first.  Every other logical block of every
    relation, the maps and the sizes stay, and all barriers claimed for the
    write have been given back.  After an error of the file layer or a barrier
    that could not be had the same holds except that some of the named blocks
    may not have been written; only an error of the map layer leaves more
    open. *)
Theorem write_stores_logical_blocks `{SuperStoreLaws T} `{FileLayerLaws F} `{!DataFiles F}
    `{!DataFilesLaws F} env sleep (s : SmgrState T F) reln f n l data bars :
  mapped_reln s reln f → running bars (sm_map s) → super_ready (locator reln) (sm_map s) →
  trusted_size (w_store (ms_world (sm_map s))) (locator reln) f = Some n →
  n ≤ max_mapped_lblk f + 1 → covered (sm_map s) (locator reln) f 0 n →
  0 ≤ l → l + Z.of_nat (length data) ≤ n → Forall full_block data →
  (∀ bs ms, running bs ms → running bs (sleep ms) ∧ steady (locator reln) ms (sleep ms)) →
  map_injective (sm_map s) (locator reln) f n →
  (∀ x, l ≤ x < l + Z.of_nat (length data) →
     entry_at (sm_map s) (locator reln) f x ≠ InvalidBlockNumber) →
  match umwritev env sleep reln f l data s with
  | (Ok _, s') => logical_frame s reln f n l (Z.of_nat (length data)) bars s' ∧
      ∀ j d, data !! j = Some d →
        logical_block (sm_map s') (locator reln) f (l + Z.of_nat j) = Some d
  | (Err e, s') => write_trouble (T := T) (F := F) e ∨
      logical_frame s reln f n l (Z.of_nat (length data)) bars s'
  end.
Proof.
  intros Hreln Hrun Hsu Hn Hmax Hcov Hl Hend Hdata Hsleep Hinj Hmapped.
  pose proof (mr_fork _ _ _ Hreln) as Hf.
  assert (∀ j, (j < length data)%nat → target s reln f l j ≠ InvalidBlockNumber) as Hm
    by (intros; apply Hmapped; lia).
  assert (∀ i j, (i < length data)%nat → (j < length data)%nat →
    target s reln f l i = target s reln f l j → i = j) as Hti.
  { intros i j Hi Hj Heq.
    pose proof (Hinj (l + Z.of_nat i) (l + Z.of_nat j) ltac:(lia) ltac:(lia) Heq (Hm i Hi)). lia. }
  pose proof (wp_umwritev env s reln f n l data bars sleep Hreln (running_map _ _ Hrun) Hn Hmax Hcov Hl Hend
    Hdata Hsleep Hm Hti Hrun Hsu) as Hw.
  unfold wp in Hw. destruct (umwritev _ _ _ _ _ _ _) as [[u|e] s'].
  - destruct Hw as [Hfr Hd]. split; [by apply frame_logical|]. intros j d Hj.
    pose proof (lookup_lt_Some _ _ _ Hj) as Hlt. unfold logical_block, block_at.
    replace (entry_at (sm_map s') _ _ _) with (target s reln f l j)
      by (unfold target, entry_at; by rewrite (proj2 (proj1 (proj2 (proj2 Hfr))))).
    rewrite decide_False by (by apply Hm). by apply Hd.
  - destruct Hw as [?|Hfr]; [by left|]. right. by apply frame_logical.
Qed.

(** ** A concrete system *)

Lemma demo_published_running : running [] demo_published.
Proof.
  exists [idle_backend 2]. destruct demo_published_run as (Hi & Hb & _).
  apply (shared_same [idle_backend 2] [] demo_state); [split; [exact eq_refl|exact demo_server]|exact Hi|exact Hb].
Qed.

Lemma demo_smgr_running : running [] (sm_map demo_smgr).
Proof.
  unfold demo_smgr. cbn [sm_map]. apply running_files; [exact demo_published_running|exact demo_same_meta].
Qed.

Lemma demo_write_entry :
  ∃ e, ss_map (w_store (ms_world demo_published)) !! demo_rel = Some e ∧ entry_untrusted e = false.
Proof.
  destruct (ss_map (w_store (ms_world demo_published)) !! demo_rel) as [e|] eqn:He; [|by vm_compute in He].
  exists e. split; [exact eq_refl|]. vm_compute in He. injection He as <-. vm_compute. exact eq_refl.
Qed.

Lemma demo_smgr_super : super_ready demo_rel (sm_map demo_smgr).
Proof.
  unfold super_ready, world_ready, demo_smgr. cbn [sm_map]. rewrite store_with_files.
  split; [exact (proj1 demo_published_world)|exact demo_write_entry].
Qed.

Lemma demo_smgr_entry : entry_at (sm_map demo_smgr) demo_rel MAIN_FORKNUM 0 = 7.
Proof.
  unfold entry_at, demo_smgr. cbn [sm_map]. rewrite map_page_files by exact demo_same_meta.
  change (page_pos MAIN_FORKNUM (0 / 2048)) with 3.
  rewrite (proj2 (proj2 demo_published_ok)). exact eq_refl.
Qed.

Definition demo_new : list Z := replicate (Z.to_nat BLCKSZ) 9.

Lemma demo_new_full : full_block demo_new.
Proof. split; [apply length_replicate|by apply Forall_replicate]. Qed.

Lemma write_stores_logical_blocks_witness :
  ∃ s', umwritev demo_env id demo_reln MAIN_FORKNUM 0 [demo_new] demo_smgr = (Ok tt, s') ∧
    running [] (sm_map s') ∧ logical_block (sm_map s') demo_rel MAIN_FORKNUM 0 = Some demo_new.
Proof.
  assert (map_injective (sm_map demo_smgr) demo_rel MAIN_FORKNUM 1) as Hinj by (intros x y ? ? _ _; lia).
  assert (∀ x, 0 ≤ x < 0 + Z.of_nat (length [demo_new]) →
    entry_at (sm_map demo_smgr) demo_rel MAIN_FORKNUM x ≠ InvalidBlockNumber) as Hm.
  { intros x Hx. cbn [length] in Hx. replace x with 0 by lia. rewrite demo_smgr_entry. discriminate. }
  assert (∀ bs (ms : MapState MapSuperTable RefFiles), running bs ms →
    running bs (id ms) ∧ steady demo_rel ms (id ms)) as Hsleep
    by (intros bs ms Hr; split; [exact Hr|split_and!; done]).
  pose proof (write_stores_logical_blocks demo_env id demo_smgr demo_reln MAIN_FORKNUM 1 0 [demo_new] []
    demo_smgr_reln demo_smgr_running demo_smgr_super demo_smgr_size ltac:(discriminate) demo_smgr_covered
    ltac:(lia) ltac:(cbn; lia) ltac:(constructor; [exact demo_new_full|constructor]) Hsleep Hinj Hm) as Hrun.
  assert ((umwritev demo_env id demo_reln MAIN_FORKNUM 0 [demo_new] demo_smgr).1 = Ok tt) as Hres
    by (vm_compute; exact eq_refl).
  destruct (umwritev _ _ _ _ _ _ _) as [res s']. cbn [fst] in Hres. subst res.
  destruct Hrun as [(_ & Hr & _) Hd]. exists s'. split; [exact eq_refl|]. split; [exact Hr|].
  exact (Hd 0%nat demo_new eq_refl).
Defined.
