(* ===== verification/UmbraXlog.v ===== *)
(** * WAL records of the map

    The record types of [access/umbra_xlog.h] with their bytes, and the part of
    the WAL that their insertion in [access/transam/umbra_xlog.c] touches. *)

From S2P Require Import Prelude.

Local Open Scope Z_scope.

(** ** Records *)

Record xl_umbra_map_set := MkMapSet {
  ms_rlocator : RelFileLocator;
  ms_forknum : ForkNumber;
  ms_lblkno : Z;
  ms_old_pblkno : Z;
  ms_new_pblkno : Z;
}.

(** [lblkno], [new_pblkno] *)
Definition xl_umbra_range_remap_entry : Type := Z * Z.

Record xl_umbra_range_remap := MkRangeRemap {
  rr_rlocator : RelFileLocator;
  rr_forknum : ForkNumber;
  rr_count : Z;
  rr_padding : Z;
  rr_end_lblkno : Z;
  rr_entries : list xl_umbra_range_remap_entry;
}.

Record xl_umbra_range_remap_compact := MkCompact {
  rc_rlocator : RelFileLocator;
  rc_forknum : ForkNumber;
  rc_count : Z;
  rc_padding : Z;
  rc_first_lblkno : Z;
  rc_first_pblkno : Z;
}.

(** [forknum], [nblocks] *)
Definition xl_umbra_skip_wal_dense_map_entry : Type := ForkNumber * Z.

Record xl_umbra_skip_wal_dense_map := MkDense {
  dm_rlocator : RelFileLocator;
  dm_count : Z;
  dm_padding : Z;
  dm_entries : list xl_umbra_skip_wal_dense_map_entry;
}.

Record xl_umbra_reclaim_unlink := MkUnlink {
  ru_rlocator : RelFileLocator;
  ru_forknum : ForkNumber;
  ru_segno : Z;
}.

Inductive umbra_record :=
  | XlMapSet (rec : xl_umbra_map_set)
  | XlRangeRemap (rec : xl_umbra_range_remap)
  | XlRangeRemapCompact (rec : xl_umbra_range_remap_compact)
  | XlSkipWalDenseMap (rec : xl_umbra_skip_wal_dense_map)
  | XlReclaimUnlink (rec : xl_umbra_reclaim_unlink).

Definition XLOG_UMBRA_MAP_SET : Z := 0x10.
Definition XLOG_UMBRA_RANGE_REMAP : Z := 0x30.
Definition XLOG_UMBRA_RECLAIM_UNLINK : Z := 0x40.
Definition XLOG_UMBRA_RANGE_REMAP_COMPACT : Z := 0x50.
Definition XLOG_UMBRA_SKIP_WAL_DENSE_MAP : Z := 0x60.

(** ** Bytes

    The structures have no holes: every field lies at a multiple of its size. *)

Definition rel_fields (r : RelFileLocator) : list Z := [spcOid r; dbOid r; relNumber r].
Definition fork_field (f : ForkNumber) : Z := u32 (fork_code f).

Definition rel_widths : list nat := [4; 4; 4]%nat.
Definition map_set_widths : list nat := [4; 4; 4; 4; 4; 4; 4]%nat.
Definition range_widths : list nat := [4; 4; 4; 4; 2; 2; 4]%nat.
Definition compact_widths : list nat := [4; 4; 4; 4; 2; 2; 4; 4]%nat.
Definition dense_widths : list nat := [4; 4; 4; 2; 2]%nat.
Definition unlink_widths : list nat := [4; 4; 4; 4; 4]%nat.
Definition pair_widths : list nat := [4; 4]%nat.

Definition pair_bytes (p : Z * Z) : list Z := pack_fields pair_widths [p.1; p.2].
Definition dense_pair (p : xl_umbra_skip_wal_dense_map_entry) : Z * Z := (fork_field p.1, p.2).

Definition umbra_info (rec : umbra_record) : Z :=
  match rec with
  | XlMapSet _ => XLOG_UMBRA_MAP_SET
  | XlRangeRemap _ => XLOG_UMBRA_RANGE_REMAP
  | XlRangeRemapCompact _ => XLOG_UMBRA_RANGE_REMAP_COMPACT
  | XlSkipWalDenseMap _ => XLOG_UMBRA_SKIP_WAL_DENSE_MAP
  | XlReclaimUnlink _ => XLOG_UMBRA_RECLAIM_UNLINK
  end.

(** What the [XLogRegisterData] calls register. *)
Definition umbra_data (rec : umbra_record) : list Z :=
  match rec with
  | XlMapSet x => pack_fields map_set_widths
      (rel_fields (ms_rlocator x) ++
       [fork_field (ms_forknum x); ms_lblkno x; ms_old_pblkno x; ms_new_pblkno x])
  | XlRangeRemap x => pack_fields range_widths
      (rel_fields (rr_rlocator x) ++
       [fork_field (rr_forknum x); rr_count x; rr_padding x; rr_end_lblkno x]) ++
      concat (pair_bytes <$> rr_entries x)
  | XlRangeRemapCompact x => pack_fields compact_widths
      (rel_fields (rc_rlocator x) ++
       [fork_field (rc_forknum x); rc_count x; rc_padding x; rc_first_lblkno x; rc_first_pblkno x])
  | XlSkipWalDenseMap x => pack_fields dense_widths
      (rel_fields (dm_rlocator x) ++ [dm_count x; dm_padding x]) ++
      concat (pair_bytes <$> (dense_pair <$> dm_entries x))
  | XlReclaimUnlink x => pack_fields unlink_widths
      (rel_fields (ru_rlocator x) ++ [fork_field (ru_forknum x); ru_segno x])
  end.

(** ** Reading a record

    The casts of [XLogRecGetData] in [umbra_redo]. *)

Definition fork_of_field (z : Z) : option ForkNumber :=
  list_find (λ f, fork_field f = z)
    [MAIN_FORKNUM; FSM_FORKNUM; VISIBILITYMAP_FORKNUM; INIT_FORKNUM; UMBRA_METADATA_FORKNUM;
     InvalidForkNumber] ≫= λ p, Some p.2.

Definition read_rel (vs : list Z) : RelFileLocator :=
  MkRel (vs !!! 0%nat) (vs !!! 1%nat) (vs !!! 2%nat).

Fixpoint read_pairs (n : nat) (bs : list Z) : list (Z * Z) :=
  match n with
  | O => []
  | S n =>
      let vs := unpack_fields pair_widths bs in
      (vs !!! 0%nat, vs !!! 1%nat) :: read_pairs n (drop 8 bs)
  end.

Definition umbra_read (info : Z) (bs : list Z) : option umbra_record :=
  if decide (info = XLOG_UMBRA_MAP_SET) then
    let vs := unpack_fields map_set_widths bs in
    f ← fork_of_field (vs !!! 3%nat);
    Some (XlMapSet (MkMapSet (read_rel vs) f (vs !!! 4%nat) (vs !!! 5%nat) (vs !!! 6%nat)))
  else if decide (info = XLOG_UMBRA_RANGE_REMAP) then
    let vs := unpack_fields range_widths bs in
    f ← fork_of_field (vs !!! 3%nat);
    Some (XlRangeRemap (MkRangeRemap (read_rel vs) f (vs !!! 4%nat) (vs !!! 5%nat) (vs !!! 6%nat)
      (read_pairs (Z.to_nat (vs !!! 4%nat)) (drop 24 bs))))
  else if decide (info = XLOG_UMBRA_RANGE_REMAP_COMPACT) then
    let vs := unpack_fields compact_widths bs in
    f ← fork_of_field (vs !!! 3%nat);
    Some (XlRangeRemapCompact (MkCompact (read_rel vs) f (vs !!! 4%nat) (vs !!! 5%nat)
      (vs !!! 6%nat) (vs !!! 7%nat)))
  else if decide (info = XLOG_UMBRA_SKIP_WAL_DENSE_MAP) then
    let vs := unpack_fields dense_widths bs in
    es ← mapM (λ p : Z * Z, f ← fork_of_field p.1; Some (f, p.2))
           (read_pairs (Z.to_nat (vs !!! 3%nat)) (drop 16 bs));
    Some (XlSkipWalDenseMap (MkDense (read_rel vs) (vs !!! 3%nat) (vs !!! 4%nat) es))
  else if decide (info = XLOG_UMBRA_RECLAIM_UNLINK) then
    let vs := unpack_fields unlink_widths bs in
    f ← fork_of_field (vs !!! 3%nat);
    Some (XlReclaimUnlink (MkUnlink (read_rel vs) f (vs !!! 4%nat)))
  else None.

(** ** The WAL *)

(** The insert position, and the records with the position after each. *)
Record Wal := MkWal {
  wal_end : Z;
  wal_records : list (Z * umbra_record);
}.

Section insert.
(** The position after a record with some bytes of data was inserted: it
    depends on the WAL page boundaries the record crosses. *)
Context (advance : Z → Z → Z).

Definition XLogInsert (rec : umbra_record) : M Wal Z := λ w,
  let lsn := advance (wal_end w) (Z.of_nat (length (umbra_data rec))) in
  (Ok lsn, MkWal lsn (wal_records w ++ [(lsn, rec)])).

Definition log_umbra_map_set (r : RelFileLocator) (f : ForkNumber) (lblkno old_pblkno new_pblkno : Z)
    : M Wal Z :=
  XLogInsert (XlMapSet (MkMapSet r f lblkno old_pblkno new_pblkno)).

Definition log_umbra_range_remap (r : RelFileLocator) (f : ForkNumber) (count : Z)
    (entries : list xl_umbra_range_remap_entry) : M Wal Z :=
  XLogInsert (XlRangeRemap (MkRangeRemap r f count 0 (entries !!! Z.to_nat (count - 1)).1
                              (take (Z.to_nat count) entries))).

Definition log_umbra_range_remap_compact (r : RelFileLocator) (f : ForkNumber)
    (first_lblkno first_pblkno count : Z) : M Wal Z :=
  XLogInsert (XlRangeRemapCompact (MkCompact r f count 0 first_lblkno first_pblkno)).

Definition log_umbra_skip_wal_dense_map (r : RelFileLocator) (count : Z)
    (entries : list xl_umbra_skip_wal_dense_map_entry) : M Wal Z :=
  XLogInsert (XlSkipWalDenseMap (MkDense r count 0 (take (Z.to_nat count) entries))).

Definition log_umbra_reclaim_unlink (r : RelFileLocator) (f : ForkNumber) (segno : Z) : M Wal Z :=
  XLogInsert (XlReclaimUnlink (MkUnlink r f segno)).
End insert.

(** ** Round trip *)

Definition rel_fits (r : RelFileLocator) : Prop := Forall2 fits rel_widths (rel_fields r).

Definition counted {A} (n : Z) (xs : list A) : Prop := n = Z.of_nat (length xs) ∧ is_u16 n.

(** The fields of a record have their C types, and the count is that of the
    entries. *)
Definition record_ok (rec : umbra_record) : Prop :=
  match rec with
  | XlMapSet x => rel_fits (ms_rlocator x) ∧ is_u32 (ms_lblkno x) ∧ is_u32 (ms_old_pblkno x) ∧
      is_u32 (ms_new_pblkno x)
  | XlRangeRemap x => rel_fits (rr_rlocator x) ∧ counted (rr_count x) (rr_entries x) ∧
      is_u16 (rr_padding x) ∧ is_u32 (rr_end_lblkno x) ∧
      Forall (λ p : Z * Z, is_u32 p.1 ∧ is_u32 p.2) (rr_entries x)
  | XlRangeRemapCompact x => rel_fits (rc_rlocator x) ∧ is_u16 (rc_count x) ∧
      is_u16 (rc_padding x) ∧ is_u32 (rc_first_lblkno x) ∧ is_u32 (rc_first_pblkno x)
  | XlSkipWalDenseMap x => rel_fits (dm_rlocator x) ∧ counted (dm_count x) (dm_entries x) ∧
      is_u16 (dm_padding x) ∧ Forall (λ p : ForkNumber * Z, is_u32 p.2) (dm_entries x)
  | XlReclaimUnlink x => rel_fits (ru_rlocator x) ∧ is_u32 (ru_segno x)
  end.

Lemma rel_fits_fields r : rel_fits r → fits 4 (spcOid r) ∧ fits 4 (dbOid r) ∧ fits 4 (relNumber r).
Proof.
  unfold rel_fits, rel_widths, rel_fields. intros Hr.
  by repeat match goal with H : Forall2 _ (_ :: _) _ |- _ => inversion_clear H end.
Qed.

Lemma fork_field_of f : fork_of_field (fork_field f) = Some f.
Proof. by destruct f. Qed.

Lemma fork_field_fits f : fits 4 (fork_field f).
Proof. unfold fits, fork_field. destruct f; vm_compute; done. Qed.

#[local] Arguments fork_field : simpl never.
#[local] Arguments fork_of_field : simpl never.
#[local] Hint Resolve fork_field_fits fits4 fits2 : umbra.

(** The fields of a structure fit their widths. *)
Ltac fields_fit :=
  repeat (apply List.Forall2_cons; [by auto with umbra|]); apply List.Forall2_nil.

(** The head of a structure and what follows it. *)
Lemma read_head ws vs rest n :
  Forall2 fits ws vs → sum_list ws = n →
  unpack_fields ws (pack_fields ws vs ++ rest) = vs ∧ drop n (pack_fields ws vs ++ rest) = rest.
Proof.
  intros Hf <-. split; [by apply unpack_pack_fields|].
  rewrite drop_app_length'; [done|]. symmetry. apply length_pack_fields. by eapply Forall2_length.
Qed.

Lemma read_pairs_bytes ps rest :
  Forall (λ p : Z * Z, is_u32 p.1 ∧ is_u32 p.2) ps →
  read_pairs (length ps) (concat (pair_bytes <$> ps) ++ rest) = ps.
Proof.
  induction 1 as [|[a b] ps [Ha Hb] _ IH]; [done|]. cbn [fst snd] in Ha, Hb.
  change (concat (pair_bytes <$> (a, b) :: ps))
    with (pack_fields pair_widths [a; b] ++ concat (pair_bytes <$> ps)).
  rewrite <-app_assoc. cbn [length read_pairs].
  edestruct (read_head pair_widths [a; b]) as [-> ->]; [fields_fit|done|]. by rewrite IH.
Qed.

Lemma dense_entries_read es :
  mapM (λ p : Z * Z, f ← fork_of_field p.1; Some (f, p.2)) (dense_pair <$> es) = Some es.
Proof.
  apply mapM_Some, Forall2_fmap_l, Forall_Forall2_diag, Forall_true. intros [f n].
  unfold dense_pair. cbn. by rewrite fork_field_of.
Qed.

(** ** Properties *)

(** C26: every record of the map's resource manager, with fields of their C
    widths, is read back from the bytes registered for it as it was logged. *)
Theorem umbra_record_roundtrip rec :
  record_ok rec → umbra_read (umbra_info rec) (umbra_data rec) = Some rec.
Proof.
  destruct rec as [[r f l o p]|[r f c pd e es]|[r f c pd l p]|[r c pd es]|[r f s]];
    intros [Hr Hok]; apply rel_fits_fields in Hr as (Ha & Hb & Hc); destruct r as [a b d]; cbn in Ha, Hb, Hc, Hok;
    unfold umbra_read; cbn [umbra_info]; repeat (rewrite decide_False by done);
    rewrite decide_True by done; unfold umbra_data, rel_fields;
    cbn [app spcOid dbOid relNumber ms_rlocator ms_forknum ms_lblkno ms_old_pblkno ms_new_pblkno
         rr_rlocator rr_forknum rr_count rr_padding rr_end_lblkno rr_entries
         rc_rlocator rc_forknum rc_count rc_padding rc_first_lblkno rc_first_pblkno
         dm_rlocator dm_count dm_padding dm_entries ru_rlocator ru_forknum ru_segno].
  - destruct Hok as (Hl & Ho & Hp). rewrite <-(app_nil_r (pack_fields _ _)).
    rewrite unpack_pack_fields by fields_fit. cbn. by rewrite fork_field_of.
  - destruct Hok as ([-> Hn] & Hpd & He & Hes).
    edestruct (read_head range_widths) as [-> ->]; [fields_fit|done|]. cbn. rewrite fork_field_of. cbn.
    rewrite Nat2Z.id, <-(app_nil_r (concat _)). by rewrite read_pairs_bytes.
  - destruct Hok as (Hn & Hpd & Hl & Hp). rewrite <-(app_nil_r (pack_fields _ _)).
    rewrite unpack_pack_fields by fields_fit. cbn. by rewrite fork_field_of.
  - destruct Hok as ([-> Hn] & Hpd & Hes).
    edestruct (read_head dense_widths) as [-> ->]; [fields_fit|done|]. cbn.
    rewrite Nat2Z.id, <-(app_nil_r (concat _)), <-(length_fmap dense_pair es).
    rewrite read_pairs_bytes; [by rewrite dense_entries_read|].
    apply Forall_fmap. eapply Forall_impl; [|exact Hes]. intros [f n] Hf. split; [apply fork_field_fits|done].
  - rewrite <-(app_nil_r (pack_fields _ _)). rewrite unpack_pack_fields by fields_fit. cbn.
    by rewrite fork_field_of.
Qed.

Lemma umbra_record_roundtrip_witness :
  umbra_read XLOG_UMBRA_RANGE_REMAP
    (umbra_data (XlRangeRemap (MkRangeRemap (MkRel 1663 5 16384) MAIN_FORKNUM 2 0 8 [(7, 3); (8, 4)]))) =
  Some (XlRangeRemap (MkRangeRemap (MkRel 1663 5 16384) MAIN_FORKNUM 2 0 8 [(7, 3); (8, 4)])).
Proof.
  apply (umbra_record_roundtrip (XlRangeRemap (MkRangeRemap (MkRel 1663 5 16384) MAIN_FORKNUM 2 0 8
    [(7, 3); (8, 4)]))).
  split; [by repeat constructor|]. split_and!; [done|done|done|by repeat constructor].
Defined.
