(* ===== verification/SmgrExtend.v ===== *)
(** * The storage manager: extension

    How a logical block of a mapped fork gets its first physical block: the
    reservation and its waiting loop of [storage/map/map.c], and the
    publication, extension and zero-extension of [storage/smgr/umbra.c], with
    the WAL records they log. *)

From S2P Require Import Prelude MapLayout Superblock SuperTable FileLayer SmgrFiles SBlock MapPrealloc.
From S2P Require Import BufState MapBuf MapPage MapRange MapInflight UmbraXlog SmgrAccess.

Local Open Scope Z_scope.

Definition MAP_PENDING_WAIT_RETRIES : nat := Z.to_nat 10000.
Definition UINT16_MAX : Z := 65535.

(** [(int)] of an unsigned 32-bit value *)
Definition s32 (z : Z) : Z := if decide (u32 z < 2 ^ 31) then u32 z else u32 z - 2 ^ 32.

(** [DELAY_CHKPT_START] of the backend, next to its state and the WAL. *)
Record XState (T F : Type) := MkX {
  x_smgr : SmgrState T F;
  x_wal : Wal;
  x_delay_start : bool;
}.
Arguments MkX {T F} _ _ _.
Arguments x_smgr {T F} _.
Arguments x_wal {T F} _.
Arguments x_delay_start {T F} _.

Record UmbraMappedBirthResult := MkBirth {
  pblkno : Z;
  mapping_published : bool;
}.

Section ops.
Context {T F : Type} `{SuperStore T} `{FileLayer F} `{DataFiles F} (env : Env) (gucs : MapGucs).
(** What the rest of the system does while the backend sleeps; whether
    [XLogInsertAllowed()] outside bootstrap and initialisation; the WAL
    position after a record. *)
Context (sleep : MapState T F → MapState T F) (wal_insert : bool) (advance : Z → Z → Z).
Local Abbreviation MS := (MapState T F).
Local Abbreviation S := (SmgrState T F).
Local Abbreviation X := (XState T F).

Definition in_state {A} (m : M S A) : M X A := λ x,
  let '(r, s) := m (x_smgr x) in (r, MkX s (x_wal x) (x_delay_start x)).
Definition in_wal {A} (m : M Wal A) : M X A := λ x,
  let '(r, w) := m (x_wal x) in (r, MkX (x_smgr x) w (x_delay_start x)).
Definition in_map {A} (m : M MS A) : M X A := in_state (on_map m).
Definition in_world {A} (m : M (World T F) A) : M X A := in_state (on_smgr_world m).

(** An error inside a critical section is a [PANIC]. *)
Definition critical {A} (m : M X A) : M X A :=
  catch m (λ e, throw (PgError PANIC (err_code e) (err_msg e))).

(** [PG_TRY]: nothing is caught after a [PANIC]. *)
Definition try_catch {A} (m : M X A) (h : pg_error → M X A) : M X A :=
  catch m (λ e, match err_level e with PANIC => throw e | _ => h e end).

(** Checkpoints do not start while [m] runs; the flag is set here unless it
    already was. *)
Definition delaying_checkpoints {A} (m : M X A) : M X A :=
  was ← gets x_delay_start;
  modify (λ x, MkX (x_smgr x) (x_wal x) true);;
  a ← m;
  modify (λ x, MkX (x_smgr x) (x_wal x) was);;
  mret a.

(** ** Reservation *)

(** [budget] counts the sleeps that remain; [waited] is [wait_retries > 0]. *)
Fixpoint MapWaitForForeignInflightToClear (budget : nat) (waited : bool) (r : RelFileLocator)
    (f : ForkNumber) (lblkno : Z) : M MS bool :=
  match budget with
  | O => ereport ERROR ERRCODE_LOCK_NOT_AVAILABLE "timed out waiting for in-flight remap"
  | Datatypes.S budget =>
      set ← MapInflightBitIsSet r f lblkno;
      if negb set then mret waited
      else modify sleep;; MapWaitForForeignInflightToClear budget true r f lblkno
  end.

Definition reserve_failed : pg_error :=
  PgError ERROR ERRCODE_INTERNAL_ERROR "failed to reserve physical block".

(** The new block and the old one.  [fuel] bounds the number of foreign remaps
    waited for. *)
Fixpoint get_new_pbkno (fuel : nat) (r : RelFileLocator) (f : ForkNumber) (lblkno : Z)
    : M MS (Z * Z) :=
  match fuel with
  | O => throw retrying
  | Datatypes.S fuel =>
      cur ← MapTryLookup env r f lblkno;
      res ← MapReserveNextPblkno env r f lblkno true;
      match res with
      | Some new => mret (new, default InvalidBlockNumber cur)
      | None =>
          cleared ← MapWaitForForeignInflightToClear MAP_PENDING_WAIT_RETRIES false r f lblkno;
          if negb cleared then throw reserve_failed else get_new_pbkno fuel r f lblkno
      end
  end.

Definition maybe_preallocate (r : RelFileLocator) (f : ForkNumber) : M MS unit :=
  when (negb (InRecovery env)) (on_world (MapMaybePreallocateFork env gucs r f false);; mret tt).

Definition MapGetNewPbkno (fuel : nat) (r : RelFileLocator) (f : ForkNumber) (lblkno : Z)
    : M MS (Z * Z) :=
  if InRecovery env && bool_decide (f = MAIN_FORKNUM)
  then elog PANIC "MapGetNewPbkno called during recovery"
  else
    res ← get_new_pbkno fuel r f lblkno;
    maybe_preallocate r f;;
    mret res.

Definition MapReserveFreshPblkno (r : RelFileLocator) (f : ForkNumber) (lblkno : Z)
    : M MS (option Z) :=
  res ← MapReserveNextPblkno env r f lblkno true;
  match res with
  | Some p => maybe_preallocate r f;; mret (Some p)
  | None => mret None
  end.

Definition UmMapGetNewPbkno (fuel : nat) (reln : SMgrRelation) (f : ForkNumber) (lblkno : Z)
    : M S (Z * Z) :=
  access ← um_classify_access reln f;
  if negb (map_available access) then mret (lblkno, lblkno)
  else on_map (MapGetNewPbkno fuel (locator reln) f lblkno).

Definition um_reserve_fresh_pblkno_for_access (reln : SMgrRelation) (f : ForkNumber)
    (access : UmbraAccessState) (lblkno : Z) : M S Z :=
  if negb (map_available access) then mret lblkno
  else
    res ← on_map (MapReserveFreshPblkno (locator reln) f lblkno);
    match res with
    | Some p => mret p
    | None => elog ERROR "failed to reserve fresh physical block"
    end.

Definition UmMapReserveFreshPbkno (reln : SMgrRelation) (f : ForkNumber) (lblkno : Z) : M S Z :=
  access ← um_classify_access reln f;
  um_reserve_fresh_pblkno_for_access reln f access lblkno.

(** ** Publication of one block *)

(** The mapping with its frontier. *)
Definition publish_birth (reln : SMgrRelation) (f : ForkNumber) (lblkno new map_lsn : Z) : M X unit :=
  in_map (MapSetMapping env (locator reln) f lblkno new map_lsn);;
  in_world (MapSBlockBumpNextFreePhysBlock env (locator reln) f (u32 (new + 1)) map_lsn).

Definition um_publish_mapped_birth (fuel : nat) (reln : SMgrRelation) (f : ForkNumber)
    (lblkno : Z) (allow_wal_owned_firstborn : bool) : M X UmbraMappedBirthResult :=
  if InRecovery env && um_fork_uses_wal_owned_firstborn f
  then elog PANIC "missing WAL mapping during recovery"
  else
    new_old ← in_map (MapGetNewPbkno fuel (locator reln) f lblkno);
    let '(new, old) := new_old in
    if InRecovery env then
      publish_birth reln f lblkno new (ReplayRecPtr env);;
      in_map (MapInflightRelease (locator reln) f lblkno);;
      mret (MkBirth new true)
    else
      owned ← (if allow_wal_owned_firstborn && wal_insert
               then in_state (UmWalOwnedFirstbornAvailable wal_insert reln f) else mret false);
      if (owned : bool) then mret (MkBirth new false)
      else
        (if wal_insert then
           critical (delaying_checkpoints (
             map_lsn ← in_wal (log_umbra_map_set advance (locator reln) f lblkno old new);
             publish_birth reln f lblkno new map_lsn))
         else publish_birth reln f lblkno new InvalidXLogRecPtr);;
        in_map (MapInflightRelease (locator reln) f lblkno);;
        mret (MkBirth new true).

(** ** Publication of a range *)

Definition max_pblk (pblknos : list Z) : Z :=
  foldl (λ m p, if decide (m = InvalidBlockNumber ∨ p > m) then p else m) InvalidBlockNumber pblknos.

Fixpoint set_mappings (reln : SMgrRelation) (f : ForkNumber) (lblk : Z) (pblknos : list Z) (lsn : Z)
    : M X unit :=
  match pblknos with
  | [] => mret tt
  | p :: ps =>
      in_map (MapSetMapping env (locator reln) f lblk p lsn);;
      set_mappings reln f (u32 (lblk + 1)) ps lsn
  end.

Fixpoint release_range (n : nat) (reln : SMgrRelation) (f : ForkNumber) (lblk : Z) : M X unit :=
  match n with
  | O => mret tt
  | Datatypes.S n =>
      in_map (MapInflightRelease (locator reln) f lblk);; release_range n reln f (u32 (lblk + 1))
  end.

(** [frame] and [ensure] are those of [MapSBlockEnsurePhysicalNblocks]. *)
Definition UmApplyReservedRangeRemap (frame : Z) (ensure : nat) (reln : SMgrRelation) (f : ForkNumber)
    (firstblock : Z) (pblknos : list Z) (lsn : Z) : M X unit :=
  let nblocks := Z.of_nat (length pblknos) in
  let max_lblkno := u32 (firstblock + nblocks - 1) in
  if decide (max_lblkno < firstblock)
  then ereport ERROR ERRCODE_PROGRAM_LIMIT_EXCEEDED "logical range overflow"
  else
    let max_pblkno := max_pblk pblknos in
    let valid := bool_decide (max_pblkno ≠ InvalidBlockNumber) in
    when valid
      (in_world (MapSBlockEnsurePhysicalNblocks env frame ensure (locator reln) f
                   (u32 (max_pblkno + 1)));; mret tt);;
    set_mappings reln f firstblock pblknos lsn;;
    when valid
      (in_world (MapSBlockBumpNextFreePhysBlock env (locator reln) f (u32 (max_pblkno + 1)) lsn);;
       in_world (MapSBlockBumpPhysicalNblocks env (locator reln) f (u32 (max_pblkno + 1)) lsn);;
       release_range (length pblknos) reln f firstblock);;
    in_world (MapSBlockBumpLogicalNblocks env (locator reln) f (u32 (max_lblkno + 1)) lsn).

Definition file_zeroextend (reln : SMgrRelation) (f : ForkNumber) (pblk n : Z) : M X unit :=
  in_state (file_do reln (λ fs, fl_zeroextend fs (locator reln) f pblk n)).

Fixpoint um_materialize_pblk_zero_runs (reln : SMgrRelation) (f : ForkNumber) (pblknos : list Z)
    (run_start_pblk run_blocks : Z) : M X unit :=
  match pblknos with
  | [] =>
      if decide (run_blocks > 0) then file_zeroextend reln f run_start_pblk (s32 run_blocks)
      else mret tt
  | pblk :: ps =>
      if decide (run_blocks = 0) then um_materialize_pblk_zero_runs reln f ps pblk 1
      else if decide (pblk = u32 (run_start_pblk + run_blocks))
      then um_materialize_pblk_zero_runs reln f ps run_start_pblk (u32 (run_blocks + 1))
      else file_zeroextend reln f run_start_pblk (s32 run_blocks);;
           um_materialize_pblk_zero_runs reln f ps pblk 1
  end.

Definition um_pblk_run_is_contiguous (pblknos : list Z) : bool :=
  forallb (λ ip : nat * Z, bool_decide (ip.2 = u32 (pblknos !!! 0%nat + Z.of_nat ip.1)))
    (drop 1 (imap (λ i p, (i, p)) pblknos)).

(** No block of the range is mapped or owned. *)
Fixpoint range_unmapped (n : nat) (reln : SMgrRelation) (f : ForkNumber) (lblk : Z) : M X bool :=
  match n with
  | O => mret true
  | Datatypes.S n =>
      found ← in_map (MapTryLookup env (locator reln) f lblk);
      match found with
      | Some _ => mret false
      | None =>
          owned ← in_map (MapInflightLookupOwnedPblk (locator reln) f lblk);
          match owned with
          | Some _ => mret false
          | None => range_unmapped n reln f (u32 (lblk + 1))
          end
      end
  end.

(** Reserve a block for each of [n] logical blocks from the [i]th on; what was
    reserved is given back when one reservation fails. *)
Fixpoint reserve_range (n i : nat) (reln : SMgrRelation) (f : ForkNumber) (blocknum : Z)
    : M X (option (list Z)) :=
  match n with
  | O => mret (Some [])
  | Datatypes.S n =>
      res ← in_map (MapReserveFreshPblkno (locator reln) f (u32 (blocknum + Z.of_nat i)));
      match res with
      | None => release_range i reln f blocknum;; mret None
      | Some p =>
          rest ← reserve_range n (i + 1) reln f blocknum;
          mret ((p ::.) <$> rest)
      end
  end.

(** One RANGE_REMAP record with its work. *)
Definition remap_chunk (frame : Z) (ensure : nat) (reln : SMgrRelation) (f : ForkNumber)
    (first : Z) (chunk : list Z) : M X unit :=
  let count := Z.of_nat (length chunk) in
  let work (map_lsn : Z) :=
    um_materialize_pblk_zero_runs reln f chunk InvalidBlockNumber 0;;
    UmApplyReservedRangeRemap frame ensure reln f first chunk map_lsn in
  if wal_insert then
    critical (delaying_checkpoints (
      map_lsn ← in_wal
        (if um_pblk_run_is_contiguous chunk
         then log_umbra_range_remap_compact advance (locator reln) f first (chunk !!! 0%nat) (u16 count)
         else log_umbra_range_remap advance (locator reln) f (u16 count)
                (imap (λ i p, (u32 (first + Z.of_nat i), p)) chunk));
      work map_lsn))
  else work InvalidXLogRecPtr.

(** Each turn takes at least one block off: the length is enough fuel. *)
Fixpoint remap_chunks (fuel : nat) (frame : Z) (ensure : nat) (reln : SMgrRelation) (f : ForkNumber)
    (first : Z) (pblknos : list Z) : M X unit :=
  match fuel, pblknos with
  | O, _ | _, [] => mret tt
  | Datatypes.S fuel, _ =>
      let chunk_blocks := Z.to_nat (Z.min (Z.of_nat (length pblknos)) UINT16_MAX) in
      remap_chunk frame ensure reln f first (take chunk_blocks pblknos);;
      remap_chunks fuel frame ensure reln f (u32 (first + Z.of_nat chunk_blocks))
        (drop chunk_blocks pblknos)
  end.

Definition um_try_pure_firstborn_range_remap_zeroextend (frame : Z) (ensure : nat)
    (reln : SMgrRelation) (f : ForkNumber) (blocknum nblocks : Z) : M X bool :=
  if InRecovery env || bool_decide (nblocks < 2) then mret false
  else
    free ← range_unmapped (Z.to_nat nblocks) reln f blocknum;
    if negb free then mret false
    else
      res ← reserve_range (Z.to_nat nblocks) 0 reln f blocknum;
      match res with
      | None => mret false
      | Some pblknos =>
          try_catch (remap_chunks (length pblknos) frame ensure reln f blocknum pblknos;; mret true)
            (λ e, release_range (length pblknos) reln f blocknum;; throw e)
      end.

(** ** Extension *)

(** The per-block path: the first physical block and the length of the run that
    is not materialised yet, and the greatest physical block. *)
Fixpoint zeroextend_blocks (n fuel : nat) (reln : SMgrRelation) (f : ForkNumber)
    (lblk run_start_pblk run_len max_pblkno : Z) : M X Z :=
  match n with
  | O =>
      (if decide (run_len > 0) then file_zeroextend reln f run_start_pblk run_len else mret tt);;
      mret max_pblkno
  | Datatypes.S n =>
      found ← in_map (MapTryLookup env (locator reln) f lblk);
      pblk ← match found with
             | Some p => mret p
             | None =>
                 birth ← um_publish_mapped_birth fuel reln f lblk false;
                 mret (pblkno birth)
             end;
      let max_pblkno :=
        if decide (max_pblkno = InvalidBlockNumber ∨ pblk > max_pblkno) then pblk else max_pblkno in
      let next := u32 (lblk + 1) in
      if decide (run_len = 0) then zeroextend_blocks n fuel reln f next pblk 1 max_pblkno
      else if decide (pblk = u32 (run_start_pblk + run_len))
      then zeroextend_blocks n fuel reln f next run_start_pblk (run_len + 1) max_pblkno
      else file_zeroextend reln f run_start_pblk run_len;;
           zeroextend_blocks n fuel reln f next pblk 1 max_pblkno
  end.

Definition umzeroextend (fuel : nat) (frame : Z) (ensure : nat) (reln : SMgrRelation)
    (f : ForkNumber) (blocknum nblocks : Z) : M X unit :=
  if decide (nblocks ≤ 0) then mret tt
  else
    access ← in_state (um_classify_access reln f);
    if negb (map_available access) then file_zeroextend reln f blocknum nblocks
    else
      done ← um_try_pure_firstborn_range_remap_zeroextend frame ensure reln f blocknum nblocks;
      if (done : bool) then mret tt
      else
        max_pblkno ← zeroextend_blocks (Z.to_nat nblocks) fuel reln f blocknum
                       InvalidBlockNumber 0 InvalidBlockNumber;
        when (bool_decide (max_pblkno ≠ InvalidBlockNumber))
          (in_world (MapSBlockBumpPhysicalNblocks env (locator reln) f (u32 (max_pblkno + 1))
                       InvalidXLogRecPtr));;
        in_world (MapSBlockBumpLogicalNblocks env (locator reln) f (u32 (blocknum + nblocks))
                    InvalidXLogRecPtr).

(** Put a page where it belongs; whether the fork was extended for it. *)
Definition place_page (reln : SMgrRelation) (f : ForkNumber) (pblk materialized_nblocks : Z)
    (buffer : list Z) : M X bool :=
  if decide (materialized_nblocks ≤ pblk) then
    in_state (file_do reln (λ fs, fl_extend fs (locator reln) f pblk buffer));; mret true
  else
    in_state (file_do reln (λ fs, fl_writev (InRecovery env) fs (locator reln) f pblk [buffer]));;
    mret false.

Definition umextend (fuel : nat) (frame : Z) (ensure : nat) (reln : SMgrRelation)
    (f : ForkNumber) (blocknum : Z) (buffer : list Z) : M X unit :=
  access ← in_state (um_classify_access reln f);
  if negb (map_available access)
  then in_state (file_do reln (λ fs, fl_extend fs (locator reln) f blocknum buffer))
  else
    logical_nblocks ← in_state (umnblocks_for_access env reln f access);
    phys ← in_world (MapSBlockTryGetPhysicalNblocks env (locator reln) f);
    when (bool_decide (blocknum > logical_nblocks))
      (umzeroextend fuel frame ensure reln f logical_nblocks (s32 (blocknum - logical_nblocks)));;
    found ← in_map (MapTryLookup env (locator reln) f blocknum);
    birth ← match found with
            | Some p => mret (MkBirth p false)
            | None => um_publish_mapped_birth fuel reln f blocknum true
            end;
    extended ← place_page reln f (pblkno birth) (default 0 phys) buffer;
    when (mapping_published birth)
      (in_world (MapSBlockBumpLogicalNblocks env (locator reln) f (u32 (blocknum + 1))
                   InvalidXLogRecPtr));;
    when (extended && bool_decide (pblkno birth ≠ InvalidBlockNumber))
      (in_world (MapSBlockBumpPhysicalNblocks env (locator reln) f (u32 (pblkno birth + 1))
                   InvalidXLogRecPtr)).
End ops.
