(* ===== verification/SmgrExtendSpec.v ===== *)
(** * Extending a mapped relation by a block

    What [umextend] does at the logical end of a mapped fork, with other
    backends on the same pool: the block gets the next physical block of the
    fork, and either the mapping is logged, published and counted, or the
    claim on it is kept for the WAL record that will publish it. *)

From S2P Require Import Prelude MapLayout Superblock SuperTable FileLayer SmgrFiles SBlock SBlockInv.
From S2P Require Import MapPrealloc SBlockSafety SBlockSpec MapPreallocSpec.
From S2P Require Import BufState MapBuf MapClock PoolInv MapPage MapPageSpec MapEntries.
From S2P Require Import MapCheckpoint MapCheckpointSpec MapRange MapRangeSpec.
From S2P Require Import MapInflight MapInflightSpec MapReserve UmbraXlog.
From S2P Require Import SmgrAccess SmgrSpec SmgrWriteSpec SmgrExtend.

Local Open Scope Z_scope.

Section map_layer.
Context {T F : Type} `{SuperStoreLaws T} `{FileLayerLaws F} (env : Env) (gucs : MapGucs).
Local Abbreviation MS := (MapState T F).
Implicit Types s : MS.

(** Blocks of fork [(r, f)] may appear as zeros; nothing else of a data fork
    changes. *)
Definition data_step (r : RelFileLocator) (f : ForkNumber) (fs fs' : F) : Prop :=
  (∀ r' k b, k ≠ UMBRA_METADATA_FORKNUM → (r', k) ≠ (r, f) → fl_content fs' r' k b = fl_content fs r' k b) ∧
  ∀ b, 0 ≤ b → block_kept (fl_content fs r f b) (fl_content fs' r f b).

Lemma data_step_trans r f fs1 fs2 fs3 :
  data_step r f fs1 fs2 → data_step r f fs2 fs3 → data_step r f fs1 fs3.
Proof.
  intros [O1 K1] [O2 K2]. split; intros.
  - rewrite O2, O1; done.
  - eapply block_kept_trans; [by apply K1|by apply K2].
Qed.

Lemma same_data_step r f fs fs' : f ≠ UMBRA_METADATA_FORKNUM → same_data fs fs' → data_step r f fs fs'.
Proof. intros Hf Hd. split; intros; [by apply Hd|left; by apply Hd]. Qed.

(** No block of a metadata fork disappears. *)
Definition meta_kept (fs fs' : F) : Prop :=
  ∀ r b, 0 ≤ b → is_Some (fl_content fs r UMBRA_METADATA_FORKNUM b) →
    is_Some (fl_content fs' r UMBRA_METADATA_FORKNUM b).

#[global] Instance meta_kept_refl : Reflexive meta_kept.
Proof. intros fs r b Hb. done. Qed.
#[global] Instance meta_kept_trans : Transitive meta_kept.
Proof. intros fs1 fs2 fs3 K1 K2 r b Hb Hs. by apply K2, K1. Qed.

Lemma same_meta_kept fs fs' : same_meta fs fs' → meta_kept fs fs'.
Proof. intros [Hc _] r b _. by rewrite Hc. Qed.

Lemma io_meta_kept (w w' : World T F) : io_step w w' → meta_kept (w_files w) (w_files w').
Proof. by intros (_ & _ & _ & Hk & _). Qed.

(** Maps, sizes and superblock stay; the data forks as in [data_step]. *)
Definition growing (r : RelFileLocator) (f : ForkNumber) s s' : Prop :=
  same_pages s s' ∧ super_ready r s' ∧ data_step r f (files s) (files s').

Lemma growing_trans r f s1 s2 s3 : growing r f s1 s2 → growing r f s2 s3 → growing r f s1 s3.
Proof.
  intros (P1 & _ & D1) (P2 & S2 & D2).
  split_and!; [by eapply same_pages_trans|done|by eapply data_step_trans].
Qed.

Lemma growing_map r f s s' :
  f ≠ UMBRA_METADATA_FORKNUM → super_ready r s → same_map s s' → growing r f s s'.
Proof.
  intros Hf Hs Hm. destruct (same_map_steady r s s' Hm) as (Hp & Hd & Hsu).
  split_and!; [done|by apply Hsu|by apply same_data_step].
Qed.

(** ** Reservation *)

Lemma reserve_frontier_run (w : World T F) r f e p :
  ss_wf (w_store w) → ss_map (w_store w) !! r = Some e → entry_untrusted e = false → fork_mapped f →
  MapSuperGetReservedNextFree e f = Ok p → 0 ≤ p < InvalidBlockNumber - 1 →
  ∃ e', reserve_frontier env r f true w = (Ok (Some p), set_store (ss_put (w_store w) r e') w) ∧
    super e' = super e ∧ eflags e' = eflags e ∧ key e' = key e ∧ in_use e' = in_use e ∧
    fork_reserved e' f = p + 1 ∧ reclaim_boundary e' = reclaim_boundary e.
Proof.
  intros Hwf He Hu Hf Hp Hlim. unfold InvalidBlockNumber in *.
  assert (∃ q, pf_set (reserved_next_free e) f (p + 1) = Some q ∧ pf_get q f = Some (p + 1)) as (q & Hq & Hget)
    by (destruct Hf as [->|[->| ->]]; cbn; eauto).
  exists (with_reserved q e).
  unfold reserve_frontier, find_entry, gets, mbind, M_bind, lift, MapSuperSetReservedNextFree.
  rewrite ss_find_spec, He, Hu, Hp, decide_False by (done || unfold InvalidBlockNumber; lia).
  cbv zeta. rewrite u32_small by (unfold is_u32; lia).
  rewrite normalize_small by (unfold MaxBlockNumber; lia). rewrite Hq.
  split_and!; try done. unfold fork_reserved. cbn. by rewrite Hget.
Qed.

Lemma reserve_frontier_full (w : World T F) r f e p :
  ss_wf (w_store w) → ss_map (w_store w) !! r = Some e → entry_untrusted e = false →
  MapSuperGetReservedNextFree e f = Ok p → p = InvalidBlockNumber - 1 →
  reserve_frontier env r f true w =
    (Err (PgError ERROR ERRCODE_PROGRAM_LIMIT_EXCEEDED "cannot allocate more physical blocks"), w).
Proof.
  intros Hwf He Hu Hp Hfull. unfold reserve_frontier, find_entry, gets, mbind, M_bind, lift.
  by rewrite ss_find_spec, He, Hu, Hp, decide_True.
Qed.

Lemma reserve_frontier_busy (w : World T F) r f : reserve_frontier env r f false w = (Ok None, w).
Proof. unfold reserve_frontier, mbind, M_bind, find_entry, gets. by destruct (ss_find _ _). Qed.

Section reserve.
Context (ks : list Backend) (bars : list (nat * Z)) (s : MS).
Context (r : RelFileLocator) (f : ForkNumber) (l blk idx n p : Z) (pg : list Z) (e : MapSuperEntry).
Context (Hsh : shared ks bars s) (Hrd : ready s r f l blk idx n pg).
Context (Hwf : ss_wf (w_store (ms_world s))) (He : ss_map (w_store (ms_world s)) !! r = Some e).
Context (Hu : entry_untrusted e = false) (Hp : MapSuperGetReservedNextFree e f = Ok p).
Context (Hlim : 0 ≤ p ≤ InvalidBlockNumber - 1).

(** The backend owns the entry with block [p]. *)
Definition claimed_post s' : Prop :=
  shared ks bars s' ∧ growing r f s s' ∧ ∃ i, ms_local s' = ms_local s ++ [MkLocal r f l p i idx].

(** A reservation happens and advances the frontier, or leaves no claim. *)
Definition tried_post (got : bool) (o : option Z) s' : Prop :=
  same_slack bars s s' ∧ meta_kept (files s) (files s') ∧
  match o with
  | Some q => q = p ∧ claimed_post s' ∧ MapInflightLocalFind r f l (ms_local s) = None ∧
      p < InvalidBlockNumber - 1 ∧
      ∃ e', ss_map (w_store (ms_world s')) !! r = Some e' ∧ entry_untrusted e' = false ∧
        fork_reserved e' f = p + 1 ∧ reclaim_boundary e' = reclaim_boundary e
  | None => shared ks bars s' ∧ growing r f s s' ∧ ms_local s' = ms_local s ∧
      w_store (ms_world s') = w_store (ms_world s) ∧
      (got = false ∨ entry_held s (holders (bk_of s bars :: ks)) r f blk idx)
  end.

(** The page of the entry cannot be read, or the fork has no block left. *)
Definition tried_error (er : pg_error) : Prop :=
  read_error (F := F) (ms_sys s) er ∨
  (p = InvalidBlockNumber - 1 ∧
   er = PgError ERROR ERRCODE_PROGRAM_LIMIT_EXCEEDED "cannot allocate more physical blocks").

Lemma reserve_super : super_ready r s ∧ f ≠ UMBRA_METADATA_FORKNUM ∧ MapForkHasMappedState f = true.
Proof using Hsh Hrd Hwf He Hu Hp Hlim.
  destruct Hrd as [Hf _ _ _ _]. split; [split; [done|]; by exists e|].
  by destruct Hf as [->|[->| ->]].
Qed.

(** The claim is ours and the lock of the superblock was obtained. *)
Lemma wp_reserve_claimed s1 i Q (E : pg_error → MS → Prop) :
  shared ks bars s1 → same_map s s1 → same_slack bars s s1 →
  MapInflightLocalFind r f l (ms_local s) = None →
  ms_local s1 = ms_local s ++ [MkLocal r f l InvalidBlockNumber i idx] →
  (p = InvalidBlockNumber - 1 →
     E (PgError ERROR ERRCODE_PROGRAM_LIMIT_EXCEEDED "cannot allocate more physical blocks") s1) →
  (∀ s', tried_post true (Some p) s' → Q (Some p) s') →
  wp (o ← on_world (reserve_frontier env r f true);
      match o with
      | Some next => MapInflightFinishClaim r f l next;; mret (Some next)
      | None => mret None
      end) Q E s1.
Proof using Hsh Hrd Hwf He Hu Hp Hlim.
  intros Hs1 Hm1 Hsl1 Hown Hl1 HE HQ. pose proof Hrd as [Hf _ _ _ _].
  destruct reserve_super as (Hsu & Hnm & _).
  assert (ss_wf (w_store (ms_world s1))) as Hwf1 by (by rewrite (proj1 (proj1 Hm1))).
  assert (ss_map (w_store (ms_world s1)) !! r = Some e) as He1 by (by rewrite (proj1 (proj1 Hm1))).
  apply wp_bind. destruct (decide (p = InvalidBlockNumber - 1)) as [Hfull|Hroom].
  { unfold wp, on_world. rewrite (reserve_frontier_full _ _ _ e p), map_state_eta by done. by apply HE. }
  destruct (reserve_frontier_run (ms_world s1) r f e p) as (e' & Hrun & Es & Ef & Ek & Eu & Er & Eb); [done..|lia|].
  unfold wp at 1, on_world. rewrite Hrun. set (w := set_store _ _).
  assert (∀ r' f', trusted_size (w_store w) r' f' = trusted_size (w_store (ms_world s1)) r' f') as Hts.
  { intros. unfold w. cbn. by apply trusted_put with e. }
  pose proof (shared_world ks bars s1 w Hs1 eq_refl Hts) as Hs2.
  destruct (map_inv_world s1 w (shared_map _ _ _ Hs1) eq_refl Hts) as [_ Hm2].
  set (s2 := MkMapState w (ms_sys s1) (ms_local s1)) in *.
  destruct (ss_key _ _ _ Hwf1 He1) as [Hk Huse].
  destruct (ss_put_spec (w_store (ms_world s1)) r e e') as [Hwf' Hmap]; [done|done|congruence|congruence|].
  assert (ss_map (w_store w) !! r = Some e') as Hget by (cbn; by rewrite Hmap, lookup_insert_eq).
  assert (entry_untrusted e' = false) as Hu' by (unfold entry_untrusted; by rewrite Es, Ef).
  assert (super_ready r s2) as Hsu2 by (split; [exact Hwf'|by exists e']).
  apply wp_bind, (wp_finish_local ks bars s2 r f l p (length (ms_local s))
    (MkLocal r f l InvalidBlockNumber i idx)); [done|cbn; rewrite Hl1; by apply find_last|].
  intros s' Hs' Hm' Hl' Hsl'. apply wp_ret, HQ. split.
  { eapply same_slack_trans; [done|]. eapply (same_slack_trans _ _ s2); [|done]. done. }
  split; [etrans; [apply io_meta_kept, Hm1|]; exact (io_meta_kept _ _ (proj1 Hm'))|].
  split_and!; [done| |done|lia|].
  - split; [done|]. split.
    + eapply growing_trans; [by apply growing_map|]. eapply (growing_trans _ _ _ s2); [|by apply growing_map].
      split_and!; [done|done|by apply same_data_step].
    + exists i. rewrite Hl'. cbn. rewrite Hl1. rewrite alter_app_r_alt, Nat.sub_diag by lia. done.
  - exists e'. by rewrite (proj1 (proj1 Hm')).
Qed.

Lemma wp_reserve_tried got :
  wp (MapTryReserveFreshPblknoInternal env r f l got) (tried_post got) (λ er _, tried_error er) s.
Proof using Hsh Hrd Hwf He Hu Hp Hlim.
  pose proof (shared_map _ _ _ Hsh) as Hinv. pose proof Hrd as [Hf Hl Hloc Hn Hv].
  destruct reserve_super as (Hsu & Hnm & Hms).
  unfold MapTryReserveFreshPblknoInternal. rewrite Hms. cbn [negb]. apply wp_bind.
  assert (MapSBlockEnsureLoaded r (ms_world s) = (Ok true, ms_world s)) as Hload.
  { unfold MapSBlockEnsureLoaded, gets, find_entry, mbind, M_bind. cbn.
    change (w_files (ms_world s)) with (files s). rewrite (mi_exists _ Hinv r f n Hn). cbn.
    by rewrite ss_find_spec, He. }
  unfold wp at 1, on_world. rewrite Hload. cbn [negb]. rewrite map_state_eta.
  apply wp_bind. eapply wp_mono; [apply (wp_try_claim env ks bars s r f l blk idx n pg) with
    (Q := λ g s1, shared ks bars s1 ∧ same_map s s1 ∧ same_slack bars s s1 ∧
       if (g : bool) then MapInflightLocalFind r f l (ms_local s) = None ∧
         ∃ i, ms_local s1 = ms_local s ++ [MkLocal r f l InvalidBlockNumber i idx]
       else ms_local s1 = ms_local s ∧ entry_held s (holders (bk_of s bars :: ks)) r f blk idx);
    [done|done|done|]| |by left].
  { intros s1 i Hs1 Hm1 _ Hown Hl1 Hsl1. split_and!; eauto. }
  intros [] s1 (Hs1 & Hm1 & Hsl1 & Hc); cbn [negb].
  2: { apply wp_ret. split; [done|]. split; [apply io_meta_kept, Hm1|]. destruct Hc as [Hl1 Hheld].
       split_and!; [done|by apply growing_map|done|apply Hm1|by right]. }
  destruct Hc as [Hown [i Hl1]]. apply wp_bind, wp_catch. destruct got.
  { apply (wp_reserve_claimed s1 i); [done..| |intros s' Hs'; by apply wp_ret].
    intros Hfull. apply wp_bind, (wp_release ks bars); [done|]. intros. apply wp_throw. by right. }
  apply wp_bind. unfold wp at 1, on_world. rewrite reserve_frontier_busy, map_state_eta. apply wp_ret, wp_bind, (wp_release ks bars); [done|].
  intros s' Hs' Hm' Hl' Hsl'. apply wp_ret. split; [by eapply same_slack_trans|].
  split; [etrans; [apply io_meta_kept, Hm1|apply io_meta_kept, Hm']|].
  split_and!; [done|eapply growing_map; [done|done|by eapply same_map_trans]
    |rewrite Hl', Hl1; by apply forget_last| |by left].
  by rewrite (proj1 (proj1 Hm')), (proj1 (proj1 Hm1)).
Qed.

Context (Hroom : p < InvalidBlockNumber - 1) (Hown : MapInflightLocalFind r f l (ms_local s) = None).
Context (Hfree : ¬ entry_held s (holders (bk_of s bars :: ks)) r f blk idx).

Lemma wp_reserve_granted :
  wp (MapTryReserveFreshPblknoInternal env r f l true) (λ o s', o = Some p ∧ claimed_post s')
    (λ er _, read_error (F := F) (ms_sys s) er) s.
Proof using Hsh Hrd Hwf He Hu Hp Hlim Hroom Hown Hfree.
  eapply wp_mono; [apply wp_reserve_tried| |].
  - intros [q|] s' (_ & _ & Hs'); [by destruct Hs' as (-> & ? & _)|].
    destruct Hs' as (_ & _ & _ & _ & [?|?]); done.
  - intros er s' [?|[? _]]; [done|lia].
Qed.

Lemma wp_reserve_next :
  wp (MapReserveNextPblkno env r f l true) (λ o s', o = Some p ∧ claimed_post s')
    (λ er _, read_error (F := F) (ms_sys s) er) s.
Proof using Hsh Hrd Hwf He Hu Hp Hlim Hroom Hown Hfree.
  apply wp_bind, wp_gets. rewrite Hown. apply wp_bind.
  eapply wp_mono; [apply wp_reserve_granted| |done]. intros o s' [-> Hs']. by apply wp_ret.
Qed.
End reserve.

(** ** Preallocation *)

(** No size, no map and no trusted superblock is touched. *)
Definition quiet (r : RelFileLocator) (f : ForkNumber) (w w' : World T F) : Prop :=
  world_ready r w' ∧
  (∀ r' g, trusted_size (w_store w') r' g = trusted_size (w_store w) r' g) ∧
  same_meta (w_files w) (w_files w') ∧ data_step r f (w_files w) (w_files w').

Lemma quiet_trans r f w1 w2 w3 : quiet r f w1 w2 → quiet r f w2 w3 → quiet r f w1 w3.
Proof.
  intros (_ & T1 & [C1 E1] & D1) (S2 & T2 & [C2 E2] & D2). split_and!; [done| | |by eapply data_step_trans].
  - intros. by rewrite T2, T1.
  - split; intros; [by rewrite C2, C1|by rewrite E2, E1].
Qed.

Definition prealloc_error (er : pg_error) : Prop :=
  er = PgError ERROR ERRCODE_PROGRAM_LIMIT_EXCEEDED "cannot preallocate physical blocks" ∨
  ∃ (fs : F) r f n, fl_preallocate fs r f n = Err er.

Section prealloc.
Context (r : RelFileLocator) (f : ForkNumber) (Hf : fork_mapped f).

Lemma data_step_refl fs : data_step r f fs fs.
Proof. split; intros; [done|by left]. Qed.

Lemma quiet_refl w e :
  ss_wf (w_store w) → ss_map (w_store w) !! r = Some e → entry_untrusted e = false → quiet r f w w.
Proof. intros. split_and!; [split; [done|by eauto]|done|done|apply data_step_refl]. Qed.

(** Storing an entry with the same superblock and flags. *)
Lemma put_quiet (w : World T F) e e' :
  ss_wf (w_store w) → ss_map (w_store w) !! r = Some e → entry_untrusted e = false →
  super e' = super e → eflags e' = eflags e → key e' = key e → in_use e' = in_use e →
  ∃ w', put_entry r e' w = (Ok tt, w') ∧ quiet r f w w' ∧ ss_map (w_store w') !! r = Some e'.
Proof using Type.
  intros Hwf He Hu Es Ef Ek Eu. destruct (ss_key _ _ _ Hwf He) as [Hk Huse].
  destruct (put_run r w e e') as (-> & Hwf' & Hh & _); [done|done|congruence|congruence|].
  eexists. split; [done|]. split; [|exact Hh]. split_and!; [|intros; by apply trusted_put with e|done|apply data_step_refl].
  split; [done|]. exists e'. split; [exact Hh|]. unfold entry_untrusted. by rewrite Es, Ef.
Qed.

Lemma preallocate_files_quiet (w : World T F) n fs ok :
  world_ready r w → fl_preallocate (w_files w) r f n = Ok (fs, ok) →
  quiet r f w (set_files fs w).
Proof using Hf.
  intros [Hwf Hex] Hp. split_and!; [by split|done| |].
  - split; intros; [|by eapply fl_preallocate_exists]. eapply fl_preallocate_frame; [done|].
    destruct Hf as [->|[->| ->]]; congruence.
  - split; intros; [by eapply fl_preallocate_frame|by eapply fl_preallocate_keep].
Qed.

(** Publishing the capacity and dropping the flag. *)
Lemma prealloc_publish_quiet (w : World T F) n ok e m :
  ss_wf (w_store w) → ss_map (w_store w) !! r = Some e → entry_untrusted e = false →
  trusted_size (w_store w) r f = Some m →
  ∃ w', prealloc_publish env r f n ok w = (Ok tt, w') ∧ quiet r f w w'.
Proof using Hf.
  intros Hwf He Hu Hm. unfold prealloc_publish, mbind at 1, M_bind at 1.
  rewrite (find_run _ _ e) by done.
  destruct (put_quiet w e (clear_prealloc f e)) as (w1 & Hput & Hq & _); [done..|].
  assert (∃ w', put_entry r (clear_prealloc f e) w = (Ok tt, w') ∧ quiet r f w w') as Hsame by eauto.
  destruct (ok && in_use e && _); [|exact Hsame].
  destruct (mapped_getters f (super e) Hf) as [_ (cap & Hcap & _)].
  unfold mbind, M_bind, lift. rewrite Hcap. case_decide; [|exact Hsame].
  destruct (set_capacity_super (super e) f n Hf) as (b & Hb & Hbl). rewrite Hb.
  destruct (same_logical_lsn _ _ (WriteRecPtr env) Hbl) as [Hid Hl].
  unfold mret, M_ret. cbv beta iota.
  change (clear_prealloc f (mark_super_dirty (WriteRecPtr env) (with_super b e)))
    with (mark_super_dirty (WriteRecPtr env) (with_super b (clear_prealloc f e))).
  destruct (put_super_trusted w r f m b (WriteRecPtr env) e (clear_prealloc f e))
    as (w' & -> & Hfs & (Hwf' & _ & Hex) & Ho & Hs & _); [done..|].
  exists w'. split; [done|]. unfold quiet. rewrite Hfs.
  split_and!; [by split| |done|apply data_step_refl].
  intros r' g. destruct (decide (r' = r)) as [->|]; [by apply Hs|by apply Ho].
Qed.

(** The rest of the call, once the flag is ours. *)
Lemma prealloc_run_quiet (w : World T F) bg n e m :
  ss_wf (w_store w) → ss_map (w_store w) !! r = Some e → entry_untrusted e = false →
  trusted_size (w_store w) r f = Some m →
  let '(res, w') := prealloc_run env r f bg n w in
  quiet r f w w' ∧ ∀ er, res = Err er → prealloc_error er.
Proof using Hf.
  intros Hwf He Hu Hm. unfold prealloc_run, catch, prealloc_files, mbind, M_bind, get, lift. cbv beta iota.
  assert (∀ w1 ok, quiet r f w w1 →
    let '(res, w') := (let '(r0, s') := prealloc_publish env r f n ok w1 in
      match r0 with
      | Ok _ => (mret (ok, negb bg && negb ok) : M (World T F) (bool * bool)) s'
      | Err e0 => (Err e0, s')
      end) in quiet r f w w' ∧ ∀ er, res = Err er → prealloc_error er) as Hpub.
  { intros w1 ok Hq. destruct (proj1 Hq) as [Hwf1 (e1 & He1 & Hu1)].
    destruct (prealloc_publish_quiet w1 n ok e1 m) as (w' & -> & Hq'); [done..|by rewrite (proj1 (proj2 Hq))|].
    unfold mret, M_ret. split; [by eapply quiet_trans|done]. }
  destruct (fl_exists_sparse (w_files w) r f); [destruct (fl_preallocate (w_files w) r f n) as [[fs ok]|err] eqn:Hp|].
  - unfold put, mret at 1, M_ret at 1. cbn [fst snd].
    specialize (Hpub (set_files fs w) ok). apply Hpub.
    eapply preallocate_files_quiet; [split; [done|by eauto]|done].
  - unfold prealloc_abort, mbind, M_bind. rewrite (find_run _ _ e) by done.
    destruct (put_quiet w e (clear_prealloc f e)) as (w1 & -> & Hq & _); [done..|].
    unfold throw. split; [done|]. intros er [= <-]. right. by eauto.
  - unfold mret at 1, M_ret at 1. specialize (Hpub w false). apply Hpub. by eapply quiet_refl.
Qed.

Lemma prealloc_quiet (w : World T F) bg e m :
  ss_wf (w_store w) → ss_map (w_store w) !! r = Some e → entry_untrusted e = false →
  trusted_size (w_store w) r f = Some m →
  let '(res, w') := MapMaybePreallocateFork env gucs r f bg w in
  quiet r f w w' ∧ ∀ er, res = Err er → prealloc_error er.
Proof using Hf.
  intros Hwf He Hu Hm. assert (quiet r f w w) as Hid by (by eapply quiet_refl).
  unfold MapMaybePreallocateFork. destruct (negb _); [done|].
  destruct (MapForkPreallocSettings gucs f) as [[[soft hard] batch]|]; [|done].
  unfold mbind at 1, M_bind at 1, MapSBlockEnsureLoaded, gets, mbind at 1, M_bind at 1.
  destruct (fl_exists (w_files w) r UMBRA_METADATA_FORKNUM); cbn [negb]; [|done].
  unfold mbind at 1, M_bind at 1. rewrite (find_run _ _ e) by done.
  unfold mret at 1, M_ret at 1. unfold prealloc_claim, mbind at 1 2, M_bind at 1 2.
  rewrite (find_run _ _ e) by done. destruct (negb (in_use e) || _); [done|]. rewrite Hu.
  destruct (mapped_getters f (super e) Hf) as [_ (cap & Hcap & _)].
  assert (∃ v, MapSuperGetReservedNextFree e f = Ok v) as [v Hv]
    by (unfold MapSuperGetReservedNextFree; destruct Hf as [->|[->| ->]]; cbn; eauto).
  unfold mbind, M_bind, lift. rewrite Hv, Hcap. cbv zeta.
  destruct (decide (v < soft)); [done|]. destruct (decide (soft < _)); [done|].
  destruct (negb bg && _); [done|]. destruct (has_flag (runtime_flags e) _); [done|].
  destruct (decide (InvalidBlockNumber - 1 < _)); [split; [done|]; intros er [= <-]; by left|].
  destruct (decide (u32 _ ≤ _)); [done|].
  destruct (put_quiet w e (with_runtime (Z.lor (runtime_flags e) (MapSuperPreallocFlag f)) e))
    as (w1 & -> & Hq & He1); [done..|]. unfold mret, M_ret.
  destruct (proj1 Hq) as [Hwf1 _].
  pose proof (prealloc_run_quiet w1 bg (u32 (u64 (MapNormalizeForkBlockCount f cap + batch) `max` u64 (v + batch)))
    _ m Hwf1 He1 ltac:(done) ltac:(by rewrite (proj1 (proj2 Hq)))) as Hrun.
  destruct (prealloc_run _ _ _ _ _ _) as [res w']. destruct Hrun as [Hq' Her].
  split; [by eapply quiet_trans|done].
Qed.
End prealloc.

Lemma shared_files ks bars s fs :
  shared ks bars s → same_meta (files s) fs → shared ks bars (with_files fs s).
Proof.
  intros [Hid [Hm Hpi Hnd Hmk Hr Ho Hh]] Hfs. split; [done|]. split; try done.
  intros k Hk. by apply (map_inv_files (view (ms_world s) (pool (ms_sys s)) k) fs); [apply Hm|].
Qed.

Lemma shared_quiet ks bars s r f w :
  shared ks bars s → quiet r f (ms_world s) w →
  shared ks bars (MkMapState w (ms_sys s) (ms_local s)) ∧
  growing r f s (MkMapState w (ms_sys s) (ms_local s)).
Proof.
  intros Hsh (Hw & Hts & Hm & Hd). pose proof (shared_files ks bars s (w_files w) Hsh Hm) as Hs1.
  pose proof (shared_map _ _ _ Hs1) as Hi1.
  destruct (map_inv_world (with_files (w_files w) s) w Hi1 eq_refl Hts) as [_ Hp].
  split; [by apply (shared_world ks bars (with_files (w_files w) s))|]. split_and!; [|done|done].
  eapply same_pages_trans; [|exact Hp]. split; [done|]. intros. by apply map_page_files.
Qed.

Lemma wp_preallocate ks bars s r f n :
  shared ks bars s → super_ready r s → fork_mapped f → trusted_size (w_store (ms_world s)) r f = Some n →
  wp (maybe_preallocate env gucs r f)
    (λ _ s', shared ks bars s' ∧ growing r f s s' ∧ ms_local s' = ms_local s)
    (λ er _, prealloc_error er) s.
Proof.
  intros Hsh Hsu Hf Hn. unfold maybe_preallocate.
  destruct (negb (InRecovery env)); cbn [when].
  2: { apply wp_ret. split_and!; [done|split_and!; [done|done|by split; [|left]]|done]. }
  apply wp_bind. destruct Hsu as [Hwf (e & He & Hu)].
  pose proof (prealloc_quiet r f Hf (ms_world s) false e n Hwf He Hu Hn) as Hq.
  unfold wp at 1, on_world. destruct (MapMaybePreallocateFork _ _ _ _ _ _) as [[x|er] w].
  - destruct (shared_quiet ks bars s r f w Hsh (proj1 Hq)) as [Hs' Hg]. by apply wp_ret.
  - by apply Hq.
Qed.

(** ** Reservation with its loop *)

(** An entry that is held after quiet steps was held before. *)
Lemma held_back ks bars s s' r f blk idx :
  shared ks bars s → same_backend s s' →
  entry_held s' (holders (bk_of s' bars :: ks)) r f blk idx →
  entry_held s (holders (bk_of s bars :: ks)) r f blk idx.
Proof.
  intros Hsh (_ & Hlo & Hk) (i & b & Hb & Ht & Hin).
  assert (holders (bk_of s' bars :: ks) = holders (bk_of s bars :: ks)) as Hhs
    by (rewrite !holders_cons; unfold bk_holds; cbn; by rewrite Hlo).
  rewrite Hhs in Hin. destruct (keeps_back _ _ i b Hk Hb) as (b0 & Hb0 & _ & Hpc & Hsm).
  exists i, b0. split_and!; [done| |done]. destruct Hsm as [(? & ? & ? & _)|[Hz _]].
  - unfold tagged in *. intuition congruence.
  - pose proof (si_marked _ _ _ (proj2 Hsh) i b0 Hb0) as Hmk. apply held_at_in in Hin.
    rewrite (mk_count _ _ _ Hmk) in Hz. lia.
Qed.

Definition birth_error (er : pg_error) : Prop := range_error (F := F) er ∨ prealloc_error er.

Section birth.
Context (sleep : MS → MS) (ks : list Backend) (bars : list (nat * Z)) (s : MS).
Context (r : RelFileLocator) (f : ForkNumber) (n blk idx p : Z) (pg : list Z) (e : MapSuperEntry).
Context (Hsh : shared ks bars s) (Hrd : ready s r f n blk idx n pg).
Context (Hwf : ss_wf (w_store (ms_world s))) (He : ss_map (w_store (ms_world s)) !! r = Some e).
Context (Hu : entry_untrusted e = false) (Hp : MapSuperGetReservedNextFree e f = Ok p).
Context (Hlim : 0 ≤ p < InvalidBlockNumber - 1).
Context (Hown : MapInflightLocalFind r f n (ms_local s) = None).
Context (Hfree : ¬ entry_held s (holders (bk_of s bars :: ks)) r f blk idx).
Context (Hunmapped : entry_of pg idx = InvalidBlockNumber) (Hrec : InRecovery env = false).

Lemma birth_fork : f ≠ UMBRA_METADATA_FORKNUM ∧ fork_mapped f ∧ super_ready r s.
Proof using All.
  destruct Hrd as [Hf _ _ _ _]. split; [|split; [done|]].
  - destruct Hf as [->|[->| ->]]; discriminate.
  - split; [done|]. by exists e.
Qed.

Lemma wp_get_new fuel :
  (0 < fuel)%nat →
  wp (MapGetNewPbkno env gucs sleep fuel r f n)
    (λ res s', res = (p, InvalidBlockNumber) ∧ claimed_post ks bars s r f n idx p s')
    (λ er _, birth_error er) s.
Proof using All.
  intros Hfu. destruct birth_fork as (Hnm & Hf & Hsu). pose proof Hrd as [_ Hl Hloc Hn Hv].
  unfold MapGetNewPbkno. rewrite Hrec. cbn [andb]. destruct fuel as [|fuel]; [lia|]. apply wp_bind.
  cbn [get_new_pbkno]. apply wp_bind.
  eapply wp_mono; [eapply (wp_lookup env s r f n) with (Q := λ o s', o = None ∧ calm s s');
    [by eapply shared_map|done..|]| |].
  { intros o s' (-> & Hi' & Hs' & Hb'). split; [|done]. unfold mapped_block. by rewrite Hunmapped, decide_True. }
  2: { intros er ? Her. left. exists (ms_sys s). by left. }
  intros o s1 (-> & Hc). pose proof Hc as (Hi1 & Hm1 & Hb1). apply wp_bind.
  assert (shared ks bars s1) as Hs1 by (by apply (shared_same ks bars s)).
  assert (MapInflightLocalFind r f n (ms_local s1) = None) as Hown1 by (by rewrite (proj1 (proj2 Hb1))).
  eapply wp_mono; [apply (wp_reserve_next ks bars s1 r f n blk idx n p pg e); [done| | | |done|done|lia|lia|done|]| |].
  - split; [done|done|done|by rewrite (proj1 (proj1 Hm1))|by rewrite (proj2 Hm1)].
  - by rewrite (proj1 (proj1 Hm1)).
  - by rewrite (proj1 (proj1 Hm1)).
  - intros Hh. apply Hfree. by eapply held_back.
  - intros o s2 (-> & Hs2 & Hg2 & i & Hl2). apply wp_ret, wp_bind.
    assert (growing r f s s2) as Hg by (by eapply growing_trans; [apply growing_map|]).
    rewrite (proj1 (proj2 Hb1)) in Hl2.
    eapply wp_mono; [apply (wp_preallocate ks bars s2 r f n); [done|apply Hg|done|]| |].
    + by rewrite (proj1 (proj1 Hg)).
    + intros _ s3 (Hs3 & Hg3 & Hl3). apply wp_ret. split; [done|]. split; [done|].
      split; [by eapply growing_trans|]. exists i. by rewrite Hl3.
    + intros er ? Her. by right.
  - intros er ? Her. left. exists (ms_sys s1). by left.
Qed.
End birth.

(** ** Between the mapping and the size

    After the mapping of the block at the end was set, its page may lie outside
    the logical size.  The state is described by what it becomes when the size
    is raised. *)

Section pending.
Context (ks : list Backend) (bars : list (nat * Z)) (s : MS).
Context (r : RelFileLocator) (f : ForkNumber) (n blk idx p : Z) (pg : list Z).

Definition grown (w : World T F) : Prop :=
  ∀ r' g, trusted_size (w_store w) r' g =
    if decide ((r', g) = (r, f)) then Some (n + 1) else trusted_size (w_store (ms_world s)) r' g.

(** The map with the new entry. *)
Definition remapped s' : Prop :=
  ∀ r' f' blk', 0 < blk' ≤ MaxBlockNumber → map_page s' r' f' blk' =
    if decide ((r', f', blk') = (r, f, blk)) then Some (<[Z.to_nat idx := p]> pg)
    else map_page s r' f' blk'.

Record unsized s' : Prop := {
  us_super : super_ready r s';
  us_sizes : ∀ r' g, trusted_size (w_store (ms_world s')) r' g = trusted_size (w_store (ms_world s)) r' g;
  us_grow : ∀ w, grown w → same_meta (files s') (w_files w) →
    let s1 := MkMapState w (ms_sys s') (ms_local s') in shared ks bars s1 ∧ remapped s1;
}.

Lemma unsized_files s' fs : unsized s' → same_meta (files s') fs → unsized (with_files fs s').
Proof.
  intros [Hsu Hsz Hg] [Hc Hex]. split; [done|done|]. intros w Hw [Hc' Hex'].
  apply (Hg w Hw). change (files (with_files fs s')) with fs in *.
  split; intros; [by rewrite Hc', Hc|by rewrite Hex', Hex].
Qed.

Lemma unsized_world s' w :
  unsized s' → world_ready r w → w_files w = files s' →
  (∀ r' g, trusted_size (w_store w) r' g = trusted_size (w_store (ms_world s')) r' g) →
  unsized (MkMapState w (ms_sys s') (ms_local s')).
Proof.
  intros [Hsu Hsz Hg] Hw Hfs Hts. split; [done| |].
  - intros. cbn [ms_world]. by rewrite Hts.
  - intros w1 Hw1 Hm. apply (Hg w1 Hw1). unfold files in *. cbn [ms_world] in Hm. by rewrite <-Hfs.
Qed.

Context (Hsh : shared ks bars s) (Hrd : ready s r f n blk idx n pg) (Hsu : super_ready r s).
Context (Hp : 0 ≤ p < InvalidBlockNumber - 1) (Hnz : nonzero (<[Z.to_nat idx := p]> pg)).
Context (Hmax : n < MaxBlockNumber).

Lemma wp_set_unsized lsn :
  wp (MapSetMapping env r f n p lsn)
    (λ _ s', unsized s' ∧ ms_local s' = ms_local s ∧ same_data (files s) (files s'))
    (λ er _, set_error (F := F) (ms_sys s) er) s.
Proof using All.
  destruct Hrd as [Hf Hl Hloc Hn Hv]. pose proof (shared_map _ _ _ Hsh) as Hinv.
  assert (is_u32 p) as Hp' by (unfold is_u32, InvalidBlockNumber in *; lia).
  destruct (entry_location_ok f n blk idx Hf Hl Hloc) as (Eb & _ & Hpos & Hdec).
  eapply (wp_set env s r f n); [done..|]. intros i s' (Hb & Hst & Hbk & (b & Hbi & Ht & Hd) & Hpg & Hv').
  rewrite Eb in Ht, Hdec. split; [|split; [apply Hbk|apply Hst]]. split.
  - unfold super_ready, world_ready. by rewrite (proj1 Hst).
  - intros. by rewrite (proj1 Hst).
  - intros w Hw Hm s1. set (w0 := set_files (files s') w).
    destruct (grow_inv s' i b r f n (<[Z.to_nat idx := p]> pg) w0) as [Hi Hpages];
      [done..|by rewrite (proj1 Hst)|done|intros; cbn; rewrite Hw, (proj1 Hst); done|].
    set (s0 := MkMapState w0 (ms_sys s') (ms_local s')) in *.
    assert (s1 = with_files (w_files w) s0) as ->
      by (unfold s1, s0, w0, with_files, set_files; by destruct w).
    assert (same_meta (files s0) (w_files w)) as Hm' by done. split.
    + apply (shared_files ks bars s0); [|done]. by apply (shared_same ks bars s).
    + intros r' f' blk' Hblk. rewrite map_page_files by done. rewrite Hpages by done. apply Hv'.
Qed.

Lemma unsized_size s' : unsized s' → trusted_size (w_store (ms_world s')) r f = Some n.
Proof using Hrd. intros Hus. rewrite (us_sizes _ Hus). apply Hrd. Qed.

Lemma wp_next_unsized s' lsn :
  unsized s' →
  wp (on_world (MapSBlockBumpNextFreePhysBlock env r f (u32 (p + 1)) lsn))
    (λ _ s2, unsized s2 ∧ ms_local s2 = ms_local s' ∧ files s2 = files s') (λ _ _, False) s'.
Proof using All.
  intros Hus. destruct (us_super _ Hus) as [Hwf (e & He & Hu)]. destruct Hrd as [Hf _ _ _ _].
  unfold InvalidBlockNumber in *. rewrite u32_small by (unfold is_u32; lia).
  destruct (bump_physical_trusted env (ms_world s') r f n (p + 1) true false lsn e)
    as (w' & e' & Hrun & Hfs & Hwf' & He' & Hu' & _ & Hts);
    [done..|by apply unsized_size|unfold MaxBlockNumber; lia|].
  unfold wp, on_world, MapSBlockBumpNextFreePhysBlock. rewrite Hrun.
  split; [apply unsized_world; try done; split; [done|by eauto]|done].
Qed.

(** Raising the size. *)
Lemma wp_size_unsized s' lsn :
  unsized s' →
  wp (on_world (MapSBlockBumpLogicalNblocks env r f (n + 1) lsn))
    (λ _ s2, shared ks bars s2 ∧ remapped s2 ∧ grown (ms_world s2) ∧ super_ready r s2 ∧
       ms_local s2 = ms_local s' ∧ ms_sys s2 = ms_sys s' ∧ files s2 = files s') (λ _ _, False) s'.
Proof using All.
  intros Hus. destruct (us_super _ Hus) as [Hwf (e & He & Hu)]. destruct Hrd as [Hf Hl _ _ _].
  unfold is_u32 in Hl. destruct (update_trusted env (ms_world s') r f n (n + 1) lsn true e)
    as (w' & Hrun & Hfs & (Hwf' & _ & Hex) & Hts); [done..|by apply unsized_size|lia|lia|].
  unfold wp, on_world, MapSBlockBumpLogicalNblocks. rewrite Hrun.
  assert (grown w') as Hg by (intros r' g; rewrite Hts, (us_sizes _ Hus); done).
  destruct (us_grow _ Hus w' Hg) as [Hsh' Hrm]; [unfold files; by rewrite Hfs|].
  split_and!; [done|done|done|by split|done|done|done].
Qed.

(** Releasing a claim looks at nothing but the pool and the private table. *)
Lemma release_world l w w' sys loc res s' :
  MapInflightRelease (T := T) (F := F) r f l (MkMapState w sys loc) = (res, s') →
  s' = MkMapState w (ms_sys s') (ms_local s') ∧
  MapInflightRelease (T := T) (F := F) r f l (MkMapState w' sys loc) =
    (res, MkMapState w' (ms_sys s') (ms_local s')).
Proof using Type.
  unfold MapInflightRelease, mbind, M_bind, gets, on_local, modify, on_sys. cbn [ms_local ms_world ms_sys].
  destruct (MapInflightLocalFind r f l loc) as [[i e]|]; [|by intros [= <- <-]].
  cbn [ms_local ms_world ms_sys]. destruct (MapInflightBufferRelease _ _ _) as [? ?].
  by intros [= <- <-].
Qed.

Lemma wp_release_unsized s' :
  unsized s' →
  wp (MapInflightRelease r f n)
    (λ _ s2, unsized s2 ∧ ms_local s2 = MapInflightLocalForget r f n (ms_local s') ∧
       ms_world s2 = ms_world s') (λ _ _, False) s'.
Proof using All.
  intros Hus. pose proof (wp_size_unsized s' InvalidXLogRecPtr Hus) as Hsz.
  unfold wp, on_world in Hsz. destruct (MapSBlockBumpLogicalNblocks _ _ _ _ _ _) as [[?|?] w0]; [|done].
  destruct Hsz as (Hs0 & _). destruct s' as [w sys loc]. cbn [ms_world ms_sys ms_local] in Hs0.
  assert (∀ w1, shared ks bars (MkMapState w1 sys loc) →
    wp (MapInflightRelease r f n) (λ _ s2, shared ks bars s2 ∧ same_map (MkMapState w1 sys loc) s2 ∧
      ms_local s2 = MapInflightLocalForget r f n loc) (λ _ _, False) (MkMapState w1 sys loc)) as Hrel.
  { intros w1 Hw1. by apply (wp_release ks bars). }
  unfold wp. destruct (MapInflightRelease r f n (MkMapState w sys loc)) as [res s2] eqn:Hrun.
  destruct (release_world n w w0 sys loc res s2 Hrun) as [Es H0'].
  pose proof (Hrel w0 Hs0) as Hr0. unfold wp in Hr0. rewrite H0' in Hr0.
  destruct res as [u|]; [|done]. destruct Hr0 as (_ & _ & Hlo). cbn [ms_local] in Hlo.
  split_and!; [|done|by rewrite Es]. destruct Hus as [Hsu' Hsz' Hg]. rewrite Es. split; [done|done|].
  intros w1 Hw1 Hm. cbn [ms_sys ms_local]. destruct (Hg w1 Hw1 Hm) as [Hs1 Hrm1]. cbn [ms_sys ms_local] in *.
  destruct (release_world n w w1 sys loc _ s2 Hrun) as [_ H1'].
  pose proof (Hrel w1 Hs1) as Hr1. unfold wp in Hr1. rewrite H1' in Hr1.
  destruct Hr1 as (Hs2 & Hm2 & _). split; [done|]. intros r' f' blk' Hb'.
  rewrite (proj2 Hm2). by apply Hrm1.
Qed.
End pending.

(** Raising the physical size leaves maps and sizes alone. *)
Lemma wp_capacity ks bars s r f m v lsn :
  shared ks bars s → super_ready r s → fork_mapped f → trusted_size (w_store (ms_world s)) r f = Some m →
  wp (on_world (MapSBlockBumpPhysicalNblocks env r f v lsn))
    (λ _ s', shared ks bars s' ∧ same_pages s s' ∧ ms_local s' = ms_local s ∧ files s' = files s)
    (λ _ _, False) s.
Proof.
  intros Hsh [Hwf (e & He & Hu)] Hf Hm.
  destruct (bump_physical_trusted env (ms_world s) r f m v false true lsn e)
    as (w' & e' & Hrun & Hfs & _ & _ & _ & _ & Hts); [done..|].
  unfold wp, on_world, MapSBlockBumpPhysicalNblocks. rewrite Hrun. destruct (map_inv_world s w') as [_ Hp]; [by eapply shared_map|done|done|].
  split_and!; [by apply shared_world|done..].
Qed.
End map_layer.

(** ** The storage manager *)

Section smgr.
Context {T F : Type} `{SuperStoreLaws T} `{FileLayerLaws F} `{!DataFiles F} `{!DataFilesLaws F}.
Context (env : Env) (gucs : MapGucs) (sleep : MapState T F → MapState T F).
Context (wal_insert : bool) (advance : Z → Z → Z).
Local Abbreviation MS := (MapState T F).
Local Abbreviation S := (SmgrState T F).
Local Abbreviation X := (XState T F).

Definition x_map (x : X) : MS := sm_map (x_smgr x).
Definition x_at (x : X) (ms : MS) : X := MkX (at_map (x_smgr x) ms) (x_wal x) (x_delay_start x).

Lemma wp_in_state {A} (m : M S A) Q (E : pg_error → X → Prop) x :
  wp m (λ a s, Q a (MkX s (x_wal x) (x_delay_start x)))
    (λ e s, E e (MkX s (x_wal x) (x_delay_start x))) (x_smgr x) → wp (in_state m) Q E x.
Proof. unfold wp, in_state. by destruct (m (x_smgr x)) as [[]]. Qed.

Lemma wp_in_map {A} (m : M MS A) Q (E : pg_error → X → Prop) x :
  wp m (λ a ms, Q a (x_at x ms)) (λ e ms, E e (x_at x ms)) (x_map x) → wp (in_map m) Q E x.
Proof. intros Hm. apply wp_in_state, wp_on_map, Hm. Qed.

Lemma wp_critical {A} (m : M X A) Q (E : pg_error → X → Prop) x :
  wp m Q (λ e x', E (PgError PANIC (err_code e) (err_msg e)) x') x → wp (critical m) Q E x.
Proof. intros Hm. by apply wp_catch. Qed.

Lemma wp_delaying {A} (m : M X A) Q (E : pg_error → X → Prop) x :
  wp m (λ a x', Q a (MkX (x_smgr x') (x_wal x') (x_delay_start x))) E
    (MkX (x_smgr x) (x_wal x) true) →
  wp (delaying_checkpoints m) Q E x.
Proof.
  intros Hm. apply wp_bind, wp_gets, wp_bind, wp_modify, wp_bind.
  eapply wp_mono; [exact Hm| |done]. intros a x' HQ. by apply wp_bind, wp_modify, wp_ret.
Qed.

(** An error of the map or of the files, or one turned into a [PANIC] by the
    critical section. *)
Definition extend_error (e : pg_error) : Prop :=
  ∃ e0, (e = e0 ∨ e = PgError PANIC (err_code e0) (err_msg e0)) ∧
    (birth_error (F := F) e0 ∨ (∃ (fs : F) r k b d, fl_extend fs r k b d = Err e0) ∨
     ∃ (fs : F) lenient r k b ds, fl_writev lenient fs r k b ds = Err e0).

Lemma extend_birth e : birth_error (F := F) e → extend_error e.
Proof. exists e. auto. Qed.

Section extend.
Context (ks : list Backend) (bars : list (nat * Z)) (x : X) (reln : SMgrRelation) (f : ForkNumber).
Context (n blk idx p : Z) (pg : list Z) (e : MapSuperEntry).
Local Abbreviation r := (locator reln).
Local Abbreviation s := (x_map x).
Context (Hreln : mapped_reln (x_smgr x) reln f).
Context (Hsh : shared ks bars s) (Hrd : ready s r f n blk idx n pg).
Context (Hwf : ss_wf (w_store (ms_world s))) (He : ss_map (w_store (ms_world s)) !! r = Some e).
Context (Hu : entry_untrusted e = false) (Hp : MapSuperGetReservedNextFree e f = Ok p).
Context (Hlim : 0 ≤ p < InvalidBlockNumber - 1) (Hmax : n < MaxBlockNumber).
Context (Hown : MapInflightLocalFind r f n (ms_local s) = None).
Context (Hfree : ¬ entry_held s (holders (bk_of s bars :: ks)) r f blk idx).
Context (Hunmapped : entry_of pg idx = InvalidBlockNumber) (Hrec : InRecovery env = false).
Context (Hnz : nonzero (<[Z.to_nat idx := p]> pg)).

(** The first WAL record of the page publishes the mapping. *)
Definition wal_owned : bool := wal_insert && um_fork_uses_wal_owned_firstborn f.

(** What has been logged. *)
Definition logged_birth : Wal :=
  if wal_owned || negb wal_insert then x_wal x
  else
    let rec := XlMapSet (MkMapSet r f n InvalidBlockNumber p) in
    let lsn := advance (wal_end (x_wal x)) (Z.of_nat (length (umbra_data rec))) in
    MkWal lsn (wal_records (x_wal x) ++ [(lsn, rec)]).

Definition birth_post (res : UmbraMappedBirthResult) (x' : X) : Prop :=
  res = MkBirth p (negb wal_owned) ∧ x' = MkX (at_map (x_smgr x) (x_map x')) logged_birth (x_delay_start x) ∧
  data_step r f (files s) (files (x_map x')) ∧
  if wal_owned then claimed_post ks bars s r f n idx p (x_map x')
  else unsized ks bars s r f n blk idx p pg (x_map x') ∧ ms_local (x_map x') = ms_local s.

Lemma unsized_base (sb s' : MS) :
  same_pages s sb → unsized ks bars sb r f n blk idx p pg s' → unsized ks bars s r f n blk idx p pg s'.
Proof using Type.
  intros [Es Em] [Hsu Hsz Hg]. split; [done|intros; by rewrite Hsz, Es|]. intros w Hw Hm.
  destruct (Hg w) as [Hs Hr]; [intros r' g; rewrite Hw, Es; done|done|]. split; [done|].
  intros r' f' blk' Hb'. rewrite Hr, Em by done. done.
Qed.

(** Setting the mapping and the frontier in a state where the block is claimed. *)
Lemma wp_publish_birth x1 lsn :
  claimed_post ks bars s r f n idx p (x_map x1) →
  wp (publish_birth env reln f n p lsn)
    (λ _ x2, x2 = x_at x1 (x_map x2) ∧ unsized ks bars s r f n blk idx p pg (x_map x2) ∧
       ms_local (x_map x2) = ms_local (x_map x1) ∧ data_step r f (files s) (files (x_map x2)))
    (λ er _, birth_error (F := F) er) x1.
Proof using All.
  intros (Hs1 & (Hpg1 & Hsu1 & Hd1) & _). pose proof Hrd as [Hf Hl Hloc Hn Hv].
  assert (f ≠ UMBRA_METADATA_FORKNUM) as Hnm by (destruct Hf as [->|[->| ->]]; discriminate).
  assert (ready (x_map x1) r f n blk idx n pg) as Hrd1
    by (split; [done|done|done|by rewrite (proj1 Hpg1)|by rewrite (proj2 Hpg1)]).
  apply wp_bind, wp_in_map. eapply wp_mono; [by eapply (wp_set_unsized env gucs ks bars (x_map x1))| |].
  2: { intros er ? Her. left. by exists (ms_sys (x_map x1)). }
  intros _ s2 (Hus & Hlo & Hd2). apply wp_in_state, wp_on_map. cbn [x_smgr x_at sm_map at_map].
  eapply wp_mono; [by eapply (wp_next_unsized env gucs ks bars (x_map x1))| |done].
  intros _ s3 (Hus3 & Hlo3 & Hfs3). change (x_map (MkX (at_map (at_map (x_smgr x1) s2) s3) _ _)) with s3.
  split; [done|]. split; [by eapply unsized_base|]. split; [by rewrite Hlo3, Hlo|].
  rewrite Hfs3. eapply data_step_trans; [done|]. by apply same_data_step.
Qed.

Lemma wal_owned_available Q (E : pg_error → X → Prop) x1 :
  x_smgr x1 = at_map (x_smgr x) (x_map x1) → Q wal_owned x1 →
  wp (if true && wal_insert then in_state (UmWalOwnedFirstbornAvailable wal_insert reln f)
      else mret false) Q E x1.
Proof using Hreln.
  intros Ex HQ. unfold wal_owned in HQ. destruct wal_insert; cbn [andb] in *; [|by apply wp_ret].
  apply wp_in_state, wp_bind, wp_classify; [destruct Hreln; rewrite Ex; by split|].
  apply wp_ret. cbn. by destruct x1.
Qed.

(** The claim of the published block is given back. *)
Lemma wp_release_birth x1 lo :
  unsized ks bars s r f n blk idx p pg (x_map x1) → data_step r f (files s) (files (x_map x1)) →
  MapInflightLocalForget r f n (ms_local (x_map x1)) = lo →
  wp (in_map (MapInflightRelease r f n))
    (λ _ x2, x2 = x_at x1 (x_map x2) ∧ unsized ks bars s r f n blk idx p pg (x_map x2) ∧
       ms_local (x_map x2) = lo ∧ data_step r f (files s) (files (x_map x2)))
    (λ _ _, False) x1.
Proof using All.
  intros Hus Hd Hlo. apply wp_in_map.
  assert (super_ready r s) as Hsu by (split; [done|by eauto]).
  eapply wp_mono; [by eapply (wp_release_unsized env gucs ks bars s)| |done].
  intros _ s2 (Hus2 & Hlo2 & Hw2). change (x_map (x_at x1 s2)) with s2. unfold files. rewrite Hw2.
  split_and!; [done|done|by rewrite Hlo2|done..].
Qed.

Lemma wp_birth fuel :
  (0 < fuel)%nat →
  wp (um_publish_mapped_birth env gucs sleep wal_insert advance fuel reln f n true) birth_post
    (λ er _, extend_error er) x.
Proof using All.
  intros Hfu. unfold um_publish_mapped_birth. rewrite Hrec. cbn [andb].
  apply wp_bind, wp_in_map. eapply wp_mono;
    [by eapply (wp_get_new env gucs sleep ks bars s r f n blk idx p pg e)| |intros; by apply extend_birth].
  intros res s1 [-> Hcl]. pose proof Hcl as (_ & (_ & _ & Hd1) & i & Hl1).
  apply wp_bind, wal_owned_available; [done|]. unfold birth_post, logged_birth.
  destruct wal_owned eqn:Ho.
  { apply wp_ret. split_and!; [done|done|done|done]. }
  assert (MapInflightLocalForget r f n (ms_local s1) = ms_local s) as Hfg
    by (rewrite Hl1; by apply forget_last).
  assert (∀ wal x2, x2 = MkX (at_map (x_smgr x) (x_map x2)) wal (x_delay_start x) →
    unsized ks bars s r f n blk idx p pg (x_map x2) → ms_local (x_map x2) = ms_local s1 →
    data_step r f (files s) (files (x_map x2)) →
    wp (in_map (MapInflightRelease r f n);; mret (MkBirth p true))
      (λ res x', res = MkBirth p true ∧ x' = MkX (at_map (x_smgr x) (x_map x')) wal (x_delay_start x) ∧
         data_step r f (files s) (files (x_map x')) ∧
         unsized ks bars s r f n blk idx p pg (x_map x') ∧ ms_local (x_map x') = ms_local s)
      (λ er _, extend_error er) x2) as Hend.
  { intros wal x2 E2 Hus Hlo Hd2. apply wp_bind. eapply wp_mono;
      [apply (wp_release_birth x2 (ms_local s)); [done|done|by rewrite Hlo]| |done].
    intros _ x3 (E3 & Hus3 & Hlo3 & Hd3). apply wp_ret. split_and!; try done. by rewrite E3, E2. }
  apply wp_bind. destruct wal_insert; cbn [orb negb].
  - apply wp_critical, wp_delaying, wp_bind. unfold wp at 1, in_wal. cbn [x_wal log_umbra_map_set XLogInsert].
    set (wal := MkWal _ _). eapply wp_mono; [apply wp_publish_birth; exact Hcl| |].
    + intros _ x2 (E2 & Hus & Hlo & Hd2). apply (Hend wal); [by rewrite E2|done|done|done].
    + intros er x2 Her. exists er. split; [by right|]. by left.
  - eapply wp_mono; [apply wp_publish_birth; exact Hcl| |].
    + intros _ x2 (E2 & Hus & Hlo & Hd2). apply (Hend (x_wal x)); [by rewrite E2|done|done|done].
    + intros er x2 Her. by apply extend_birth.
Qed.

(** ** The page *)

Context (buffer : list Z) (Hbuf : full_block buffer).

(** The buffer is in block [p], the rest of the data forks is kept. *)
Definition placed (fs fs' : F) : Prop :=
  fl_content fs' r f p = Some buffer ∧
  (∀ r' k b, k ≠ UMBRA_METADATA_FORKNUM → (r', k) ≠ (r, f) → fl_content fs' r' k b = fl_content fs r' k b) ∧
  ∀ b, 0 ≤ b → b ≠ p → block_kept (fl_content fs r f b) (fl_content fs' r f b).

Lemma run_frame_placed fs1 fs2 fs3 :
  data_step r f fs1 fs2 → run_frame fs2 fs3 r f p 1 → fl_content fs3 r f p = Some buffer →
  placed fs1 fs3 ∧ same_meta fs2 fs3.
Proof using All.
  intros [O1 K1] (O2 & K2 & E2) Hc. assert (f ≠ UMBRA_METADATA_FORKNUM) as Hnm
    by (destruct Hreln as [_ _ [->|[->| ->]]]; discriminate).
  split; [split_and!; [done|..]|split; [intros; apply O2; congruence|done]].
  - intros. rewrite O2, O1; done.
  - intros b Hb Hne. eapply block_kept_trans; [by apply K1|]. apply K2. lia.
Qed.

Lemma wp_place x1 m :
  data_step r f (files s) (files (x_map x1)) →
  wp (place_page env reln f p m buffer)
    (λ _ x2, ∃ fs, x2 = x_at x1 (with_files fs (x_map x1)) ∧ placed (files s) fs ∧
       same_meta (files (x_map x1)) fs)
    (λ er _, extend_error er) x1.
Proof using All.
  intros Hd. unfold place_page. rewrite Hrec. case_decide; apply wp_bind, wp_in_state, wp_file_do;
    try apply Hreln; try (intros er Her; exists er; split; [by left|]; right; by eauto 10);
    intros fs Hfs; apply wp_ret; exists fs; (split; [done|]);
    eapply run_frame_placed; try exact Hd.
  - by eapply fl_extend_frame.
  - by eapply fl_extend_data.
  - by apply (fl_writev_frame _ _ _ _ _ _ _ Hfs).
  - rewrite <-(Z.add_0_r p). apply (fl_writev_data _ _ _ _ _ _ _ Hfs) with (i := 0%nat); [by apply Forall_singleton|done].
Qed.

(** ** The whole extension *)

Definition extended_post (x' : X) : Prop :=
  x' = MkX (at_map (x_smgr x) (x_map x')) logged_birth (x_delay_start x) ∧
  shared ks bars (x_map x') ∧ placed (files s) (files (x_map x')) ∧
  if wal_owned then
    same_pages s (x_map x') ∧ ∃ i, ms_local (x_map x') = ms_local s ++ [MkLocal r f n p i idx]
  else
    grown s r f n (ms_world (x_map x')) ∧ remapped s r f blk idx p pg (x_map x') ∧
    ms_local (x_map x') = ms_local s.

Lemma extended_capacity x' s' :
  extended_post x' → shared ks bars s' → same_pages (x_map x') s' → ms_local s' = ms_local (x_map x') →
  files s' = files (x_map x') → extended_post (x_at x' s').
Proof using All.
  intros (E & _ & Hpl & Hm) Hs' Hp' Hl' Hf'. unfold extended_post.
  change (x_map (x_at x' s')) with s'. rewrite Hf', Hl'.
  split_and!; [by rewrite E|done|done|].
  destruct wal_owned.
  - destruct Hm as [Hpp Hlo]. split; [by eapply same_pages_trans|done].
  - destruct Hm as (Hg & Hr & Hlo). split_and!; [| |done].
    + intros r' g. by rewrite (proj1 Hp').
    + intros r' f' blk' Hb'. rewrite (proj2 Hp'). by apply Hr.
Qed.

(** The sizes and the final assertion, after the page is in place. *)
Lemma wp_extend_end x1 ext fs :
  birth_post (MkBirth p (negb wal_owned)) x1 → placed (files s) fs → same_meta (files (x_map x1)) fs →
  wp (when (negb wal_owned)
        (in_world (MapSBlockBumpLogicalNblocks env r f (u32 (n + 1)) InvalidXLogRecPtr));;
      when (ext && bool_decide (p ≠ InvalidBlockNumber))
        (in_world (MapSBlockBumpPhysicalNblocks env r f (u32 (p + 1)) InvalidXLogRecPtr)))
    (λ _, extended_post) (λ er _, extend_error er) (x_at x1 (with_files fs (x_map x1))).
Proof using All.
  intros (_ & E1 & _ & Hm) Hpl Hmeta. pose proof Hrd as [Hf Hl Hloc Hn Hv].
  assert (∀ x2 k, extended_post x2 → super_ready r (x_map x2) →
    trusted_size (w_store (ms_world (x_map x2))) r f = Some k →
    wp (when (ext && bool_decide (p ≠ InvalidBlockNumber))
          (in_world (MapSBlockBumpPhysicalNblocks env r f (u32 (p + 1)) InvalidXLogRecPtr)))
      (λ _, extended_post) (λ er _, extend_error er) x2) as Hcap.
  { intros x2 k Hx2 Hsu2 Hk. destruct (ext && _); [|by apply wp_ret]. apply wp_in_map.
    eapply wp_mono; [by eapply (wp_capacity env ks bars (x_map x2)), Hk; [apply Hx2| |]| |done].
    intros _ s3 (Hs3 & Hp3 & Hl3 & Hf3). by apply extended_capacity. }
  apply wp_bind. unfold extended_post at 1 in Hcap. unfold birth_post in *. destruct wal_owned eqn:Ho; cbn [negb when].
  - destruct Hm as (Hs1 & Hg1 & Hlo1). apply wp_ret.
    apply (Hcap _ n); [|apply Hg1|cbn; by rewrite (proj1 (proj1 Hg1))].
    split_and!; [by rewrite E1|by apply shared_files|done| |done].
    eapply same_pages_trans; [apply Hg1|]. split; [done|]. intros. by apply map_page_files.
  - destruct Hm as [Hus Hlo]. apply wp_in_map. unfold is_u32, MaxBlockNumber in *.
    rewrite u32_small by (unfold is_u32; lia).
    assert (super_ready r s) as Hsu by (split; [done|by eauto]).
    eapply wp_mono; [eapply (wp_size_unsized env gucs ks bars s), unsized_files; [done..|exact Hus|exact Hmeta]| |done].
    intros _ s3 (Hs3 & Hr3 & Hg3 & Hsu3 & Hl3 & _ & Hf3).
    apply (Hcap _ (n + 1)); [|done|cbn; by rewrite Hg3, decide_True].
    change (x_map (x_at _ s3)) with s3. rewrite Hf3, Hl3. split_and!; [by rewrite E1|done..].
Qed.
End extend.

(** A lookup before the extension changes nothing the result depends on. *)
Lemma extended_base ks bars x reln f n blk idx p pg buffer s1 x' :
  f ≠ UMBRA_METADATA_FORKNUM → calm (x_map x) s1 →
  extended_post ks bars (x_at x s1) reln f n blk idx p pg buffer x' →
  extended_post ks bars x reln f n blk idx p pg buffer x'.
Proof.
  intros Hnm (_ & Hm & _ & Hlo & _) (E & Hs & Hpl & Hc). apply same_map_pages in Hm as Hp.
  pose proof (proj1 Hm) as (_ & _ & _ & _ & _ & Hd). change (x_map (x_at x s1)) with s1 in *.
  change (same_data (files (x_map x)) (files s1)) in Hd.
  split; [exact E|]. split; [done|]. split.
  - destruct Hpl as (Hb & Ho & Hk). split_and!; [done|..].
    + intros. rewrite Ho by done. by apply Hd.
    + intros b Hb0 Hne. rewrite <-(Hd (locator reln) f b Hnm). by apply Hk.
  - destruct wal_owned.
    + rewrite <-Hlo. destruct Hc as [Hc Hl]. split; [by eapply same_pages_trans|done].
    + rewrite <-Hlo. destruct Hc as (Hg & Hr & Hl). split_and!; [| |done].
      * intros r' g. by rewrite Hg, (proj1 Hp).
      * intros r' f' blk' Hb'. rewrite Hr by done. by rewrite (proj2 Hp).
Qed.
(** The extension once the block is known to be unmapped. *)
Lemma wp_extend_unmapped fuel m ks bars x reln f n blk idx p pg e buffer :
  (0 < fuel)%nat → mapped_reln (x_smgr x) reln f → InRecovery env = false →
  shared ks bars (x_map x) → ready (x_map x) (locator reln) f n blk idx n pg →
  ss_wf (w_store (ms_world (x_map x))) →
  ss_map (w_store (ms_world (x_map x))) !! locator reln = Some e → entry_untrusted e = false →
  MapSuperGetReservedNextFree e f = Ok p → 0 ≤ p < InvalidBlockNumber - 1 → n < MaxBlockNumber →
  MapInflightLocalFind (locator reln) f n (ms_local (x_map x)) = None →
  ¬ entry_held (x_map x) (holders (bk_of (x_map x) bars :: ks)) (locator reln) f blk idx →
  entry_of pg idx = InvalidBlockNumber → nonzero (<[Z.to_nat idx := p]> pg) → full_block buffer →
  wp (birth ← um_publish_mapped_birth env gucs sleep wal_insert advance fuel reln f n true;
      extended ← place_page env reln f (pblkno birth) m buffer;
      when (mapping_published birth)
        (in_world (MapSBlockBumpLogicalNblocks env (locator reln) f (u32 (n + 1)) InvalidXLogRecPtr));;
      when (extended && bool_decide (pblkno birth ≠ InvalidBlockNumber))
        (in_world (MapSBlockBumpPhysicalNblocks env (locator reln) f (u32 (pblkno birth + 1))
                     InvalidXLogRecPtr)))
    (λ _, extended_post ks bars x reln f n blk idx p pg buffer) (λ er _, extend_error er) x.
Proof.
  intros Hfu Hreln Hrec Hsh Hrd Hwf He Hu Hp Hlim Hmax Hown Hfree Hun Hnz Hbuf.
  apply wp_bind. eapply wp_mono; [by eapply (wp_birth ks bars x)| |done].
  intros res x1 Hb. pose proof Hb as (-> & _ & Hd & _). cbn [pblkno mapping_published].
  apply wp_bind. eapply wp_mono; [by eapply (wp_place ks bars x)| |done].
  intros ext x2 (fs & -> & Hpl & Hm). by eapply (wp_extend_end ks bars x).
Qed.
End smgr.

(** ** Properties *)


(** ** A concrete system *)

Definition demo_x : XState MapSuperTable RefFiles :=
  MkX (MkSmgr demo_state (MkRefFiles ∅) {[ demo_reln := UMBRA_MAP_POLICY_REQUIRE_MAP ]} ∅)
    (MkWal 96 []) false.

Lemma demo_x_reln : mapped_reln (x_smgr demo_x) demo_reln MAIN_FORKNUM.
Proof. split; [exact eq_refl|apply lookup_singleton_eq|by left]. Qed.

Lemma demo_x_shared : shared [idle_backend 2] [] (x_map demo_x).
Proof. split; [exact eq_refl|exact demo_server]. Qed.

Lemma demo_x_free :
  ¬ entry_held (x_map demo_x) (holders (bk_of (x_map demo_x) [] :: [idle_backend 2])) demo_rel MAIN_FORKNUM 3 0.
Proof. intros (i & b & _ & _ & Hin). by apply elem_of_nil in Hin. Qed.

Lemma demo_nonzero0 : nonzero (<[Z.to_nat 0 := 0]> ff_page).
Proof.
  destruct ff_page_ok as [Hl Hf].
  apply (nonzero_entry _ 1 InvalidBlockNumber); [split; [by rewrite length_insert|by apply Forall_insert]| |done].
  rewrite list_lookup_insert_ne by done. apply lookup_replicate_2. change MAP_ENTRIES_PER_PAGE with 2048. lia.
Qed.

Lemma demo_x_frontier e :
  ss_map (w_store (ms_world (x_map demo_x))) !! demo_rel = Some e →
  MapSuperGetReservedNextFree e MAIN_FORKNUM = Ok 0.
Proof.
  intros He. change (ms_world (x_map demo_x)) with demo_start in He. vm_compute in He.
  injection He as <-. vm_compute. exact eq_refl.
Qed.

(** The position after a record: its data and a header of 26 bytes. *)
Definition demo_advance (pos len : Z) : Z := pos + 26 + len.

