(* ===== verification/SmgrProgress.v ===== *)
(** * Waiting for a write barrier

    A writer that finds the map entry of its block claimed by another backend
    sleeps and tries again ([um_claim_write_barrier] in [umbra.c]).  What the
    other backends do during the sleeps is a schedule of what they hold; once
    the schedule has let the entry go, the next attempt gets the barrier. *)

From S2P Require Import Prelude MapLayout Superblock SuperTable FileLayer SBlock SBlockInv SBlockSafety.
From S2P Require Import BufState MapBuf MapClock PoolInv MapPage MapPageSpec MapEntries.
From S2P Require Import MapInflight MapInflightSpec MapReserve SmgrFiles SmgrAccess SmgrSpec SmgrWriteSpec.

Local Open Scope Z_scope.

Section progress.
Context {T F : Type} `{SuperStoreLaws T} `{FileLayerLaws F} (env : Env).
Context (sleep : MapState T F → MapState T F) (bars : list (nat * Z)).
Local Abbreviation MS := (MapState T F).

(** What the other backends may hold after each sleep. *)
Definition schedule : Type := nat → list Backend → Prop.

(** Each of the first [m] sleeps takes the others one step along the schedule;
    they leave the map, the sizes and the data alone. *)
Definition sleeps_along (r : RelFileLocator) (K : schedule) (m : nat) : Prop :=
  ∀ j ks ms, (j < m)%nat → K j ks → shared ks bars ms →
    (∃ ks', K (S j) ks' ∧ shared ks' bars (sleep ms)) ∧
    steady r ms (sleep ms) ∧ ms_local (sleep ms) = ms_local ms.

(** After [m] sleeps nobody holds the entry, this backend included. *)
Definition let_go (K : schedule) (m : nat) (r : RelFileLocator) (f : ForkNumber) (blk idx : Z)
    (mine : list LocalEntry) : Prop :=
  ∀ ks ms, K m ks → shared ks bars ms → ms_local ms = mine →
    ¬ entry_held ms (holders (bk_of ms bars :: ks)) r f blk idx.

Lemma ready_steady r f l blk idx n pg (ms ms' : MS) :
  ready ms r f l blk idx n pg → steady r ms ms' → ready ms' r f l blk idx n pg.
Proof.
  intros [Hf Hl Hloc Hn Hp] [[Hsz Hpg] _]. split; try done; [by rewrite Hsz|by rewrite Hpg].
Qed.

Lemma steady_trans r (s1 s2 s3 : MS) : steady r s1 s2 → steady r s2 s3 → steady r s1 s3.
Proof.
  intros (P1 & D1 & R1) (P2 & D2 & R2). split_and!; [by eapply same_pages_trans|by etrans|auto].
Qed.

Definition granted (K : schedule) (m : nat) (r : RelFileLocator) (idx : Z) (s s' : MS)
    (br : MapInflightBarrier) : Prop :=
  ∃ i j ks, (j ≤ m)%nat ∧ K j ks ∧ br = MkBarrier true (Z.of_nat i) idx ∧
    shared ks ((i, idx) :: bars) s' ∧ steady r s s' ∧ ms_local s' = ms_local s.

Lemma granted_later (K : schedule) m r idx s s1 s' br :
  steady r s s1 → ms_local s1 = ms_local s →
  granted (λ j, K (S j)) m r idx s1 s' br → granted K (S m) r idx s s' br.
Proof.
  intros Hst Hlo (i & j & ks & Hj & HK & -> & Hsh & Hs & Hl). exists i, (S j), ks.
  split_and!; [lia|done|done|done|by eapply steady_trans|congruence].
Qed.

Lemma wp_claim_progress K ks r f l blk idx n pg m retries (reln : SMgrRelation) (s : SmgrState T F) :
  locator reln = r → sleeps_along r K m → let_go K m r f blk idx (ms_local (sm_map s)) →
  MapInflightLocalFind r f l (ms_local (sm_map s)) = None →
  (m < retries)%nat → K 0%nat ks → shared ks bars (sm_map s) →
  ready (sm_map s) r f l blk idx n pg →
  wp (um_claim_write_barrier env sleep retries reln f l)
    (λ br s', granted K m r idx (sm_map s) (sm_map s') br)
    (λ e _, ∃ ms : MS, read_error (F := F) (ms_sys ms) e) s.
Proof.
  intros <- HK Hgo Hmine. revert K ks m s HK Hgo Hmine.
  induction retries as [|retries IH]; intros K ks m s HK Hgo Hmine Hm Hks Hsh Hrd; [lia|].
  cbn [um_claim_write_barrier]. apply wp_bind, wp_on_map.
  eapply wp_mono; [eapply (wp_try_barrier env ks bars (sm_map s)) with
    (Q := λ o ms, match o with
       | None => shared ks bars ms ∧ same_map (sm_map s) ms ∧ ms_local ms = ms_local (sm_map s) ∧ m ≠ 0%nat
       | Some br => granted K m (locator reln) idx (sm_map s) ms br
       end); [done|done|..]| |].
  - intros ms Hms Hmap Hlo Hheld. split_and!; [done..|]. intros ->. by apply (Hgo ks (sm_map s)).
  - intros ms i Hms Hmap Hlo. exists i, 0%nat, ks.
    split_and!; [lia|done|done|done|by apply same_map_steady|done].
  - intros [br|] ms; [intros Hg; by apply wp_ret|]. intros (Hms & Hmap & Hlo & Hm0).
    destruct m as [|m]; [done|].
    destruct (HK 0%nat ks ms ltac:(lia) Hks Hms) as ((ks' & Hks' & Hs1) & Hst & Hlo1).
    apply wp_bind, wp_on_map, wp_modify. cbn [at_map sm_map].
    assert (steady (locator reln) (sm_map s) (sleep ms)) as Hst1
      by (eapply steady_trans; [by apply same_map_steady|done]).
    eapply wp_mono; [apply (IH (λ j, K (S j)) ks' m)| |done]; cbn [at_map sm_map];
      rewrite ?Hlo1, ?Hlo; try done; [|lia|by eapply ready_steady|].
    + intros j ks1 ms' Hj. apply HK. lia.
    + intros br s'. apply granted_later; [done|congruence].
  - intros e ms [[_ []]|He]; [done|]. by exists (sm_map s).
Qed.

(** ** Another backend at work *)

(** Backend [k] runs [m] while this one sleeps. *)
Definition other_runs (k : Backend) (m : M MS unit) (ms : MS) : MS :=
  let s := (m (view (ms_world ms) (pool (ms_sys ms)) k)).2 in
  MkMapState (ms_world s) (MkSys (pool (ms_sys s)) (private_ref (ms_sys ms)) None) (ms_local ms).

Lemma same_map_other k ms s p :
  same_map (view (ms_world ms) (pool (ms_sys ms)) k) s →
  same_map ms (MkMapState (ms_world s) (MkSys (pool (ms_sys s)) p None) (ms_local ms)).
Proof. done. Qed.

Lemma same_map_view s1 s2 k : same_map s1 s2 → same_map s1 (view (ms_world s2) (pool (ms_sys s2)) k).
Proof. done. Qed.

Lemma shared_turn w p k1 k2 :
  server_inv w p [k1; k2] → shared [k1] (bk_barriers k2) (view w p k2).
Proof. destruct k2. split; [done|]. eapply server_inv_perm; [|done]. apply perm_swap. Qed.

(** A release by the owner leaves the owner with the rest of its claims. *)
Lemma other_release ks k r f l ms :
  shared (k :: ks) bars ms →
  let ms' := other_runs k (MapInflightRelease r f l) ms in
  (∃ k', bk_local k' = MapInflightLocalForget r f l (bk_local k) ∧
     bk_barriers k' = bk_barriers k ∧ shared (k' :: ks) bars ms') ∧
  steady r ms ms' ∧ ms_local ms' = ms_local ms.
Proof.
  intros [Hid Hinv] ms'. destruct k as [pr lo ba]. set (k := MkBackend pr lo ba) in *.
  set (v := view (ms_world ms) (pool (ms_sys ms)) k).
  assert (shared (bk_of ms bars :: ks) ba v) as Hv.
  { split; [done|]. change (bk_of v ba) with k. eapply server_inv_perm; [|exact Hinv]. constructor. }
  pose proof (wp_release (bk_of ms bars :: ks) ba v r f l
    (λ _ s', shared (bk_of ms bars :: ks) ba s' ∧ same_map v s' ∧
       ms_local s' = MapInflightLocalForget r f l lo) (λ _ _, False) Hv ltac:(by auto)) as Hw.
  unfold wp in Hw. subst ms'. unfold other_runs. fold v.
  destruct (MapInflightRelease r f l v) as [[[]|e] s']; [|done]. cbn [snd].
  destruct Hw as ([Hid' Hinv'] & Hm & Hlo). split_and!; [|by apply same_map_steady|done].
  exists (bk_of s' ba). split_and!; [done|done|]. split; [done|].
  eapply server_inv_perm; [|exact Hinv']. constructor.
Qed.
End progress.

(** ** Properties *)


(** The owner of block 0, a writer that waits for it, and a schedule in which
    the owner releases its claim during the first sleep. *)
Definition demo_owner : Backend := bk_of demo_claimed [].
Definition demo_waiting : SmgrState MapSuperTable RefFiles :=
  at_map demo_smgr (view (ms_world demo_claimed) (pool (ms_sys demo_claimed)) (idle_backend 2)).
Definition demo_release : MapState MapSuperTable RefFiles → MapState MapSuperTable RefFiles :=
  other_runs demo_owner (MapInflightRelease demo_rel MAIN_FORKNUM 0).
Definition demo_schedule : schedule := λ j ks,
  match j with
  | O => ks = [demo_owner]
  | _ => ∃ k, ks = [k] ∧ bk_local k = [] ∧ bk_barriers k = []
  end.

Lemma demo_waiting_shared : shared [demo_owner] [] (sm_map demo_waiting).
Proof.
  unfold demo_waiting. cbn [at_map sm_map]. exact (shared_turn _ _ _ _ demo_claimed_inv).
Qed.

Lemma demo_waiting_ready : ready (sm_map demo_waiting) demo_rel MAIN_FORKNUM 0 3 0 0 ff_page.
Proof.
  assert (shared [idle_backend 2] [] demo_state) as Hsh by (split; [exact eq_refl|exact demo_server]).
  pose proof (wp_try_claim demo_env [idle_backend 2] [] demo_state demo_rel MAIN_FORKNUM 0 3 0 0 ff_page
    (λ _ s', same_map demo_state s') Hsh demo_ready (λ s' _ H _ _ _, H) (λ s' _ _ H _ _ _ _, H)) as Hw.
  unfold wp in Hw. rewrite demo_claim in Hw.
  apply (ready_steady _ _ _ _ _ _ _ demo_state); [exact demo_ready|]. apply same_map_steady.
  unfold demo_waiting. cbn [at_map sm_map]. exact (same_map_view _ _ _ Hw).
Qed.

Lemma demo_sleeps : sleeps_along demo_release [] demo_rel demo_schedule 1.
Proof.
  intros [|j] ks ms Hj; [|lia]. intros -> Hsh.
  destruct (other_release [] [] demo_owner demo_rel MAIN_FORKNUM 0 ms Hsh) as ((k & Hlo & Hb & Hk) & Hst).
  split; [|exact Hst]. exists [k]. split; [|exact Hk]. exists k. split_and!; [exact eq_refl| |exact Hb].
  rewrite Hlo. unfold demo_owner, bk_of. cbn [bk_local]. rewrite demo_claimed_local. exact eq_refl.
Qed.

Lemma demo_lets_go : let_go [] demo_schedule 1 demo_rel MAIN_FORKNUM 3 0 [].
Proof.
  intros ks ms (k & -> & Hk & Hb) _ Hl (i & b & _ & _ & Hin).
  unfold holders, bk_holds in Hin. cbn in Hin. rewrite Hl, Hk, Hb in Hin. by apply not_elem_of_nil in Hin.
Qed.

