(* ===== verification/UmOs.v ===== *)
(** * Files as the file layer sees them

    The calls of [storage/file/fd.c] and of the kernel that
    [storage/smgr/umfile.c] makes, on segment files named by relation, fork
    and segment number.  A file has a size and bytes; bytes that were never
    written are zero.  Every call may fail, and a transfer may move fewer
    bytes than asked: which calls fail and how much each transfer moves are
    parameters.  An open file stays usable after its name is removed. *)

From S2P Require Import Prelude FileLayer.

Local Open Scope Z_scope.

Inductive errno :=
  | EACCES | ENOENT | EEXIST | ENOSPC | ENOMEM | EMFILE | EIO
  | EINVAL | EOPNOTSUPP | ENOSYS | ENOTSUP.

#[global] Instance errno_eq_dec : EqDecision errno.
Proof. solve_decision. Defined.

(** [FILE_POSSIBLY_DELETED] *)
Definition FILE_POSSIBLY_DELETED (e : errno) : bool := bool_decide (e = ENOENT).

Definition errcode_for_file_access (e : errno) : sqlstate :=
  match e with
  | EACCES => ERRCODE_INSUFFICIENT_PRIVILEGE
  | ENOENT => ERRCODE_UNDEFINED_FILE
  | EEXIST => ERRCODE_DUPLICATE_FILE
  | ENOSPC => ERRCODE_DISK_FULL
  | ENOMEM => ERRCODE_OUT_OF_MEMORY
  | EMFILE => ERRCODE_INSUFFICIENT_RESOURCES
  | EIO => ERRCODE_IO_ERROR
  | _ => ERRCODE_INTERNAL_ERROR
  end.

Inductive syscall :=
  | SysOpen | SysSize | SysRead | SysWrite | SysZero | SysTruncate | SysAllocate
  | SysSync | SysUnlink | SysAccess | SysReadDir | SysQueue.

Record OsFile := MkOsFile {
  of_size : Z;
  of_byte : Z → Z;
}.

(** The name of a segment file. *)
Abbreviation SegKey := (RelFileLocator * ForkNumber * Z)%type.

(** What the file layer asks of the sync machinery, and its own fsyncs. *)
Inductive FileEvent :=
  | SYNC_REQUEST (key : SegKey)
  | SYNC_UNLINK_REQUEST (key : SegKey)
  | SYNC_FORGET_REQUEST (key : SegKey)
  | Fsync (inode : nat).

(** [umfd_vfd] is [-1] when the entry is closed. *)
Record UmfdVec := MkSeg {
  umfd_vfd : option nat;
  umfd_segno : Z;
}.

(** The arrays [seg_fds], with [num_open_segs] their lengths; a fork without an
    array has no open segment. *)
Record UmbraFileContext := MkCtx {
  ctx_fds : gmap ForkNumber (list UmfdVec);
}.

Record UmFiles := MkUm {
  um_dir : gmap SegKey nat;
  um_inodes : gmap nat OsFile;
  um_calls : nat;
  um_registry : gmap RelFileLocator UmbraFileContext;
  um_events : list FileEvent;
}.

Definition with_inodes (i : gmap nat OsFile) (u : UmFiles) : UmFiles :=
  MkUm (um_dir u) i (um_calls u) (um_registry u) (um_events u).
Definition with_dir (d : gmap SegKey nat) (u : UmFiles) : UmFiles :=
  MkUm d (um_inodes u) (um_calls u) (um_registry u) (um_events u).
Definition with_registry (g : gmap RelFileLocator UmbraFileContext) (u : UmFiles) : UmFiles :=
  MkUm (um_dir u) (um_inodes u) (um_calls u) g (um_events u).
Definition add_event (e : FileEvent) (u : UmFiles) : UmFiles :=
  MkUm (um_dir u) (um_inodes u) (um_calls u) (um_registry u) (um_events u ++ [e]).
Definition tick (u : UmFiles) : UmFiles :=
  MkUm (um_dir u) (um_inodes u) (S (um_calls u)) (um_registry u) (um_events u).

Definition empty_file : OsFile := MkOsFile 0 (λ _, 0).

(** A file handle that [fd.c] would reject by assertion. *)
Definition bad_file : pg_error := PgError PANIC ERRCODE_INTERNAL_ERROR "FileIsValid(file)".

Definition read_bytes (f : OsFile) (off : Z) (n : nat) : list Z :=
  (λ i, of_byte f (off + Z.of_nat i)) <$> seq 0 n.

Definition write_bytes (f : OsFile) (off : Z) (bs : list Z) : OsFile :=
  MkOsFile (if decide (bs = []) then of_size f else Z.max (of_size f) (off + Z.of_nat (length bs)))
    (λ i, if decide (off ≤ i < off + Z.of_nat (length bs))
          then default 0 (bs !! Z.to_nat (i - off)) else of_byte f i).

Definition cut_file (f : OsFile) (n : Z) : OsFile :=
  MkOsFile n (λ i, if decide (i < n) then of_byte f i else 0).

Section os.
Context (fault : syscall → nat → option errno) (chunk : syscall → nat → Z → Z).
Local Abbreviation U := UmFiles.

(** The next call of kind [c]: what makes it fail, if anything. *)
Definition sys (c : syscall) : M U (option errno) :=
  n ← gets um_calls;
  modify tick;;
  mret (fault c n).

(** How many of [n] bytes the next transfer moves. *)
Definition moved (c : syscall) (n : Z) : M U Z :=
  k ← gets um_calls;
  mret (Z.max 0 (Z.min n (chunk c k n))).

Definition inode (ino : nat) : M U OsFile :=
  i ← gets um_inodes;
  match i !! ino with Some f => mret f | None => throw bad_file end.

Definition set_inode (ino : nat) (f : OsFile) : M U unit :=
  modify (λ u, with_inodes (<[ino := f]> (um_inodes u)) u).

(** [PathNameOpenFile] with [O_CREAT] and [O_EXCL] *)
Definition PathNameOpenFile (key : SegKey) (creat excl : bool) : M U (errno + nat) :=
  o ← sys SysOpen;
  match o with
  | Some e => mret (inl e)
  | None =>
      u ← get;
      match um_dir u !! key with
      | Some ino => if creat && excl then mret (inl EEXIST) else mret (inr ino)
      | None =>
          if creat then
            let ino := fresh (dom (um_inodes u)) in
            put (with_dir (<[key := ino]> (um_dir u))
                   (with_inodes (<[ino := empty_file]> (um_inodes u)) u));;
            mret (inr ino)
          else mret (inl ENOENT)
      end
  end.

(** A negative result of the C call is [inl]. *)
Definition FileSize (ino : nat) : M U (errno + Z) :=
  o ← sys SysSize;
  match o with
  | Some e => mret (inl e)
  | None => f ← inode ino; mret (inr (of_size f))
  end.

(** [FileReadV]: at most [n] bytes, none past the end of the file. *)
Definition FileReadV (ino : nat) (off n : Z) : M U (errno + list Z) :=
  o ← sys SysRead;
  match o with
  | Some e => mret (inl e)
  | None =>
      f ← inode ino;
      m ← moved SysRead n;
      mret (inr (read_bytes f off (Z.to_nat (Z.min m (of_size f - off)))))
  end.

(** [FileWriteV]: the number of bytes written. *)
Definition FileWriteV (ino : nat) (off : Z) (bs : list Z) : M U (errno + Z) :=
  o ← sys SysWrite;
  match o with
  | Some e => mret (inl e)
  | None =>
      f ← inode ino;
      m ← moved SysWrite (Z.of_nat (length bs));
      set_inode ino (write_bytes f off (take (Z.to_nat m) bs));;
      mret (inr m)
  end.

Definition FileZero (ino : nat) (off n : Z) : M U (option errno) :=
  o ← sys SysZero;
  match o with
  | Some e => mret (Some e)
  | None => f ← inode ino; set_inode ino (write_bytes f off (replicate (Z.to_nat n) 0));; mret None
  end.

Definition FileTruncate (ino : nat) (n : Z) : M U (option errno) :=
  o ← sys SysTruncate;
  match o with
  | Some e => mret (Some e)
  | None => f ← inode ino; set_inode ino (cut_file f n);; mret None
  end.

(** [fallocate] of bytes [off, off + n) *)
Definition fallocate (ino : nat) (off n : Z) : M U (option errno) :=
  o ← sys SysAllocate;
  match o with
  | Some e => mret (Some e)
  | None =>
      f ← inode ino;
      set_inode ino (MkOsFile (Z.max (of_size f) (off + n)) (of_byte f));;
      mret None
  end.

Definition FileSync (ino : nat) : M U (option errno) :=
  o ← sys SysSync;
  match o with
  | Some e => mret (Some e)
  | None => modify (add_event (Fsync ino));; mret None
  end.

(** [access] with [F_OK], and [pg_file_exists] *)
Definition access (key : SegKey) : M U bool :=
  o ← sys SysAccess;
  d ← gets um_dir;
  mret (match o with Some _ => false | None => bool_decide (is_Some (d !! key)) end).

(** [pg_truncate] of a file by name *)
Definition pg_truncate (key : SegKey) (n : Z) : M U (option errno) :=
  o ← sys SysTruncate;
  match o with
  | Some e => mret (Some e)
  | None =>
      d ← gets um_dir;
      match d !! key with
      | None => mret (Some ENOENT)
      | Some ino => f ← inode ino; set_inode ino (cut_file f n);; mret None
      end
  end.

Definition unlink (key : SegKey) : M U (option errno) :=
  o ← sys SysUnlink;
  match o with
  | Some e => mret (Some e)
  | None =>
      d ← gets um_dir;
      match d !! key with
      | None => mret (Some ENOENT)
      | Some _ => modify (with_dir (delete key d));; mret None
      end
  end.

(** The segment numbers in the names a scan of the directory finds for a fork. *)
Definition dir_segnos (d : gmap SegKey nat) (r : RelFileLocator) (k : ForkNumber) : list Z :=
  omap (λ x : SegKey * nat, let '(r', k', n) := x.1 in
     if decide ((r', k') = (r, k)) then Some n else None) (map_to_list d).

(** [AllocateDir] and [ReadDir] on the directory of a fork *)
Definition scan_dir (r : RelFileLocator) (k : ForkNumber) : M U (errno + list Z) :=
  o ← sys SysReadDir;
  match o with
  | Some e => mret (inl e)
  | None => d ← gets um_dir; mret (inr (dir_segnos d r k))
  end.

(** [RegisterSyncRequest]: false when the queue is full and the caller does not
    insist. *)
Definition RegisterSyncRequest (e : FileEvent) (retryOnError : bool) : M U bool :=
  o ← sys SysQueue;
  match o with
  | Some _ => if retryOnError then modify (add_event e);; mret true else mret false
  | None => modify (add_event e);; mret true
  end.
End os.
