(* ===== verification/SyncQueue.v ===== *)
(** * Requests to sync and to remove files

    [storage/sync/sync.c]: backends register fsync, unlink and reclaim requests
    with the checkpointer, which syncs files during a checkpoint and removes
    files after it.  A reclaim request comes from map compaction: it is logged
    before the file is removed, and a filter request for its relation takes it
    back. *)

From S2P Require Import Prelude UmbraXlog UmOs.

Local Open Scope Z_scope.

(** ** Tags and requests *)

Record FileTag := MkTag {
  ft_handler : Z;
  ft_forknum : ForkNumber;
  ft_rlocator : RelFileLocator;
  ft_segno : Z;
}.

#[global] Instance FileTag_eq_dec : EqDecision FileTag.
Proof. solve_decision. Defined.

#[global] Instance FileTag_countable : Countable FileTag.
Proof.
  refine (inj_countable' (λ t, (ft_handler t, ft_forknum t, ft_rlocator t, ft_segno t))
    (λ x, MkTag x.1.1.1 x.1.1.2 x.1.2 x.2) _). by intros [].
Defined.

Inductive SyncRequestType :=
  | SYNC_REQUEST
  | SYNC_UNLINK_REQUEST
  | SYNC_RECLAIM_REQUEST
  | SYNC_FORGET_REQUEST
  | SYNC_FILTER_REQUEST.

#[global] Instance SyncRequestType_eq_dec : EqDecision SyncRequestType.
Proof. solve_decision. Defined.

Definition SYNC_HANDLER_MD : Z := 0.
Definition SYNC_HANDLER_UMBRA : Z := 5.

(** The number of rows of [syncsw]. *)
Definition n_handlers : Z := 6.

Record PendingFsyncEntry := MkFsync {
  pf_cycle_ctr : Z;
  pf_canceled : bool;
}.

Record PendingUnlinkEntry := MkPending {
  pu_tag : FileTag;
  pu_cycle_ctr : Z;
  pu_canceled : bool;
  pu_request_type : SyncRequestType;
}.

(** What a process did, for the statements about the order of events. *)
Inductive SyncEvent :=
  | Remembered (tag : FileTag) (type : SyncRequestType)
  | CheckpointBegun
  | Unlinked (tag : FileTag) (type : SyncRequestType)
  | Synced (tag : FileTag).

(** The static variables of [sync.c], the WAL, the batches that the next calls
    of [AbsorbSyncRequests] will find, the reclaim counters and the events.
    [unlinks_freed] counts how often the list [pendingUnlinks] was freed while
    it was emptied: a loop that still refers to it is then undefined. *)
Record SyncState := MkSync {
  pendingOps : gmap FileTag PendingFsyncEntry;
  pendingUnlinks : list PendingUnlinkEntry;
  unlinks_freed : nat;
  sync_cycle_ctr : Z;
  checkpoint_cycle_ctr : Z;
  sync_in_progress : bool;
  sy_wal : Wal;
  sy_queue : list (list (FileTag * SyncRequestType));
  reclaim_processed : Z;
  reclaim_failed : Z;
  sy_events : list SyncEvent;
}.

Definition set_ops (o : gmap FileTag PendingFsyncEntry) (s : SyncState) : SyncState :=
  MkSync o (pendingUnlinks s) (unlinks_freed s) (sync_cycle_ctr s) (checkpoint_cycle_ctr s)
    (sync_in_progress s) (sy_wal s) (sy_queue s) (reclaim_processed s) (reclaim_failed s) (sy_events s).
Definition set_unlinks (l : list PendingUnlinkEntry) (s : SyncState) : SyncState :=
  MkSync (pendingOps s) l (unlinks_freed s) (sync_cycle_ctr s) (checkpoint_cycle_ctr s)
    (sync_in_progress s) (sy_wal s) (sy_queue s) (reclaim_processed s) (reclaim_failed s) (sy_events s).
Definition set_freed (n : nat) (s : SyncState) : SyncState :=
  MkSync (pendingOps s) (pendingUnlinks s) n (sync_cycle_ctr s) (checkpoint_cycle_ctr s)
    (sync_in_progress s) (sy_wal s) (sy_queue s) (reclaim_processed s) (reclaim_failed s) (sy_events s).
Definition set_sync_cycle (c : Z) (busy : bool) (s : SyncState) : SyncState :=
  MkSync (pendingOps s) (pendingUnlinks s) (unlinks_freed s) c (checkpoint_cycle_ctr s)
    busy (sy_wal s) (sy_queue s) (reclaim_processed s) (reclaim_failed s) (sy_events s).
Definition set_checkpoint_cycle (c : Z) (s : SyncState) : SyncState :=
  MkSync (pendingOps s) (pendingUnlinks s) (unlinks_freed s) (sync_cycle_ctr s) c
    (sync_in_progress s) (sy_wal s) (sy_queue s) (reclaim_processed s) (reclaim_failed s) (sy_events s).
Definition set_wal (w : Wal) (s : SyncState) : SyncState :=
  MkSync (pendingOps s) (pendingUnlinks s) (unlinks_freed s) (sync_cycle_ctr s) (checkpoint_cycle_ctr s)
    (sync_in_progress s) w (sy_queue s) (reclaim_processed s) (reclaim_failed s) (sy_events s).
Definition set_queue (q : list (list (FileTag * SyncRequestType))) (s : SyncState) : SyncState :=
  MkSync (pendingOps s) (pendingUnlinks s) (unlinks_freed s) (sync_cycle_ctr s) (checkpoint_cycle_ctr s)
    (sync_in_progress s) (sy_wal s) q (reclaim_processed s) (reclaim_failed s) (sy_events s).
Definition set_counters (p f : Z) (s : SyncState) : SyncState :=
  MkSync (pendingOps s) (pendingUnlinks s) (unlinks_freed s) (sync_cycle_ctr s) (checkpoint_cycle_ctr s)
    (sync_in_progress s) (sy_wal s) (sy_queue s) p f (sy_events s).
Definition add_event (ev : SyncEvent) (s : SyncState) : SyncState :=
  MkSync (pendingOps s) (pendingUnlinks s) (unlinks_freed s) (sync_cycle_ctr s) (checkpoint_cycle_ctr s)
    (sync_in_progress s) (sy_wal s) (sy_queue s) (reclaim_processed s) (reclaim_failed s) (sy_events s ++ [ev]).

(** ** Handlers *)

Definition mdfiletagmatches (ftag candidate : FileTag) : bool :=
  bool_decide (dbOid (ft_rlocator ftag) = dbOid (ft_rlocator candidate)).

Definition umfiletagmatches (ftag candidate : FileTag) : bool :=
  if decide (ft_forknum ftag = InvalidForkNumber ∧ ft_segno ftag = InvalidBlockNumber ∧
             spcOid (ft_rlocator ftag) = 0 ∧ relNumber (ft_rlocator ftag) = 0)
  then bool_decide (dbOid (ft_rlocator ftag) = dbOid (ft_rlocator candidate))
  else if decide (ft_forknum ftag = InvalidForkNumber ∧ ft_segno ftag = InvalidBlockNumber)
  then bool_decide (ft_rlocator ftag = ft_rlocator candidate)
  else if decide (ft_segno ftag = InvalidBlockNumber)
  then bool_decide (ft_rlocator ftag = ft_rlocator candidate) &&
       bool_decide (ft_forknum ftag = ft_forknum candidate)
  else bool_decide (ft_rlocator ftag = ft_rlocator candidate) &&
       bool_decide (ft_forknum ftag = ft_forknum candidate) &&
       bool_decide (ft_segno ftag = ft_segno candidate).

(** The columns of [syncsw]; [None] is a null function. *)
Definition sync_filetagmatches (handler : Z) : option (FileTag → FileTag → bool) :=
  if decide (handler = SYNC_HANDLER_MD) then Some mdfiletagmatches
  else if decide (handler = SYNC_HANDLER_UMBRA) then Some umfiletagmatches
  else None.

Definition has_unlinkfiletag (handler : Z) : bool :=
  bool_decide (handler = SYNC_HANDLER_MD) || bool_decide (handler = SYNC_HANDLER_UMBRA).

Definition panic (msg : string) : pg_error := PgError PANIC ERRCODE_INTERNAL_ERROR msg.

Definition SyncOpsForHandler (handler : Z) : M SyncState unit :=
  if decide (handler < 0 ∨ n_handlers ≤ handler) then throw (panic "invalid sync request handler")
  else mret tt.

(** Stands for the undefined behaviour of a loop over a list that was freed. *)
Definition freed_list : pg_error := panic "list freed during iteration".

(** ** Remembering requests *)

Definition filter_fsyncs (ftag : FileTag) (matches : FileTag → FileTag → bool)
    (ops : gmap FileTag PendingFsyncEntry) : gmap FileTag PendingFsyncEntry :=
  map_imap (λ tag e,
    Some (if bool_decide (ft_handler tag = ft_handler ftag) && matches ftag tag
          then MkFsync (pf_cycle_ctr e) true else e)) ops.

Definition filtered (ftag : FileTag) (matches : FileTag → FileTag → bool) (e : PendingUnlinkEntry) : bool :=
  bool_decide (ft_handler (pu_tag e) = ft_handler ftag) &&
  bool_decide (pu_request_type e = SYNC_RECLAIM_REQUEST) && matches ftag (pu_tag e).

Definition RememberSyncRequest (ftag : FileTag) (type : SyncRequestType) : M SyncState unit :=
  modify (add_event (Remembered ftag type));;
  match type with
  | SYNC_FORGET_REQUEST =>
      ops ← gets pendingOps;
      match ops !! ftag with
      | Some e => modify (set_ops (<[ftag := MkFsync (pf_cycle_ctr e) true]> ops))
      | None => mret tt
      end
  | SYNC_FILTER_REQUEST =>
      SyncOpsForHandler (ft_handler ftag);;
      match sync_filetagmatches (ft_handler ftag) with
      | None => throw (panic "sync filter request uses handler without match function")
      | Some matches =>
          modify (λ s, set_ops (filter_fsyncs ftag matches (pendingOps s)) s);;
          unlinks ← gets pendingUnlinks;
          let kept := List.filter (λ e, negb (filtered ftag matches e)) unlinks in
          modify (set_unlinks kept);;
          when (bool_decide (unlinks ≠ []) && bool_decide (kept = []))
            (modify (λ s, set_freed (Datatypes.S (unlinks_freed s)) s))
      end
  | SYNC_UNLINK_REQUEST | SYNC_RECLAIM_REQUEST =>
      modify (λ s, set_unlinks
        (pendingUnlinks s ++ [MkPending ftag (checkpoint_cycle_ctr s) false type]) s)
  | SYNC_REQUEST =>
      modify (λ s,
        match pendingOps s !! ftag with
        | Some e => if pf_canceled e
                    then set_ops (<[ftag := MkFsync (sync_cycle_ctr s) false]> (pendingOps s)) s
                    else s
        | None => set_ops (<[ftag := MkFsync (sync_cycle_ctr s) false]> (pendingOps s)) s
        end)
  end.

Fixpoint remember_all (reqs : list (FileTag * SyncRequestType)) : M SyncState unit :=
  match reqs with
  | [] => mret tt
  | (tag, type) :: reqs => RememberSyncRequest tag type;; remember_all reqs
  end.

(** Every call finds the next batch. *)
Definition AbsorbSyncRequests : M SyncState unit :=
  q ← gets sy_queue;
  match q with
  | [] => mret tt
  | batch :: q => modify (set_queue q);; remember_all batch
  end.

Section checkpointer.
(** Where a record ends, and whether the [n]th system call on a file fails. *)
Context (advance : Z → Z → Z) (unlink_rc sync_rc : FileTag → nat → option errno).
(** [enableFsync] and [data_sync_retry] *)
Context (enableFsync data_sync_retry : bool).

Definition UNLINKS_PER_ABSORB : Z := 10.
Definition FSYNCS_PER_ABSORB : Z := 10.

(** ** Around a checkpoint *)

Definition SyncPreCheckpoint : M SyncState unit :=
  AbsorbSyncRequests;;
  modify (λ s, add_event CheckpointBegun (set_checkpoint_cycle (u16 (checkpoint_cycle_ctr s + 1)) s)).

Definition SyncPreUnlinkRequest (e : PendingUnlinkEntry) : M SyncState unit :=
  when (bool_decide (pu_request_type e = SYNC_RECLAIM_REQUEST) &&
        bool_decide (ft_handler (pu_tag e) = SYNC_HANDLER_UMBRA))
    (modify (λ s, set_wal (log_umbra_reclaim_unlink advance (ft_rlocator (pu_tag e)) (ft_forknum (pu_tag e))
                             (u32 (ft_segno (pu_tag e))) (sy_wal s)).2 s)).

Definition SyncPostUnlinkRequest (e : PendingUnlinkEntry) (rc : option errno) : M SyncState unit :=
  when (bool_decide (pu_request_type e = SYNC_RECLAIM_REQUEST))
    (modify (λ s,
       if match rc with Some er => bool_decide (er ≠ ENOENT) | None => false end
       then set_counters (reclaim_processed s) (u64 (reclaim_failed s + 1)) s
       else set_counters (u64 (reclaim_processed s + 1)) (reclaim_failed s) s)).

(** [unlink] of the file of a tag. *)
Definition unlink_file (e : PendingUnlinkEntry) : M SyncState (option errno) :=
  n ← gets (λ s, length (sy_events s));
  modify (add_event (Unlinked (pu_tag e) (pu_request_type e)));;
  mret (unlink_rc (pu_tag e) n).

Definition cancel_at (i : nat) : M SyncState unit :=
  modify (λ s, set_unlinks
    (alter (λ e, MkPending (pu_tag e) (pu_cycle_ctr e) true (pu_request_type e)) i (pendingUnlinks s)) s).

(** The loop of [SyncPostCheckpoint] at index [i] of the list it started with;
    the index at which it stopped early. *)
Fixpoint post_loop (fuel freed i : nat) (absorb_counter : Z) : M SyncState (option nat) :=
  match fuel with
  | O => mret None
  | Datatypes.S fuel =>
      now ← gets unlinks_freed;
      if decide (now ≠ freed) then throw freed_list
      else
        unlinks ← gets pendingUnlinks;
        match unlinks !! i with
        | None => mret None
        | Some e =>
            if pu_canceled e then post_loop fuel freed (Datatypes.S i) absorb_counter
            else
              cycle ← gets checkpoint_cycle_ctr;
              if decide (pu_cycle_ctr e = cycle) then mret (Some i)
              else
                SyncOpsForHandler (ft_handler (pu_tag e));;
                if negb (has_unlinkfiletag (ft_handler (pu_tag e)))
                then throw (panic "sync unlink request uses handler without unlink function")
                else
                  SyncPreUnlinkRequest e;;
                  rc ← unlink_file e;
                  SyncPostUnlinkRequest e rc;;
                  cancel_at i;;
                  if decide (absorb_counter - 1 ≤ 0)
                  then AbsorbSyncRequests;; post_loop fuel freed (Datatypes.S i) UNLINKS_PER_ABSORB
                  else post_loop fuel freed (Datatypes.S i) (absorb_counter - 1)
        end
  end.

Definition post_fuel (s : SyncState) : nat :=
  Datatypes.S (length (pendingUnlinks s) + length (concat (sy_queue s))).

Definition SyncPostCheckpoint : M SyncState unit :=
  fuel ← gets post_fuel;
  freed ← gets unlinks_freed;
  lc ← post_loop fuel freed 0 UNLINKS_PER_ABSORB;
  match lc with
  | None => modify (set_unlinks [])
  | Some ntodelete => modify (λ s, set_unlinks (drop ntodelete (pendingUnlinks s)) s)
  end.

(** ** Syncing *)

Definition sync_failed (er : errno) : pg_error :=
  PgError (if data_sync_retry then ERROR else PANIC) (errcode_for_file_access er) "could not fsync file".

(** The retry loop for one entry: a second failure, or one that cannot come
    from a deleted file, is reported. *)
Fixpoint sync_entry (retries : nat) (tag : FileTag) (failures absorb_counter : Z) : M SyncState Z :=
  match retries with
  | O => mret absorb_counter
  | Datatypes.S retries =>
      ops ← gets pendingOps;
      if match ops !! tag with Some e => pf_canceled e | None => true end then mret absorb_counter
      else
        n ← gets (λ s, length (sy_events s));
        match sync_rc tag n with
        | None => modify (add_event (Synced tag));; mret absorb_counter
        | Some er =>
            if negb (FILE_POSSIBLY_DELETED er) || bool_decide (0 < failures) then throw (sync_failed er)
            else AbsorbSyncRequests;; sync_entry retries tag (failures + 1) FSYNCS_PER_ABSORB
        end
  end.

(** The entries in the order of the table. *)
Fixpoint sync_entries (tags : list FileTag) (absorb_counter : Z) : M SyncState unit :=
  match tags with
  | [] => mret tt
  | tag :: tags =>
      s ← gets id;
      match pendingOps s !! tag with
      | None => sync_entries tags absorb_counter
      | Some e =>
          if decide (pf_cycle_ctr e = sync_cycle_ctr s) then sync_entries tags absorb_counter
          else
            absorb_counter ←
              (if enableFsync then
                 if decide (absorb_counter - 1 ≤ 0)
                 then AbsorbSyncRequests;; sync_entry 2 tag 0 FSYNCS_PER_ABSORB
                 else sync_entry 2 tag 0 (absorb_counter - 1)
               else mret absorb_counter);
            modify (λ s, set_ops (delete tag (pendingOps s)) s);;
            sync_entries tags absorb_counter
      end
  end.

Definition ProcessSyncRequests : M SyncState unit :=
  AbsorbSyncRequests;;
  busy ← gets sync_in_progress;
  when busy (modify (λ s,
    set_ops ((λ e, MkFsync (sync_cycle_ctr s) (pf_canceled e)) <$> pendingOps s) s));;
  modify (λ s, set_sync_cycle (u16 (sync_cycle_ctr s + 1)) true s);;
  tags ← gets (λ s, (map_to_list (pendingOps s)).*1);
  sync_entries tags FSYNCS_PER_ABSORB;;
  modify (λ s, set_sync_cycle (sync_cycle_ctr s) false s).
End checkpointer.
