(* ===== verification/SyncSpec.v ===== *)
(** * When files are removed

    After a checkpoint exactly the requests of earlier cycles are carried out,
    and no request is carried out before a checkpoint has begun after it was
    made.  A filter request that arrives while files are being removed makes
    the loop skip a file. *)

From S2P Require Import Prelude UmbraXlog UmOs SyncQueue.

Local Open Scope Z_scope.

(** ** Requests that are due *)

Fixpoint due (ctr : Z) (es : list PendingUnlinkEntry) : list PendingUnlinkEntry :=
  match es with
  | [] => []
  | e :: es =>
      if pu_canceled e then due ctr es
      else if decide (pu_cycle_ctr e = ctr) then [] else e :: due ctr es
  end.

Fixpoint undue (ctr : Z) (es : list PendingUnlinkEntry) : list PendingUnlinkEntry :=
  match es with
  | [] => []
  | e :: es =>
      if pu_canceled e then undue ctr es
      else if decide (pu_cycle_ctr e = ctr) then e :: es else undue ctr es
  end.

(** The entries that arriving requests add to the list. *)
Definition arrival (ctr : Z) (q : FileTag * SyncRequestType) : option PendingUnlinkEntry :=
  match q.2 with
  | SYNC_UNLINK_REQUEST | SYNC_RECLAIM_REQUEST => Some (MkPending q.1 ctr false q.2)
  | _ => None
  end.
Definition arrivals (ctr : Z) (qs : list (FileTag * SyncRequestType)) : list PendingUnlinkEntry :=
  omap (arrival ctr) qs.

(** The files that were removed, in order. *)
Definition removal (ev : SyncEvent) : option (FileTag * SyncRequestType) :=
  match ev with Unlinked tag type => Some (tag, type) | _ => None end.
Definition removals (s : SyncState) : list (FileTag * SyncRequestType) := omap removal (sy_events s).

(** The records that announce the removal of reclaimed segments. *)
Definition reclaim_record (e : PendingUnlinkEntry) : option umbra_record :=
  if bool_decide (pu_request_type e = SYNC_RECLAIM_REQUEST) &&
     bool_decide (ft_handler (pu_tag e) = SYNC_HANDLER_UMBRA)
  then Some (XlReclaimUnlink (MkUnlink (ft_rlocator (pu_tag e)) (ft_forknum (pu_tag e)) (u32 (ft_segno (pu_tag e)))))
  else None.
Definition logged (s : SyncState) : list umbra_record := (wal_records (sy_wal s)).*2.

Definition no_filter (qs : list (FileTag * SyncRequestType)) : Prop :=
  Forall (λ q, q.2 ≠ SYNC_FILTER_REQUEST) qs.

Lemma arrivals_fresh ctr qs : Forall (λ e, pu_canceled e = false ∧ pu_cycle_ctr e = ctr) (arrivals ctr qs).
Proof.
  induction qs as [|[tag ty] qs IH]; [constructor|]. unfold arrivals. cbn [omap list_omap]. unfold arrival at 1.
  cbn [fst snd]. destruct ty; first [exact IH|constructor; [done|exact IH]].
Qed.

Lemma due_fresh ctr es fresh :
  Forall (λ e, pu_canceled e = false ∧ pu_cycle_ctr e = ctr) fresh →
  due ctr (es ++ fresh) = due ctr es ∧ undue ctr (es ++ fresh) = undue ctr es ++ fresh.
Proof.
  intros Hf. induction es as [|e es [IH1 IH2]]; cbn [app due undue].
  - destruct Hf as [|e fresh [Hc Hy] _]; [done|]. cbn [due undue]. by rewrite Hc, !decide_True by done.
  - destruct (pu_canceled e); [done|]. case_decide; [done|]. by rewrite IH1.
Qed.

Lemma arrivals_app ctr qs qs' : arrivals ctr (qs ++ qs') = arrivals ctr qs ++ arrivals ctr qs'.
Proof. apply omap_app. Qed.

Lemma arrivals_length ctr qs : (length (arrivals ctr qs) ≤ length qs)%nat.
Proof.
  induction qs as [|[tag ty] qs IH]; [done|]. unfold arrivals in *. cbn [omap list_omap]. unfold arrival at 1.
  cbn [fst snd]. destruct ty; cbn [length]; lia.
Qed.

(** ** Remembering *)

(** Nothing is removed or logged, and the list keeps its identity. *)
Definition quiet_sync (s s' : SyncState) : Prop :=
  unlinks_freed s' = unlinks_freed s ∧ checkpoint_cycle_ctr s' = checkpoint_cycle_ctr s ∧
  sy_wal s' = sy_wal s ∧ removals s' = removals s.

#[global] Instance quiet_sync_refl : Reflexive quiet_sync.
Proof. by intros s. Qed.
#[global] Instance quiet_sync_trans : Transitive quiet_sync.
Proof. intros s1 s2 s3 (? & ? & ? & ?) (? & ? & ? & ?). split_and!; congruence. Qed.

Lemma removals_event ev s : removals (add_event ev s) = removals s ++ omap removal [ev].
Proof. apply omap_app. Qed.

Lemma wp_remember tag ty s Q (E : pg_error → SyncState → Prop) :
  ty ≠ SYNC_FILTER_REQUEST →
  (∀ s', quiet_sync s s' → sy_queue s' = sy_queue s →
     pendingUnlinks s' = pendingUnlinks s ++ arrivals (checkpoint_cycle_ctr s) [(tag, ty)] → Q tt s') →
  wp (RememberSyncRequest tag ty) Q E s.
Proof.
  intros Hty HQ. assert (∀ s', unlinks_freed s' = unlinks_freed s → checkpoint_cycle_ctr s' = checkpoint_cycle_ctr s →
    sy_wal s' = sy_wal s → sy_events s' = sy_events s ++ [Remembered tag ty] → quiet_sync s s') as Hq.
  { intros s' ? ? ? Hev. split_and!; [done..|]. unfold removals. by rewrite Hev, omap_app, app_nil_r. }
  apply wp_bind, wp_modify. destruct ty; try done.
  - apply wp_modify. cbn [add_event pendingOps]. destruct (pendingOps s !! tag) as [e|]; [destruct (pf_canceled e)|];
      (apply HQ; [by apply Hq|done|by rewrite app_nil_r]).
  - apply wp_modify, HQ; [by apply Hq|done|done].
  - apply wp_modify, HQ; [by apply Hq|done|done].
  - apply wp_bind, wp_gets. destruct (_ !! tag); [apply wp_modify|apply wp_ret];
      (apply HQ; [by apply Hq|done|by rewrite app_nil_r]).
Qed.

Lemma wp_remember_all reqs s Q (E : pg_error → SyncState → Prop) :
  no_filter reqs →
  (∀ s', quiet_sync s s' → sy_queue s' = sy_queue s →
     pendingUnlinks s' = pendingUnlinks s ++ arrivals (checkpoint_cycle_ctr s) reqs → Q tt s') →
  wp (remember_all reqs) Q E s.
Proof.
  revert s. induction reqs as [|[tag ty] reqs IH]; intros s Hnf HQ; cbn [remember_all].
  { apply wp_ret, HQ; [done|done|by rewrite app_nil_r]. }
  apply Forall_cons_1 in Hnf as [Hty Hnf]. apply wp_bind, wp_remember; [done|]. intros s1 Hq1 Hs1 Hu1.
  apply IH; [done|]. intros s2 Hq2 Hs2 Hu2. apply HQ; [by etrans|congruence|].
  rewrite Hu2, Hu1, (proj1 (proj2 Hq1)), <-app_assoc, <-arrivals_app. done.
Qed.

Lemma wp_absorb s Q (E : pg_error → SyncState → Prop) :
  Forall no_filter (sy_queue s) →
  (∀ s', quiet_sync s s' → sy_queue s' = drop 1 (sy_queue s) →
     pendingUnlinks s' = pendingUnlinks s ++ arrivals (checkpoint_cycle_ctr s) (concat (take 1 (sy_queue s))) → Q tt s') →
  wp AbsorbSyncRequests Q E s.
Proof.
  intros Hnf HQ. apply wp_bind, wp_gets. destruct (sy_queue s) as [|batch q] eqn:Hs.
  { apply wp_ret, HQ; [done|done|by rewrite app_nil_r]. }
  apply Forall_cons_1 in Hnf as [Hb Hnf]. apply wp_bind, wp_modify, wp_remember_all; [done|].
  intros s' Hq Hs' Hu. apply HQ; [done|done|]. cbn [take concat]. by rewrite app_nil_r.
Qed.

(** ** After a checkpoint *)

Section post.
Context (advance : Z → Z → Z) (unlink_rc : FileTag → nat → option errno).
Implicit Types s : SyncState.

Definition request_of (e : PendingUnlinkEntry) : FileTag * SyncRequestType := (pu_tag e, pu_request_type e).
Definition removable (e : PendingUnlinkEntry) : Prop := has_unlinkfiletag (ft_handler (pu_tag e)) = true.

(** The [n] next batches have arrived and the files of [es] are gone. *)
Definition swept (n : nat) (es : list PendingUnlinkEntry) s s' : Prop :=
  sy_queue s' = drop n (sy_queue s) ∧ checkpoint_cycle_ctr s' = checkpoint_cycle_ctr s ∧
  removals s' = removals s ++ (request_of <$> es) ∧ logged s' = logged s ++ omap reclaim_record es.

Lemma swept_trans n n' es es' s1 s2 s3 :
  swept n es s1 s2 → swept n' es' s2 s3 → swept (n + n') (es ++ es') s1 s3.
Proof.
  intros (Q1 & C1 & R1 & L1) (Q2 & C2 & R2 & L2). unfold swept. rewrite Q2, Q1, C2, C1, R2, R1, L2, L1.
  by rewrite drop_drop, fmap_app, omap_app, !app_assoc.
Qed.

(** One file. *)
Lemma wp_remove {A} e i (m : M SyncState A) s Q (E : pg_error → SyncState → Prop) :
  (∀ s', swept 0 [e] s s' → unlinks_freed s' = unlinks_freed s →
     pendingUnlinks s' = alter (λ e, MkPending (pu_tag e) (pu_cycle_ctr e) true (pu_request_type e)) i (pendingUnlinks s) →
     wp m Q E s') →
  wp (SyncPreUnlinkRequest advance e;; rc ← unlink_file unlink_rc e; SyncPostUnlinkRequest e rc;; cancel_at i;; m) Q E s.
Proof.
  intros HQ. apply wp_bind. unfold SyncPreUnlinkRequest.
  assert (∀ s1, sy_queue s1 = sy_queue s → checkpoint_cycle_ctr s1 = checkpoint_cycle_ctr s →
    unlinks_freed s1 = unlinks_freed s → pendingUnlinks s1 = pendingUnlinks s → sy_events s1 = sy_events s →
    logged s1 = logged s ++ omap reclaim_record [e] →
    wp (rc ← unlink_file unlink_rc e; SyncPostUnlinkRequest e rc;; cancel_at i;; m) Q E s1) as Hrest.
  { intros s1 Eq Ec Ef Eu Ee El. apply wp_bind, wp_bind, wp_gets, wp_bind, wp_modify, wp_ret, wp_bind.
    assert (∀ s2, sy_queue s2 = sy_queue s → checkpoint_cycle_ctr s2 = checkpoint_cycle_ctr s →
      unlinks_freed s2 = unlinks_freed s → pendingUnlinks s2 = pendingUnlinks s →
      sy_events s2 = sy_events s ++ [Unlinked (pu_tag e) (pu_request_type e)] → sy_wal s2 = sy_wal s1 →
      wp (cancel_at i;; m) Q E s2) as Hend.
    { intros s2 Eq2 Ec2 Ef2 Eu2 Ee2 Ew2. apply wp_bind, wp_modify, HQ; [split_and!|done|by cbn; rewrite Eu2].
      - done.
      - done.
      - unfold removals. cbn. by rewrite Ee2, omap_app.
      - unfold logged in *. cbn [sy_wal set_unlinks]. by rewrite Ew2. }
    unfold SyncPostUnlinkRequest. apply wp_when; [|by intros _; apply Hend; cbn; congruence].
    intros _. apply wp_modify. destruct (match _ with Some _ => _ | None => _ end); apply Hend; cbn; congruence. }
  apply wp_when.
  - intros Hr. apply wp_modify, Hrest; [done..|]. unfold logged. cbn. unfold reclaim_record. rewrite Hr.
    by rewrite fmap_app.
  - intros Hr. apply Hrest; [done..|]. cbn. unfold reclaim_record. by rewrite Hr, app_nil_r.
Qed.

(** What the loop returns and leaves in the list. *)
Definition post_loop_post (todo : list PendingUnlinkEntry) s (r : option nat) s' : Prop :=
  let ctr := checkpoint_cycle_ctr s in
  ∃ n pre', let left := undue ctr todo ++ arrivals ctr (concat (take n (sy_queue s))) in
    swept n (due ctr todo) s s' ∧ pendingUnlinks s' = pre' ++ left ∧
    r = if decide (left = []) then None else Some (length pre').

Lemma swept_refl s : swept 0 [] s s.
Proof. unfold swept. by rewrite drop_0, !app_nil_r. Qed.

(** The loop goes on after [e] with [n] more batches. *)
Lemma post_loop_step n es todo todo' s s1 r s' :
  swept n es s s1 → todo' = todo ++ arrivals (checkpoint_cycle_ctr s) (concat (take n (sy_queue s))) →
  post_loop_post todo' s1 r s' →
  ∃ n' pre', let left := undue (checkpoint_cycle_ctr s) todo ++
               arrivals (checkpoint_cycle_ctr s) (concat (take n' (sy_queue s))) in
    swept n' (es ++ due (checkpoint_cycle_ctr s) todo) s s' ∧ pendingUnlinks s' = pre' ++ left ∧
    r = if decide (left = []) then None else Some (length pre').
Proof.
  intros Hs1 -> (n2 & pre' & Hs2 & Hu & Hr). pose proof Hs1 as (Q1 & C1 & _). rewrite C1, Q1 in *.
  destruct (due_fresh (checkpoint_cycle_ctr s) todo _ (arrivals_fresh _ (concat (take n (sy_queue s))))) as [Ed Eu].
  rewrite Ed, Eu in *. rewrite <-!app_assoc, <-arrivals_app, <-concat_app, take_take_drop in Hu, Hr.
  exists (n + n2)%nat, pre'. split_and!; [by eapply swept_trans|done|done].
Qed.

Lemma wp_post_loop fuel freed i k s pre todo :
  pendingUnlinks s = pre ++ todo → length pre = i → unlinks_freed s = freed → Forall no_filter (sy_queue s) →
  Forall removable (due (checkpoint_cycle_ctr s) todo) →
  (length todo + length (concat (sy_queue s)) < fuel)%nat →
  wp (post_loop advance unlink_rc fuel freed i k) (post_loop_post todo s) (λ _ _, False) s.
Proof.
  revert i k s pre todo. induction fuel as [|fuel IH]; intros i k s pre todo Hu Hi Hfr Hnf Hrm Hfuel; [lia|].
  cbn [post_loop]. apply wp_bind, wp_gets. rewrite decide_False by (by intros ?).
  apply wp_bind, wp_gets. rewrite Hu. subst i. rewrite lookup_app_r, Nat.sub_diag by lia.
  destruct todo as [|e todo]; cbn [lookup list_lookup].
  { apply wp_ret. exists 0%nat, pre. split_and!; [apply swept_refl|done|done]. }
  unfold post_loop_post. cbn [due undue length] in *. destruct (pu_canceled e) eqn:Hc.
  { apply (IH _ _ s (pre ++ [e]) todo); [by rewrite <-app_assoc|rewrite length_app; cbn; lia|done|done|done|lia]. }
  apply wp_bind, wp_gets. case_decide as Hcy.
  { apply wp_ret. exists 0%nat, pre. split_and!; [apply swept_refl|by rewrite Hu, app_nil_r|done]. }
  apply Forall_cons_1 in Hrm as [Hrm Hrms]. assert (0 ≤ ft_handler (pu_tag e) < n_handlers) as Hh.
  { unfold removable, has_unlinkfiletag, SYNC_HANDLER_MD, SYNC_HANDLER_UMBRA in Hrm. unfold n_handlers.
    repeat case_bool_decide; try done; lia. }
  apply wp_bind. unfold SyncOpsForHandler. rewrite decide_False by lia. apply wp_ret. rewrite Hrm. cbn [negb].
  apply wp_remove. intros s1 Hs1 Hf1 Hu1. pose proof Hs1 as (Q1 & C1 & _).
  set (e' := MkPending (pu_tag e) (pu_cycle_ctr e) true (pu_request_type e)).
  assert (pendingUnlinks s1 = (pre ++ [e']) ++ todo) as Hu1'.
  { rewrite Hu1, Hu, <-app_assoc. rewrite alter_app_r_alt, Nat.sub_diag by lia. done. }
  rewrite drop_0 in Q1. assert (length (pre ++ [e']) = Datatypes.S (length pre)) as Hlen by (rewrite length_app; cbn; lia).
  case_decide.
  - apply wp_bind, wp_absorb; [by rewrite Q1|]. intros s2 (Hf2 & C2 & W2 & R2) Q2 Hu2. rewrite Q1, C1 in *.
    assert (swept 1 [e] s s2) as Hs2.
    { apply (swept_trans 0 1 [e] [] s s1 s2 Hs1). unfold swept, logged. by rewrite Q2, Q1, C2, R2, W2, !app_nil_r, C1. }
    eapply wp_mono; [apply (IH _ _ s2 (pre ++ [e'])
      (todo ++ arrivals (checkpoint_cycle_ctr s) (concat (take 1 (sy_queue s)))))| |done].
    + by rewrite Hu2, Hu1', <-app_assoc.
    + done.
    + congruence.
    + rewrite Q2. by apply Forall_drop.
    + rewrite C2. destruct (due_fresh (checkpoint_cycle_ctr s) todo _ (arrivals_fresh _ (concat (take 1 (sy_queue s)))))
        as [-> _]. done.
    + rewrite Q2, length_app. pose proof (arrivals_length (checkpoint_cycle_ctr s) (concat (take 1 (sy_queue s)))).
      assert (length (concat (take 1 (sy_queue s))) + length (concat (drop 1 (sy_queue s))) =
        length (concat (sy_queue s)))%nat by (by rewrite <-length_app, <-concat_app, take_drop). lia.
    + intros r s' Hp. eapply (post_loop_step 1 [e] todo); [exact Hs2|reflexivity|exact Hp].
  - eapply wp_mono; [apply (IH _ _ s1 (pre ++ [e']) todo)| |done].
    + done.
    + done.
    + congruence.
    + by rewrite Q1.
    + by rewrite C1.
    + rewrite Q1. lia.
    + intros r s' Hp. apply (post_loop_step 0 [e] todo todo s s1 r s'); [done|by rewrite app_nil_r|done].
Qed.

Lemma wp_post_checkpoint s :
  Forall no_filter (sy_queue s) → Forall removable (due (checkpoint_cycle_ctr s) (pendingUnlinks s)) →
  wp (SyncPostCheckpoint advance unlink_rc)
    (λ _ s', ∃ n, swept n (due (checkpoint_cycle_ctr s) (pendingUnlinks s)) s s' ∧
       pendingUnlinks s' = undue (checkpoint_cycle_ctr s) (pendingUnlinks s) ++
         arrivals (checkpoint_cycle_ctr s) (concat (take n (sy_queue s)))) (λ _ _, False) s.
Proof.
  intros Hnf Hrm. apply wp_bind, wp_gets, wp_bind, wp_gets, wp_bind.
  eapply wp_mono; [apply (wp_post_loop _ _ _ _ s [] (pendingUnlinks s)); [done..|unfold post_fuel; lia]| |done].
  intros r s' (n & pre' & Hs & Hu & ->). case_decide as Hl; apply wp_modify; exists n; (split; [done|]); cbn.
  - by rewrite Hl.
  - by rewrite Hu, drop_app_length.
Qed.
End post.

(** ** The order of events *)

Section order.
Context (advance : Z → Z → Z) (unlink_rc sync_rc : FileTag → nat → option errno).
Context (enableFsync data_sync_retry : bool).
Implicit Types s : SyncState.

(** A request was made and a checkpoint begun after it. *)
Definition awaited (evs : list SyncEvent) (tag : FileTag) (ty : SyncRequestType) : Prop :=
  ∃ a b, evs = a ++ Remembered tag ty :: b ∧ CheckpointBegun ∈ b.

Record sync_inv s : Prop := {
  si_pending : ∀ e, e ∈ pendingUnlinks s → ∃ a b,
    sy_events s = a ++ Remembered (pu_tag e) (pu_request_type e) :: b ∧
    (pu_cycle_ctr e ≠ checkpoint_cycle_ctr s → CheckpointBegun ∈ b);
  si_removed : ∀ a tag ty b, sy_events s = a ++ Unlinked tag ty :: b → awaited a tag ty;
}.

Lemma inv_quiet s s' :
  sync_inv s → sy_events s' = sy_events s → checkpoint_cycle_ctr s' = checkpoint_cycle_ctr s →
  (∀ e', e' ∈ pendingUnlinks s' → ∃ e, e ∈ pendingUnlinks s ∧ request_of e' = request_of e ∧
     pu_cycle_ctr e' = pu_cycle_ctr e) → sync_inv s'.
Proof.
  intros [Hp Hr] Ee Ec Hu. split; rewrite Ee; [|done]. intros e' (e & Hin & [= -> ->] & ->)%Hu. rewrite Ec. by apply Hp.
Qed.

Lemma split_last {A} (l a b : list A) x y : l ++ [x] = a ++ y :: b → (x = y ∧ l = a ∧ b = []) ∨ ∃ b', b = b' ++ [x] ∧ l = a ++ y :: b'.
Proof.
  destruct b as [|z b' _] using rev_ind.
  - intros [-> [= ->]]%app_inj_tail. by left.
  - rewrite app_comm_cons, app_assoc. intros [-> ->]%app_inj_tail. right. by exists b'.
Qed.

Lemma inv_event s ev :
  sync_inv s → (∀ tag ty, ev = Unlinked tag ty → awaited (sy_events s) tag ty) → sync_inv (add_event ev s).
Proof.
  intros [Hp Hr] Hev. split; cbn.
  - intros e Hin. destruct (Hp e Hin) as (a & b & -> & Hb). exists a, (b ++ [ev]).
    split; [by rewrite <-app_assoc|]. intros Hc. apply elem_of_app. auto.
  - intros a tag ty b [(-> & <- & _)|(b' & _ & E)]%split_last; [by apply Hev|by eapply Hr].
Qed.

Lemma inv_append s tag ty :
  sync_inv s → (∃ a b, sy_events s = a ++ Remembered tag ty :: b) →
  sync_inv (set_unlinks (pendingUnlinks s ++ [MkPending tag (checkpoint_cycle_ctr s) false ty]) s).
Proof.
  intros [Hp Hr] (a & b & E). split; cbn; [|done]. intros e [Hin| ->%list_elem_of_singleton]%elem_of_app; [by apply Hp|].
  exists a, b. cbn. by split.
Qed.

(** [m] keeps the invariant, also when it fails. *)
Definition keeps_inv {A} (m : M SyncState A) : Prop :=
  ∀ s, sync_inv s → wp m (λ _ s', sync_inv s') (λ _ s', sync_inv s') s.

Lemma keeps_bind {A B} (m : M SyncState A) (k : A → M SyncState B) :
  keeps_inv m → (∀ a, keeps_inv (k a)) → keeps_inv (m ≫= k).
Proof. intros Hm Hk s Hs. apply wp_bind. eapply wp_mono; [by apply Hm|by apply Hk|done]. Qed.
Lemma keeps_ret {A} (a : A) : keeps_inv (mret a).
Proof. intros s Hs. by apply wp_ret. Qed.
Lemma keeps_throw {A} e : keeps_inv (throw (A := A) e).
Proof. intros s Hs. by apply wp_throw. Qed.
Lemma keeps_gets {A} (g : SyncState → A) : keeps_inv (gets g).
Proof. intros s Hs. by apply wp_gets. Qed.
Lemma keeps_modify g : (∀ s, sync_inv s → sync_inv (g s)) → keeps_inv (modify g).
Proof. intros Hg s Hs. by apply wp_modify, Hg. Qed.
Lemma keeps_when b m : keeps_inv m → keeps_inv (when b m).
Proof. destruct b; [done|intros _; apply keeps_ret]. Qed.

Lemma keeps_handler h : keeps_inv (SyncOpsForHandler h).
Proof. unfold SyncOpsForHandler. case_decide; [apply keeps_throw|apply keeps_ret]. Qed.

Lemma keeps_remember tag ty : keeps_inv (RememberSyncRequest tag ty).
Proof.
  intros s Hs. apply wp_bind, wp_modify. set (s1 := add_event _ s).
  assert (sync_inv s1) as Hs1 by (by apply inv_event).
  assert (∃ a b, sy_events s1 = a ++ Remembered tag ty :: b) as Hrem by (by exists (sy_events s), []).
  assert (∀ o, sync_inv (set_ops o s1)) as Hops by (intros o; apply (inv_quiet s1); eauto).
  destruct ty; [apply wp_modify|apply wp_modify; by apply inv_append|apply wp_modify; by apply inv_append| |].
  - destruct (pendingOps s1 !! tag) as [e|]; [destruct (pf_canceled e)|]; auto.
  - apply wp_bind, wp_gets. destruct (_ !! tag); [apply wp_modify|apply wp_ret]; auto.
  - apply wp_bind. eapply wp_mono; [by apply keeps_handler| |done]. intros ? s2 Hs2. clear Hs1 Hops Hrem.
    destruct (sync_filetagmatches _) as [matches|]; [|by apply wp_throw].
    apply wp_bind, wp_modify, wp_bind, wp_gets, wp_bind, wp_modify. cbn [pendingUnlinks set_ops].
    set (kept := List.filter _ _). assert (sync_inv (set_unlinks kept (set_ops (filter_fsyncs tag matches (pendingOps s2)) s2))) as Hk.
    { apply (inv_quiet s2); [done..|]. cbn. intros e He. exists e. split; [|done].
      apply list_elem_of_In, filter_In in He as [He _]. by apply list_elem_of_In. }
    apply wp_when; [|done]. intros _. apply wp_modify. by apply (inv_quiet _ _ Hk); eauto.
Qed.

Lemma keeps_absorb : keeps_inv AbsorbSyncRequests.
Proof.
  apply keeps_bind; [apply keeps_gets|]. intros [|batch q]; [apply keeps_ret|].
  apply keeps_bind; [apply keeps_modify; intros s Hs; apply (inv_quiet s); eauto|]. intros _.
  induction batch as [|[tag ty] batch IH]; cbn [remember_all]; [apply keeps_ret|].
  apply keeps_bind; [apply keeps_remember|done].
Qed.

Lemma keeps_pre : keeps_inv SyncPreCheckpoint.
Proof.
  apply keeps_bind; [apply keeps_absorb|]. intros _. apply keeps_modify. intros s [Hp Hr]. split; cbn.
  - intros e Hin. destruct (Hp e Hin) as (a & b & -> & _). exists a, (b ++ [CheckpointBegun]).
    split; [by rewrite <-app_assoc|]. intros _. apply elem_of_app. right. by constructor.
  - intros a tag ty b [(? & _)|(b' & _ & E)]%split_last; [done|by eapply Hr].
Qed.

Lemma keeps_post_loop fuel freed i k : keeps_inv (post_loop advance unlink_rc fuel freed i k).
Proof.
  revert i k. induction fuel as [|fuel IH]; intros i k s Hs; cbn [post_loop]; [by apply wp_ret|].
  apply wp_bind, wp_gets. case_decide; [by apply wp_throw|]. apply wp_bind, wp_gets.
  destruct (pendingUnlinks s !! i) as [e|] eqn:He; [|by apply wp_ret]. destruct (pu_canceled e); [by apply IH|].
  apply wp_bind, wp_gets. case_decide as Hc; [by apply wp_ret|]. apply list_elem_of_lookup_2 in He.
  apply wp_bind. unfold SyncOpsForHandler. case_decide; [by apply wp_throw|apply wp_ret].
  destruct (negb _); [by apply wp_throw|]. apply wp_bind.
  assert (∀ s1, sync_inv s1 → e ∈ pendingUnlinks s1 → checkpoint_cycle_ctr s1 = checkpoint_cycle_ctr s →
    wp (rc ← unlink_file unlink_rc e; SyncPostUnlinkRequest e rc;; cancel_at i;;
        if decide (k - 1 ≤ 0) then AbsorbSyncRequests;; post_loop advance unlink_rc fuel freed (Datatypes.S i) UNLINKS_PER_ABSORB
        else post_loop advance unlink_rc fuel freed (Datatypes.S i) (k - 1))
      (λ _ s', sync_inv s') (λ _ s', sync_inv s') s1) as Hrest.
  { intros s1 Hs1 He1 Hc1. apply wp_bind, wp_bind, wp_gets, wp_bind, wp_modify, wp_ret.
    assert (sync_inv (add_event (Unlinked (pu_tag e) (pu_request_type e)) s1)) as Hs2.
    { apply inv_event; [done|]. intros tag ty [= <- <-]. destruct (si_pending _ Hs1 e He1) as (a & b & E & Hb).
      exists a, b. split; [done|]. apply Hb. congruence. }
    generalize dependent (add_event (Unlinked (pu_tag e) (pu_request_type e)) s1). intros s2 Hs2.
    apply keeps_bind; [|intros _; apply keeps_bind; [|intros _; case_decide; [apply keeps_bind; [apply keeps_absorb|intros _]|]; apply IH]|done].
    - apply keeps_when, keeps_modify. intros s3 Hs3. destruct (match _ with Some _ => _ | None => _ end);
        (apply (inv_quiet s3); eauto).
    - apply keeps_modify. intros s3 Hs3. apply (inv_quiet s3); [done..|]. cbn. intros e' Hin.
      apply list_elem_of_lookup in Hin as [j Hj]. rewrite list_lookup_alter in Hj. case_decide.
      + destruct (pendingUnlinks s3 !! _) as [e0|] eqn:E0; [|done]. injection Hj as <-. exists e0.
        split; [by eapply list_elem_of_lookup_2|done].
      + exists e'. split; [by eapply list_elem_of_lookup_2|done]. }
  apply wp_when; [|intros _; by apply Hrest]. intros _. apply wp_modify, Hrest; [|done|done].
  apply (inv_quiet s); eauto.
Qed.

Lemma keeps_post : keeps_inv (SyncPostCheckpoint advance unlink_rc).
Proof.
  apply keeps_bind; [apply keeps_gets|intros fuel]. apply keeps_bind; [apply keeps_gets|intros freed].
  apply keeps_bind; [apply keeps_post_loop|]. intros [n|]; apply keeps_modify; intros s Hs;
    apply (inv_quiet s); try done; cbn; intros e He; [|by apply elem_of_nil in He]. exists e. split; [|done].
  apply list_elem_of_lookup in He as [j Hj]. rewrite lookup_drop in Hj. by eapply list_elem_of_lookup_2.
Qed.

Lemma keeps_ops g : keeps_inv (modify (λ s, set_ops (g s) s)).
Proof. apply keeps_modify. intros s Hs. apply (inv_quiet s); eauto. Qed.

Lemma keeps_sync_entry n tag failures k : keeps_inv (sync_entry sync_rc data_sync_retry n tag failures k).
Proof.
  revert failures k. induction n as [|n IH]; intros failures k; cbn [sync_entry]; [apply keeps_ret|].
  apply keeps_bind; [apply keeps_gets|intros ops]. destruct (match _ with Some _ => _ | None => _ end); [apply keeps_ret|].
  apply keeps_bind; [apply keeps_gets|intros m]. destruct (sync_rc tag m) as [er|].
  - destruct (_ || _); [apply keeps_throw|]. apply keeps_bind; [apply keeps_absorb|intros _; apply IH].
  - apply keeps_bind; [|intros _; apply keeps_ret]. apply keeps_modify. intros s Hs. by apply inv_event.
Qed.

Lemma keeps_sync_entries tags k : keeps_inv (sync_entries sync_rc enableFsync data_sync_retry tags k).
Proof.
  revert k. induction tags as [|tag tags IH]; intros k; cbn [sync_entries]; [apply keeps_ret|].
  apply keeps_bind; [apply keeps_gets|intros s]. destruct (pendingOps s !! tag) as [e|]; [|apply IH].
  case_decide; [apply IH|]. apply keeps_bind; [|intros k'; apply keeps_bind; [apply keeps_ops|intros _; apply IH]].
  destruct enableFsync; [|apply keeps_ret].
  case_decide; [apply keeps_bind; [apply keeps_absorb|intros _]|]; apply keeps_sync_entry.
Qed.

Lemma keeps_process : keeps_inv (ProcessSyncRequests sync_rc enableFsync data_sync_retry).
Proof.
  assert (∀ c b s, sync_inv s → sync_inv (set_sync_cycle c b s)) as Hc by (intros c b s Hs; apply (inv_quiet s); eauto).
  apply keeps_bind; [apply keeps_absorb|intros _]. apply keeps_bind; [apply keeps_gets|intros busy].
  apply keeps_bind; [apply keeps_when, keeps_ops|intros _].
  apply keeps_bind; [apply keeps_modify; auto|intros _]. apply keeps_bind; [apply keeps_gets|intros tags].
  apply keeps_bind; [apply keeps_sync_entries|intros _]. apply keeps_modify; auto.
Qed.

(** What a checkpointer does, and what arrives meanwhile. *)
Inductive sync_op :=
  | OpRemember (tag : FileTag) (type : SyncRequestType)
  | OpArrive (batches : list (list (FileTag * SyncRequestType)))
  | OpPreCheckpoint
  | OpProcess
  | OpPostCheckpoint.

Definition run_sync (op : sync_op) s : SyncState :=
  match op with
  | OpRemember tag ty => (RememberSyncRequest tag ty s).2
  | OpArrive batches => set_queue (sy_queue s ++ batches) s
  | OpPreCheckpoint => (SyncPreCheckpoint s).2
  | OpProcess => (ProcessSyncRequests sync_rc enableFsync data_sync_retry s).2
  | OpPostCheckpoint => (SyncPostCheckpoint advance unlink_rc s).2
  end.

Lemma keeps_run {A} (m : M SyncState A) s : keeps_inv m → sync_inv s → sync_inv (m s).2.
Proof. intros Hm Hs. specialize (Hm s Hs). unfold wp in Hm. by destruct (m s) as [[]]. Qed.

Lemma run_sync_inv op s : sync_inv s → sync_inv (run_sync op s).
Proof.
  intros Hs. destruct op; cbn [run_sync]; [|by apply (inv_quiet s); eauto| | |]; (eapply keeps_run; [|done]).
  - apply keeps_remember.
  - apply keeps_pre.
  - apply keeps_process.
  - apply keeps_post.
Qed.
End order.

(** [InitSync] *)
Definition InitSync (w : Wal) : SyncState := MkSync ∅ [] 0 0 0 false w [] 0 0 [].

(** C17: No file is removed too early: whatever requests arrive, in whatever order
    checkpoints begin, sync and clean up, and whichever calls fail, a file is
    removed only after a checkpoint has begun since the request was made. *)
Theorem removal_awaits_checkpoint advance unlink_rc sync_rc enableFsync data_sync_retry w ops a tag ty b :
  sy_events (foldl (λ s op, run_sync advance unlink_rc sync_rc enableFsync data_sync_retry op s) (InitSync w) ops) =
    a ++ Unlinked tag ty :: b →
  ∃ a1 a2, a = a1 ++ Remembered tag ty :: a2 ∧ CheckpointBegun ∈ a2.
Proof.
  intros E. assert (sync_inv (foldl (λ s op, run_sync advance unlink_rc sync_rc enableFsync data_sync_retry op s)
    (InitSync w) ops)) as [_ Hr]; [|by eapply Hr].
  assert (sync_inv (InitSync w)) as H0.
  { split; cbn; [intros e He; by apply elem_of_nil in He|intros x ? ? ? Hx; by destruct x]. }
  clear E. revert H0. generalize (InitSync w). induction ops as [|op ops IH]; intros s Hs; [done|]. by apply IH, run_sync_inv.
Qed.

(** C18: When no filter request arrives meanwhile, the work after a checkpoint
    removes exactly the files whose requests are older than the checkpoint, in
    the order of the requests, logs the removal of every reclaimed segment,
    and keeps the requests of the current cycle and those that arrive. *)
Theorem post_checkpoint_exact advance unlink_rc s :
  Forall no_filter (sy_queue s) → Forall removable (due (checkpoint_cycle_ctr s) (pendingUnlinks s)) →
  ∃ s' n, SyncPostCheckpoint advance unlink_rc s = (Ok tt, s') ∧
    removals s' = removals s ++ (request_of <$> due (checkpoint_cycle_ctr s) (pendingUnlinks s)) ∧
    logged s' = logged s ++ omap reclaim_record (due (checkpoint_cycle_ctr s) (pendingUnlinks s)) ∧
    sy_queue s' = drop n (sy_queue s) ∧
    pendingUnlinks s' = undue (checkpoint_cycle_ctr s) (pendingUnlinks s) ++
      arrivals (checkpoint_cycle_ctr s) (concat (take n (sy_queue s))).
Proof.
  intros Hnf Hrm. pose proof (wp_post_checkpoint advance unlink_rc s Hnf Hrm) as Hrun. unfold wp in Hrun.
  destruct (SyncPostCheckpoint _ _ _) as [[[]|er] s']; [|done]. destruct Hrun as (n & (Q & _ & R & Lg) & U).
  by exists s', n.
Qed.

(** ** A filter request in the middle *)

Definition rel_no (k : Z) : RelFileLocator := MkRel 1663 5 k.
Definition file_of (k : Z) : FileTag := MkTag SYNC_HANDLER_UMBRA MAIN_FORKNUM (rel_no k) 0.
(** The tag with which [MapReclaimForgetRelation] takes reclaim requests back. *)
Definition forget_of (k : Z) : FileTag := MkTag SYNC_HANDLER_UMBRA InvalidForkNumber (rel_no k) InvalidBlockNumber.

(** Requests of one cycle, then a checkpoint begins and the drop of relation 1
    is announced. *)
Definition before_cleanup (reqs : list (FileTag * SyncRequestType)) : SyncState :=
  foldl (λ s op, run_sync (λ pos len, pos + len) (λ _ _, None) (λ _ _, None) true false op s) (InitSync (MkWal 0 []))
    (((λ q, OpRemember q.1 q.2) <$> reqs) ++
     [OpPreCheckpoint; OpArrive [[(forget_of 1, SYNC_FILTER_REQUEST)]]]).

(** A segment of relation 1 to be reclaimed and ten dropped relations. *)
Definition drops : list (FileTag * SyncRequestType) :=
  (file_of 1, SYNC_RECLAIM_REQUEST) :: ((λ k, (file_of k, SYNC_UNLINK_REQUEST)) <$> [2; 3; 4; 5; 6; 7; 8; 9; 10; 11]).


Lemma post_checkpoint_exact_witness :
  ∃ s', SyncPostCheckpoint (λ pos len, pos + len) (λ _ _, None) (set_queue [] (before_cleanup drops)) = (Ok tt, s') ∧
    removals s' = drops ∧ length (logged s') = 1%nat ∧ pendingUnlinks s' = [].
Proof.
  destruct (post_checkpoint_exact (λ pos len, pos + len) (λ _ _, None) (set_queue [] (before_cleanup drops)))
    as (s' & n & E & R & Lg & _ & U).
  - constructor.
  - vm_compute. repeat (constructor; [exact eq_refl|]). constructor.
  - exists s'. split; [exact E|]. rewrite R, Lg, U. vm_compute. split; [exact eq_refl|]. split; [exact eq_refl|].
    destruct n; exact eq_refl.
Defined.

Lemma removal_awaits_checkpoint_witness :
  ∃ a a1 a2, a = a1 ++ Remembered (file_of 1) SYNC_RECLAIM_REQUEST :: a2 ∧ CheckpointBegun ∈ a2.
Proof.
  set (ops := [OpRemember (file_of 1) SYNC_RECLAIM_REQUEST; OpPreCheckpoint; OpPostCheckpoint]).
  exists [Remembered (file_of 1) SYNC_RECLAIM_REQUEST; CheckpointBegun].
  apply (removal_awaits_checkpoint (λ pos len, pos + len) (λ _ _, None) (λ _ _, None) true false (MkWal 0 []) ops
    _ (file_of 1) SYNC_RECLAIM_REQUEST []). vm_compute. exact eq_refl.
Defined.
