(* ===== verification/MapCompact.v ===== *)
(** * Compaction and reclaim

    The map writer's and the compactor's work of [storage/map/mapbgproc.c]:
    background preallocation, moving the blocks of sparsely used extents to
    fresh physical blocks, and asking for the removal of segments that no
    logical block refers to. *)

From S2P Require Import Prelude MapLayout Superblock SuperTable FileLayer SmgrFiles SBlock MapPrealloc.
From S2P Require Import BufState MapBuf MapPage MapRange MapInflight UmbraXlog SmgrAccess SmgrExtend SyncQueue.

Local Open Scope Z_scope.

(** The settings [map_compactor_...]. *)
Record CompactorGucs := MkCompactorGucs {
  map_compactor_enable : bool;
  map_compactor_extent_blocks : Z;
  map_compactor_low_live_percent : Z;
  map_compactor_max_moves : Z;
}.

(** A background process: its backend, the requests it has registered, the
    counters [reclaim_enqueued] and [compactor_relocations], the number of
    conditional lock attempts so far and the two scan cursors. *)
Record CState (T F : Type) := MkC {
  c_x : XState T F;
  c_requests : list (FileTag * SyncRequestType);
  c_enqueued : Z;
  c_relocations : Z;
  c_tries : nat;
  c_prealloc_slot : Z;
  c_compact_slot : Z;
}.
Arguments MkC {T F} _ _ _ _ _ _ _.
Arguments c_x {T F} _.
Arguments c_requests {T F} _.
Arguments c_enqueued {T F} _.
Arguments c_relocations {T F} _.
Arguments c_tries {T F} _.
Arguments c_prealloc_slot {T F} _.
Arguments c_compact_slot {T F} _.

(** ** Boundaries *)

Definition MapSegmentFullyBelowReclaimBoundary (boundary_pblk segno : Z) : bool :=
  bool_decide ((segno + 1) * RELSEG_SIZE ≤ boundary_pblk).

Definition MapExtentFullyBelowReclaimBoundary (boundary_pblk extent_no extent_blocks : Z) : bool :=
  if decide (extent_blocks = 0) then false
  else bool_decide ((extent_no + 1) * extent_blocks ≤ boundary_pblk).

(** One turn per block below [next_free_pblk]. *)
Fixpoint advance_boundary (n : nat) (boundary_pblk : Z) (committed : gset Z) : Z :=
  match n with
  | O => boundary_pblk
  | S n =>
      if decide (boundary_pblk ∈ committed) then advance_boundary n (boundary_pblk + 1) committed
      else boundary_pblk
  end.

Definition MapCompactorAdvanceBoundaryFromSet (boundary_pblk next_free_pblk : Z)
    (committed : gset Z) : Z :=
  advance_boundary (Z.to_nat (next_free_pblk - boundary_pblk)) boundary_pblk committed.

(** ** What a scan of the map finds *)

(** [extent_live], [boundary_committed], [segment_live] and [max_extent_no]. *)
Record MapScan := MkScan {
  sc_live : gmap Z Z;
  sc_committed : gset Z;
  sc_segments : gset Z;
  sc_max_extent : Z;
}.

Definition no_scan : MapScan := MkScan ∅ ∅ ∅ InvalidBlockNumber.

(** One entry of a map page. *)
Definition scan_entry (extent_blocks reclaim_boundary_pblk next_free_pblk : Z) (sc : MapScan)
    (pblkno : Z) : MapScan :=
  if decide (pblkno = InvalidBlockNumber) then sc
  else
    let committed := if decide (reclaim_boundary_pblk ≤ pblkno < next_free_pblk)
                     then {[pblkno]} ∪ sc_committed sc else sc_committed sc in
    if decide (reclaim_boundary_pblk ≤ pblkno)
    then MkScan (sc_live sc) committed (sc_segments sc) (sc_max_extent sc)
    else
      let extent_no := pblkno / extent_blocks in
      let segno := pblkno / RELSEG_SIZE in
      let live := default 0 (sc_live sc !! extent_no) in
      MkScan (<[extent_no := if decide (live < extent_blocks) then live + 1 else live]> (sc_live sc))
        committed
        (if decide (segno < reclaim_boundary_pblk / RELSEG_SIZE)
         then {[segno]} ∪ sc_segments sc else sc_segments sc)
        (if decide (sc_max_extent sc = InvalidBlockNumber ∨ sc_max_extent sc < extent_no)
         then extent_no else sc_max_extent sc).

Definition live_threshold (g : CompactorGucs) : Z :=
  Z.min 100 (Z.max 1 (map_compactor_low_live_percent g)).

Definition live_pct (live_blocks extent_blocks : Z) : Z := live_blocks * 100 / Z.max 1 extent_blocks.

(** Extents that are below the boundary, not the last one, and mostly free. *)
Definition sparse_extent (g : CompactorGucs) (extent_blocks reclaim_boundary_pblk max_extent_no : Z)
    (e : Z * Z) : bool :=
  negb (bool_decide (max_extent_no ≠ InvalidBlockNumber ∧ e.1 = max_extent_no)) &&
  MapExtentFullyBelowReclaimBoundary reclaim_boundary_pblk e.1 extent_blocks &&
  bool_decide (live_pct e.2 extent_blocks ≤ live_threshold g).

Definition sparse_count (g : CompactorGucs) (extent_blocks reclaim_boundary_pblk : Z) (sc : MapScan) : Z :=
  Z.of_nat (length (List.filter
    (sparse_extent g extent_blocks reclaim_boundary_pblk (sc_max_extent sc)) (map_to_list (sc_live sc)))).

Section ops.
Context {T F : Type} `{SuperStore T} `{FileLayer F} `{DataFiles F} (env : Env) (gucs : MapGucs).
Context (cg : CompactorGucs) (advance : Z → Z → Z).
(** Whether the [n]th conditional lock attempt succeeds. *)
Context (lock_free : nat → bool).
Local Abbreviation MS := (MapState T F).
Local Abbreviation W := (World T F).
Local Abbreviation X := (XState T F).
Local Abbreviation C := (CState T F).

Definition with_x (x : X) (c : C) : C :=
  MkC x (c_requests c) (c_enqueued c) (c_relocations c) (c_tries c) (c_prealloc_slot c) (c_compact_slot c).

Definition in_x {A} (m : M X A) : M C A := λ c, let '(r, x) := m (c_x c) in (r, with_x x c).
Definition at_ms {A} (m : M MS A) : M C A := in_x (in_map m).
Definition at_world {A} (m : M W A) : M C A := in_x (in_world m).

(** [LWLockConditionalAcquire] *)
Definition conditional_acquire : M C bool :=
  n ← gets c_tries;
  modify (λ c, MkC (c_x c) (c_requests c) (c_enqueued c) (c_relocations c) (Datatypes.S (c_tries c))
                 (c_prealloc_slot c) (c_compact_slot c));;
  mret (lock_free n).

(** [RegisterSyncRequest] with [retryOnError] *)
Definition RegisterSyncRequest (ftag : FileTag) (type : SyncRequestType) : M C bool :=
  modify (λ c, MkC (c_x c) (c_requests c ++ [(ftag, type)]) (c_enqueued c) (c_relocations c) (c_tries c)
                 (c_prealloc_slot c) (c_compact_slot c));;
  mret true.

Definition MapStatsAddReclaimEnqueued (n : Z) : M C unit :=
  modify (λ c, MkC (c_x c) (c_requests c) (u64 (c_enqueued c + n)) (c_relocations c) (c_tries c)
                 (c_prealloc_slot c) (c_compact_slot c)).
Definition MapStatsAddCompactorRelocations (n : Z) : M C unit :=
  modify (λ c, MkC (c_x c) (c_requests c) (c_enqueued c) (u64 (c_relocations c + n)) (c_tries c)
                 (c_prealloc_slot c) (c_compact_slot c)).

(** ** Background preallocation *)

Definition MapForkNeedsPrealloc (e : MapSuperEntry) (f : ForkNumber) (background_mode : bool)
    : result bool :=
  if negb (MapForkHasMappedState f) then Ok false
  else
    match MapForkPreallocSettings gucs f with
    | None => Ok false
    | Some (soft_low, hard_low, batch_blocks) =>
        there ← MapSuperForkExists (super e) f;
        if negb there then Ok false
        else
          next ← MapSuperGetReservedNextFree e f;
          capacity ← MapSuperblockGetPhysCapacity (super e) f;
          let capacity := MapNormalizeForkBlockCount f capacity in
          if decide (next < soft_low) then Ok false
          else
            let remaining := if decide (next < capacity) then capacity - next else 0 in
            if decide (soft_low < remaining) then Ok false
            else if negb background_mode && bool_decide (hard_low < remaining) then Ok false
            else if has_flag (runtime_flags e) (MapSuperPreallocFlag f) then Ok false
            else Ok true
    end.

(** [scan_slot] is the cursor; a round looks at [max_scan] slots at most and
    stops after [max_relations] relations. *)
Definition max_scan (max_relations : Z) (capacity : nat) : nat :=
  Z.to_nat (Z.min (Z.of_nat capacity) (Z.max 64 (max_relations * 8))).

Definition prealloc_if (needed : bool) (r : RelFileLocator) (f : ForkNumber) : M C Z :=
  if needed then
    res ← at_world (MapMaybePreallocateFork env gucs r f true);
    mret (if (res.1 : bool) then 1 else 0)
  else mret 0.

Definition next_prealloc_slot (capacity : nat) : M C (option MapSuperEntry) :=
  slot ← gets c_prealloc_slot;
  slots ← at_world (gets (λ w, ss_slots (w_store w)));
  modify (λ c, MkC (c_x c) (c_requests c) (c_enqueued c) (c_relocations c) (c_tries c)
                 ((slot + 1) mod Z.of_nat capacity) (c_compact_slot c));;
  mret (slots !! Z.to_nat slot).

(** [n] slots are left to scan; the relations visited and the successful
    preallocations so far. *)
Fixpoint prealloc_scan (n capacity : nat) (max_relations visited prealloc_ops : Z) : M C Z :=
  match n with
  | O => mret prealloc_ops
  | Datatypes.S n =>
      if decide (max_relations ≤ visited) then mret prealloc_ops
      else
        oe ← next_prealloc_slot capacity;
        match oe with
        | None => prealloc_scan n capacity max_relations visited prealloc_ops
        | Some e =>
            if negb (in_use e) then prealloc_scan n capacity max_relations visited prealloc_ops
            else if negb (has_flag (eflags e) MAPSUPER_FLAG_VALID) || entry_untrusted e
            then prealloc_scan n capacity max_relations visited prealloc_ops
            else
              prealloc_main ← lift (MapForkNeedsPrealloc e MAIN_FORKNUM true);
              prealloc_fsm ← lift (MapForkNeedsPrealloc e FSM_FORKNUM true);
              prealloc_vm ← lift (MapForkNeedsPrealloc e VISIBILITYMAP_FORKNUM true);
              n1 ← prealloc_if prealloc_main (key e) MAIN_FORKNUM;
              n2 ← prealloc_if prealloc_fsm (key e) FSM_FORKNUM;
              n3 ← prealloc_if prealloc_vm (key e) VISIBILITYMAP_FORKNUM;
              prealloc_scan n capacity max_relations (visited + 1) (prealloc_ops + n1 + n2 + n3)
        end
  end.

Definition MapPreallocStep (max_relations : Z) : M C Z :=
  capacity ← at_world (gets (λ w, length (ss_slots (w_store w))));
  if InRecovery env || bool_decide (max_relations ≤ 0) || bool_decide (capacity = 0%nat) then mret 0
  else prealloc_scan (max_scan max_relations capacity) capacity max_relations 0 0.

(** ** Live references *)

Definition entry_in_segment (segno pblkno : Z) : bool :=
  bool_decide (pblkno ≠ InvalidBlockNumber ∧ pblkno / RELSEG_SIZE = segno).

Definition limit_idx (page_idx page_count n_lblknos : Z) : Z :=
  if decide (page_idx = page_count - 1 ∧ n_lblknos mod MAP_ENTRIES_PER_PAGE ≠ 0)
  then n_lblknos mod MAP_ENTRIES_PER_PAGE else MAP_ENTRIES_PER_PAGE.

Fixpoint live_pages (npages : nat) (r : RelFileLocator) (f : ForkNumber)
    (segno n_lblknos n_map_pages page_count page_idx : Z) (current : option (nat * Z)) : M MS bool :=
  match npages with
  | O => release_page current;; mret false
  | Datatypes.S npages =>
      page_no ← lift (MapForkPageIndexToMapBlkno f page_idx);
      if decide (n_map_pages ≤ page_no) then release_page current;; mret false
      else
        slot ← switch_page env r f page_no current;
        pg ← on_sys (get_page slot);
        if existsb (entry_in_segment segno)
             (take (Z.to_nat (limit_idx page_idx page_count n_lblknos)) pg)
        then on_sys (MapUnpinBuffer slot);; mret true
        else live_pages npages r f segno n_lblknos n_map_pages page_count (u32 (page_idx + 1))
               (Some (slot, page_no))
  end.

Definition MapSegmentHasLiveReferences (r : RelFileLocator) (f : ForkNumber) (segno : Z) : M MS bool :=
  n ← on_world (MapSBlockTryGetLogicalNblocks env r f);
  let n_lblknos := default 0 n in
  if decide (n_lblknos = 0) then mret false
  else
    files ← get_files;
    if negb (fl_exists files r UMBRA_METADATA_FORKNUM) then mret false
    else
      let n_map_pages := fl_nblocks files r UMBRA_METADATA_FORKNUM in
      if decide (n_map_pages = 0) then mret false
      else
        let page_count := u32 (n_lblknos + MAP_ENTRIES_PER_PAGE - 1) / MAP_ENTRIES_PER_PAGE in
        live_pages (Z.to_nat page_count) r f segno n_lblknos n_map_pages page_count 0 None.

(** ** Reclaim requests *)

Definition MapReclaimInitFileTag (r : RelFileLocator) (f : ForkNumber) (segno : Z) : FileTag :=
  MkTag SYNC_HANDLER_UMBRA f r (u64 segno).

Definition MapReclaimRegisterUnlinkRequest (r : RelFileLocator) (f : ForkNumber) (segno : Z) : M C bool :=
  RegisterSyncRequest (MapReclaimInitFileTag r f segno) SYNC_RECLAIM_REQUEST.

Definition MapReclaimEnqueueSegment (r : RelFileLocator) (f : ForkNumber) (segno : Z) : M C bool :=
  b ← at_world (MapSBlockTryGetReclaimBoundary env r f);
  match b with
  | None => mret false
  | Some reclaim_boundary_pblk =>
      if negb (MapSegmentFullyBelowReclaimBoundary reclaim_boundary_pblk segno) then mret false
      else
        ok ← MapReclaimRegisterUnlinkRequest r f segno;
        if negb (ok : bool) then mret false
        else MapStatsAddReclaimEnqueued 1;; mret true
  end.

Definition MapReclaimEnqueue (r : RelFileLocator) (f : ForkNumber) (extent_no extent_blocks : Z)
    : M C bool :=
  if decide (extent_blocks = 0) then mret false
  else
    let start64 := u64 (extent_no * extent_blocks) in
    if decide (MaxBlockNumber < start64) then mret false
    else MapReclaimEnqueueSegment r f (u32 start64 / RELSEG_SIZE).

Definition MapReclaimRegisterRelationFilterRequest (r : RelFileLocator) : M C unit :=
  RegisterSyncRequest (MapReclaimInitFileTag r InvalidForkNumber InvalidBlockNumber) SYNC_FILTER_REQUEST;;
  mret tt.

Definition MapReclaimForgetRelation (r : RelFileLocator) : M C unit :=
  MapReclaimRegisterRelationFilterRequest r.

(** ** Moving a block *)

(** The copy, outside of any lock. *)
Definition copy_block (r : RelFileLocator) (f : ForkNumber) (old_pblkno new_pblkno : Z) : M MS unit :=
  files ← get_files;
  lift (fl_prefetch files r f old_pblkno 1);;
  files ← get_files;
  pagebuf ← lift (fl_read files r f old_pblkno (Z.to_nat BLCKSZ));
  lift_files (λ fs, fl_ctx_extend fs r f new_pblkno pagebuf).

(** The new entry, with the map page locked. *)
Definition switch_entry (r : RelFileLocator) (slot : nat) (entry_idx new_pblkno map_lsn : Z) : M MS unit :=
  pg ← on_sys (get_page slot);
  on_sys (set_page slot (<[Z.to_nat entry_idx := new_pblkno]> pg));;
  MapMarkBufferDirty r slot map_lsn;;
  on_sys (MapUnpinBuffer slot).

Definition MapCompactorRelocateEntry (r : RelFileLocator) (f : ForkNumber) (lblkno old_pblkno : Z)
    : M C bool :=
  got ← conditional_acquire;
  res ← at_ms (MapTryReserveFreshPblkno env r f lblkno got);
  match res with
  | None => mret false
  | Some new_pblkno =>
      here ← at_ms (files ← get_files; mret (fl_block_exists files r f old_pblkno));
      if negb (here : bool) then at_ms (MapInflightRelease r f lblkno);; mret false
      else
        at_ms (copy_block r f old_pblkno new_pblkno);;
        loc ← lift (entry_location f lblkno);
        slot ← at_ms (MapReadBuffer env r f loc.1);
        locked ← conditional_acquire;
        if negb (locked : bool) then
          at_ms (on_sys (MapUnpinBuffer slot));; at_ms (MapInflightRelease r f lblkno);; mret false
        else
          pg ← at_ms (on_sys (get_page slot));
          if decide (entry_of pg loc.2 ≠ old_pblkno) then
            at_ms (on_sys (MapUnpinBuffer slot));; at_ms (MapInflightRelease r f lblkno);; mret false
          else
            in_x (critical (delaying_checkpoints (
              map_lsn ← in_wal (log_umbra_map_set advance r f lblkno old_pblkno new_pblkno);
              in_map (switch_entry r slot loc.2 new_pblkno map_lsn);;
              in_world (MapSBlockBumpPhysicalState env r f (u32 (new_pblkno + 1)) true true map_lsn))));;
            at_ms (MapInflightRelease r f lblkno);;
            MapStatsAddCompactorRelocations 1;;
            mret true
  end.

(** ** One fork *)

(** The first pass; a page whose lock is taken is skipped. *)
Fixpoint scan_pages (npages : nat) (r : RelFileLocator) (f : ForkNumber)
    (extent_blocks reclaim_boundary_pblk next_free_pblk n_lblknos n_map_pages page_count page_idx : Z)
    (current : option (nat * Z)) (sc : MapScan) : M C MapScan :=
  match npages with
  | O => at_ms (release_page current);; mret sc
  | Datatypes.S npages =>
      page_no ← lift (MapForkPageIndexToMapBlkno f page_idx);
      if decide (n_map_pages ≤ page_no) then at_ms (release_page current);; mret sc
      else
        slot ← at_ms (switch_page env r f page_no current);
        locked ← conditional_acquire;
        pg ← at_ms (on_sys (get_page slot));
        let entries := take (Z.to_nat (limit_idx page_idx page_count n_lblknos)) pg in
        scan_pages npages r f extent_blocks reclaim_boundary_pblk next_free_pblk n_lblknos n_map_pages
          page_count (u32 (page_idx + 1)) (Some (slot, page_no))
          (if (locked : bool)
           then foldl (scan_entry extent_blocks reclaim_boundary_pblk next_free_pblk) sc entries else sc)
  end.

(** Segments without live blocks, from [segno] on. *)
Fixpoint reclaim_segments (n : nat) (r : RelFileLocator) (f : ForkNumber) (sc : MapScan) (segno : Z)
    : M C unit :=
  match n with
  | O => mret tt
  | Datatypes.S n =>
      (if decide (segno ∈ sc_segments sc) then mret tt
       else
         here ← at_ms (files ← get_files; mret (fl_segment_exists files r f segno));
         if negb (here : bool) then mret tt
         else
           live ← at_ms (MapSegmentHasLiveReferences r f segno);
           if (live : bool) then mret tt else MapReclaimEnqueueSegment r f segno;; mret tt);;
      reclaim_segments n r f sc (segno + 1)
  end.

(** What is left of the extents, and the blocks moved in this fork and in this
    round. *)
Record MoveState := MkMoves {
  mv_live : gmap Z Z;
  mv_here : Z;
  mv_done : Z;
}.

(** After a block of an extent was moved. *)
Definition moved_from (r : RelFileLocator) (f : ForkNumber) (extent_blocks extent_no : Z) (mv : MoveState)
    : M C MoveState :=
  let mv := MkMoves (mv_live mv) (mv_here mv + 1) (mv_done mv + 1) in
  match mv_live mv !! extent_no with
  | None => mret mv
  | Some live =>
      if decide (live ≤ 0) then mret mv
      else
        let mv := MkMoves (<[extent_no := live - 1]> (mv_live mv)) (mv_here mv) (mv_done mv) in
        when (bool_decide (live - 1 = 0))
          (let segno := u32 (extent_no * extent_blocks) / RELSEG_SIZE in
           busy ← at_ms (MapSegmentHasLiveReferences r f segno);
           if (busy : bool) then mret tt else MapReclaimEnqueue r f extent_no extent_blocks;; mret tt);;
        mret mv
  end.

Fixpoint move_entries (n : nat) (r : RelFileLocator) (f : ForkNumber)
    (extent_blocks reclaim_boundary_pblk max_extent_no : Z) (pass_slot : nat) (page_idx entry_idx : Z)
    (mv : MoveState) : M C MoveState :=
  match n with
  | O => mret mv
  | Datatypes.S n =>
      locked ← conditional_acquire;
      pg ← at_ms (on_sys (get_page pass_slot));
      let pblkno := entry_of pg entry_idx in
      let extent_no := pblkno / extent_blocks in
      mv ← (if (locked : bool) && bool_decide (pblkno ≠ InvalidBlockNumber) &&
               match mv_live mv !! extent_no with
               | Some live =>
                   sparse_extent cg extent_blocks reclaim_boundary_pblk max_extent_no (extent_no, live)
               | None => false
               end
            then
              let lblkno := u32 (page_idx * MAP_ENTRIES_PER_PAGE + entry_idx) in
              moved ← MapCompactorRelocateEntry r f lblkno pblkno;
              if (moved : bool) then moved_from r f extent_blocks extent_no mv else mret mv
            else mret mv);
      move_entries n r f extent_blocks reclaim_boundary_pblk max_extent_no pass_slot page_idx
        (entry_idx + 1) mv
  end.

(** The second pass; the budget is looked at before every page. *)
Fixpoint move_pages (npages : nat) (r : RelFileLocator) (f : ForkNumber)
    (extent_blocks reclaim_boundary_pblk max_extent_no moves_limit n_lblknos n_map_pages page_count
     page_idx : Z) (current : option (nat * Z)) (mv : MoveState) : M C MoveState :=
  match npages with
  | O => at_ms (release_page current);; mret mv
  | Datatypes.S npages =>
      page_no ← lift (MapForkPageIndexToMapBlkno f page_idx);
      if decide (moves_limit ≤ mv_here mv ∨ moves_limit ≤ mv_done mv ∨ n_map_pages ≤ page_no)
      then at_ms (release_page current);; mret mv
      else
        slot ← at_ms (switch_page env r f page_no current);
        mv ← move_entries (Z.to_nat (limit_idx page_idx page_count n_lblknos)) r f extent_blocks
               reclaim_boundary_pblk max_extent_no slot page_idx 0 mv;
        move_pages npages r f extent_blocks reclaim_boundary_pblk max_extent_no moves_limit n_lblknos
          n_map_pages page_count (u32 (page_idx + 1)) (Some (slot, page_no)) mv
  end.

(** The work on a fork that has a map; the number of sparse extents and of the
    moves of the round. *)
Definition compact_fork (r : RelFileLocator) (f : ForkNumber)
    (n_lblknos next_free_pblk reclaim_boundary_pblk n_map_pages max_moves moves_done : Z) : M C (Z * Z) :=
  let extent_blocks := map_compactor_extent_blocks cg in
  let page_count := u32 (n_lblknos + MAP_ENTRIES_PER_PAGE - 1) / MAP_ENTRIES_PER_PAGE in
  if decide (page_count = 0) then mret (0, moves_done)
  else
    sc ← scan_pages (Z.to_nat page_count) r f extent_blocks reclaim_boundary_pblk next_free_pblk
           n_lblknos n_map_pages page_count 0 None no_scan;
    let sparse := sparse_count cg extent_blocks reclaim_boundary_pblk sc in
    let moves_limit := Z.max 0 max_moves in
    reclaim_segments (Z.to_nat (reclaim_boundary_pblk / RELSEG_SIZE)) r f sc 0;;
    mv ← (if decide (0 < sparse ∧ 0 < moves_limit) then
            move_pages (Z.to_nat page_count) r f extent_blocks reclaim_boundary_pblk (sc_max_extent sc)
              moves_limit n_lblknos n_map_pages page_count 0 None (MkMoves (sc_live sc) 0 moves_done)
          else mret (MkMoves (sc_live sc) 0 moves_done));
    let advanced_boundary_pblk :=
      MapCompactorAdvanceBoundaryFromSet reclaim_boundary_pblk next_free_pblk (sc_committed sc) in
    when (bool_decide (reclaim_boundary_pblk < advanced_boundary_pblk))
      (at_world (MapSBlockAdvanceReclaimBoundary r f advanced_boundary_pblk));;
    mret (sparse, mv_done mv).

Definition MapCompactorAnalyzeFork (r : RelFileLocator) (f : ForkNumber) (max_moves moves_done : Z)
    : M C (Z * Z) :=
  let nothing := mret (0, moves_done) in
  if negb (map_compactor_enable cg) || negb (MapForkHasMappedState f) ||
     bool_decide (map_compactor_extent_blocks cg ≤ 0)
  then nothing
  else
    n ← at_world (MapSBlockTryGetLogicalNblocks env r f);
    let n_lblknos := default 0 n in
    if decide (n_lblknos = 0) then nothing
    else
      nf ← at_world (MapSBlockTryGetNextFreePhysBlock env r f);
      let next_free_pblk := default 0 nf in
      if decide (next_free_pblk = 0) then nothing
      else
        b ← at_world (MapSBlockTryGetReclaimBoundary env r f);
        match b with
        | None => nothing
        | Some boundary =>
            files ← at_ms get_files;
            if negb (fl_exists files r UMBRA_METADATA_FORKNUM) then nothing
            else
              let n_map_pages := fl_nblocks files r UMBRA_METADATA_FORKNUM in
              if decide (n_map_pages = 0) then nothing
              else
                compact_fork r f n_lblknos next_free_pblk (Z.min boundary next_free_pblk) n_map_pages
                  max_moves moves_done
        end.

(** ** One round *)

Definition next_compact_slot (capacity : nat) : M C (option MapSuperEntry) :=
  slot ← gets c_compact_slot;
  slots ← at_world (gets (λ w, ss_slots (w_store w)));
  modify (λ c, MkC (c_x c) (c_requests c) (c_enqueued c) (c_relocations c) (c_tries c)
                 (c_prealloc_slot c) ((slot + 1) mod Z.of_nat capacity));;
  mret (slots !! Z.to_nat slot).

(** The three forks of a relation that is permanent and mapped. *)
Definition compact_relation (r : RelFileLocator) (move_budget total_moves : Z) : M C Z :=
  files ← at_ms get_files;
  if fl_exists files r INIT_FORKNUM then mret total_moves
  else
    files ← at_ms get_files;
    if negb (fl_exists files r UMBRA_METADATA_FORKNUM) then mret total_moves
    else
      a ← MapCompactorAnalyzeFork r MAIN_FORKNUM move_budget total_moves;
      b ← MapCompactorAnalyzeFork r FSM_FORKNUM move_budget a.2;
      c ← MapCompactorAnalyzeFork r VISIBILITYMAP_FORKNUM move_budget b.2;
      mret c.2.

(** The relations visited and the moves so far. *)
Fixpoint compact_scan (n capacity : nat) (max_relations move_budget visited total_moves : Z)
    : M C (Z * Z) :=
  match n with
  | O => mret (visited, total_moves)
  | Datatypes.S n =>
      if decide (max_relations ≤ visited) then mret (visited, total_moves)
      else
        oe ← next_compact_slot capacity;
        locked ← conditional_acquire;
        match oe with
        | Some e =>
            if negb (locked : bool) || negb (in_use e)
            then compact_scan n capacity max_relations move_budget visited total_moves
            else
              total_moves ← compact_relation (key e) move_budget total_moves;
              compact_scan n capacity max_relations move_budget (visited + 1) total_moves
        | None => compact_scan n capacity max_relations move_budget visited total_moves
        end
  end.

Definition MapCompactorStep (max_relations : Z) : M C Z :=
  capacity ← at_world (gets (λ w, length (ss_slots (w_store w))));
  if negb (map_compactor_enable cg) || InRecovery env || bool_decide (max_relations ≤ 0) ||
     bool_decide (capacity = 0%nat)
  then mret 0
  else
    res ← compact_scan (max_scan max_relations capacity) capacity max_relations
            (Z.max 0 (map_compactor_max_moves cg)) 0 0;
    when (bool_decide (res.1 = 0))
      (modify (λ c, MkC (c_x c) (c_requests c) (c_enqueued c) (c_relocations c) (c_tries c)
                      (c_prealloc_slot c) 0));;
    mret res.2.
End ops.
