(* ===== verification/MapCompactSpec.v ===== *)
(** * Compaction and reclaim: what they do

    Moving a block to a fresh place keeps the contents of every logical block,
    the search for live references is exact, and a pass over a fork asks for
    the removal of a segment only when no logical block lies in it. *)

From S2P Require Import Prelude MapLayout Superblock SuperTable FileLayer SmgrFiles SBlock SBlockInv.
From S2P Require Import MapPrealloc SBlockSafety SBlockSpec MapPreallocSpec.
From S2P Require Import BufState MapBuf MapClock PoolInv MapPage MapPageSpec MapEntries.
From S2P Require Import MapCheckpoint MapCheckpointSpec MapRange MapRangeSpec.
From S2P Require Import MapInflight MapInflightSpec MapReserve UmbraXlog.
From S2P Require Import SmgrAccess SmgrSpec SmgrWriteSpec SmgrExtend SmgrExtendSpec SyncQueue MapCompact.

Local Open Scope Z_scope.

(** ** Map pages of a fork *)

Lemma page_pos_mono f q q' : 0 ≤ q ≤ q' → page_pos f q ≤ page_pos f q'.
Proof. intros Hq. unfold page_pos. destruct f; ulia. Qed.

(** The number of map pages of a fork of [n] blocks. *)
Definition map_pages (n : Z) : Z := (n + 2047) / 2048.

Lemma page_count_eq f n :
  0 ≤ n ≤ max_mapped_lblk f + 1 →
  u32 (n + MAP_ENTRIES_PER_PAGE - 1) / MAP_ENTRIES_PER_PAGE = map_pages n.
Proof.
  intros Hn. change MAP_ENTRIES_PER_PAGE with 2048. unfold map_pages.
  rewrite u32_small by (unfold is_u32, max_mapped_lblk in *; destruct f; lia). f_equal. lia.
Qed.

(** The entries of page [q] that belong to the fork. *)
Lemma limit_idx_spec n q :
  0 ≤ q < map_pages n → limit_idx q (map_pages n) n = Z.min 2048 (n - q * 2048).
Proof.
  unfold limit_idx, map_pages. change MAP_ENTRIES_PER_PAGE with 2048. intros Hq. case_decide; ulia.
Qed.

Lemma entry_of_u32 pg idx : page_ok pg → is_u32 (entry_of pg idx).
Proof.
  intros [_ Hall]. unfold entry_of. destruct (pg !! _) as [x|] eqn:Hx; [by eapply Forall_lookup_1 in Hx|done].
Qed.

Lemma entry_of_insert pg i j v :
  length pg = 2048%nat → 0 ≤ i < 2048 → 0 ≤ j →
  entry_of (<[Z.to_nat i := v]> pg) j = if decide (j = i) then v else entry_of pg j.
Proof.
  intros Hlen Hi Hj. unfold entry_of. case_decide as Heq.
  - subst j. by rewrite list_lookup_insert_eq by lia.
  - by rewrite list_lookup_insert_ne by lia.
Qed.

(** Entries of one page differ in their index. *)
Lemma same_page_entry f l l' :
  is_u32 l → is_u32 l' → page_pos f (l' / 2048) = page_pos f (l / 2048) →
  l' / 2048 = l / 2048 ∧ (l' mod 2048 = l mod 2048 ↔ l' = l).
Proof. intros Hl Hl' Hp. apply page_pos_inj in Hp; ulia. Qed.

Lemma entry_at_u32 `{SuperStore T} `{FileLayerLaws F} (s : MapState T F) r f l :
  map_inv s → is_u32 l → is_u32 (entry_at s r f l).
Proof.
  intros Hi Hl. unfold entry_at.
  destruct (map_page s r f (page_pos f (l / 2048))) as [pg|] eqn:Hpg; [|done].
  eapply entry_of_u32, map_page_ok; [done| |done]. unfold page_pos; destruct f; ulia.
Qed.

(** ** Live references *)

Section live.
Context {T F : Type} `{SuperStore T} `{FileLayerLaws F} (env : Env).
Local Abbreviation MS := (MapState T F).
Context (s : MS) (r : RelFileLocator) (f : ForkNumber) (n segno : Z).
Context (Hinv : map_inv s) (Hf : fork_mapped f) (Hn : 0 ≤ n ≤ max_mapped_lblk f + 1).
Context (Hsize : trusted_size (w_store (ms_world s)) r f = Some n) (Hcov : covered s r f 0 n).

(** A block before [hi] whose map page is one of the first [npages] of the
    fork lies in the segment. *)
Definition lives (npages hi : Z) : Prop :=
  ∃ l, 0 ≤ l < hi ∧ page_pos f (l / 2048) < npages ∧ entry_in_segment segno (entry_at s r f l) = true.

(** The entries that one page contributes. *)
Lemma page_lives npages q pg :
  0 ≤ q < map_pages n → page_pos f q < npages → map_page s r f (page_pos f q) = Some pg →
  existsb (entry_in_segment segno) (take (Z.to_nat (limit_idx q (map_pages n) n)) pg) = true ↔
  ∃ l, q * 2048 ≤ l < Z.min n ((q + 1) * 2048) ∧ page_pos f (l / 2048) < npages ∧
       entry_in_segment segno (entry_at s r f l) = true.
Proof using All.
  intros Hq Hp Hpg. rewrite limit_idx_spec by done.
  assert (q * 2048 < n) as Hqn by (unfold map_pages in Hq; ulia). pose proof (max_mapped_u32 f).
  assert (∀ j x, take (Z.to_nat (Z.min 2048 (n - q * 2048))) pg !! j = Some x →
    x = entry_at s r f (q * 2048 + Z.of_nat j)) as Hent.
  { intros j x Hx. destruct (page_entries s r f (q * 2048) pg (Z.to_nat (Z.min 2048 (n - q * 2048))) j x)
      as [-> _]; [done|done|lia|by rewrite Z.div_mul| |done].
    by rewrite Z.mod_mul, drop_0 by lia. }
  destruct (page_pos_at f (q * 2048) Hf) as [Hpos _]; [ulia|lia|]. rewrite Z.div_mul in Hpos by lia.
  destruct (map_page_ok _ _ _ _ _ Hinv (proj1 Hpos) Hpg) as [Hlen _].
  change (Z.to_nat MAP_ENTRIES_PER_PAGE) with 2048%nat in Hlen. rewrite existsb_exists. split.
  - intros (x & Hx & Hseg). apply list_elem_of_In, list_elem_of_lookup in Hx as [j Hj].
    pose proof (lookup_lt_Some _ _ _ Hj) as Hlt. rewrite length_take in Hlt.
    exists (q * 2048 + Z.of_nat j). rewrite <-(Hent j x Hj). split_and!; [lia|lia| |done].
    by replace ((q * 2048 + Z.of_nat j) / 2048) with q by ulia.
  - intros (l & Hl & _ & Hseg).
    destruct (lookup_lt_is_Some_2 (take (Z.to_nat (Z.min 2048 (n - q * 2048))) pg) (Z.to_nat (l - q * 2048)))
      as [x Hx]; [rewrite length_take; lia|].
    exists x. split; [by eapply list_elem_of_In, list_elem_of_lookup_2|].
    rewrite (Hent _ _ Hx). by replace (q * 2048 + Z.of_nat (Z.to_nat (l - q * 2048))) with l by lia.
Qed.

Lemma wp_live_pages k npages q current s' :
  Z.of_nat k = map_pages n - q → 0 ≤ q → holding r f s current s' → ¬ lives npages (Z.min n (q * 2048)) →
  wp (live_pages env k r f segno n npages (map_pages n) q current)
    (λ b s2, calm s s2 ∧ ((b : bool) = true ↔ lives npages n)) (λ e _, range_error (F := F) e) s'.
Proof using All.
  revert q current s'. pose proof (max_mapped_u32 f) as Hu.
  induction k as [|k IH]; intros q current s' Hk Hq Hh Hno; cbn [live_pages].
  { apply wp_bind, (wp_release_page r f s current); [done|]. intros s2 Hc. apply wp_ret.
    split; [done|]. split; [done|]. intros Hl. destruct Hno. rewrite Z.min_l by (unfold map_pages in Hk; ulia). done. }
  assert (0 ≤ q * 2048 < n) as Hqn by (unfold map_pages in Hk; ulia).
  destruct (page_pos_at f (q * 2048) Hf) as [Hpos Hdec]; [ulia|lia|]. rewrite Z.div_mul in Hpos, Hdec by lia.
  apply wp_bind, (wp_lift _ (page_pos f q)).
  { rewrite page_index_spec by (done || ulia). by rewrite decide_False by lia. }
  case_decide as Hend.
  { apply wp_bind, (wp_release_page r f s current); [done|]. intros s2 Hc. apply wp_ret.
    split; [done|]. split; [done|]. intros (l & Hl & Hp & Hseg). destruct Hno. exists l.
    split_and!; [lia| |done|done]. destruct (decide (l < q * 2048)) as [|Hge]; [lia|].
    pose proof (page_pos_mono f q (l / 2048)) as Hm. ulia. }
  destruct (Hcov (q * 2048)) as [pg Hpg]; [lia|]. rewrite Z.div_mul in Hpg by lia.
  apply wp_bind, (wp_switch env r f s current s' _ q n pg); [done..|].
  intros i s2 Hh2 Hpg2. apply wp_bind, wp_on_sys, (wp_get_page _ i pg); [done|].
  replace (at_sys s2 (ms_sys s2)) with s2 by (by destruct s2).
  pose proof (page_lives npages q pg ltac:(lia) ltac:(lia) Hpg) as Hpage.
  destruct (existsb _ _).
  - apply wp_bind. destruct Hh2 as (s0 & pg0 & Hi0 & Hc0 & Hp). apply (wp_unread s0 s2 r f (page_pos f q) pg0); [done|done|].
    intros s3 Hi3 Hm3 Hb3. apply wp_ret. split; [by apply (calm_trans s s0)|]. split; [|done]. intros _.
    destruct (proj1 Hpage eq_refl) as (l & Hl & ?). exists l. split; [lia|done].
  - rewrite u32_small by ulia. apply IH; [lia|lia|done|]. intros (l & Hl & Hp & Hseg).
    destruct (decide (l < q * 2048)) as [Hlt|Hge]; [apply Hno; exists l; split_and!; [lia|lia|done|done]|].
    destruct Hpage as [_ Hpage]. discriminate Hpage. exists l. split_and!; [lia|lia|done|done].
Qed.

Lemma wp_has_live :
  wp (MapSegmentHasLiveReferences env r f segno)
    (λ b s2, calm s s2 ∧ ((b : bool) = true ↔ lives (fl_nblocks (files s) r UMBRA_METADATA_FORKNUM) n))
    (λ e _, range_error (F := F) e) s.
Proof using All.
  apply wp_bind. unfold wp at 1, on_world. rewrite (trusted_size_run _ _ _ _ _ Hsize).
  replace (MkMapState (ms_world s) (ms_sys s) (ms_local s)) with s by (by destruct s).
  change (default 0 (Some n)) with n. cbv zeta. case_decide as Hz.
  { apply wp_ret. split; [by apply calm_refl|]. split; [done|]. intros (l & Hl & _). lia. }
  apply wp_bind, wp_gets. change (w_files (ms_world s)) with (files s).
  rewrite (mi_exists _ Hinv _ _ _ Hsize). cbn [negb]. case_decide as Hnb.
  { apply wp_ret. split; [by apply calm_refl|]. split; [done|]. intros (l & Hl & Hp & _).
    pose proof (max_mapped_u32 f). destruct (page_pos_at f l Hf) as [Hpos _]; [ulia|lia|]. lia. }
  cbv zeta. rewrite (page_count_eq f) by done. apply wp_live_pages; [unfold map_pages; ulia|lia| |].
  - by apply calm_refl.
  - intros (l & Hl & _). lia.
Qed.
End live.

(** ** The state of a background process *)

Section steps.
Context {T F : Type} `{SuperStore T} `{FileLayerLaws F} `{!DataFiles F}.
Local Abbreviation MS := (MapState T F).
Local Abbreviation C := (CState T F).
Implicit Types c : C.

Definition c_map c : MS := x_map (c_x c).
Definition c_at c (ms : MS) : C := with_x (x_at (c_x c) ms) c.
Definition with_tries (n : nat) c : C :=
  MkC (c_x c) (c_requests c) (c_enqueued c) (c_relocations c) n (c_prealloc_slot c) (c_compact_slot c).

(** Nothing but the map layer and the count of lock attempts differs. *)
Definition same_process c c' : Prop := c' = with_tries (c_tries c') (c_at c (c_map c')).

Lemma same_process_refl c : same_process c c.
Proof. destruct c as [[[] ] ]. done. Qed.

Lemma same_process_trans c1 c2 c3 : same_process c1 c2 → same_process c2 c3 → same_process c1 c3.
Proof. intros E1 E2. unfold same_process in *. by rewrite E2, E1. Qed.

Lemma wp_in_x {A} (m : M (XState T F) A) Q (E : pg_error → C → Prop) c :
  wp m (λ a x, Q a (with_x x c)) (λ e x, E e (with_x x c)) (c_x c) → wp (in_x m) Q E c.
Proof. unfold wp, in_x. by destruct (m (c_x c)) as [[]]. Qed.

Lemma wp_at_ms {A} (m : M MS A) Q (E : pg_error → C → Prop) c :
  wp m (λ a ms, Q a (c_at c ms)) (λ e ms, E e (c_at c ms)) (c_map c) → wp (at_ms m) Q E c.
Proof. intros Hm. apply wp_in_x, wp_in_map, Hm. Qed.

Lemma wp_try_lock lock_free Q (E : pg_error → C → Prop) c :
  (∀ b n, Q b (with_tries n c)) → wp (conditional_acquire lock_free) Q E c.
Proof. intros HQ. apply wp_bind, wp_gets, wp_bind, wp_modify, wp_ret, HQ. Qed.
End steps.

(** ** Moving one block *)

Section relocate.
Context {T F : Type} `{SuperStoreLaws T} `{FileLayerLaws F} `{!DataFiles F} `{!DataFilesLaws F}.
Context (env : Env) (advance : Z → Z → Z) (lock_free : nat → bool).
Local Abbreviation MS := (MapState T F).
Local Abbreviation C := (CState T F).

(** A block of fork [(r, f)] other than [p] is kept, everything in the other
    data forks is as it was. *)
Definition data_but (r : RelFileLocator) (f : ForkNumber) (p : Z) (fs fs' : F) : Prop :=
  (∀ r' k b, k ≠ UMBRA_METADATA_FORKNUM → (r', k) ≠ (r, f) → fl_content fs' r' k b = fl_content fs r' k b) ∧
  ∀ b, 0 ≤ b → b ≠ p → block_kept (fl_content fs r f b) (fl_content fs' r f b).

Lemma data_step_but r f p fs fs' : data_step r f fs fs' → data_but r f p fs fs'.
Proof. intros [Ho Hk]. split; [done|]. intros b Hb _. by apply Hk. Qed.

Lemma data_but_trans r f p fs1 fs2 fs3 : data_but r f p fs1 fs2 → data_but r f p fs2 fs3 → data_but r f p fs1 fs3.
Proof.
  intros [O1 K1] [O2 K2]. split; intros; [rewrite O2, O1; done|].
  eapply block_kept_trans; [by apply K1|by apply K2].
Qed.

Lemma run_frame_but r f p fs fs' : f ≠ UMBRA_METADATA_FORKNUM → run_frame fs fs' r f p 1 → data_but r f p fs fs' ∧ same_meta fs fs'.
Proof.
  intros Hf (Ho & Hk & Hx). split; [split|split]; [intros; by apply Ho|intros b ??; apply Hk; lia
    |intros; apply Ho; congruence|done].
Qed.

(** What a new entry in the page of a block does to the entries of the map. *)
Lemma moved_entries s s' r f l blk idx n p pg r' f' l' :
  map_inv s → ready s r f l blk idx n pg →
  (let blk' := page_pos f' (l' / 2048) in map_page s' r' f' blk' =
     if decide ((r', f', blk') = (r, f, blk)) then Some (<[Z.to_nat idx := p]> pg) else map_page s r' f' blk') →
  is_u32 l' → entry_at s' r' f' l' = if decide ((r', f', l') = (r, f, l)) then p else entry_at s r' f' l'.
Proof using Type.
  intros Hi [Hf Hl Hloc Hn Hv] Hm Hl'. unfold entry_at. rewrite Hm.
  destruct (entry_location_ok f l blk idx Hf Hl Hloc) as (Eb & Ei & Hpos & _).
  pose proof (map_page_ok _ _ _ _ _ Hi (proj1 Hpos) Hv) as [Hlen _].
  change (Z.to_nat MAP_ENTRIES_PER_PAGE) with 2048%nat in Hlen. case_decide as Hpg.
  2: { rewrite decide_False; [done|]. intros [= -> -> ->]. apply Hpg. by rewrite Eb. }
  injection Hpg as -> -> Epos. rewrite Eb in Epos. destruct (same_page_entry f l l' Hl Hl' Epos) as [Ed Em].
  rewrite Ed, <-Eb, Hv, Ei, entry_of_insert by (done || by apply Z.mod_pos_bound).
  destruct (decide (l' = l)) as [->|Hne]; [by rewrite !decide_True|].
  rewrite !decide_False; [done|by intros [= ->]|by rewrite Em].
Qed.

(** A logical block whose entry stays and is not the block that was written. *)
Lemma kept_logical s s' r f p r' f' l' d :
  map_inv s → data_but r f p (files s) (files s') → fork_mapped f' → is_u32 l' →
  (r', f') ≠ (r, f) ∨ entry_at s r f l' ≠ p → entry_at s' r' f' l' = entry_at s r' f' l' →
  logical_block s r' f' l' = Some d → logical_block s' r' f' l' = Some d.
Proof using Type.
  intros Hi [Ho Hk] Hf' Hl' Hfresh He. unfold logical_block, block_at. rewrite He. case_decide; [done|].
  intros Hd. assert (f' ≠ UMBRA_METADATA_FORKNUM) as Hnm' by (destruct Hf' as [E|[E|E]]; rewrite E; discriminate).
  destruct (decide ((r', f') = (r, f))) as [[= -> ->]|Hother]; [|by rewrite Ho].
  destruct Hfresh as [?|Hfresh]; [done|].
  destruct (Hk (entry_at s r f l')) as [->|[Hnone _]]; [|done|done|congruence].
  apply (entry_at_u32 s r f l' Hi Hl').
Qed.

(** Why a move fails. *)
Definition move_trouble (e : pg_error) : Prop :=
  range_error (F := F) e ∨
  e = PgError ERROR ERRCODE_PROGRAM_LIMIT_EXCEEDED "cannot allocate more physical blocks" ∨
  (∃ (fs : F) r f b k, fl_prefetch fs r f b k = Err e) ∨
  (∃ (fs : F) r f b k, fl_read fs r f b k = Err e) ∨
  ∃ (fs : F) r f b d, fl_ctx_extend fs r f b d = Err e.
Definition move_error (e : pg_error) : Prop :=
  ∃ e0, (e = e0 ∨ e = PgError PANIC (err_code e0) (err_msg e0)) ∧ move_trouble e0.

Lemma move_error_plain e : move_trouble e → move_error e.
Proof. exists e. auto. Qed.

Section move.
Context (ks : list Backend) (bars : list (nat * Z)) (c : C).
Context (r : RelFileLocator) (f : ForkNumber) (l blk idx n p old : Z) (pg : list Z) (e : MapSuperEntry).
Local Abbreviation s := (c_map c).
Context (Hsh : shared ks bars s) (Hrd : ready s r f l blk idx n pg) (Hln : l < n).
Context (Hwf : ss_wf (w_store (ms_world s))) (He : ss_map (w_store (ms_world s)) !! r = Some e).
Context (Hu : entry_untrusted e = false) (Hp : MapSuperGetReservedNextFree e f = Ok p).
Context (Hlim : 0 ≤ p ≤ InvalidBlockNumber - 1) (Hold : 0 ≤ old).
Context (Hnz : nonzero (<[Z.to_nat idx := p]> pg)).

(** The map before and after the move. *)
Definition pages_before : RelFileLocator → ForkNumber → Z → option (list Z) := map_page s.
Definition pages_after (r' : RelFileLocator) (f' : ForkNumber) (blk' : Z) : option (list Z) :=
  if decide ((r', f', blk') = (r, f, blk)) then Some (<[Z.to_nat idx := p]> pg) else map_page s r' f' blk'.

(** The state on the way: the map, the claims and whether the copy is made. *)
Record stage (m : RelFileLocator → ForkNumber → Z → option (list Z)) (lo : list LocalEntry) (copied : bool)
    (reserved : Z) (s' : MS) : Prop := {
  sg_shared : shared ks bars s';
  sg_sizes : ∀ r' g, trusted_size (w_store (ms_world s')) r' g = trusted_size (w_store (ms_world s)) r' g;
  sg_pages : ∀ r' f' blk', map_page s' r' f' blk' = m r' f' blk';
  sg_local : ms_local s' = lo;
  sg_slack : same_slack bars s s';
  sg_super : ss_wf (w_store (ms_world s')) ∧ ∃ e', ss_map (w_store (ms_world s')) !! r = Some e' ∧
    entry_untrusted e' = false ∧ reserved ≤ fork_reserved e' f ≤ Z.min (p + 1) MaxBlockNumber ∧
    (InRecovery env = false → fork_boundary e' f = fork_boundary e f);
  sg_data : data_but r f p (files s) (files s');
  sg_meta : meta_kept (files s) (files s');
  sg_copy : copied = true → ∀ d, fl_content (files s) r f old = Some d → fl_content (files s') r f p = Some d;
}.

Lemma move_fork : fork_mapped f ∧ f ≠ UMBRA_METADATA_FORKNUM.
Proof using Hrd.
  destruct Hrd as [Hf _ _ _ _]. split; [done|]. intros E. rewrite E in Hf. by destruct Hf as [?|[?|?]].
Qed.

Lemma stage_map m lo lo' copied q s1 s2 :
  stage m lo copied q s1 → shared ks bars s2 → same_map s1 s2 → ms_local s2 = lo' → same_slack bars s1 s2 →
  stage m lo' copied q s2.
Proof using Hrd.
  intros [Hs Hz Hm Hl Hk Hsu Hd Hme Hc] Hs2 [Hio Hmm] Hl2 Hk2. pose proof Hio as (Est & _ & _ & _ & _ & Hdd).
  destruct move_fork as [_ Hnm].
  split; [done| | |done|by eapply same_slack_trans|by rewrite Est| |etrans; [done|by apply io_meta_kept]|].
  - intros. by rewrite Est.
  - intros. by rewrite Hmm.
  - eapply data_but_trans; [done|]. by apply data_step_but, same_data_step.
  - intros Hcp d Hdo. rewrite <-(Hc Hcp d Hdo). by apply Hdd.
Qed.

Lemma stage_calm m lo copied q s1 s2 :
  stage m lo copied q s1 → map_inv s2 → same_map s1 s2 → same_backend s1 s2 → stage m lo copied q s2.
Proof using Hrd.
  intros Hs Hi Hm Hb. eapply stage_map; [done|eapply shared_same; [by eapply sg_shared|done|done]|done| |by apply backend_slack].
  rewrite (proj1 (proj2 Hb)). by eapply sg_local.
Qed.

(** The claim is given back. *)
Lemma wp_give_back m i copied q s1 :
  stage m (ms_local s ++ [MkLocal r f l p i idx]) copied q s1 →
  MapInflightLocalFind r f l (ms_local s) = None →
  wp (MapInflightRelease r f l) (λ _ s2, stage m (ms_local s) copied q s2) (λ _ _, False) s1.
Proof using Hrd.
  intros Hs Hown. apply (wp_release ks bars); [by eapply sg_shared|]. intros s2 Hs2 Hm2 Hl2 Hk2.
  eapply stage_map; [done..| |done]. rewrite Hl2, (sg_local _ _ _ _ _ Hs). by apply forget_last.
Qed.

(** The copy: the block [p] gets the contents of [old]. *)
Lemma wp_copy m lo q s1 :
  stage m lo false q s1 → (∀ d, fl_content (files s) r f old = Some d → fl_content (files s1) r f old = Some d) →
  wp (copy_block r f old p) (λ _ s2, stage m lo true q s2) (λ er _, move_error er) s1.
Proof using Hrd DataFilesLaws0.
  intros Hs Hsame. destruct move_fork as [Hf Hnm]. apply wp_bind, wp_gets, wp_bind.
  change (w_files (ms_world s1)) with (files s1).
  destruct (fl_prefetch (files s1) r f old 1) as [b|er] eqn:Hpre.
  2: { apply move_error_plain. right; right; left. by eauto 10. }
  apply wp_bind, wp_gets. change (w_files (ms_world s1)) with (files s1). apply wp_bind.
  destruct (fl_read (files s1) r f old (Z.to_nat BLCKSZ)) as [d|er] eqn:Hread.
  2: { apply move_error_plain. right; right; right; left. by eauto 10. }
  apply fl_read_spec in Hread as (d0 & Hd0 & ->); [|unfold BLCKSZ; lia].
  destruct (fl_content_wf _ _ _ _ _ Hd0) as [Hlen Hby]. rewrite take_ge by lia.
  apply wp_lift_files. { intros er Her. apply move_error_plain. do 4 right. by eauto 10. }
  intros fs Hext. destruct Hs as [Hs1 Hz Hm Hl Hk Hsu Hd Hme _].
  destruct (run_frame_but r f p (files s1) fs Hnm) as [Hdb Hmeta]; [by eapply fl_ctx_extend_frame|].
  split; [by apply shared_files|done| |done|done|done|by eapply data_but_trans
    |etrans; [done|by apply same_meta_kept]|].
  - intros. rewrite <-Hm. by apply (map_page_files s1).
  - intros _ d Hdo. apply Hsame in Hdo. assert (d = d0) as -> by congruence.
    by apply (fl_ctx_extend_data (files s1)).
Qed.
Lemma reserved_is : fork_reserved e f = p.
Proof using Hp.
  unfold MapSuperGetReservedNextFree in Hp. unfold fork_reserved.
  destruct (pf_get (reserved_next_free e) f); [|done]. by injection Hp.
Qed.

Lemma stage_weaken m lo copied q q' s1 : stage m lo copied q s1 → q' ≤ q → stage m lo false q' s1.
Proof using Type.
  intros [Hs Hz Hm Hl Hk (Hw & e' & He' & Hu' & Hr & Hb) Hd Hme Hc] Hq. split; try done.
  split; [done|]. exists e'. split_and!; [done|done|lia|lia|done].
Qed.

(** After an attempt to reserve. *)
Lemma stage_tried got s1 :
  tried_post ks bars s r f l blk idx p e got None s1 → stage pages_before (ms_local s) false p s1.
Proof using Hwf He Hu Hp Hlim.
  intros (Hk & Hme & Hs1 & (Hpp & _ & Hd) & Hl1 & Est & _).
  split; [done|by intros; rewrite (proj1 Hpp)|by intros; apply Hpp|done|done| |by apply data_step_but|done|done].
  rewrite Est. split; [done|]. exists e. split_and!; [done|done|..|done];
    rewrite reserved_is; unfold MaxBlockNumber, InvalidBlockNumber in *; lia.
Qed.

Lemma stage_claimed got s1 :
  tried_post ks bars s r f l blk idx p e got (Some p) s1 →
  MapInflightLocalFind r f l (ms_local s) = None ∧
  (∃ i, stage pages_before (ms_local s ++ [MkLocal r f l p i idx]) false (p + 1) s1) ∧
  data_step r f (files s) (files s1).
Proof using Type.
  intros (Hk & Hme & _ & (Hs1 & (Hpp & Hsu & Hd) & i & Hl1) & Hown & Hroom & e' & He' & Hu' & Hr & Hb).
  split_and!; [done| |done]. exists i.
  split; [done|by intros; rewrite (proj1 Hpp)|by intros; apply Hpp|done|done| |by apply data_step_but|done|done].
  split; [apply Hsu|]. exists e'. split_and!; [done|done|lia|unfold MaxBlockNumber, InvalidBlockNumber in *; lia|].
  intros _. unfold fork_boundary. by rewrite Hb.
Qed.

(** The new entry on the pinned page. *)
Lemma wp_switch_stage lo q s1 i s2 lsn :
  stage pages_before lo true q s1 → read_post s1 r f blk pg i s2 → is_u32 p →
  wp (switch_entry r i idx p lsn) (λ _ s3, stage pages_after lo true q s3)
    (λ er _, move_trouble er) s2.
Proof using Hrd Hln Hnz.
  intros Hs Hread Hpu. pose proof Hrd as [Hf Hl Hloc Hn Hv]. destruct move_fork as [_ Hnm].
  destruct (entry_location_ok f l blk idx Hf Hl Hloc) as (_ & _ & Hpos & Hdec).
  assert (trusted_size (w_store (ms_world s1)) r f = Some n) as Hn1 by (by rewrite (sg_sizes _ _ _ _ _ Hs)).
  assert (map_page s1 r f blk = Some pg) as Hv1 by (by rewrite (sg_pages _ _ _ _ _ Hs)).
  eapply wp_mono; [apply (wp_rewrite_pinned env s1 r f blk (l / 2048) n lsn pg (λ x, <[Z.to_nat idx := p]> x))
    with (Q := λ _ s3, set_post s1 r f blk (<[Z.to_nat idx := p]> pg) i s3); try done| |].
  - intros Hok. by apply insert_page_ok.
  - by eapply shared_map, sg_shared.
  - intros ? s3 Hset. pose proof Hset as (_ & Hio & Hb & _ & _ & Hpages).
    assert (map_inv s3) as Hi3 by (by apply (set_closed s1 r f l blk idx n (<[Z.to_nat idx := p]> pg) i)).
    destruct Hs as [Hsh1 Hz Hm Hlo Hk Hsu Hd Hme Hc]. pose proof Hio as (Est & _ & _ & _ & _ & Hdd).
    split; [by eapply shared_same|by intros; rewrite Est| |by rewrite (proj1 (proj2 Hb))
      |eapply same_slack_trans; [done|by apply backend_slack]|by rewrite Est| |etrans; [done|by apply io_meta_kept]|].
    + intros. rewrite Hpages. unfold pages_after. case_decide; [done|]. apply Hm.
    + eapply data_but_trans; [done|]. by apply data_step_but, same_data_step.
    + intros Hcp d Hdo. rewrite <-(Hc Hcp d Hdo). by apply Hdd.
  - intros er s3 Her. left. by exists (ms_sys s1).
Qed.

(** The frontier and the physical size follow. *)
Lemma wp_bump_stage m lo q s1 lsn :
  stage m lo true q s1 → p < InvalidBlockNumber - 1 →
  wp (on_world (MapSBlockBumpPhysicalState env r f (u32 (p + 1)) true true lsn))
    (λ _ s2, stage m lo true q s2) (λ _ _, False) s1.
Proof using Hrd Hlim.
  intros [Hs Hz Hm Hl Hk (Hw1 & e1 & He1 & Hu1 & Hr1 & Hb1) Hd Hme Hc] Hroom. pose proof Hrd as [Hf _ _ Hn _].
  unfold InvalidBlockNumber in *. rewrite u32_small by (unfold is_u32; lia).
  destruct (bump_physical_trusted env (ms_world s1) r f n (p + 1) true true lsn e1)
    as (w & e2 & Hrun & Hfs & Hw2 & He2 & Hu2 & Hfr & Hts); [done..|by rewrite Hz|unfold MaxBlockNumber; lia|].
  unfold wp, on_world. rewrite Hrun. destruct (map_inv_world s1 w) as [_ Hpp];
    [by eapply shared_map|done|done|]. destruct (Hfr f Hf) as [Hge Hbd].
  split; [by apply shared_world|by intros; cbn; rewrite Hts|by intros; rewrite (proj2 Hpp)|done|done
    |cbn|unfold files; cbn; rewrite Hfs; done..].
  split; [done|]. exists e2. split_and!; [done|done|lia|unfold MaxBlockNumber in *; lia|].
  intros Hrec. by rewrite Hbd, Hb1.
Qed.

(** ** The whole move *)

Definition logged_move : Wal :=
  let rec := XlMapSet (MkMapSet r f l old p) in
  let lsn := advance (wal_end (x_wal (c_x c))) (Z.of_nat (length (umbra_data rec))) in
  MkWal lsn (wal_records (x_wal (c_x c)) ++ [(lsn, rec)]).

Definition process_after (b : bool) (c' : C) : C :=
  MkC (MkX (at_map (x_smgr (c_x c)) (c_map c')) (if b then logged_move else x_wal (c_x c))
         (x_delay_start (c_x c)))
    (c_requests c) (c_enqueued c) (if b then u64 (c_relocations c + 1) else c_relocations c) (c_tries c')
    (c_prealloc_slot c) (c_compact_slot c).

Definition moved_post (b : bool) (c' : C) : Prop :=
  c' = process_after b c' ∧
  stage (if b then pages_after else pages_before) (ms_local s) b (if b then p + 1 else p) (c_map c') ∧
  (b = true → entry_of pg idx = old).

Lemma moved_nothing c' copied q :
  same_process c c' → stage pages_before (ms_local s) copied q (c_map c') → p ≤ q → moved_post false c'.
Proof using Type. intros E Hs Hq. split_and!; [exact E|by eapply stage_weaken|done]. Qed.

(** Giving up after the reservation. *)
Lemma wp_give_up c1 i copied q :
  same_process c c1 → stage pages_before (ms_local s ++ [MkLocal r f l p i idx]) copied q (c_map c1) →
  MapInflightLocalFind r f l (ms_local s) = None → p ≤ q →
  wp (at_ms (MapInflightRelease r f l);; mret false) moved_post (λ er _, move_error er) c1.
Proof using Hrd.
  intros E1 Hs1 Hown Hq. apply wp_bind, wp_at_ms. eapply wp_mono; [by eapply wp_give_back| |done].
  intros ? s2 Hs2. apply wp_ret. eapply moved_nothing; [|exact Hs2|done].
  eapply same_process_trans; [exact E1|]. done.
Qed.

Lemma wp_unpin_give_up c1 s1 i slot copied q :
  same_process c c1 → stage pages_before (ms_local s ++ [MkLocal r f l p i idx]) copied q s1 →
  read_post s1 r f blk pg slot (c_map c1) →
  MapInflightLocalFind r f l (ms_local s) = None → p ≤ q →
  wp (at_ms (on_sys (MapUnpinBuffer slot));; at_ms (MapInflightRelease r f l);; mret false) moved_post
    (λ er _, move_error er) c1.
Proof using Hrd.
  intros E1 Hs1 Hread Hown Hq. apply wp_bind, wp_at_ms.
  eapply wp_unread; [by eapply shared_map, sg_shared|exact Hread|]. intros s2 Hi2 Hm2 Hb2.
  eapply wp_give_up; [|by eapply stage_calm|done|done]. eapply same_process_trans; [exact E1|]. done.
Qed.

(** The critical section and what follows it. *)
Lemma wp_commit c1 s1 i slot :
  same_process c c1 → stage pages_before (ms_local s ++ [MkLocal r f l p i idx]) true (p + 1) s1 →
  read_post s1 r f blk pg slot (c_map c1) → entry_of pg idx = old →
  MapInflightLocalFind r f l (ms_local s) = None → p < InvalidBlockNumber - 1 →
  wp (in_x (critical (delaying_checkpoints (
        map_lsn ← in_wal (log_umbra_map_set advance r f l old p);
        in_map (switch_entry r slot idx p map_lsn);;
        in_world (MapSBlockBumpPhysicalState env r f (u32 (p + 1)) true true map_lsn))));;
      at_ms (MapInflightRelease r f l);;
      MapStatsAddCompactorRelocations 1;;
      mret true) moved_post (λ er _, move_error er) c1.
Proof using Hrd Hln Hnz Hlim.
  intros E1 Hs1 Hread Hent Hown Hroom.
  destruct c1 as [[[m1 tm1 hd1 pl1] w1 d1] q1 en1 re1 t1 ps1 cs1]. unfold same_process in E1. cbn in E1.
  injection E1 as -> -> -> -> -> -> -> -> -> ->. apply wp_bind, wp_in_x, wp_critical, wp_delaying, wp_bind.
  unfold wp at 1, in_wal. cbn [x_wal log_umbra_map_set XLogInsert]. set (lsn := advance _ _).
  apply wp_bind, wp_in_map. eapply wp_mono.
  { eapply (wp_switch_stage (ms_local s ++ [MkLocal r f l p i idx])); [exact Hs1|exact Hread|].
    unfold is_u32, InvalidBlockNumber in *. lia. }
  2: { intros er s3 Her. exists er. by auto. }
  intros ? s3 Hs3. apply wp_in_map. change (x_map (x_at _ s3)) with s3.
  eapply wp_mono; [eapply (wp_bump_stage pages_after); [exact Hs3|done]| |done]. intros ? s4 Hs4.
  apply wp_bind, wp_at_ms. eapply wp_mono; [eapply (wp_give_back pages_after); [exact Hs4|done]| |done].
  intros ? s5 Hs5. apply wp_bind, wp_modify, wp_ret. split_and!; [|exact Hs5|done].
  done.
Qed.

Lemma wp_relocate :
  wp (MapCompactorRelocateEntry env advance lock_free r f l old) moved_post (λ er _, move_error er) c.
Proof using All.
  pose proof Hrd as [Hf Hl Hloc Hn Hv]. destruct move_fork as [_ Hnm].
  apply wp_bind, wp_try_lock. intros got t0. apply wp_bind, wp_at_ms. change (c_map (with_tries t0 c)) with s.
  eapply wp_mono; [by eapply (wp_reserve_tried env ks bars s r f l blk idx n p pg e)| |].
  2: { intros er s1 [Her|[_ ->]]; apply move_error_plain; [left; exists (ms_sys s); by left|by right; left]. }
  intros [q|] s1 Htry.
  2: { apply wp_ret. eapply (moved_nothing _ false p); [done|by eapply stage_tried|lia]. }
  assert (q = p) as -> by (by destruct Htry as (_ & _ & -> & _)).
  assert (same_process c (c_at (with_tries t0 c) s1)) as E1 by done. set (c1 := c_at _ s1) in *.
  destruct (stage_claimed got s1 Htry) as (Hown & (i & Hs1) & Hd1). change s1 with (c_map c1) in Hs1.
  apply wp_bind, wp_at_ms, wp_bind, wp_gets, wp_ret.
  replace (c_at c1 (c_map c1)) with c1 by (unfold c1; by destruct s1, c as [[[] ] ]).
  destruct (fl_block_exists _ r f old); cbn [negb]; 
    [|eapply wp_give_up; [exact E1|exact Hs1|done|lia]].
  apply wp_bind, wp_at_ms. eapply wp_mono; [eapply wp_copy; [exact Hs1|]| |done].
  { intros d Hd. change (files (c_map c1)) with (files s1).
    destruct (proj2 Hd1 old Hold) as [->|[Hnone _]]; [done|]. congruence. }
  intros ? s2 Hs2. apply wp_bind, (wp_lift _ (blk, idx)); [done|]. cbn [fst snd]. apply wp_bind, wp_at_ms.
  destruct (entry_location_ok f l blk idx Hf Hl Hloc) as (_ & _ & Hpos & Hdec).
  eapply wp_mono; [apply (wp_read env s2 r f blk (l / 2048) n pg) with (Q := read_post s2 r f blk pg);
    [exact (shared_map _ _ _ (sg_shared _ _ _ _ _ Hs2))|done|done|by rewrite (sg_sizes _ _ _ _ _ Hs2)
    |by rewrite (sg_pages _ _ _ _ _ Hs2)|done]| |].
  2: { intros er s3 Her. apply move_error_plain. left. exists (ms_sys s2). by left. }
  intros slot s3 Hread. apply wp_bind, wp_try_lock. intros locked t1.
  set (c3 := with_tries t1 _). assert (same_process c c3) as E3 by done. change s3 with (c_map c3) in Hread.
  destruct locked; cbn [negb]; 
    [|eapply wp_unpin_give_up; [exact E3|exact Hs2|exact Hread|done|lia]].
  apply wp_bind, wp_at_ms, wp_on_sys, (wp_get_page _ slot pg); [apply Hread|].
  replace (c_at c3 _) with c3 by (unfold c3; by destruct s3, c as [[[] ] ]).
  case_decide as Hent; 
    [eapply wp_unpin_give_up; [exact E3|exact Hs2|exact Hread|done|lia]|].
  eapply wp_commit; [exact E3|exact Hs2|exact Hread|done|done|]. by destruct Htry as (_ & _ & _ & _ & _ & ? & _).
Qed.

(** ** What a move does to the map and to the blocks *)

Lemma entry_before : entry_at s r f l = entry_of pg idx.
Proof using Hrd.
  destruct Hrd as [Hf Hl Hloc Hn Hv]. destruct (entry_location_ok f l blk idx Hf Hl Hloc) as (Eb & Ei & _).
  unfold entry_at. by rewrite <-Eb, Hv, Ei.
Qed.

Lemma after_entries (b : bool) lo cp q s' r' f' l' :
  stage (if b then pages_after else pages_before) lo cp q s' → is_u32 l' →
  entry_at s' r' f' l' = if decide (b = true ∧ (r', f', l') = (r, f, l)) then p else entry_at s r' f' l'.
Proof using Hsh Hrd.
  intros Hs Hl'. destruct b.
  - rewrite (moved_entries s s' r f l blk idx n p pg r' f' l'); [apply decide_ext; clear; by intuition
      |by eapply shared_map|done|by cbv zeta; rewrite (sg_pages _ _ _ _ _ Hs)|done].
  - rewrite decide_False by (by intros [? _]). unfold entry_at. by rewrite (sg_pages _ _ _ _ _ Hs).
Qed.

Lemma after_logical (b : bool) lo q s' r' f' l' d :
  stage (if b then pages_after else pages_before) lo b q s' →
  (b = true → entry_of pg idx = old ∧ old ≠ InvalidBlockNumber ∧ p ≠ InvalidBlockNumber) →
  fork_mapped f' → is_u32 l' → (r', f') ≠ (r, f) ∨ entry_at s r f l' ≠ p →
  logical_block s r' f' l' = Some d → logical_block s' r' f' l' = Some d.
Proof using Hsh Hrd.
  intros Hs Hent Hf' Hl' Hfresh. pose proof (sg_data _ _ _ _ _ Hs) as Hd.
  pose proof (λ r' f' l', after_entries b lo b q s' r' f' l' Hs) as Hae.
  destruct (decide (b = true ∧ (r', f', l') = (r, f, l))) as [(-> & [= -> -> ->])|Hne].
  - destruct (Hent eq_refl) as (Eo & Ho1 & Hp1). unfold logical_block, block_at.
    replace (entry_at s' r f l) with p by (by rewrite Hae, decide_True by done). rewrite entry_before, Eo.
    rewrite !decide_False by done. by apply (sg_copy _ _ _ _ _ Hs).
  - intros Hld. apply (kept_logical s s' r f p); try done; [by eapply shared_map|].
    by rewrite Hae, decide_False.
Qed.
End move.
End relocate.
