(* ===== verification/MapCompactPass.v ===== *)
(** * A compaction pass over a fork

    [MapCompactorAnalyzeFork] scans the map of a fork, asks for the removal of
    segments and moves blocks out of sparse extents.  Whatever locks it gets,
    the logical blocks keep their contents and every segment it gives up for
    removal is one that no logical block lies in. *)

From S2P Require Import Prelude MapLayout Superblock SuperTable FileLayer SmgrFiles SBlock SBlockInv.
From S2P Require Import MapPrealloc SBlockSafety SBlockSpec MapPreallocSpec.
From S2P Require Import BufState MapBuf MapClock PoolInv MapPage MapPageSpec MapEntries.
From S2P Require Import MapCheckpoint MapCheckpointSpec MapRange MapRangeSpec.
From S2P Require Import MapInflight MapInflightSpec MapReserve UmbraXlog.
From S2P Require Import SmgrAccess SmgrSpec SmgrWriteSpec SmgrExtend SmgrExtendSpec SyncQueue MapCompact MapCompactSpec.

Local Open Scope Z_scope.

(** The blocks that a scan finds come from the entries it looks at. *)
Lemma scan_committed extent_blocks R next es sc x :
  x ∈ sc_committed (foldl (scan_entry extent_blocks R next) sc es) →
  x ∈ sc_committed sc ∨ x ∈ es ∧ x ≠ InvalidBlockNumber.
Proof.
  revert sc. induction es as [|y es IH]; intros sc; cbn [foldl]; [by left|].
  intros [Hx|[Hx Hv]]%IH; [|right; split; [by constructor|done]]. unfold scan_entry in Hx.
  repeat case_decide; cbn [sc_committed] in Hx; set_solver.
Qed.

(** The boundary goes over committed blocks, and stops at the first other. *)
Lemma advance_boundary_exact k b committed :
  let b' := advance_boundary k b committed in
  b ≤ b' ≤ b + Z.of_nat k ∧ (∀ x, b ≤ x < b' → x ∈ committed) ∧ (b' < b + Z.of_nat k → b' ∉ committed).
Proof.
  revert b. induction k as [|k IH]; intros b; cbn [advance_boundary]; [split_and!; intros; lia|].
  case_decide as Hb; [|split_and!; [lia|lia|intros; lia|done]].
  destruct (IH (b + 1)) as (Hr & Hin & Hstop). split_and!; [lia|lia| |intros; apply Hstop; lia].
  intros x Hx. destruct (decide (x = b)) as [->|]; [done|]. apply Hin. lia.
Qed.

(** The map pages of a fork are all in the file when the last one is. *)
Lemma last_page_in_file {T F : Type} `{FileLayerLaws F} (s : MapState T F) r f n l :
  fork_mapped f → 0 < n ≤ max_mapped_lblk f + 1 →
  is_Some (fl_content (files s) r UMBRA_METADATA_FORKNUM (page_pos f ((n - 1) / 2048))) → 0 ≤ l < n →
  page_pos f (l / 2048) < fl_nblocks (files s) r UMBRA_METADATA_FORKNUM.
Proof.
  intros Hf Hn [d Hd] Hl. pose proof (max_mapped_u32 f).
  assert (page_pos f (l / 2048) ≤ page_pos f ((n - 1) / 2048)) as Hmono by (apply page_pos_mono; ulia).
  destruct (page_pos_at f (n - 1) Hf) as [Hpos _]; [ulia|lia|]. pose proof (fl_nblocks_spec _ _ _ _ Hd). lia.
Qed.

Section pass.
Context {T F : Type} `{SuperStoreLaws T} `{FileLayerLaws F} `{!DataFiles F} `{!DataFilesLaws F}.
Context (env : Env) (cg : CompactorGucs) (advance : Z → Z → Z) (lock_free : nat → bool).
Local Abbreviation MS := (MapState T F).
Local Abbreviation C := (CState T F).
Context (ks : list Backend) (bars : list (nat * Z)) (c0 : C) (r : RelFileLocator) (f : ForkNumber) (n B L : Z).
Implicit Types (c : C) (s : MS).

(** ** What holds throughout a pass *)

(** The entries of the map pages that the fork uses. *)
Definition in_pages (l : Z) : Prop := 0 ≤ l < map_pages n * 2048.

(** No physical block is mapped twice, and the frontier is past all of them. *)
Definition unique_entries s : Prop :=
  ∀ l l', in_pages l → in_pages l' → entry_at s r f l = entry_at s r f l' →
    entry_at s r f l = InvalidBlockNumber ∨ l = l'.
Definition below s (q : Z) : Prop :=
  ∀ l, in_pages l → entry_at s r f l = InvalidBlockNumber ∨ entry_at s r f l < q.

(** A request for a segment under the boundary in which no block lies. *)
Definition unused s (q : FileTag * SyncRequestType) : Prop :=
  ∃ segno, q = (MapReclaimInitFileTag r f segno, SYNC_RECLAIM_REQUEST) ∧ 0 ≤ segno ∧ (segno + 1) * RELSEG_SIZE ≤ B ∧
    ∀ l, 0 ≤ l < n → entry_in_segment segno (entry_at s r f l) = false.

(** Every block that could be read still holds what it held. *)
Definition keeps_blocks s s' : Prop :=
  ∀ r' f' l d, fork_mapped f' → is_u32 l → ((r', f') = (r, f) → l < n) →
    logical_block s r' f' l = Some d → logical_block s' r' f' l = Some d.

Record passing c : Prop := {
  pa_shared : shared ks bars (c_map c);
  pa_sizes : ∀ r' g, trusted_size (w_store (ms_world (c_map c))) r' g =
    trusted_size (w_store (ms_world (c_map c0))) r' g;
  pa_local : ms_local (c_map c) = ms_local (c_map c0);
  pa_covered : covered (c_map c) r f 0 n;
  pa_super : ss_wf (w_store (ms_world (c_map c))) ∧
    ∃ e, ss_map (w_store (ms_world (c_map c))) !! r = Some e ∧ entry_untrusted e = false ∧
      L ≤ fork_reserved e f ≤ MaxBlockNumber ∧ fork_boundary e f = B ∧
      below (c_map c) (fork_reserved e f);
  pa_unique : unique_entries (c_map c);
  pa_disk : is_Some (fl_content (files (c_map c)) r UMBRA_METADATA_FORKNUM (page_pos f ((n - 1) / 2048)));
  pa_blocks : keeps_blocks (c_map c0) (c_map c);
  pa_requests : ∃ qs, c_requests c = c_requests c0 ++ qs ∧ Forall (unused (c_map c)) qs;
}.

Context (Hf : fork_mapped f) (Hn : 0 < n ≤ max_mapped_lblk f + 1) (HB : 0 ≤ B ≤ L).
Context (Hsize : trusted_size (w_store (ms_world (c_map c0))) r f = Some n) (Hrec : InRecovery env = false).

(** ** Steps that leave the map alone *)

Lemma same_map_entry s s' r' f' l : same_map s s' → entry_at s' r' f' l = entry_at s r' f' l.
Proof using All. intros [_ Hm]. unfold entry_at. by rewrite Hm. Qed.

Lemma same_map_blocks s s' : same_map s s' → keeps_blocks s s'.
Proof using All.
  intros Hm r' f' l d Hf' _ _. unfold logical_block, block_at. rewrite (same_map_entry s s') by done.
  case_decide; [done|]. destruct Hm as [(_ & _ & _ & _ & _ & Hd) _]. unfold files. rewrite Hd; [done|].
  by destruct Hf' as [->|[->| ->]].
Qed.

Lemma passing_map c c' :
  passing c → shared ks bars (c_map c') → same_map (c_map c) (c_map c') →
  ms_local (c_map c') = ms_local (c_map c) → c_requests c' = c_requests c → passing c'.
Proof using All.
  intros [Hs Hz Hl Hcov (Hw & e & He & Hu & Hq & Hb & Hbe) Hun Hd Hbl (qs & Hqs & Hall)] Hs' Hm Hl' Hr'.
  pose proof Hm as [Hio Hmp]. pose proof (proj1 Hio) as Est.
  pose proof (λ l, same_map_entry _ _ r f l Hm) as Hent.
  split; [done|by intros; rewrite Est|by rewrite Hl'| | | | | |].
  - intros l Hin. rewrite Hmp. by apply Hcov.
  - rewrite Est. split; [done|]. exists e. split_and!; [done|done|lia|lia|done|].
    intros l Hin. rewrite Hent. by apply Hbe.
  - intros l l' Hin Hin'. rewrite !Hent. by apply Hun.
  - destruct Hio as (_ & _ & _ & Hk & _). apply Hk; [|done]. unfold page_pos. destruct f; ulia.
  - intros r' f' l d ????. eapply same_map_blocks; [done..|]. by apply Hbl.
  - exists qs. split; [congruence|]. eapply Forall_impl; [|exact Hall]. intros q (segno & Eq & Hs0 & Hbd & Hno).
    exists segno. split_and!; [done|done|done|]. intros l Hin. rewrite Hent. by apply Hno.
Qed.

(** ** The page that is held *)

Definition pins (current : option (nat * Z)) (j : nat) : Z :=
  match current with Some (i, _) => if decide (j = i) then 1 else 0 | None => 0 end.

(** The pass is between two operations, with page [current] pinned. *)
Definition paused (current : option (nat * Z)) c : Prop :=
  passing c ∧ ∀ j, slack bars (c_map c) j = slack bars (c_map c0) j + pins current j.

Context (Hslack : ∀ j, 0 ≤ slack bars (c_map c0) j).

Lemma held_slot i blk c :
  paused (Some (i, blk)) c →
  held_at i (bk_holds (bk_of (c_map c) bars)) < private_count i (ms_sys (c_map c)) ∧
  is_Some (buffers (pool (ms_sys (c_map c))) !! i) ∧ is_Some (pages (pool (ms_sys (c_map c))) !! i).
Proof using All.
  intros [Hp Hs]. specialize (Hs i). specialize (Hslack i). unfold slack in Hs. cbn [pins] in Hs.
  rewrite decide_True in Hs by done.
  assert (held_at i (bk_holds (bk_of (c_map c) bars)) < private_count i (ms_sys (c_map c))) as Hlt
    by (unfold slack in *; lia). split; [done|].
  pose proof (mi_pool _ (shared_map _ _ _ (pa_shared _ Hp))) as Hpo.
  pose proof (held_at_pos i (bk_holds (bk_of (c_map c) bars))) as Hpos. unfold private_count in Hlt.
  destruct (private_ref (ms_sys (c_map c)) !! i) as [k|] eqn:Hk; [|cbn [default] in Hlt; lia].
  apply lookup_lt_Some in Hk. rewrite (po_private _ Hpo) in Hk. split; apply lookup_lt_is_Some_2; [done|].
  by rewrite (po_pages _ Hpo).
Qed.

(** Nothing happened to the map, the pins are those of [current']. *)
Lemma paused_map current current' c c' :
  paused current c → shared ks bars (c_map c') → same_map (c_map c) (c_map c') →
  ms_local (c_map c') = ms_local (c_map c) → c_requests c' = c_requests c →
  (∀ j, slack bars (c_map c') j = slack bars (c_map c) j - pins current j + pins current' j) →
  paused current' c'.
Proof using All.
  intros [Hp Hs] Hs' Hm Hl Hr Hk. split; [by eapply passing_map|]. intros j. rewrite Hk, Hs. lia.
Qed.

Lemma wp_release_held current c Q (E : pg_error → C → Prop) :
  paused current c → (∀ c', paused None c' → Q tt c') → wp (at_ms (release_page current)) Q E c.
Proof using All.
  intros Hp HQ. apply wp_at_ms. destruct current as [[i blk]|].
  2: { apply wp_ret, HQ. eapply (paused_map None); [exact Hp|exact (pa_shared _ (proj1 Hp))|done|done|done|].
       intros j. cbn [pins]. change (c_map (c_at c (c_map c))) with (c_map c). lia. }
  destruct (held_slot i blk c Hp) as (Hlt & [b Hb] & _). cbn [release_page].
  eapply wp_unpin_shared; [exact (pa_shared _ (proj1 Hp))|done|done|]. intros s' Hs' Hm' Hl' Hk'.
  apply HQ. eapply paused_map; [exact Hp|done|done|done|done|]. intros j. change (c_map (c_at c s')) with s'.
  rewrite Hk'. cbn [pins]. lia.
Qed.

(** The pages are visited in the order of the fork. *)
Definition behind (current : option (nat * Z)) (q : Z) : Prop :=
  match current with Some (_, blk) => ∃ q', 0 ≤ q' < q ∧ blk = page_pos f q' | None => True end.

Lemma wp_switch_held current c q Q :
  paused current c → 0 ≤ q < map_pages n → behind current q →
  (∀ i c' pg, paused (Some (i, page_pos f q)) c' → same_map (c_map c) (c_map c') →
     pages (pool (ms_sys (c_map c'))) !! i = Some pg → map_page (c_map c') r f (page_pos f q) = Some pg → Q i c') →
  wp (at_ms (switch_page env r f (page_pos f q) current)) Q (λ e _, move_error (F := F) e) c.
Proof using All.
  intros Hp Hq Hbeh HQ. pose proof (max_mapped_u32 f).
  assert (0 ≤ q * 2048 < n) as Hqn by (unfold map_pages in Hq; ulia).
  destruct (page_pos_at f (q * 2048) Hf) as [Hpos Hdec]; [ulia|lia|]. rewrite Z.div_mul in Hpos, Hdec by lia.
  assert (∀ s1, shared ks bars s1 → same_map (c_map c) s1 → ms_local s1 = ms_local (c_map c) →
    (∀ j, slack bars s1 j = slack bars (c_map c) j - pins current j) →
    wp (MapReadBuffer env r f (page_pos f q)) (λ i s, Q i (c_at c s)) (λ e _, move_error (F := F) e) s1) as Hread.
  { intros s1 Hs1 Hm1 Hl1 Hk1. destruct Hp as [Hpass Hsl]. pose proof (proj1 (proj1 Hm1)) as Est.
    destruct (pa_covered _ Hpass (q * 2048)) as [pg Hpg]; [lia|]. rewrite Z.div_mul in Hpg by lia.
    eapply wp_mono; [apply (wp_read env s1 r f (page_pos f q) q n pg) with (Q := read_post s1 r f (page_pos f q) pg);
      [by eapply shared_map|done|done|by rewrite Est, (pa_sizes _ Hpass)|by rewrite (proj2 Hm1)|done]| |].
    2: { intros e s2 He. apply move_error_plain. left. exists (ms_sys s1). by left. }
    intros i s2 [Hi2 Hm2 Hl2 Hpg2 _ Hpins Hk2]. assert (same_map (c_map c) s2) as Hm by (by eapply same_map_trans).
    assert (shared ks bars s2) as Hs2.
    { apply (shared_frame ks bars s1); [done..|]. intros j. rewrite Hpins.
      pose proof (si_held _ _ _ (proj2 Hs1) (bk_of s1 bars) j ltac:(by left)) as Hh.
      change (bk_pins j (bk_of s1 bars)) with (private_count j (ms_sys s1)) in Hh. case_decide; lia. }
    apply (HQ i _ pg); [|exact Hm|exact Hpg2|change (c_map (c_at c s2)) with s2; by rewrite (proj2 Hm)].
    eapply (paused_map current); [by split|done|done|by rewrite <-Hl1|done|].
    intros j. change (c_map (c_at c s2)) with s2. rewrite <-Hk1. cbn [pins]. unfold slack, bk_holds.
    cbn [bk_of bk_local bk_barriers]. rewrite Hpins, Hl2. case_decide; lia. }
  apply wp_at_ms. destruct current as [[i blk]|]; cbn [switch_page].
  2: { apply Hread; [exact (pa_shared _ (proj1 Hp))|done|done|]. intros j. cbn. lia. }
  destruct Hbeh as (q' & Hq' & ->). rewrite decide_False by (unfold page_pos; destruct f; ulia).
  destruct (held_slot i _ c Hp) as (Hlt & [b Hb] & _).
  apply wp_bind. eapply wp_unpin_shared; [exact (pa_shared _ (proj1 Hp))|done|done|]. intros s' Hs' Hm' Hl' Hk'.
  by apply Hread.
Qed.

(** ** A move inside the pass *)

Lemma pass_ready c l :
  passing c → 0 ≤ l < n → ∃ pg, ready (c_map c) r f l (page_pos f (l / 2048)) (l mod 2048) n pg ∧
    ∀ j, 0 ≤ j < 2048 → entry_of pg j = entry_at (c_map c) r f (l / 2048 * 2048 + j).
Proof using All.
  intros Hp Hl. pose proof (max_mapped_u32 f). destruct (pa_covered _ Hp l Hl) as [pg Hpg].
  exists pg. split.
  - split; [done|ulia|apply entry_location_at; [done|ulia|lia]|by rewrite (pa_sizes _ Hp)|done].
  - intros j Hj. unfold entry_at. replace ((l / 2048 * 2048 + j) / 2048) with (l / 2048) by ulia.
    rewrite Hpg. by replace ((l / 2048 * 2048 + j) mod 2048) with j by ulia.
Qed.

(** Two entries of a page cannot both be zero. *)
Lemma pass_nonzero c l pg p :
  passing c → 0 ≤ l < n → map_page (c_map c) r f (page_pos f (l / 2048)) = Some pg →
  (∀ j, 0 ≤ j < 2048 → entry_of pg j = entry_at (c_map c) r f (l / 2048 * 2048 + j)) → is_u32 p →
  nonzero (<[Z.to_nat (l mod 2048) := p]> pg).
Proof using All.
  intros Hp Hl Hpg Hent Hpu. pose proof (max_mapped_u32 f).
  destruct (page_pos_at f l Hf) as [Hpos _]; [ulia|lia|].
  pose proof (map_page_ok _ _ _ _ _ (shared_map _ _ _ (pa_shared _ Hp)) (proj1 Hpos) Hpg) as Hok.
  pose proof Hok as [Hlen _]. change (Z.to_nat MAP_ENTRIES_PER_PAGE) with 2048%nat in Hlen.
  assert (∃ j, 0 ≤ j < 2048 ∧ j ≠ l mod 2048 ∧ entry_of pg j ≠ 0) as (j & Hj & Hne & Hz).
  { set (i1 := if decide (l mod 2048 = 0) then 1 else 0).
    set (i2 := if decide (l mod 2048 ≤ 1) then 2 else 1).
    assert (0 ≤ i1 < 2048 ∧ 0 ≤ i2 < 2048 ∧ i1 ≠ i2 ∧ i1 ≠ l mod 2048 ∧ i2 ≠ l mod 2048) as (H1' & H2' & Hd & Hn1 & Hn2)
      by (unfold i1, i2; repeat case_decide; lia).
    destruct (decide (entry_of pg i1 = 0)) as [E1|]; [|by exists i1].
    destruct (decide (entry_of pg i2 = 0)) as [E2|]; [|by exists i2].
    rewrite Hent in E1, E2 by done. exfalso.
    destruct (pa_unique _ Hp (l / 2048 * 2048 + i1) (l / 2048 * 2048 + i2)) as [Hi|Hi];
      [unfold in_pages, map_pages; ulia|unfold in_pages, map_pages; ulia|congruence|rewrite E1 in Hi; done|lia]. }
  unfold entry_of in Hz. destruct (pg !! Z.to_nat j) as [x|] eqn:Hx.
  - apply (nonzero_entry _ (Z.to_nat j) x); [by apply insert_page_ok| |done].
    by rewrite list_lookup_insert_ne by ulia.
  - apply lookup_ge_None in Hx. lia.
Qed.

Lemma reserved_ok e : MapSuperGetReservedNextFree e f = Ok (fork_reserved e f).
Proof using All.
  unfold MapSuperGetReservedNextFree, fork_reserved. by destruct Hf as [->|[->| ->]].
Qed.

Lemma passing_moved c l pg e old b c' :
  passing c → 0 ≤ l < n → ready (c_map c) r f l (page_pos f (l / 2048)) (l mod 2048) n pg →
  L ≤ fork_reserved e f ≤ MaxBlockNumber → fork_boundary e f = B → below (c_map c) (fork_reserved e f) →
  old ≠ InvalidBlockNumber →
  moved_post env advance ks bars c r f l (page_pos f (l / 2048)) (l mod 2048) (fork_reserved e f) old pg e b c' →
  passing c'.
Proof using All.
  set (p := fork_reserved e f). intros Hp Hl Hrd Hq Hbd Hbe Hold (Ec' & Hst & Hent).
  pose proof (max_mapped_u32 f). pose proof (pa_shared _ Hp) as Hsh. unfold MaxBlockNumber in *.
  assert (p ≠ InvalidBlockNumber) as Hpi by (unfold InvalidBlockNumber; lia).
  assert (∀ l', 0 ≤ l' < 2 ^ 32 → entry_at (c_map c') r f l' =
    if decide (b = true ∧ l' = l) then p else entry_at (c_map c) r f l') as Hae.
  { intros l' Hl'. rewrite (after_entries env ks bars c r f l _ _ n p old pg e Hsh Hrd b) with (1 := Hst) by done.
    apply decide_ext. naive_solver. }
  assert (∀ l', in_pages l' → 0 ≤ l' < 2 ^ 32) as Hpg32
    by (intros l'; unfold in_pages, map_pages, max_mapped_lblk in *; destruct f; ulia).
  split.
  - apply Hst.
  - intros. by rewrite (sg_sizes _ _ _ _ _ _ _ _ _ _ _ _ _ _ Hst), (pa_sizes _ Hp).
  - by rewrite (sg_local _ _ _ _ _ _ _ _ _ _ _ _ _ _ Hst), (pa_local _ Hp).
  - intros l' Hl'. rewrite (sg_pages _ _ _ _ _ _ _ _ _ _ _ _ _ _ Hst). destruct b; [|by apply (pa_covered _ Hp)].
    unfold pages_after. destruct (decide _); [by eexists|]. by apply (pa_covered _ Hp).
  - destruct (sg_super _ _ _ _ _ _ _ _ _ _ _ _ _ _ Hst) as (Hw & e' & He' & Hu' & Hr & Hb').
    split; [done|]. exists e'. split_and!; [done|done|destruct b; lia|lia|by rewrite Hb'|].
    intros l' Hl'. rewrite Hae by auto.
    destruct (decide _) as [[-> _]|_]; [right; lia|].
    destruct (Hbe l' Hl') as [?|?]; [by left|right; destruct b; lia].
  - intros l1 l2 H1' H2'. rewrite !Hae by auto. pose proof (Hbe _ H1'). pose proof (Hbe _ H2').
    pose proof (pa_unique _ Hp l1 l2 H1' H2').
    destruct (decide (b = true ∧ l1 = l)) as [[_ ->]|_], (decide (b = true ∧ l2 = l)) as [[_ ->]|_];
      intros E; [by right|lia|lia|auto].
  - apply (sg_meta _ _ _ _ _ _ _ _ _ _ _ _ _ _ Hst); [unfold page_pos; destruct f; ulia|by apply pa_disk].
  - intros r' f' l' d Hf' Hl' Hln' Hd.
    eapply (after_logical env ks bars c r f l); [exact Hsh|exact Hrd|exact Hst| |done|done| |by apply (pa_blocks _ Hp)].
    { intros Hb. by auto. }
    destruct (decide ((r', f') = (r, f))) as [E|]; [|by left]. right.
    destruct (Hbe l') as [Hi|Hi]; [|congruence|fold p in Hi; lia].
    unfold in_pages, map_pages, is_u32 in *. specialize (Hln' E). ulia.
  - destruct (pa_requests _ Hp) as (qs & Eqs & Hall). exists qs. split; [by rewrite Ec'|].
    eapply Forall_impl; [|exact Hall]. intros q (segno & Eq & Hs0 & Hs' & Hno). exists segno. split_and!; [done|done|done|].
    intros l' Hl'. rewrite Hae by ulia. destruct (decide _); [|by apply Hno].
    apply bool_decide_eq_false. intros [_ E]. change RELSEG_SIZE with 131072 in *. fold p in Hq. ulia.
Qed.

Lemma wp_relocate_ready c l old e :
  passing c → 0 ≤ l < n → 0 ≤ old → ss_map (w_store (ms_world (c_map c))) !! r = Some e →
  ∃ pg, ready (c_map c) r f l (page_pos f (l / 2048)) (l mod 2048) n pg ∧
    wp (MapCompactorRelocateEntry env advance lock_free r f l old)
      (moved_post env advance ks bars c r f l (page_pos f (l / 2048)) (l mod 2048) (fork_reserved e f) old pg e)
      (λ er _, move_error (F := F) er) c.
Proof using All.
  intros Hp Hl Ho He. destruct (pass_ready c l Hp Hl) as (pg & Hrd & Hent). exists pg. split; [done|].
  destruct (pa_super _ Hp) as (Hw & e0 & He0 & Hu & Hq & Hbd & Hbe). assert (e0 = e) as -> by congruence.
  unfold MaxBlockNumber in Hq. eapply wp_relocate.
  - exact (pa_shared _ Hp).
  - exact Hrd.
  - lia.
  - exact Hw.
  - exact He.
  - exact Hu.
  - apply reserved_ok.
  - unfold InvalidBlockNumber. lia.
  - exact Ho.
  - eapply pass_nonzero; [exact Hp|exact Hl|apply Hrd|exact Hent|unfold is_u32; lia].
Qed.

Lemma wp_relocate_pass current c l old :
  paused current c → 0 ≤ l < n → 0 ≤ old → old ≠ InvalidBlockNumber →
  wp (MapCompactorRelocateEntry env advance lock_free r f l old) (λ _ c', paused current c')
    (λ er _, move_error (F := F) er) c.
Proof using All.
  intros [Hp Hs] Hl Ho Hold. destruct (pa_super _ Hp) as (_ & e & He & _ & Hq & Hbd & Hbe).
  destruct (wp_relocate_ready c l old e Hp Hl Ho He) as (pg & Hrd & Hrun).
  eapply wp_mono; [exact Hrun| |done]. intros b c' Hm. split; [by eapply (passing_moved c l pg e old)|].
  intros j. rewrite <-Hs. by apply (sg_slack _ _ _ _ _ _ _ _ _ _ _ _ _ _ (proj1 (proj2 Hm))).
Qed.

(** ** Giving up a segment *)

Lemma c_at_eta c : c_at c (c_map c) = c.
Proof using Type. by destruct c as [[[] ] ]. Qed.

Lemma wp_at_world {A} (m : M (World T F) A) Q (E : pg_error → C → Prop) c :
  wp m (λ a w, Q a (c_at c (MkMapState w (ms_sys (c_map c)) (ms_local (c_map c)))))
    (λ e w, E e (c_at c (MkMapState w (ms_sys (c_map c)) (ms_local (c_map c))))) (ms_world (c_map c)) →
  wp (at_world m) Q E c.
Proof using Type.
  intros Hm. apply wp_at_ms. unfold wp, on_world in *. by destruct (m (ms_world (c_map c))) as [[]].
Qed.

Lemma pass_loaded c : passing c → MapSBlockEnsureLoaded r (ms_world (c_map c)) = (Ok true, ms_world (c_map c)).
Proof using All.
  intros Hp. destruct (pa_super _ Hp) as (Hw & e & He & _). pose proof Hsize as Hs. rewrite <-(pa_sizes _ Hp) in Hs.
  unfold MapSBlockEnsureLoaded, gets, mbind, M_bind. fold (files (c_map c)).
  rewrite (mi_exists _ (shared_map _ _ _ (pa_shared _ Hp)) r f n Hs). cbn [negb].
  unfold find_entry, gets. by rewrite ss_find_spec, He.
Qed.

Lemma wp_get_boundary c Q (E : pg_error → C → Prop) :
  passing c → Q (Some B) c → wp (at_world (MapSBlockTryGetReclaimBoundary env r f)) Q E c.
Proof using All.
  intros Hp HQ. apply wp_at_world. destruct (pa_super _ Hp) as (Hw & e & He & Hu & _ & Hbd & _).
  assert (MapForkHasMappedState f = true) as Hms by (by destruct Hf as [->|[->| ->]]).
  assert (∃ b, MapSuperGetReclaimBoundary e f = Ok b ∧ MapNormalizeForkBlockCount f b = B) as (b & Hb & Eb).
  { rewrite <-Hbd. unfold MapSuperGetReclaimBoundary, fork_boundary. destruct Hf as [->|[->| ->]]; eexists; done. }
  unfold MapSBlockTryGetReclaimBoundary. rewrite Hms. cbn [negb]. apply wp_bind. unfold wp at 1.
  rewrite (pass_loaded c Hp). apply wp_bind, wp_gets. rewrite ss_find_spec, He, Hu by done.
  apply wp_bind, (wp_lift _ b); [done|]. apply wp_ret. rewrite Eb, map_state_eta, c_at_eta. done.
Qed.

(** No logical block lies in the segment. *)
Definition dead (segno : Z) c : Prop := ∀ l, 0 ≤ l < n → entry_in_segment segno (entry_at (c_map c) r f l) = false.

Lemma wp_live_pass current c segno Q :
  paused current c → (∀ b c', paused current c' → (b = false → dead segno c') → Q b c') →
  wp (at_ms (MapSegmentHasLiveReferences env r f segno)) Q (λ er _, move_error (F := F) er) c.
Proof using All.
  intros Hpc HQ. pose proof Hpc as [Hp Hs]. pose proof Hsize as Hsz. rewrite <-(pa_sizes _ Hp) in Hsz.
  apply wp_at_ms. eapply wp_mono;
    [apply (wp_has_live env (c_map c) r f n segno);
      [exact (shared_map _ _ _ (pa_shared _ Hp))|done|lia|done|exact (pa_covered _ Hp)]| |].
  2: { intros er s2 He. apply move_error_plain. by left. }
  intros b s2 [(Hi2 & Hm2 & Hb2) Hlive]. apply HQ.
  - eapply (paused_map current current); [exact Hpc|by eapply shared_same; [apply (pa_shared _ Hp)|..]|done|apply Hb2|done|].
    intros j. change (c_map (c_at c s2)) with s2. rewrite (backend_slack _ _ _ Hb2 j). lia.
  - intros -> l Hl. change (c_map (c_at c s2)) with s2. rewrite (same_map_entry _ _ r f l Hm2).
    apply not_true_is_false. intros Hseg. enough (false = true) by done. apply Hlive. exists l. split_and!; [lia|lia| |done].
    by apply (last_page_in_file (c_map c) r f n l Hf Hn (pa_disk _ Hp)).
Qed.

Lemma wp_enqueue_dead current c segno Q (E : pg_error → C → Prop) :
  paused current c → dead segno c → 0 ≤ segno → (∀ b c', paused current c' → Q b c') →
  wp (MapReclaimEnqueueSegment env r f segno) Q E c.
Proof using All.
  intros [Hp Hs] Hdead Hs0 HQ. apply wp_bind, wp_get_boundary; [done|].
  unfold MapSegmentFullyBelowReclaimBoundary. case_bool_decide as Hbd; cbn [negb]; [|by apply wp_ret, HQ].
  apply wp_bind, wp_bind, wp_modify, wp_ret. cbn [negb]. apply wp_bind, wp_modify, wp_ret, HQ.
  split; [|exact Hs]. destruct Hp as [Hsh Hz Hl Hc Hsu Hu Hd Hb (qs & Eq & Hall)]. split; try done.
  exists (qs ++ [(MapReclaimInitFileTag r f segno, SYNC_RECLAIM_REQUEST)]). split; [cbn; by rewrite Eq, app_assoc|].
  apply Forall_app. split; [done|]. constructor; [|done]. exists segno. split_and!; done.
Qed.

(** ** The loops *)

Lemma paused_tries current c t : paused current c → paused current (with_tries t c).
Proof using All. intros [[] Hs]. split; [by split|exact Hs]. Qed.

Lemma wp_page_index q Q (E : pg_error → C → Prop) c :
  0 ≤ q < map_pages n → Q (page_pos f q) c → wp (lift (MapForkPageIndexToMapBlkno f q)) Q E c.
Proof using All.
  intros Hq HQ. pose proof (max_mapped_u32 f). assert (0 ≤ q * 2048 < n) by (unfold map_pages in Hq; ulia).
  destruct (page_pos_at f (q * 2048) Hf) as [Hpos _]; [ulia|lia|]. rewrite Z.div_mul in Hpos by lia.
  apply (wp_lift _ (page_pos f q)); [|done]. rewrite page_index_spec by (done || ulia). by rewrite decide_False by lia.
Qed.

(** What counts as committed is mapped. *)
Definition committed_in c (sc : MapScan) : Prop :=
  ∀ x, x ∈ sc_committed sc → x ≠ InvalidBlockNumber ∧ ∃ l, 0 ≤ l < n ∧ entry_at (c_map c) r f l = x.

Lemma wp_scan cs extent_blocks R next npages k q current c sc :
  Z.of_nat k = map_pages n - q → 0 ≤ q → paused current c → behind current q →
  same_map (c_map cs) (c_map c) → committed_in cs sc →
  wp (scan_pages env lock_free k r f extent_blocks R next n npages (map_pages n) q current sc)
    (λ sc' c', paused None c' ∧ committed_in cs sc') (λ er _, move_error (F := F) er) c.
Proof using All.
  revert q current c sc. pose proof (max_mapped_u32 f) as Hu.
  induction k as [|k IH]; intros q current c sc Hk Hq Hp Hbeh Hm Hsc; cbn [scan_pages].
  { apply wp_bind, (wp_release_held current); [done|]. intros c' Hc'. by apply wp_ret. }
  assert (0 ≤ q * 2048 < n) as Hqn by (unfold map_pages in Hk; ulia).
  apply wp_bind, wp_page_index; [lia|]. case_decide.
  { apply wp_bind, (wp_release_held current); [done|]. intros c' Hc'. by apply wp_ret. }
  apply wp_bind, (wp_switch_held current); [done|lia|done|]. intros i c1 pg Hp1 Hm1 Hpg1 Hmp1.
  apply wp_bind, wp_try_lock. intros locked t. apply wp_bind, wp_at_ms, wp_on_sys, (wp_get_page _ i pg); [exact Hpg1|].
  replace (c_at (with_tries t c1) _) with (with_tries t c1) by (by destruct c1 as [[[[] ] ] ]).
  rewrite u32_small by ulia. assert (same_map (c_map cs) (c_map c1)) as Hms by (by eapply same_map_trans).
  apply IH; [lia|lia|by apply paused_tries|exists q; by split; [lia|]|exact Hms|].
  destruct locked; [|done]. intros x [Hx|[Hx Hv]]%scan_committed; [by apply Hsc|]. split; [done|].
  rewrite limit_idx_spec in Hx by lia. apply list_elem_of_lookup in Hx as [j Hj].
  pose proof (lookup_lt_Some _ _ _ Hj) as Hlt. rewrite length_take in Hlt.
  exists (q * 2048 + Z.of_nat j). split; [lia|]. rewrite <-(same_map_entry _ _ r f _ Hms).
  destruct (page_entries (c_map c1) r f (q * 2048) pg (Z.to_nat (Z.min 2048 (n - q * 2048))) j x) as [-> _];
    [exact (shared_map _ _ _ (pa_shared _ (proj1 Hp1)))|done|lia|by rewrite Z.div_mul| |done].
  by rewrite Z.mod_mul, drop_0 by lia.
Qed.

Lemma wp_reclaim k sc segno c :
  paused None c → 0 ≤ segno →
  wp (reclaim_segments env k r f sc segno) (λ _ c', paused None c') (λ er _, move_error (F := F) er) c.
Proof using All.
  revert segno c. induction k as [|k IH]; intros segno c Hp Hs0; cbn [reclaim_segments]; [by apply wp_ret|].
  apply wp_bind. case_decide; [by apply wp_ret, IH; [|lia]|].
  apply wp_bind, wp_at_ms, wp_bind, wp_gets, wp_ret. rewrite c_at_eta.
  destruct (fl_segment_exists _ r f segno); cbn [negb]; [|by apply wp_ret, IH; [|lia]].
  apply wp_bind, (wp_live_pass None); [done|]. intros live c1 Hp1 Hd1. destruct live; [by apply wp_ret, IH; [|lia]|].
  apply wp_bind, (wp_enqueue_dead None); [done|auto|done|]. intros b c2 Hp2. by apply wp_ret, IH; [|lia].
Qed.

Lemma wp_enqueue_extent current c extent_no extent_blocks Q (E : pg_error → C → Prop) :
  paused current c → dead (u32 (extent_no * extent_blocks) / RELSEG_SIZE) c → (∀ b c', paused current c' → Q b c') →
  wp (MapReclaimEnqueue env r f extent_no extent_blocks) Q E c.
Proof using All.
  intros Hp Hd HQ. unfold MapReclaimEnqueue. case_decide; [by apply wp_ret, HQ|]. cbv zeta.
  case_decide; [by apply wp_ret, HQ|]. apply (wp_enqueue_dead current); [done| |apply Z.div_pos; [apply Z.mod_pos_bound; lia|done]|done].
  replace (u32 (u64 (extent_no * extent_blocks))) with (u32 (extent_no * extent_blocks)); [done|].
  unfold u32, u64. ulia.
Qed.

Lemma wp_moved_from current c extent_blocks extent_no mv :
  paused current c →
  wp (moved_from env r f extent_blocks extent_no mv) (λ _ c', paused current c')
    (λ er _, move_error (F := F) er) c.
Proof using All.
  intros Hp. unfold moved_from. cbv zeta. cbn [mv_live mv_here mv_done].
  destruct (mv_live mv !! extent_no) as [live|]; [|by apply wp_ret]. case_decide; [by apply wp_ret|].
  apply wp_bind. case_bool_decide; cbn [when]; [|by apply wp_ret, wp_ret].
  apply wp_bind, (wp_live_pass current); [done|]. intros busy c1 Hp1 Hd1. destruct busy; [by apply wp_ret, wp_ret|].
  apply wp_bind, (wp_enqueue_extent current); [done|auto|]. intros b c2 Hp2. by apply wp_ret, wp_ret.
Qed.

Lemma wp_move_entries i q extent_blocks R max_extent k idx mv c :
  paused (Some (i, page_pos f q)) c → 0 ≤ q < map_pages n → 0 ≤ idx →
  idx + Z.of_nat k ≤ limit_idx q (map_pages n) n →
  wp (move_entries env cg advance lock_free k r f extent_blocks R max_extent i q idx mv)
    (λ _ c', paused (Some (i, page_pos f q)) c') (λ er _, move_error (F := F) er) c.
Proof using All.
  revert idx mv c. induction k as [|k IH]; intros idx mv c Hp Hq Hi Hk; cbn [move_entries]; [by apply wp_ret|].
  apply wp_bind, wp_try_lock. intros locked t. pose proof (paused_tries _ _ t Hp) as Hpt.
  set (ct := with_tries t c) in *. destruct (held_slot i _ ct Hpt) as (_ & _ & [pg Hpg]).
  apply wp_bind, wp_at_ms, wp_on_sys, (wp_get_page _ i pg); [exact Hpg|].
  replace (c_at ct _) with ct by (by destruct ct as [[[[] ] ] ]). cbv zeta. apply wp_bind.
  assert (∀ mv' c', paused (Some (i, page_pos f q)) c' →
    wp (move_entries env cg advance lock_free k r f extent_blocks R max_extent i q (idx + 1) mv')
      (λ _ c', paused (Some (i, page_pos f q)) c') (λ er _, move_error (F := F) er) c') as Hrest
    by (intros; apply IH; [done|done|lia|lia]).
  destruct (_ && _ && _) eqn:Hgo; [|by apply wp_ret, Hrest].
  apply andb_prop in Hgo as [[_ Hinv%bool_decide_eq_true]%andb_prop _].
  pose proof (max_mapped_u32 f). rewrite limit_idx_spec in Hk by done. change MAP_ENTRIES_PER_PAGE with 2048.
  rewrite u32_small by ulia. apply wp_bind. eapply wp_mono; [eapply (wp_relocate_pass _ ct)| |done].
  - exact Hpt.
  - ulia.
  - apply (entry_of_u32 pg). exact (po_page _ (mi_pool _ (shared_map _ _ _ (pa_shared _ (proj1 Hpt)))) i pg Hpg).
  - done.
  - intros moved c1 Hp1. destruct moved; [|by apply wp_ret, Hrest].
    eapply wp_mono; [by apply wp_moved_from|by apply Hrest|done].
Qed.

Lemma wp_move_pages extent_blocks R max_extent limit npages k q current mv c :
  Z.of_nat k = map_pages n - q → 0 ≤ q → paused current c → behind current q →
  wp (move_pages env cg advance lock_free k r f extent_blocks R max_extent limit n npages (map_pages n) q current mv)
    (λ _ c', paused None c') (λ er _, move_error (F := F) er) c.
Proof using All.
  revert q current mv c. pose proof (max_mapped_u32 f) as Hu.
  induction k as [|k IH]; intros q current mv c Hk Hq Hp Hbeh; cbn [move_pages].
  { apply wp_bind, (wp_release_held current); [done|]. intros c' Hc'. by apply wp_ret. }
  assert (0 ≤ q * 2048 < n) as Hqn by (unfold map_pages in Hk; ulia).
  apply wp_bind, wp_page_index; [lia|]. case_decide.
  { apply wp_bind, (wp_release_held current); [done|]. intros c' Hc'. by apply wp_ret. }
  apply wp_bind, (wp_switch_held current); [done|lia|done|]. intros i c1 pg Hp1 _ _ _. apply wp_bind.
  eapply wp_mono; [apply wp_move_entries; [exact Hp1|lia|lia|]| |done].
  { pose proof (limit_idx_spec n q ltac:(lia)). lia. }
  intros mv2 c2 Hp2. rewrite u32_small by ulia. apply IH; [lia|lia|done|]. exists q. split; [lia|done].
Qed.
End pass.

(** ** The boundary and the whole fork *)

Section fork.
Context {T F : Type} `{SuperStoreLaws T} `{FileLayerLaws F} `{!DataFiles F} `{!DataFilesLaws F}.
Context (env : Env) (cg : CompactorGucs) (advance : Z → Z → Z) (lock_free : nat → bool).
Local Abbreviation C := (CState T F).
Context (ks : list Backend) (bars : list (nat * Z)) (c0 : C) (r : RelFileLocator) (f : ForkNumber) (n B L : Z).
Implicit Types c : C.
Context (Hf : fork_mapped f) (Hn : 0 < n ≤ max_mapped_lblk f + 1) (HB : 0 ≤ B ≤ L).
Context (Hsize : trusted_size (w_store (ms_world (c_map c0))) r f = Some n) (Hrec : InRecovery env = false).
Context (Hslack : ∀ j, 0 ≤ slack bars (c_map c0) j) (Hbelow : below r f n (c_map c0) L).

Lemma passing_boundary c e e' B' :
  passing ks bars c0 r f n B L c → ss_map (w_store (ms_world (c_map c))) !! r = Some e →
  super e' = super e → eflags e' = eflags e → key e' = key e → in_use e' = in_use e →
  reserved_next_free e' = reserved_next_free e → fork_boundary e' f = B' → B ≤ B' →
  ∃ w, put_entry r e' (ms_world (c_map c)) = (Ok tt, w) ∧
    passing ks bars c0 r f n B' L (c_at c (MkMapState w (ms_sys (c_map c)) (ms_local (c_map c)))).
Proof using All.
  intros [Hsh Hz Hl Hc (Hw & e0 & He0 & Hu & Hq & Hbd & Hbe) Hun Hd Hb (qs & Eq & Hall)] He Es Ef Ek Eu Er Hbd' HBB.
  assert (e0 = e) as -> by congruence. destruct (ss_key _ _ _ Hw He) as [Hk Huse].
  destruct (put_run r (ms_world (c_map c)) e e') as (-> & Hw' & Hat & Ho); [done|done|congruence|congruence|].
  set (w := set_store _ _). exists w. split; [done|].
  assert (∀ r' g, trusted_size (w_store w) r' g = trusted_size (w_store (ms_world (c_map c))) r' g) as Hts.
  { intros r' g. unfold trusted_size. rewrite !ss_find_spec by done. destruct (decide (r' = r)) as [->|Hne].
    - change (ss_map (w_store w) !! r = Some e') in Hat. by rewrite Hat, He, Es, Ef.
    - specialize (Ho r' Hne). fold w in Ho. by rewrite Ho. }
  destruct (map_inv_world (c_map c) w) as [Hi' [_ Hpp]]; [by eapply shared_map|done|done|].
  set (s' := MkMapState w _ _) in *. assert (∀ l, entry_at s' r f l = entry_at (c_map c) r f l) as Hent
    by (intros l; unfold entry_at; by rewrite Hpp).
  split; change (c_map (c_at c s')) with s'.
  - by apply shared_world.
  - intros. by rewrite <-Hz, <-Hts.
  - done.
  - intros l Hl'. rewrite Hpp. by apply Hc.
  - split; [done|]. exists e'. split_and!; [done| | | |done|].
    + by unfold entry_untrusted in *; rewrite Es, Ef.
    + unfold fork_reserved in *. rewrite Er. lia.
    + unfold fork_reserved in *. rewrite Er. lia.
    + intros l Hin. rewrite Hent. unfold fork_reserved in *. rewrite Er. by apply Hbe.
  - intros l l' Hin Hin'. rewrite !Hent. by apply Hun.
  - done.
  - intros r' f' l d ????. unfold logical_block, block_at, entry_at. rewrite Hpp. by apply Hb.
  - exists qs. split; [done|]. eapply Forall_impl; [|exact Hall]. intros q (segno & -> & Hs0 & Hs & Hno).
    exists segno. split_and!; [done|done|lia|]. intros l Hl'. rewrite Hent. by apply Hno.
Qed.

(** After the pass: the boundary is at [B'] and nothing is held. *)
Definition pass_done (B' : Z) c : Prop :=
  passing ks bars c0 r f n B' L c ∧ same_slack bars (c_map c0) (c_map c).

Lemma wp_advance a c :
  pass_done B c → a ≤ L →
  wp (at_world (MapSBlockAdvanceReclaimBoundary r f a))
    (λ _ c', ∃ B', (B' = B ∨ B < B' ≤ a) ∧ pass_done B' c') (λ _ _, False) c.
Proof using All.
  intros [Hp Hs] Ha. apply wp_at_world. pose proof (pa_super _ _ _ _ _ _ _ _ _ Hp) as (Hw & e & He & Hu & Hq & Hbd & _).
  assert (∀ w, w = ms_world (c_map c) → ∃ B', (B' = B ∨ B < B' ≤ a) ∧
    pass_done B' (c_at c (MkMapState w (ms_sys (c_map c)) (ms_local (c_map c))))) as Hstay.
  { intros w ->. exists B. rewrite map_state_eta, c_at_eta. split; [by left|done]. }
  assert (MapForkHasMappedState f = true) as Hms by (by destruct Hf as [->|[->| ->]]).
  unfold MapSBlockAdvanceReclaimBoundary. rewrite Hms. cbn [negb]. case_decide; [by apply wp_ret, Hstay|].
  apply wp_bind. unfold wp at 1. rewrite (pass_loaded env cg advance lock_free ks bars c0 r f n B L) by done.
  apply wp_bind, wp_gets. rewrite ss_find_spec, He by done. destruct (_ || _); [by apply wp_ret, Hstay|].
  assert (∃ b, MapSuperGetReclaimBoundary e f = Ok b ∧ MapNormalizeForkBlockCount f b = B) as (b & Hb & Eb).
  { rewrite <-Hbd. unfold MapSuperGetReclaimBoundary, fork_boundary. destruct Hf as [->|[->| ->]]; eexists; done. }
  destruct (mapped_getters f (super e) Hf) as [(nx & Hnx & _) _].
  apply wp_bind, (wp_lift _ b); [done|]. apply wp_bind, (wp_lift _ nx); [done|]. cbv zeta. rewrite Eb.
  set (b' := if decide (a > _) then _ else _). assert (b' ≤ a) as Hb' by (unfold b'; case_decide; lia).
  case_decide as Hup; [|by apply wp_ret, Hstay].
  assert (∃ q, pf_set (reclaim_boundary e) f b' = Some q ∧ pf_get q f = Some b') as (q & Hset & Hget)
    by (destruct Hf as [->|[->| ->]]; cbn; eauto).
  apply wp_bind, (wp_lift _ (with_boundary q e)); [unfold MapSuperSetReclaimBoundary; by rewrite Hset|].
  destruct (passing_boundary c e (with_boundary q e) b' Hp He) as (w & Hrun & Hp'); try done; [|lia|].
  { unfold fork_boundary. cbn [with_boundary reclaim_boundary]. rewrite Hget. cbn [default].
    apply normalize_small. lia. }
  unfold wp. rewrite Hrun. exists b'. split; [lia|]. split; [exact Hp'|]. intros j. by rewrite <-Hs.
Qed.

(** The boundary passed only over blocks that were mapped. *)
Definition over_mapped (B' : Z) : Prop :=
  ∀ x, B ≤ x < B' → ∃ l, 0 ≤ l < n ∧ entry_at (c_map c0) r f l = x.

Definition fork_post c : Prop := ∃ B', B ≤ B' ≤ L ∧ over_mapped B' ∧ pass_done B' c.

Lemma wp_compact_fork next npages max_moves moves_done :
  passing ks bars c0 r f n B L c0 →
  wp (compact_fork env cg advance lock_free r f n next (Z.min B next) npages max_moves moves_done)
    (λ _ c', fork_post c') (λ er _, move_error (F := F) er) c0.
Proof using All.
  intros Hp. assert (paused ks bars c0 r f n B L None c0) as Hp0 by (split; [done|intros; cbn [pins]; lia]).
  assert (∀ c, paused ks bars c0 r f n B L None c → pass_done B c) as Hdone.
  { intros c [Hpc Hsc]. split; [done|]. intros j. rewrite Hsc. cbn [pins]. lia. }
  unfold compact_fork. cbv zeta. rewrite (page_count_eq f) by lia.
  rewrite decide_False by (unfold map_pages; ulia). apply wp_bind. eapply wp_mono.
  { eapply (wp_scan env cg advance lock_free ks bars c0 r f n B L) with (cs := c0); try done.
    unfold map_pages; ulia. }
  2: done.
  intros sc c1 [Hp1 Hcom]. apply wp_bind. eapply wp_mono; [by eapply (wp_reclaim env cg advance lock_free)| |done].
  intros ? c2 Hp2. apply wp_bind.
  assert (∀ mv c3, paused ks bars c0 r f n B L None c3 → wp
    (when (bool_decide (Z.min B next < MapCompactorAdvanceBoundaryFromSet (Z.min B next) next (sc_committed sc)))
       (at_world (MapSBlockAdvanceReclaimBoundary r f
          (MapCompactorAdvanceBoundaryFromSet (Z.min B next) next (sc_committed sc))));;
     mret (sparse_count cg (map_compactor_extent_blocks cg) (Z.min B next) sc, mv_done mv))
    (λ _ c', fork_post c') (λ er _, move_error (F := F) er) c3) as Hend.
  { intros mv c3 Hp3. apply wp_bind, wp_when.
    2: { intros _. apply wp_ret. exists B. split_and!; [lia|lia|intros x Hx; lia|by apply Hdone]. }
    intros _. unfold MapCompactorAdvanceBoundaryFromSet.
    destruct (advance_boundary_exact (Z.to_nat (next - Z.min B next)) (Z.min B next) (sc_committed sc)) as (Hr & Hin & _).
    set (b' := advance_boundary _ _ _) in *.
    assert (b' ≤ L) as HbL.
    { destruct (decide (b' ≤ B)) as [|Hgt]; [lia|]. destruct (Hcom (b' - 1)) as (Hv & l & Hl & El); [apply Hin; lia|].
      destruct (Hbelow l) as [?|?]; [unfold in_pages, map_pages; ulia|congruence|lia]. }
    eapply wp_mono; [by apply wp_advance; [apply Hdone|]| |done]. intros ? c4 (B' & HB' & Hd'). apply wp_ret.
    exists B'. split_and!; [lia|lia| |done]. intros x Hx. by apply Hcom, Hin; lia. }
  destruct (decide (0 < sparse_count _ _ _ _ ∧ _)); [|by apply wp_ret, Hend].
  eapply wp_mono; [eapply (wp_move_pages env cg advance lock_free ks bars c0 r f n B L) with (current := None)| |done];
    [done..| |done|exact Hp2|done|by apply Hend].
  unfold map_pages; ulia.
Qed.

Lemma next_free_run (w : World T F) :
  trusted_size (w_store w) r f = Some n →
  MapSBlockTryGetNextFreePhysBlock env r f w =
    (Ok (Some (default 0 (e ← ss_find (w_store w) r; Some (fork_next (super e) f)))), w).
Proof using Hf.
  unfold trusted_size, MapSBlockTryGetNextFreePhysBlock, read_super_field.
  destruct (ss_find (w_store w) r) as [e|] eqn:He; [|done].
  destruct (has_flag (eflags e) MAPSUPER_FLAG_VALID) eqn:Hv; [|done].
  destruct (MapForkHasMappedState f); [|done].
  destruct (has_flag (eflags e) MAPSUPER_FLAG_CORRUPT) eqn:Hc; [done|].
  destruct (MapSuperblockHasValidIdentity (super e)) eqn:Hi; [|done]. intros _.
  cbn. unfold MapSBlockRead, find_entry, mbind, M_bind, gets. rewrite He, Hv. cbn.
  unfold entry_status. rewrite Hc, Hi. cbn. unfold lift.
  by destruct (mapped_getters f (super e) Hf) as [(v & -> & ->) _].
Qed.

Lemma wp_analyze_fork max_moves moves_done :
  passing ks bars c0 r f n B L c0 →
  wp (MapCompactorAnalyzeFork env cg advance lock_free r f max_moves moves_done)
    (λ _ c', fork_post c') (λ er _, move_error (F := F) er) c0.
Proof using All.
  intros Hp. assert (fork_post c0) as Hnone.
  { exists B. split_and!; [lia|lia|intros x Hx; lia|]. split; [done|]. by intros j. }
  unfold MapCompactorAnalyzeFork. cbv zeta. destruct (_ || _ || _); [by apply wp_ret|].
  apply wp_bind, wp_at_world. unfold wp at 1. rewrite (trusted_size_run _ _ _ _ _ Hsize), map_state_eta, c_at_eta.
  change (default 0 (Some n)) with n. rewrite decide_False by lia.
  apply wp_bind, wp_at_world. unfold wp at 1. rewrite (next_free_run _ Hsize), map_state_eta, c_at_eta.
  set (next := default 0 (e ← _; _)). change (default 0 (Some next)) with next. case_decide; [by apply wp_ret|].
  apply wp_bind, (wp_get_boundary env cg advance lock_free ks bars c0 r f n B L); [done..|].
  apply wp_bind, wp_at_ms, wp_gets. rewrite c_at_eta. destruct (fl_exists _ _ _); cbn [negb]; [|by apply wp_ret].
  case_decide; [by apply wp_ret|]. by apply wp_compact_fork.
Qed.
End fork.

(** ** The pass *)

Section safe.
Context {T F : Type} `{SuperStoreLaws T} `{FileLayerLaws F} `{!DataFiles F} `{!DataFilesLaws F}.
Local Abbreviation C := (CState T F).
Context (ks : list Backend) (bars : list (nat * Z)) (r : RelFileLocator) (f : ForkNumber) (n : Z).
Implicit Types c : C.

(** A fork of [n] blocks whose map is complete and injective, whose frontier is
    past every mapped block and whose last map page is on disk; blocks up to
    [B] were committed once. *)
Record compactable (B : Z) c : Prop := {
  cp_fork : fork_mapped f;
  cp_range : 0 < n ≤ max_mapped_lblk f + 1;
  cp_size : trusted_size (w_store (ms_world (c_map c))) r f = Some n;
  cp_shared : shared ks bars (c_map c);
  cp_covered : covered (c_map c) r f 0 n;
  cp_super : ss_wf (w_store (ms_world (c_map c))) ∧
    ∃ e, ss_map (w_store (ms_world (c_map c))) !! r = Some e ∧ entry_untrusted e = false ∧
      0 ≤ B ≤ fork_reserved e f ∧ fork_reserved e f ≤ MaxBlockNumber ∧ fork_boundary e f = B ∧
      below r f n (c_map c) (fork_reserved e f);
  cp_unique : unique_entries r f n (c_map c);
  cp_disk : is_Some (fl_content (files (c_map c)) r UMBRA_METADATA_FORKNUM (page_pos f ((n - 1) / 2048)));
}.

Lemma slack_nonneg c j : shared ks bars (c_map c) → 0 ≤ slack bars (c_map c) j.
Proof.
  intros [_ Hs]. pose proof (si_held _ _ _ Hs (bk_of (c_map c) bars) j ltac:(by left)) as Hh.
  change (bk_pins j (bk_of (c_map c) bars)) with (private_count j (ms_sys (c_map c))) in Hh. unfold slack. lia.
Qed.

Lemma passing_start B c :
  compactable B c → ∃ L, 0 ≤ B ≤ L ∧ below r f n (c_map c) L ∧ passing ks bars c r f n B L c.
Proof.
  intros [Hf Hr Hz Hsh Hcov (Hw & e & He & Hu & HB & Hm & Hbd & Hbe) Hun Hd].
  exists (fork_reserved e f). split_and!; [lia|lia|done|]. split; try done.
  - split; [done|]. exists e. split_and!; [done|done|lia|lia|done|done].
  - by intros ????.
  - exists []. by rewrite app_nil_r.
Qed.

Lemma passing_end c B L c' :
  0 ≤ B ≤ L → fork_mapped f → 0 < n ≤ max_mapped_lblk f + 1 →
  trusted_size (w_store (ms_world (c_map c))) r f = Some n →
  passing ks bars c r f n B L c' → compactable B c'.
Proof.
  intros HB Hf Hr Hz [Hsh Hz' Hl Hcov (Hw & e & He & Hu & HL & Hbd & Hbe) Hun Hd _ _].
  split; try done; [by rewrite Hz'|]. split; [done|]. exists e. split_and!; [done|done|lia|lia|lia|done|done].
Qed.
End safe.

(** C14: Whether a segment is in use is answered exactly: the answer is [true] when
    some logical block of the fork lies in it. *)
Theorem live_references_exact {T F : Type} `{SuperStore T} `{FileLayerLaws F} env (s : MapState T F) r f n segno :
  map_inv s → fork_mapped f → 0 < n ≤ max_mapped_lblk f + 1 →
  trusted_size (w_store (ms_world s)) r f = Some n → covered s r f 0 n →
  is_Some (fl_content (files s) r UMBRA_METADATA_FORKNUM (page_pos f ((n - 1) / 2048))) →
  match MapSegmentHasLiveReferences env r f segno s with
  | (Ok b, s') => calm s s' ∧
      (b = true ↔ ∃ l, 0 ≤ l < n ∧ entry_at s r f l ≠ InvalidBlockNumber ∧
                       entry_at s r f l / RELSEG_SIZE = segno)
  | (Err er, _) => range_error (F := F) er
  end.
Proof.
  intros Hi Hf Hr Hz Hcov Hd.
  pose proof (wp_has_live env s r f n segno Hi Hf ltac:(lia) Hz Hcov) as Hrun. unfold wp in Hrun.
  destruct (MapSegmentHasLiveReferences _ _ _ _ _) as [[b|er] s']; [|done].
  destruct Hrun as [Hc Hl]. split; [done|]. rewrite Hl. unfold lives, entry_in_segment.
  setoid_rewrite bool_decide_eq_true. pose proof (λ l, last_page_in_file s r f n l Hf Hr Hd) as Hin.
  split; intros (l & Hln & ?); exists l; [naive_solver|auto].
Qed.

(** What one move does, for the map of every fork. *)
Lemma relocation_step {T F : Type} `{SuperStoreLaws T} `{FileLayerLaws F} `{!DataFiles F}
    `{!DataFilesLaws F} env advance lock_free ks bars (c : CState T F) r f n B l old e :
  compactable ks bars r f n B c → InRecovery env = false → 0 ≤ l < n → 0 ≤ old → old ≠ InvalidBlockNumber →
  ss_map (w_store (ms_world (c_map c))) !! r = Some e →
  match MapCompactorRelocateEntry env advance lock_free r f l old c with
  | (Ok moved, c') =>
      compactable ks bars r f n B c' ∧ keeps_blocks r f n (c_map c) (c_map c') ∧
      (∀ r' f' l', is_u32 l' → entry_at (c_map c') r' f' l' =
         if decide (moved = true ∧ (r', f', l') = (r, f, l)) then fork_reserved e f
         else entry_at (c_map c) r' f' l') ∧
      (moved = true → entry_at (c_map c) r f l = old) ∧
      (moved = true → 0 ≤ fork_reserved e f < InvalidBlockNumber - 1) ∧
      x_wal (c_x c') = if moved then logged_move advance c r f l (fork_reserved e f) old else x_wal (c_x c)
  | (Err er, _) => move_error (F := F) er
  end.
Proof.
  intros Hc Hrec Hl Ho Hold He. destruct (passing_start _ _ _ _ _ _ _ Hc) as (L & HL & Hbe & Hp).
  pose proof Hc as [Hf Hr Hz Hsh _ (Hw & e0 & He0 & Hu & HB & Hm & Hbd & Hbe0) _ _].
  assert (e0 = e) as -> by congruence.
  set (cg := MkCompactorGucs true 1 1 1).
  destruct (wp_relocate_ready env cg advance lock_free ks bars c r f n B L Hf Hr HL Hz Hrec
    (λ j, slack_nonneg ks bars c j Hsh) c l old e Hp Hl Ho He) as (pg & Hrd & Hrun). unfold wp in Hrun.
  destruct (MapCompactorRelocateEntry _ _ _ _ _ _ _ _) as [[moved|er] c']; [|done].
  destruct (pa_super _ _ _ _ _ _ _ _ _ Hp) as (_ & e1 & He1 & _ & Hq & _). assert (e1 = e) as -> by congruence.
  pose proof (passing_moved env cg advance lock_free ks bars c r f n B L Hf Hr HL Hz Hrec
    (λ j, slack_nonneg ks bars c j Hsh) c l pg e old moved c' Hp Hl Hrd Hq Hbd Hbe0 Hold Hrun) as Hp'.
  destruct Hrun as (Ec' & Hst & Hent). split_and!.
  - by eapply (passing_end _ _ _ _ _ c B L).
  - apply Hp'.
  - intros r' f' l' Hl'.
    by rewrite (after_entries env ks bars c r f l _ _ n _ old pg e Hsh Hrd moved _ _ _ _ r' f' l' Hst Hl').
  - intros Hb. rewrite (entry_before c r f l _ _ n pg Hrd). by apply Hent.
  - intros ->. destruct (sg_super _ _ _ _ _ _ _ _ _ _ _ _ _ _ Hst) as (_ & e2 & _ & _ & Hr2 & _).
    unfold MaxBlockNumber, InvalidBlockNumber in *. lia.
  - rewrite Ec'. by destruct moved.
Qed.

(** C13: Moving a block: when the move succeeds, the entry was the old block and is
    the block that the frontier was at, and a map record was logged; otherwise
    no entry changed and nothing was logged.  In both cases every logical block
    has its contents and the fork is fit for the next move. *)
Theorem relocation_keeps_blocks {T F : Type} `{SuperStoreLaws T} `{FileLayerLaws F} `{!DataFiles F}
    `{!DataFilesLaws F} env advance lock_free ks bars (c : CState T F) r f n B l old e :
  compactable ks bars r f n B c → InRecovery env = false → 0 ≤ l < n → 0 ≤ old → old ≠ InvalidBlockNumber →
  ss_map (w_store (ms_world (c_map c))) !! r = Some e →
  match MapCompactorRelocateEntry env advance lock_free r f l old c with
  | (Ok moved, c') =>
      compactable ks bars r f n B c' ∧ keeps_blocks r f n (c_map c) (c_map c') ∧
      (∀ l', is_u32 l' → entry_at (c_map c') r f l' =
         if decide (moved = true ∧ l' = l) then fork_reserved e f else entry_at (c_map c) r f l') ∧
      (moved = true → entry_at (c_map c) r f l = old) ∧
      x_wal (c_x c') = if moved then logged_move advance c r f l (fork_reserved e f) old else x_wal (c_x c)
  | (Err er, _) => move_error (F := F) er
  end.
Proof.
  intros Hc Hrec Hl Ho Hold He.
  pose proof (relocation_step env advance lock_free ks bars c r f n B l old e Hc Hrec Hl Ho Hold He) as Hrun.
  destruct (MapCompactorRelocateEntry _ _ _ _ _ _ _ _) as [[moved|er] c']; [|done].
  destruct Hrun as (Hc' & Hk & Hent & Ho' & _ & Hw). split_and!; [done..| |done|done].
  intros l' Hl'. rewrite Hent by done. apply decide_ext. naive_solver.
Qed.

(** C12: A compaction pass over a fork, whichever conditional locks it gets, ends
    with an error of the map or file layer or leaves the fork fit for the next
    pass.  Every logical block that could be read has its contents, all sizes,
    claims and pins are as before, the reclaim boundary passed only over
    blocks that were mapped, and a removal request is for a segment below the
    boundary in which no logical block lies. *)
Theorem compaction_pass_safe {T F : Type} `{SuperStoreLaws T} `{FileLayerLaws F} `{!DataFiles F}
    `{!DataFilesLaws F} env cg advance lock_free ks bars (c : CState T F) r f n B max_moves moves_done :
  compactable ks bars r f n B c → InRecovery env = false →
  match MapCompactorAnalyzeFork env cg advance lock_free r f max_moves moves_done c with
  | (Ok _, c') => ∃ B' qs,
      compactable ks bars r f n B' c' ∧ B ≤ B' ∧
      (∀ x, B ≤ x < B' → ∃ l, 0 ≤ l < n ∧ entry_at (c_map c) r f l = x) ∧
      keeps_blocks r f n (c_map c) (c_map c') ∧
      (∀ r' g, trusted_size (w_store (ms_world (c_map c'))) r' g =
         trusted_size (w_store (ms_world (c_map c))) r' g) ∧
      ms_local (c_map c') = ms_local (c_map c) ∧ same_slack bars (c_map c) (c_map c') ∧
      c_requests c' = c_requests c ++ qs ∧ Forall (unused r f n B' (c_map c')) qs
  | (Err er, _) => move_error (F := F) er
  end.
Proof.
  intros Hc Hrec. destruct (passing_start _ _ _ _ _ _ _ Hc) as (L & HL & Hbe & Hp).
  pose proof Hc as [Hf Hr Hz Hsh _ _ _ _].
  pose proof (wp_analyze_fork env cg advance lock_free ks bars c r f n B L Hf Hr HL Hz Hrec
    (λ j, slack_nonneg ks bars c j Hsh) Hbe max_moves moves_done Hp) as Hrun. unfold wp in Hrun.
  destruct (MapCompactorAnalyzeFork _ _ _ _ _ _ _ _ _) as [[a|er] c']; [|done].
  destruct Hrun as (B' & HB' & Hover & Hp' & Hs'). destruct (pa_requests _ _ _ _ _ _ _ _ _ Hp') as (qs & Eq & Hall).
  exists B', qs. split_and!; [by eapply (passing_end _ _ _ _ _ c B' L); [lia|..]|lia|exact Hover
    |apply Hp'|apply Hp'|apply Hp'|exact Hs'|exact Eq|exact Hall].
Qed.

(** ** A concrete system *)

(** A second block in the second segment; the frontier and the boundary are at
    the end of that segment. *)
Definition demo_two : MapState MapSuperTable RefFiles :=
  (publish_extension demo_env demo_rel MAIN_FORKNUM 1 131077 97 (sm_map demo_smgr)).2.
Definition demo_wide : World MapSuperTable RefFiles :=
  (MapSBlockBumpPhysicalState (MkEnv true 0 100) demo_rel MAIN_FORKNUM 262144 true true 98 (ms_world demo_two)).2.
Definition demo_gucs8 : CompactorGucs := MkCompactorGucs true 8 25 16.
Definition demo_c : CState MapSuperTable RefFiles :=
  MkC (MkX (MkSmgr (MkMapState demo_wide (ms_sys demo_two) (ms_local demo_two)) (MkRefFiles ∅)
              {[ demo_reln := UMBRA_MAP_POLICY_REQUIRE_MAP ]} ∅) (MkWal 98 []) false)
    [] 0 0 0 0 0.

Lemma demo_two_run :
  publish_post (sm_map demo_smgr) demo_rel MAIN_FORKNUM 1 3 1 131077 (<[0%nat := 7]> ff_page) demo_two.
Proof.
  destruct demo_smgr_super as (Hw & e & He & Hu).
  assert (map_page (sm_map demo_smgr) demo_rel MAIN_FORKNUM 3 = Some (<[0%nat := 7]> ff_page)) as Hpg.
  { unfold demo_smgr. cbn [sm_map]. rewrite map_page_files by exact demo_same_meta.
    exact (proj2 (proj2 demo_published_ok)). }
  assert (nonzero (<[Z.to_nat 1 := 131077]> (<[0%nat := 7]> ff_page))) as Hnz by (vm_compute; discriminate).
  pose proof (publish_run demo_env (sm_map demo_smgr) demo_rel MAIN_FORKNUM 1 3 1 131077 97 e _
    demo_smgr_inv (or_introl eq_refl) (u32_of_bool 1 eq_refl) eq_refl (u32_of_bool 131077 eq_refl)
    eq_refl Hw He Hu demo_smgr_size Hpg Hnz) as Hrun.
  assert ((publish_extension demo_env demo_rel MAIN_FORKNUM 1 131077 97 (sm_map demo_smgr)).1 = Ok tt) as Hres
    by (vm_compute; exact eq_refl).
  unfold wp in Hrun. unfold demo_two. destruct (publish_extension _ _ _ _ _ _ _) as [res s']. cbn [fst snd] in *.
  subst res. exact Hrun.
Qed.

Lemma demo_two_entry :
  ∃ e, ss_map (w_store (ms_world demo_two)) !! demo_rel = Some e ∧ entry_untrusted e = false.
Proof.
  destruct (ss_map (w_store (ms_world demo_two)) !! demo_rel) as [e|] eqn:He; [|by vm_compute in He].
  exists e. split; [exact eq_refl|]. vm_compute in He. injection He as <-. vm_compute. exact eq_refl.
Qed.

Lemma demo_two_wf : ss_wf (w_store (ms_world demo_two)).
Proof.
  set (ops := [(demo_env, OpUpdateLogical demo_rel MAIN_FORKNUM 2 97 true)]).
  assert (world_inv demo_env (run_schedule ops demo_bumped).2) as (Hwf & _).
  { apply (schedule_inv false); [|exact eq_refl|exact demo_bumped_inv].
    constructor; [split_and!; by vm_compute|constructor]. }
  assert (w_store (ms_world demo_two) = w_store (run_schedule ops demo_bumped).2) as -> by (vm_compute; exact eq_refl).
  exact Hwf.
Qed.

Lemma demo_wide_run :
  ∃ e, w_files demo_wide = files demo_two ∧ ss_wf (w_store demo_wide) ∧
    ss_map (w_store demo_wide) !! demo_rel = Some e ∧ entry_untrusted e = false ∧
    fork_reserved e MAIN_FORKNUM = 262144 ∧ fork_boundary e MAIN_FORKNUM = 262144 ∧
    ∀ r g, trusted_size (w_store demo_wide) r g = trusted_size (w_store (ms_world demo_two)) r g.
Proof.
  destruct demo_two_run as (_ & _ & Hts & _), demo_two_entry as (e & He & Hu).
  assert (trusted_size (w_store (ms_world demo_two)) demo_rel MAIN_FORKNUM = Some 2) as Hz
    by (rewrite Hts, decide_True by exact eq_refl; exact eq_refl).
  destruct (bump_physical_trusted (MkEnv true 0 100) (ms_world demo_two) demo_rel MAIN_FORKNUM 2 262144 true true 98 e
    demo_two_wf He Hu (or_introl eq_refl) Hz ltac:(intros _; split; discriminate))
    as (w & e' & Hrun & Hfs & Hw & He' & Hu' & _ & Hsz).
  unfold demo_wide. assert (w = demo_wide) as -> by (unfold demo_wide; rewrite Hrun; exact eq_refl).
  exists e'. rewrite Hrun. cbn [snd]. split_and!; [exact Hfs|exact Hw|exact He'|exact Hu'| | |exact Hsz].
  - clear -He'. vm_compute in He'. injection He' as <-. vm_compute. exact eq_refl.
  - clear -He'. vm_compute in He'. injection He' as <-. vm_compute. exact eq_refl.
Qed.

Definition demo_two_page : list Z := <[1%nat := 131077]> (<[0%nat := 7]> ff_page).

Lemma demo_c_page : map_page (c_map demo_c) demo_rel MAIN_FORKNUM 3 = Some demo_two_page.
Proof.
  destruct demo_two_run as (Hi & _ & _ & Hv), demo_wide_run as (e & Hfs & _ & _ & _ & _ & _ & Hts).
  destruct (map_inv_world demo_two demo_wide Hi Hfs Hts) as [_ [_ Hpp]].
  change (c_map demo_c) with (MkMapState demo_wide (ms_sys demo_two) (ms_local demo_two)).
  rewrite Hpp, Hv by exact demo_blk. rewrite decide_True by exact eq_refl. exact eq_refl.
Qed.

Lemma demo_c_entry l :
  in_pages 2 l → entry_at (c_map demo_c) demo_rel MAIN_FORKNUM l =
    if decide (l = 0) then 7 else if decide (l = 1) then 131077 else InvalidBlockNumber.
Proof.
  change (in_pages 2 l) with (0 ≤ l < 2048). intros Hl. unfold entry_at. replace (l / 2048) with 0 by ulia.
  change (page_pos MAIN_FORKNUM 0) with 3. rewrite demo_c_page. replace (l mod 2048) with l by ulia.
  unfold demo_two_page. change 1%nat with (Z.to_nat 1). change 0%nat with (Z.to_nat 0).
  assert (length ff_page = 2048%nat) as Hff by apply length_replicate.
  rewrite entry_of_insert by (rewrite ?length_insert; exact Hff || lia).
  rewrite entry_of_insert by (exact Hff || lia).
  destruct (decide (l = 0)) as [->|]; [exact eq_refl|]. destruct (decide (l = 1)); [exact eq_refl|].
  unfold entry_of, ff_page. rewrite lookup_replicate_2; [exact eq_refl|]. 
  change MAP_ENTRIES_PER_PAGE with 2048. lia.
Qed.

Lemma demo_c_compactable : ∃ ks, compactable ks [] demo_rel MAIN_FORKNUM 2 262144 demo_c.
Proof.
  destruct demo_two_run as (Hi & Hb & Hts & _), demo_wide_run as (e & Hfs & Hw & He & Hu & Hr & Hbd & Hsz).
  destruct demo_smgr_running as [ks Hks]. exists ks. split.
  - by left.
  - split; [exact eq_refl|discriminate].
  - change (ms_world (c_map demo_c)) with demo_wide. rewrite Hsz, Hts, decide_True by exact eq_refl. exact eq_refl.
  - apply (shared_world ks [] demo_two demo_wide); [|exact Hfs|exact Hsz].
    by apply (shared_same ks [] (sm_map demo_smgr)).
  - intros l Hl. replace (l / 2048) with 0 by ulia. change (page_pos MAIN_FORKNUM 0) with 3.
    rewrite demo_c_page. by eexists.
  - split; [exact Hw|]. exists e. rewrite Hr, Hbd. split_and!; [exact He|exact Hu|discriminate|discriminate|discriminate|exact eq_refl|].
    intros l Hl. rewrite demo_c_entry by exact Hl. repeat case_decide; [right; lia|right; lia|by left].
  - intros l l' Hl Hl'. rewrite !demo_c_entry by assumption. repeat case_decide; intros E; try discriminate E; subst; auto.
  - apply (bool_decide_unpack _). vm_compute. exact I.
Qed.

Lemma compaction_pass_safe_witness :
  ∃ c', MapCompactorAnalyzeFork demo_env demo_gucs8 demo_advance (λ _, true) demo_rel MAIN_FORKNUM 16 0 demo_c =
          (Ok (1, 1), c') ∧
    c_requests c' = [(MapReclaimInitFileTag demo_rel MAIN_FORKNUM 0, SYNC_RECLAIM_REQUEST)] ∧
    logical_block (c_map c') demo_rel MAIN_FORKNUM 0 = Some demo_data ∧
    entry_in_segment 0 (entry_at (c_map c') demo_rel MAIN_FORKNUM 0) = false.
Proof.
  destruct demo_c_compactable as [ks Hc].
  pose proof (compaction_pass_safe demo_env demo_gucs8 demo_advance (λ _, true) ks [] demo_c demo_rel MAIN_FORKNUM
    2 262144 16 0 Hc eq_refl) as Hrun.
  set (run := MapCompactorAnalyzeFork _ _ _ _ _ _ _ _ _) in *.
  assert (run.1 = Ok (1, 1)) as Hres by (vm_compute; exact eq_refl).
  assert (c_requests run.2 = [(MapReclaimInitFileTag demo_rel MAIN_FORKNUM 0, SYNC_RECLAIM_REQUEST)]) as Hreq by (vm_compute; exact eq_refl).
  assert (logical_block (c_map demo_c) demo_rel MAIN_FORKNUM 0 = Some demo_data) as Hd.
  { unfold logical_block, block_at. rewrite demo_c_entry by (split; [discriminate|exact eq_refl]).
    vm_compute. exact eq_refl. }
  clearbody run. destruct run as [res c']. cbn [fst snd] in *. subst res.
  destruct Hrun as (B' & qs & Hc' & _ & _ & Hk & _ & _ & _ & Eq & Hall). exists c'. split; [exact eq_refl|].
  split; [exact Hreq|]. split.
  - apply Hk; [by left|exact (u32_of_bool 0 eq_refl)|intros _; exact eq_refl|exact Hd].
  - rewrite Hreq in Eq. cbn in Eq. subst qs. apply Forall_cons_1 in Hall as [(segno & [= Es] & Hs0 & HB & Hno) _].
    replace segno with 0 in Hno; [apply Hno; split; [discriminate|exact eq_refl]|].
    assert (B' ≤ MaxBlockNumber) as Hmax.
    { destruct (cp_super _ _ _ _ _ _ _ Hc') as (_ & e & _ & _ & ? & ? & _). lia. }
    unfold MaxBlockNumber in Hmax. change RELSEG_SIZE with 131072 in HB. rewrite u64_small in Es by (unfold is_u64; lia).
    unfold u64 in Es. ulia.
Defined.

Lemma live_references_exact_witness :
  ∃ s1 s2, MapSegmentHasLiveReferences demo_env demo_rel MAIN_FORKNUM 1 (c_map demo_c) = (Ok true, s1) ∧
    MapSegmentHasLiveReferences demo_env demo_rel MAIN_FORKNUM 2 (c_map demo_c) = (Ok false, s2) ∧
    calm (c_map demo_c) s1 ∧ calm (c_map demo_c) s2.
Proof.
  destruct demo_c_compactable as [ks [Hf Hr Hz Hsh Hcov _ _ Hd]].
  pose proof (λ segno, live_references_exact demo_env (c_map demo_c) demo_rel MAIN_FORKNUM 2 segno
    (shared_map _ _ _ Hsh) Hf Hr Hz Hcov Hd) as Hrun.
  assert (∀ segno b,
    (MapSegmentHasLiveReferences demo_env demo_rel MAIN_FORKNUM segno (c_map demo_c)).1 = Ok b →
    ∃ s', MapSegmentHasLiveReferences demo_env demo_rel MAIN_FORKNUM segno (c_map demo_c) = (Ok b, s') ∧
      calm (c_map demo_c) s') as Hok.
  { intros segno b Hb. specialize (Hrun segno). destruct (MapSegmentHasLiveReferences _ _ _ _ _) as [res s'].
    cbn [fst] in Hb. subst res. exists s'. split; [exact eq_refl|exact (proj1 Hrun)]. }
  destruct (Hok 1 true) as (s1 & E1 & C1); [vm_compute; exact eq_refl|].
  destruct (Hok 2 false) as (s2 & E2 & C2); [vm_compute; exact eq_refl|].
  exists s1, s2. split; [exact E1|]. split; [exact E2|]. split; [exact C1|exact C2].
Defined.

Lemma relocation_keeps_blocks_witness :
  ∃ c', MapCompactorRelocateEntry demo_env demo_advance (λ _, true) demo_rel MAIN_FORKNUM 0 7 demo_c = (Ok true, c') ∧
    entry_at (c_map c') demo_rel MAIN_FORKNUM 0 = 262144 ∧ length (wal_records (x_wal (c_x c'))) = 1%nat.
Proof.
  destruct demo_c_compactable as [ks Hc], demo_wide_run as (e & _ & _ & He & _ & Hr & _).
  pose proof (relocation_keeps_blocks demo_env demo_advance (λ _, true) ks [] demo_c demo_rel MAIN_FORKNUM 2 262144
    0 7 e Hc eq_refl ltac:(lia) ltac:(lia) ltac:(discriminate) He) as Hrun.
  assert ((MapCompactorRelocateEntry demo_env demo_advance (λ _, true) demo_rel MAIN_FORKNUM 0 7 demo_c).1 = Ok true)
    as Hres by (vm_compute; exact eq_refl).
  destruct (MapCompactorRelocateEntry _ _ _ _ _ _ _ _) as [res c']. cbn [fst] in Hres. subst res.
  destruct Hrun as (_ & _ & Hent & _ & Hw). exists c'. split; [exact eq_refl|]. split.
  - rewrite (Hent 0 (u32_of_bool 0 eq_refl)), Hr. exact eq_refl.
  - rewrite Hw. exact eq_refl.
Defined.
