(* ===== verification/SmgrLife.v ===== *)
(** * The life of a relation

    Creation of the metadata fork, forgetting a relation or a database in the
    shared caches ([map.c], [mapbuf.c]), the transition of a relation that was
    filled without WAL to mapped state, and removal ([smgr/umbra.c]).  The
    operations run in a process that can register requests with the
    checkpointer. *)

From S2P Require Import Prelude MapLayout Superblock SuperTable FileLayer SmgrFiles SBlock MapPrealloc.
From S2P Require Import BufState MapBuf MapPage MapCheckpoint MapInflight UmbraXlog SmgrAccess SmgrExtend SyncQueue.
From S2P Require Import MapCompact.

Local Open Scope Z_scope.

(** Removal of files: [umfile_unlink] of a fork, and [unlink] of the segment
    file of a tag with its error. *)
Class FileRemoval (F : Type) := {
  fl_unlink : F → RelFileLocator → ForkNumber → bool → result F;
  fl_unlink_segment : F → RelFileLocator → ForkNumber → Z → F * option UmOs.errno;
}.

#[global] Instance ref_removal : FileRemoval RefFiles := {
  fl_unlink f r k redo := Ok (MkRefFiles (delete (r, k) (rf_forks f)));
  fl_unlink_segment f r k segno :=
    match rf_forks f !! (r, k) with
    | None => (f, Some UmOs.ENOENT)
    | Some m => (MkRefFiles (<[(r, k) := filter (λ x, x.1 / RELSEG_SIZE ≠ segno) m]> (rf_forks f)), None)
    end;
}.

Section ops.
Context {T F : Type} `{SuperStore T} `{FileLayer F} `{DataFiles F} `{FileRemoval F} (env : Env).
(** What the rest of the system does while the backend sleeps, and where a
    record ends. *)
Context (sleep : MapState T F → MapState T F) (advance : Z → Z → Z).
Local Abbreviation MS := (MapState T F).
Local Abbreviation S := (SmgrState T F).
Local Abbreviation C := (CState T F).

Definition at_smgr {A} (m : M S A) : M C A := in_x (in_state m).

(** ** Invalidation *)

Definition no_rel : RelFileLocator := MkRel 0 0 0.

(** [fuel] bounds the number of waits for pins and claims of other backends. *)
Fixpoint MapInvalidateBuffer (fuel : nat) (slot : nat) (expected_rnode : RelFileLocator)
    (expected_forknum : option ForkNumber) (expected_map_blkno : Z) : M MS unit :=
  match fuel with
  | O => throw retrying
  | Datatypes.S fuel =>
      b ← on_sys (get_buf slot);
      if decide (page_number b < 0 ∨ page_number b ≠ expected_map_blkno ∨
                 forknum b ≠ expected_forknum ∨ rnode b ≠ expected_rnode)
      then mret tt
      else if decide (MAPBUF_GET_REFCOUNT (state b) ≠ 0) then
        mine ← on_sys (gets (private_count slot));
        if decide (0 < mine) then elog ERROR "map buffer is pinned in MapInvalidateBuffer"
        else modify sleep;;
             MapInvalidateBuffer fuel slot expected_rnode expected_forknum expected_map_blkno
      else if decide (pending_count b ≠ 0) then
        modify sleep;;
        MapInvalidateBuffer fuel slot expected_rnode expected_forknum expected_map_blkno
      else
        on_sys (set_buf slot (with_state 0 (with_tag no_rel None (-1) 0
                  (with_pending (pending_count b) zero_pending b))));;
        on_sys (MapClockFreeBuffer slot)
  end.

(** The slots from [slot] on whose relation is selected. *)
Fixpoint invalidate_slots (fuel nslots slot : nat) (selected : RelFileLocator → bool) : M MS unit :=
  match nslots with
  | O => mret tt
  | Datatypes.S nslots =>
      b ← on_sys (get_buf slot);
      (if decide (page_number b < 0 ∨ selected (rnode b) = false) then mret tt
       else
         match forknum b with
         | Some f => on_sys (MapCacheDelete (rnode b) f (page_number b) slot)
         | None => mret tt
         end;;
         MapInvalidateBuffer fuel slot (rnode b) (forknum b) (page_number b));;
      invalidate_slots fuel nslots (Datatypes.S slot) selected
  end.

Definition invalidate_buffers (fuel : nat) (selected : RelFileLocator → bool) : M MS unit :=
  n ← on_sys (gets (λ s, length (buffers (pool s))));
  invalidate_slots fuel n 0 selected.

Definition MapInvalidateRelation (fuel : nat) (r : RelFileLocator) : M C unit :=
  at_ms (invalidate_buffers fuel (λ r', bool_decide (r' = r)));;
  at_world (delete_entry r);;
  MapReclaimForgetRelation r.

Fixpoint forget_relations (targets : list RelFileLocator) : M C unit :=
  match targets with
  | [] => mret tt
  | r :: targets => at_world (delete_entry r);; MapReclaimForgetRelation r;; forget_relations targets
  end.

Definition MapInvalidateDatabaseTablespaces (fuel : nat) (dbid : Z) (tablespace_ids : list Z) : M C unit :=
  at_ms (invalidate_buffers fuel (database_selected dbid tablespace_ids));;
  slots ← at_world (gets (λ w, ss_slots (w_store w)));
  forget_relations (key <$> List.filter (λ e, in_use e && database_selected dbid tablespace_ids (key e)) slots).

Definition MapInvalidateDatabase (fuel : nat) (dbid : Z) : M C unit :=
  MapInvalidateDatabaseTablespaces fuel dbid [].

(** ** Creation *)

(** A fork that cannot be opened after its creation is an error of
    [fl_create]. *)
Definition UmMetadataOpenOrCreate (reln : SMgrRelation) (isRedo : bool) : M S bool :=
  file_do_val reln (λ fs, fl_create fs (locator reln) UMBRA_METADATA_FORKNUM isRedo).

(** The sync of the new fork is registered with the checkpointer, which changes
    no file. *)
Definition ummapcreate (reln : SMgrRelation) : M S unit :=
  newly_created ← UmMetadataOpenOrCreate reln true;
  if negb (newly_created : bool) then mret tt
  else on_smgr_world (MapSBlockInit env (locator reln) InvalidXLogRecPtr).

Definition umcreaterelationmetadata (reln : SMgrRelation) : M S unit := ummapcreate reln.

Definition uminitnewrelation (reln : SMgrRelation) (needs_wal : bool) : M S unit :=
  umsetmapstate reln (if needs_wal then UMBRA_MAP_POLICY_REQUIRE_MAP else UMBRA_MAP_POLICY_BYPASS_MAP);;
  when needs_wal (umcreaterelationmetadata reln).

Definition umredocreatefork (reln : SMgrRelation) (f : ForkNumber) (lsn : Z) : M S unit :=
  if decide (f = MAIN_FORKNUM) then
    umsetmapstate reln UMBRA_MAP_POLICY_REQUIRE_MAP;; umcreaterelationmetadata reln
  else if negb (UmbraForkUsesMapTranslation f) then umsetmapstate reln UMBRA_MAP_POLICY_BYPASS_MAP
  else
    umsetmapstate reln UMBRA_MAP_POLICY_REQUIRE_MAP;;
    here ← UmMetadataExists reln;
    when (negb here) (umcreaterelationmetadata reln);;
    when (UmbraForkIsAuxiliaryMapped f)
      (on_smgr_world (MapSBlockSetLogicalNblocks env (locator reln) f 0 lsn)).

(** [map_lsn] is the position of replay in recovery, of WAL writes otherwise. *)
Definition umcreate (reln : SMgrRelation) (f : ForkNumber) (isRedo : bool) (map_lsn : Z) : M S unit :=
  created ← file_do_val reln (λ fs, fl_create fs (locator reln) f isRedo);
  here ← UmMetadataExists reln;
  when ((created : bool) && UmbraForkIsAuxiliaryMapped f && (here : bool))
    (on_smgr_world (MapSBlockSetLogicalNblocks env (locator reln) f 0 map_lsn)).

(** [smgropen] of a relation of this server. *)
Definition smgropen (reln : SMgrRelation) : M S unit :=
  h ← gets (λ s, sm_handles s !! reln);
  match h with Some _ => mret tt | None => umopen reln end.

(** ** Relations filled without WAL *)

(** Blocks [lblk .. lblk + n) are stored at their own place. *)
Fixpoint set_identity (n : nat) (r : RelFileLocator) (f : ForkNumber) (lblk lsn : Z) : M MS unit :=
  match n with
  | O => mret tt
  | Datatypes.S n => MapSetMapping env r f lblk lblk lsn;; set_identity n r f (u32 (lblk + 1)) lsn
  end.

Fixpoint apply_dense (entries : list xl_umbra_skip_wal_dense_map_entry) (reln : SMgrRelation) (map_lsn : Z)
    : M S unit :=
  match entries with
  | [] => mret tt
  | e :: entries =>
      let f := e.1 in
      let nblocks := e.2 in
      let fork_lsn := if decide (0 < nblocks) then map_lsn else InvalidXLogRecPtr in
      on_map (set_identity (Z.to_nat nblocks) (locator reln) f 0 fork_lsn);;
      when (bool_decide (0 < nblocks))
        (on_smgr_world (MapSBlockBumpNextFreePhysBlock env (locator reln) f nblocks fork_lsn);;
         on_smgr_world (MapSBlockBumpPhysicalNblocks env (locator reln) f nblocks fork_lsn));;
      on_smgr_world (MapSBlockSetLogicalNblocks env (locator reln) f nblocks fork_lsn);;
      apply_dense entries reln map_lsn
  end.

(** The mapped forks whose file exists, with their sizes. *)
Definition dense_entries (reln : SMgrRelation) (s : S) : list xl_umbra_skip_wal_dense_map_entry :=
  let fs := reln_files reln s in
  (λ f, (f, fl_nblocks fs (locator reln) f)) <$>
    List.filter (λ f, UmbraForkUsesMapTranslation f && fl_exists fs (locator reln) f)
      [MAIN_FORKNUM; FSM_FORKNUM; VISIBILITYMAP_FORKNUM].

(** [wal_insert_enabled]: WAL may be written and the server is not being
    bootstrapped. *)
Definition UmRebuildMapAndSuperblockForSkipWAL (fuel : nat) (wal_insert_enabled : bool) (reln : SMgrRelation)
    : M C unit :=
  MapInvalidateRelation fuel (locator reln);;
  apply_entries ← at_smgr (gets (dense_entries reln));
  let wal_entries := List.filter (λ e, bool_decide (0 < e.2)) apply_entries in
  if bool_decide (wal_entries ≠ []) && wal_insert_enabled then
    in_x (critical (delaying_checkpoints (
      map_lsn ← in_wal (log_umbra_skip_wal_dense_map advance (locator reln)
                          (Z.of_nat (length wal_entries)) wal_entries);
      in_state (apply_dense apply_entries reln map_lsn))))
  else at_smgr (apply_dense apply_entries reln InvalidXLogRecPtr).

(** [umfile_immedsync] changes no file. *)
Definition umimmedsync (reln : SMgrRelation) (f : ForkNumber) : M S unit :=
  when (bool_decide (f = UMBRA_METADATA_FORKNUM)) (on_map (MapCheckpointRelation env (locator reln))).

Definition ummarkskipwalpending (reln : SMgrRelation) : M S unit :=
  here ← UmMetadataExists reln;
  when (negb here) (ummapcreate reln);;
  on_smgr_world (MapSBlockSetSkipWalPending env (locator reln) true InvalidXLogRecPtr);;
  um_set_cached_map_state reln UMBRA_MAP_POLICY_SKIP_WAL_PENDING_MAP.

Definition umclearskipwalpending (reln : SMgrRelation) : M S unit :=
  here ← UmMetadataExists reln;
  if negb (here : bool) then mret tt
  else
    on_smgr_world (MapSBlockSetSkipWalPending env (locator reln) false InvalidXLogRecPtr);;
    um_set_cached_map_state reln UMBRA_MAP_POLICY_REQUIRE_MAP;;
    umimmedsync reln UMBRA_METADATA_FORKNUM.

Definition umsyncrelationmetadata (reln : SMgrRelation) : M S unit :=
  here ← UmMetadataExists reln;
  when here (umimmedsync reln UMBRA_METADATA_FORKNUM).

(** [skipping] is [RelFileLocatorSkippingWAL]. *)
Definition umpreparependingsync (fuel : nat) (wal_insert_enabled skipping : bool) (reln : SMgrRelation)
    : M C bool :=
  when skipping (UmRebuildMapAndSuperblockForSkipWAL fuel wal_insert_enabled reln);;
  at_smgr (um_relation_requires_durable_sync reln).

(** ** Copying the metadata fork *)

Definition UmMetadataNblocks (reln : SMgrRelation) : M S Z :=
  file_get reln (λ fs, fl_nblocks fs (locator reln) UMBRA_METADATA_FORKNUM).

Definition UmMetadataRead (reln : SMgrRelation) (blkno : Z) : M S (list Z) :=
  ds ← file_do_val reln (λ fs, fl_readv (InRecovery env) fs (locator reln) UMBRA_METADATA_FORKNUM blkno 1);
  mret (default [] (head ds)).

Definition UmMetadataWrite (reln : SMgrRelation) (blkno : Z) (buffer : list Z) : M S unit :=
  file_do reln (λ fs, fl_write fs (locator reln) UMBRA_METADATA_FORKNUM blkno buffer).

Definition UmMetadataExtend (reln : SMgrRelation) (blkno : Z) (buffer : list Z) : M S unit :=
  file_do reln (λ fs, fl_extend fs (locator reln) UMBRA_METADATA_FORKNUM blkno buffer).

Fixpoint copy_metadata (n : nat) (src dst : SMgrRelation) (dst_nblocks blkno : Z) : M S unit :=
  match n with
  | O => mret tt
  | Datatypes.S n =>
      page ← UmMetadataRead src blkno;
      (if decide (blkno < dst_nblocks) then UmMetadataWrite dst blkno page else UmMetadataExtend dst blkno page);;
      copy_metadata n src dst dst_nblocks (u32 (blkno + 1))
  end.

(** [permanent] is [relpersistence == RELPERSISTENCE_PERMANENT]. *)
Definition umcopyrelationmetadata (src dst : SMgrRelation) (permanent : bool) : M S unit :=
  if negb permanent then mret tt
  else
    here ← UmMetadataExists src;
    if negb (here : bool) then mret tt
    else
      ummapcreate dst;;
      src_nblocks ← UmMetadataNblocks src;
      dst_nblocks ← UmMetadataNblocks dst;
      copy_metadata (Z.to_nat src_nblocks) src dst dst_nblocks 0;;
      umimmedsync dst UMBRA_METADATA_FORKNUM.

(** ** Removal *)

Definition reln_unlink (rlocator : SMgrRelation) (f : ForkNumber) (isRedo : bool) : M S unit :=
  file_do rlocator (λ fs, fl_unlink fs (locator rlocator) f isRedo).

Definition umunlinkrelationmetadata (fuel : nat) (rlocator : SMgrRelation) (isRedo : bool) : M C unit :=
  MapInvalidateRelation fuel (locator rlocator);;
  at_smgr (reln_unlink rlocator UMBRA_METADATA_FORKNUM isRedo).

Definition umunlink (fuel : nat) (rlocator : SMgrRelation) (f : ForkNumber) (isRedo : bool) : M C unit :=
  if decide (f = InvalidForkNumber) then
    MapInvalidateRelation fuel (locator rlocator);;
    at_smgr (reln_unlink rlocator MAIN_FORKNUM isRedo);;
    at_smgr (reln_unlink rlocator UMBRA_METADATA_FORKNUM isRedo);;
    at_smgr (reln_unlink rlocator FSM_FORKNUM isRedo);;
    at_smgr (reln_unlink rlocator VISIBILITYMAP_FORKNUM isRedo);;
    at_smgr (reln_unlink rlocator INIT_FORKNUM isRedo)
  else
    when (bool_decide (f = UMBRA_METADATA_FORKNUM)) (MapInvalidateRelation fuel (locator rlocator));;
    at_smgr (reln_unlink rlocator f isRedo).

Definition MapDrop (fuel : nat) (r : RelFileLocator) : M C unit :=
  MapInvalidateRelation fuel r;;
  at_smgr (reln_unlink (MkReln r INVALID_PROC_NUMBER) UMBRA_METADATA_FORKNUM false).

(** ** Exit of a backend *)

Fixpoint unpin_times (n : nat) (slot : nat) : M MS unit :=
  match n with
  | O => mret tt
  | Datatypes.S n => on_sys (MapUnpinBuffer slot);; unpin_times n slot
  end.

(** All pins of this backend on the slots from [slot] on. *)
Fixpoint release_pins (nslots slot : nat) : M MS unit :=
  match nslots with
  | O => mret tt
  | Datatypes.S nslots =>
      c ← on_sys (gets (private_count slot));
      unpin_times (Z.to_nat c) slot;;
      release_pins nslots (Datatypes.S slot)
  end.

Definition MapResetAllTruncatePreloads : M S unit :=
  modify (λ s, MkSmgr (sm_map s) (sm_temp s) (sm_handles s) ∅).

(** The backend's array of pins exists. *)
Definition MapBackendExitCleanup : M S unit :=
  on_map (on_sys MapAbortBufferIO);;
  on_map MapInflightCleanupOwned;;
  n ← on_map (on_sys (gets (λ s, length (buffers (pool s)))));
  on_map (release_pins n 0);;
  MapResetAllTruncatePreloads.

(** ** A write of the checkpointer to a known physical block *)

Definition UmCheckpointWritePblk (reln : SMgrRelation) (f : ForkNumber) (buffer : list Z) (checkpoint_pblk : Z)
    : M S unit :=
  if decide (checkpoint_pblk = InvalidBlockNumber)
  then elog ERROR "invalid Umbra checkpoint physical block"
  else
    access ← um_classify_access reln f;
    if negb (map_available access)
    then elog ERROR "checkpoint physical write requested for non-mapped Umbra relation"
    else
      here ← file_get reln (λ fs, fl_block_exists fs (locator reln) f checkpoint_pblk);
      when (negb here) (file_do reln (λ fs, fl_zeroextend fs (locator reln) f checkpoint_pblk 1));;
      file_do reln (λ fs, fl_writev (InRecovery env) fs (locator reln) f checkpoint_pblk [buffer]).
End ops.
