(* ===== verification/SmgrLifeSpec.v ===== *)
(** * The life of a relation: what forgetting it does

    Invalidation of a relation or of a database removes every trace of it from
    the buffer pool, the cache table and the superblock table, keeps everything
    of the others and asks the checkpointer to drop the requests for it. *)

From S2P Require Import Prelude MapLayout Superblock SuperTable FileLayer SmgrFiles SBlock SBlockInv.
From S2P Require Import MapPrealloc SBlockSafety SBlockSpec MapPreallocSpec.
From S2P Require Import BufState MapBuf MapClock PoolInv MapPage MapPageSpec MapEntries.
From S2P Require Import MapCheckpoint MapCheckpointSpec MapRange MapRangeSpec.
From S2P Require Import MapInflight MapInflightSpec MapReserve UmbraXlog.
From S2P Require Import SmgrAccess SmgrSpec SmgrWriteSpec SmgrExtend SmgrExtendSpec SyncQueue MapCompact.
From S2P Require Import MapCompactSpec MapCompactPass SmgrLife.

Local Open Scope Z_scope.

(** ** Giving a buffer back to the free list *)

Lemma free_list_not_in bs head l i b :
  free_list bs head l → bs !! i = Some b → freeNext b = FREENEXT_NOT_IN_LIST → i ∉ l.
Proof.
  revert head. induction l as [|x l IH]; intros head Hl Hb Hf; [apply not_elem_of_nil|].
  destruct Hl as (_ & c & Hc & Hl). intros [->|Hin]%elem_of_cons; [|by eapply IH].
  simplify_eq. destruct l as [|y l]; [by rewrite Hl in Hf|]. destruct Hl as [Hl _]. 
  rewrite Hl in Hf. unfold FREENEXT_NOT_IN_LIST in Hf. lia.
Qed.

Lemma wp_free_buffer s i b (E : pg_error → BufSys → Prop) :
  pool_ok s → buffers (pool s) !! i = Some b →
  wp (MapClockFreeBuffer i)
    (λ _ s', pool_ok s' ∧ (∃ n, buffers (pool s') = <[i := with_free n b]> (buffers (pool s))) ∧
       pages (pool s') = pages (pool s) ∧ cache (pool s') = cache (pool s) ∧
       private_ref s' = private_ref s ∧ in_progress s' = in_progress s) E s.
Proof.
  intros Hp Hb. apply wp_bind, (wp_get_buf s i b Hb). case_decide as Hf.
  { apply wp_ret. split_and!; [done| |done..]. exists (freeNext b). destruct b; cbn. by rewrite list_insert_id. }
  apply wp_bind, wp_gets, wp_bind, wp_modify, wp_modify. cbn. split_and!; [|by eexists|done..].
  destruct Hp as [[Hcl Hch Hcs] [(l & Hl & Hnd)] Hpg Hpr Hpp Hbuf Hidle].
  assert (i ∉ l) as Hni by (eapply free_list_not_in; [done..|by destruct (decide (freeNext b = FREENEXT_NOT_IN_LIST))]).
  assert (∀ j x, <[i := with_free (first_free_buffer (pool s)) b]> (buffers (pool s)) !! j = Some x →
    ∃ y, buffers (pool s) !! j = Some y ∧ state x = state y ∧ forknum x = forknum y) as Hlk.
  { intros j x [(<- & <- & _)|[_ Hx]]%list_lookup_insert_Some; [by exists b|by exists x]. }
  split; cbn; rewrite ?length_insert; [| |done|done|done| |done].
  - split; cbn; rewrite ?length_insert; [done|done|]. intros j x (y & Hy & -> & _)%Hlk. by eapply Hcs.
  - split. exists (i :: l). cbn. split; [|by constructor]. split; [done|]. eexists.
    rewrite list_lookup_insert_eq by (by eapply lookup_lt_Some). split; [done|]. cbn. by apply free_list_other.
  - intros j x (y & Hy & Es & Ef)%Hlk. destruct (Hbuf j y Hy) as [? ? ? ? Ht].
    unfold usage, bdirty in *. split; unfold usage, bdirty; rewrite ?Es, ?Ef; done.
Qed.

Section forget.
Context {T F : Type} `{SuperStoreLaws T} `{FileLayerLaws F}.
Context (sleep : MapState T F → MapState T F).
Local Abbreviation MS := (MapState T F).
Implicit Types (s : MS).

(** ** One buffer *)

Definition reset_buf (b : MapBufferDesc) : MapBufferDesc :=
  with_state 0 (with_tag no_rel None (-1) 0 (with_pending (pending_count b) zero_pending b)).

Record dropped (i : nat) (b : MapBufferDesc) s s' : Prop := {
  dr_world : ms_world s' = ms_world s;
  dr_local : ms_local s' = ms_local s;
  dr_pool : pool_ok (ms_sys s');
  dr_bufs : ∃ n, buffers (pool (ms_sys s')) = <[i := with_free n (reset_buf b)]> (buffers (pool (ms_sys s)));
  dr_pages : pages (pool (ms_sys s')) = pages (pool (ms_sys s));
  dr_cache : cache (pool (ms_sys s')) = drop_tag b (cache (pool (ms_sys s)));
  dr_private : private_ref (ms_sys s') = private_ref (ms_sys s);
}.

(** The entry of the cache table goes first. *)
Lemma wp_drop_cache s i b (Q : unit → MS → Prop) E :
  map_inv s → buffers (pool (ms_sys s)) !! i = Some b →
  Q tt (at_sys s (set_pool (set_cache (drop_tag b (cache (pool (ms_sys s)))) (pool (ms_sys s))) (ms_sys s))) →
  wp (match forknum b with
      | Some f => on_sys (MapCacheDelete (rnode b) f (page_number b) i)
      | None => mret tt
      end) Q E s.
Proof.
  intros Hi Hb HQ. unfold drop_tag in HQ. destruct (forknum b) as [f|] eqn:Hf.
  - destruct (co_tag _ (mi_cache _ Hi) i b f Hb Hf) as [_ Hc].
    apply wp_on_sys, wp_modify. by rewrite decide_True.
  - apply wp_ret. by destruct s as [? [[] ] ?].
Qed.

Lemma wp_drop_slot fuel s i b :
  map_inv s → buffers (pool (ms_sys s)) !! i = Some b → 0 ≤ page_number b →
  MAPBUF_GET_REFCOUNT (state b) = 0 → pending_count b = 0 →
  wp (match forknum b with
      | Some f => on_sys (MapCacheDelete (rnode b) f (page_number b) i)
      | None => mret tt
      end;;
      MapInvalidateBuffer sleep (Datatypes.S fuel) i (rnode b) (forknum b) (page_number b))
    (λ _ s', dropped i b s s') (λ _ _, False) s.
Proof using Type.
  intros Hi Hb Hpn Href Hpc. pose proof (mi_pool _ Hi) as Hp.
  assert (i < length (pages (pool (ms_sys s))))%nat as [pg Hpg]%lookup_lt_is_Some
    by (rewrite (po_pages _ Hp); by eapply lookup_lt_Some).
  apply wp_bind, wp_drop_cache; [done|done|]. set (sys1 := set_pool _ _).
  cbn [MapInvalidateBuffer]. apply wp_bind, wp_on_sys, (wp_get_buf sys1 i b Hb).
  rewrite decide_False by (intros [?|[?|[?|?]]]; [lia|done..]).
  rewrite decide_False by (intros Hx; by apply Hx). rewrite decide_False by (intros Hx; by apply Hx).
  apply wp_bind, wp_on_sys. change (at_sys (at_sys s sys1) sys1) with (at_sys s sys1). cbn [ms_sys at_sys].
  apply (wp_set_buf sys1 i pg Hpg). set (sys2 := upd _ _ _ _ _ _).
  assert (pool_ok sys2) as Hp2.
  { apply (upd_pool_ok sys1 i b); [|done|done|by apply (po_page _ Hp i)|].
    - destruct Hp as [[] [] ? ? ? ? ?]. by split.
    - rewrite Z.add_0_r. destruct (bo_pins _ _ (po_buf _ Hp i b Hb)) as [? Hk]. rewrite Href in Hk.
      change (private_count i sys1) with (private_count i (ms_sys s)). split; [done|done|change (0 ≤ private_count i (ms_sys s) ≤ 0); lia|done|done]. }
  apply wp_on_sys. cbn [ms_sys at_sys]. eapply wp_mono;
    [eapply (wp_free_buffer sys2 i); [exact Hp2|exact (upd_buf_at sys1 i b _ _ _ _ Hb)]| |intros ?? Hx; exact Hx].
  intros ? s3 (Hp3 & (n & Hb3) & Hpg3 & Hc3 & Hpr3 & _). split; [done|done|done| | | |].
  - exists n. change (buffers (pool s3) = <[i := with_free n (reset_buf b)]> (buffers (pool (ms_sys s)))).
    rewrite Hb3. cbn. by rewrite list_insert_insert_eq.
  - change (pages (pool s3) = pages (pool (ms_sys s))). rewrite Hpg3. cbn. by rewrite list_insert_id.
  - change (cache (pool s3) = drop_tag b (cache (pool (ms_sys s)))). by rewrite Hc3.
  - change (private_ref s3 = private_ref (ms_sys s)). rewrite Hpr3. cbn. by rewrite alter_add_0.
Qed.

Lemma dropped_lookup i b s s' j x :
  dropped i b s s' → buffers (pool (ms_sys s')) !! j = Some x →
  (j = i ∧ forknum x = None ∧ page_number x = -1 ∧ MAPBUF_GET_REFCOUNT (state x) = 0 ∧
   pending_count x = pending_count b ∧ pending_bits x = zero_pending) ∨
  (j ≠ i ∧ buffers (pool (ms_sys s)) !! j = Some x).
Proof using Type.
  intros [_ _ _ [n ->] _ _ _] [(<- & <- & _)|[Hne Hx]]%list_lookup_insert_Some; [left|by right]. by split_and!.
Qed.

Lemma dropped_inv i b s s' :
  map_inv s → buffers (pool (ms_sys s)) !! i = Some b → dropped i b s s' → map_inv s'.
Proof using Type.
  intros Hi Hb Hd. pose proof Hd as [Hw _ Hp _ Hpg Hc _]. split; [done| | |intros r f n; unfold files; rewrite Hw; apply (mi_exists _ Hi)|].
  - split.
    + intros t slot. rewrite Hc. intros [Hf Hne]%(drop_tag_find _ i b t slot (mi_cache _ Hi) Hb).
      destruct (co_find _ (mi_cache _ Hi) t slot Hf) as (j & x & -> & Hx & Ht).
      exists j, x. split; [done|]. split; [|done]. destruct (dr_bufs _ _ _ _ Hd) as [n ->].
      rewrite list_lookup_insert_ne; [done|]. intros ->. done.
    + intros j x f Hx Hf. destruct (dropped_lookup i b s s' j x Hd Hx) as [(_ & ? & _)|[Hne Hx']]; [congruence|].
      destruct (co_tag _ (mi_cache _ Hi) j x f Hx' Hf) as [Hn Hcj]. split; [done|]. rewrite Hc. unfold drop_tag.
      destruct (forknum b) as [g|] eqn:Hg; [|done]. rewrite lookup_delete_ne; [done|].
      destruct (co_tag _ (mi_cache _ Hi) i b g Hb Hg) as [_ Hci]. intros E. rewrite E in Hci. rewrite Hcj in Hci.
      injection Hci. lia.
  - intros j x f Hx Hf. destruct (dropped_lookup i b s s' j x Hd Hx) as [(_ & ? & _)|[Hne Hx']]; [congruence|].
    by eapply mi_fork.
  - intros j x f pg n Hx Hf Hpj Hn. rewrite Hpg in Hpj. unfold files. rewrite Hw in Hn |- *.
    destruct (dropped_lookup i b s s' j x Hd Hx) as [(_ & ? & _)|[Hne Hx']]; [congruence|]. by eapply (mi_agrees _ Hi).
Qed.

Lemma dropped_backend i b s s' :
  buffers (pool (ms_sys s)) !! i = Some b → MAPBUF_GET_REFCOUNT (state b) = 0 → pending_count b = 0 →
  dropped i b s s' → same_backend s s'.
Proof using Type.
  intros Hb Href Hpc Hd. pose proof Hd as [_ Hl _ [n Hn] _ _ Hpr]. split; [|split; [done|split]].
  - intros j. unfold private_count. by rewrite Hpr.
  - by rewrite Hn, length_insert.
  - intros j x Hx. assert (∀ k, private_count k (ms_sys s') = private_count k (ms_sys s)) as Hk
      by (intros; unfold private_count; by rewrite Hpr).
    rewrite Hn. destruct (decide (j = i)) as [->|Hne].
    + rewrite list_lookup_insert_eq by (by eapply lookup_lt_Some). eexists. split; [done|]. simplify_eq.
      rewrite Hk, Href. split; [done|]. split; [done|]. by right.
    + rewrite list_lookup_insert_ne by done. exists x. rewrite Hk. split_and!; [done..|apply same_marks_refl].
Qed.

(** ** All buffers of the selected relations *)

Section selected.
Context (selected : RelFileLocator → bool).

(** Nobody uses a page of a selected relation. *)
Definition unused_pages s : Prop :=
  ∀ i b, buffers (pool (ms_sys s)) !! i = Some b → 0 ≤ page_number b → selected (rnode b) = true →
    MAPBUF_GET_REFCOUNT (state b) = 0 ∧ pending_count b = 0.

Record forgotten s s' : Prop := {
  fg_inv : map_inv s';
  fg_world : ms_world s' = ms_world s;
  fg_backend : same_backend s s';
  fg_cache : ∀ r f blk, selected r = false →
    cache (pool (ms_sys s')) !! (r, f, blk) = cache (pool (ms_sys s)) !! (r, f, blk);
  fg_pages : pages (pool (ms_sys s')) = pages (pool (ms_sys s));
  fg_bufs : ∀ i b, buffers (pool (ms_sys s')) !! i = Some b →
    buffers (pool (ms_sys s)) !! i = Some b ∨ (forknum b = None ∧ page_number b = -1);
}.

Lemma forgotten_refl s : map_inv s → forgotten s s.
Proof using Type. intros Hi. split; [done|done|apply same_backend_refl|done|done|by left]. Qed.

Lemma forgotten_trans s1 s2 s3 : forgotten s1 s2 → forgotten s2 s3 → forgotten s1 s3.
Proof using Type.
  intros [I1 W1 B1 C1 P1 U1] [I2 W2 B2 C2 P2 U2].
  split; [done|congruence|by eapply same_backend_trans|intros; rewrite C2, C1; done|congruence|].
  intros i b [Hb|?]%U2; [by apply U1|by right].
Qed.

Lemma forgotten_unused s s' : unused_pages s → forgotten s s' → unused_pages s'.
Proof using Type. intros Hq Hf i b [Hb|[_ Hp]]%(fg_bufs _ _ Hf) Hpn; [by eapply Hq|lia]. Qed.

Definition clear_slot s (j : nat) : Prop :=
  ∀ b f, buffers (pool (ms_sys s)) !! j = Some b → forknum b = Some f → selected (rnode b) = false.

Lemma clear_kept s s' j : clear_slot s j → forgotten s s' → clear_slot s' j.
Proof using Type. intros Hc Hf b f [Hb|[Hn _]]%(fg_bufs _ _ Hf) Hs; [by eapply Hc|congruence]. Qed.

Lemma wp_one_slot fuel i b s :
  map_inv s → unused_pages s → buffers (pool (ms_sys s)) !! i = Some b →
  wp (if decide (page_number b < 0 ∨ selected (rnode b) = false) then mret tt
      else match forknum b with
           | Some f => on_sys (MapCacheDelete (rnode b) f (page_number b) i)
           | None => mret tt
           end;;
           MapInvalidateBuffer sleep (Datatypes.S fuel) i (rnode b) (forknum b) (page_number b))
    (λ _ s', forgotten s s' ∧ clear_slot s' i) (λ _ _, False) s.
Proof using Type.
  intros Hi Hq Hb. case_decide as Hsel.
  { apply wp_ret. split; [by apply forgotten_refl|]. intros b' f Hb' Hf. simplify_eq.
    destruct (co_tag _ (mi_cache _ Hi) i b f Hb Hf) as [Hp _]. destruct Hsel; [lia|done]. }
  apply Decidable.not_or in Hsel as [Hpn Hse]. apply not_false_is_true in Hse.
  destruct (Hq i b Hb ltac:(lia) Hse) as [Href Hpc].
  eapply wp_mono; [apply wp_drop_slot; [done|done|lia|done|done]| |done]. intros ? s' Hd.
  pose proof Hd as [Hw _ _ _ Hpg Hc _]. split.
  - split; [by eapply dropped_inv|done|by eapply dropped_backend| |done|].
    + intros r f blk Hr. rewrite Hc. unfold drop_tag. destruct (forknum b); [|done].
      apply lookup_delete_ne. intros [= <- _ _]. congruence.
    + intros j x [(_ & ? & ? & _)|[_ ?]]%(dropped_lookup i b s s' j x Hd); auto.
  - intros x f Hx Hf. destruct (dropped_lookup i b s s' i x Hd Hx) as [(_ & ? & _)|[? _]]; [congruence|done].
Qed.

Lemma wp_all_slots fuel n i s :
  map_inv s → unused_pages s → (i + n = length (buffers (pool (ms_sys s))))%nat →
  wp (invalidate_slots sleep (Datatypes.S fuel) n i selected)
    (λ _ s', forgotten s s' ∧ ∀ j, (i ≤ j)%nat → clear_slot s' j) (λ _ _, False) s.
Proof using Type.
  revert i s. induction n as [|n IH]; intros i s Hi Hq Hlen.
  { apply wp_ret. split; [by apply forgotten_refl|]. intros j Hj b f Hb%lookup_lt_Some. lia. }
  assert (i < length (buffers (pool (ms_sys s))))%nat as [b Hb]%lookup_lt_is_Some by lia.
  cbn [invalidate_slots]. apply wp_bind, wp_on_sys, (wp_get_buf _ i b Hb).
  replace (at_sys s (ms_sys s)) with s by (by destruct s). apply wp_bind.
  eapply wp_mono; [by apply wp_one_slot| |done]. intros ? s1 [Hf1 Hc1].
  eapply wp_mono; [apply IH; [apply Hf1|by eapply forgotten_unused|]| |done].
  { destruct (fg_backend _ _ Hf1) as (_ & _ & Hk). rewrite (proj1 Hk). lia. }
  intros ? s2 [Hf2 Hc2]. split; [by eapply forgotten_trans|]. intros j Hj.
  destruct (decide (j = i)) as [->|]; [by eapply clear_kept|]. apply Hc2. lia.
Qed.
End selected.
End forget.

(** ** Relations whose size is no longer known *)

Section unknown.
Context {T F : Type} `{SuperStoreLaws T} `{FileLayerLaws F}.
Local Abbreviation MS := (MapState T F).
Implicit Types (s : MS).

Lemma map_inv_less s w :
  map_inv s → w_files w = files s →
  (∀ r f n, trusted_size (w_store w) r f = Some n → trusted_size (w_store (ms_world s)) r f = Some n) →
  map_inv (MkMapState w (ms_sys s) (ms_local s)).
Proof.
  intros [Hp Hc Hf He Ha] Hfs Hts. split; [done|done|done|..]; unfold files in *; cbn [ms_world ms_sys]; rewrite Hfs.
  - intros r f n Hn. by eapply He, Hts.
  - intros i b f pg n ??? Hn. by eapply Ha, Hts.
Qed.

Lemma shared_less ks bars s w :
  shared ks bars s → w_files w = files s →
  (∀ r f n, trusted_size (w_store w) r f = Some n → trusted_size (w_store (ms_world s)) r f = Some n) →
  shared ks bars (MkMapState w (ms_sys s) (ms_local s)).
Proof.
  intros [Hid [Hm Hpi Hnd Hmk Hr Ho Hh]] Hfs Hts. split; [done|]. split; try done.
  intros k Hk. apply (map_inv_less (view (ms_world s) (pool (ms_sys s)) k) w); [by apply Hm|done..].
Qed.

Lemma deleted_size (t : T) r r' f :
  ss_wf t → trusted_size (ss_delete t r) r' f = if decide (r' = r) then None else trusted_size t r' f.
Proof.
  intros Hwf. destruct (ss_delete_spec t r Hwf) as [Hwf' Hm]. unfold trusted_size.
  rewrite !ss_find_spec, Hm by done. case_decide as Hr; [subst; by rewrite lookup_delete_eq|by rewrite lookup_delete_ne].
Qed.

(** No buffer is left, so no entry of the table is. *)
Lemma clear_cache selected s r f blk :
  map_inv s → (∀ j, clear_slot selected s j) → selected r = true →
  cache (pool (ms_sys s)) !! (r, f, blk) = None.
Proof.
  intros Hi Hcl Hs. destruct (cache (pool (ms_sys s)) !! (r, f, blk)) as [slot|] eqn:Hc; [|done].
  destruct (co_find _ (mi_cache _ Hi) _ _ Hc) as (i & b & -> & Hb & Er & Ef & Ep).
  pose proof (Hcl i b f Hb Ef) as Hn. cbn in Er. congruence.
Qed.
End unknown.

(** ** Exit of a backend *)

Section exit.
Context {T F : Type} `{SuperStoreLaws T} `{FileLayerLaws F} (ks : list Backend).
Local Abbreviation MS := (MapState T F).
Implicit Types (s : MS).

Lemma no_claims_held s i : ms_local s = [] → held_at i (bk_holds (bk_of s [])) = 0.
Proof. intros Hl. unfold bk_of, bk_holds. cbn. by rewrite Hl. Qed.

Lemma slack_pins s i : ms_local s = [] → slack [] s i = private_count i (ms_sys s).
Proof. intros Hl. unfold slack. rewrite no_claims_held by done. lia. Qed.

Lemma pinned_slot (s : BufSys) i : pool_ok s → 0 < private_count i s → is_Some (buffers (pool s) !! i).
Proof.
  intros Hp Hk. apply lookup_lt_is_Some. rewrite <-(po_private _ Hp). unfold private_count in Hk.
  destruct (private_ref s !! i) eqn:Hi; [by eapply lookup_lt_Some|cbn in Hk; lia].
Qed.

(** The pins of one slot. *)
Lemma wp_unpin_times n i s (Q : unit → MS → Prop) E :
  shared ks [] s → ms_local s = [] → private_count i (ms_sys s) = Z.of_nat n →
  (∀ s', shared ks [] s' → same_map s s' → ms_local s' = [] →
     (∀ j, private_count j (ms_sys s') = if decide (j = i) then 0 else private_count j (ms_sys s)) → Q tt s') →
  wp (unpin_times n i) Q E s.
Proof.
  revert s. induction n as [|n IH]; intros s Hs Hl Hn HQ; cbn [unpin_times].
  { apply wp_ret, HQ; [done|apply same_map_refl|done|]. intros j. case_decide; [by subst|done]. }
  destruct (pinned_slot (ms_sys s) i) as [b Hb]; [by eapply mi_pool, shared_map|lia|].
  apply wp_bind, (wp_unpin_shared ks [] s i b); [done|done|rewrite no_claims_held by done; lia|].
  intros s1 Hs1 Hm1 Hl1 Hk1. rewrite Hl in Hl1.
  assert (∀ j, private_count j (ms_sys s1) = private_count j (ms_sys s) - if decide (j = i) then 1 else 0) as Hp1.
  { intros j. rewrite <-!slack_pins by done. apply Hk1. }
  apply IH; [done|done|rewrite Hp1, decide_True by done; lia|].
  intros s' Hs' Hm' Hl' Hp'. apply HQ; [done|by eapply same_map_trans|done|].
  intros j. rewrite Hp', Hp1. case_decide; lia.
Qed.

Lemma wp_release_pins n i s (Q : unit → MS → Prop) E :
  shared ks [] s → ms_local s = [] →
  (∀ s', shared ks [] s' → same_map s s' → ms_local s' = [] →
     (∀ j, private_count j (ms_sys s') =
        if decide (i ≤ j < i + n)%nat then 0 else private_count j (ms_sys s)) → Q tt s') →
  wp (release_pins n i) Q E s.
Proof.
  revert i s. induction n as [|n IH]; intros i s Hs Hl HQ; cbn [release_pins].
  { apply wp_ret, HQ; [done|apply same_map_refl|done|]. intros j. by rewrite decide_False by lia. }
  apply wp_bind, wp_on_sys, wp_gets. replace (at_sys s (ms_sys s)) with s by (by destruct s).
  pose proof (private_nonneg (ms_sys s) i (mi_pool _ (shared_map _ _ _ Hs))) as Hk.
  apply wp_bind, wp_unpin_times; [done|done|by rewrite Z2Nat.id|]. intros s1 Hs1 Hm1 Hl1 Hp1.
  apply IH; [done|done|]. intros s' Hs' Hm' Hl' Hp'. apply HQ; [done|by eapply same_map_trans|done|].
  intros j. rewrite Hp', Hp1. repeat case_decide; try done; lia.
Qed.
End exit.

Lemma wp_ok {S} (m : M S unit) (Q : S → Prop) s :
  wp m (λ _, Q) (λ _ _, False) s → ∃ s', m s = (Ok tt, s') ∧ Q s'.
Proof. unfold wp. destruct (m s) as [[[]|e] s']; [|done]. by exists s'. Qed.


(** C19: Forgetting a relation none of whose map pages is pinned or has claims
    succeeds: no buffer, no cache entry and no superblock entry of it is left,
    the map and the superblocks of the other relations and all files are as
    before, the invariants of the pool and of the other backends hold, and the
    checkpointer is asked to drop its pending requests for the relation. *)
Theorem invalidation_forgets_relation {T F : Type} `{SuperStoreLaws T} `{FileLayerLaws F} sleep fuel ks bars r
    (c : CState T F) :
  shared ks bars (c_map c) → ss_wf (w_store (ms_world (c_map c))) →
  unused_pages (λ r', bool_decide (r' = r)) (c_map c) →
  ∃ c', MapInvalidateRelation sleep (S fuel) r c = (Ok tt, c') ∧ shared ks bars (c_map c') ∧
    (∀ i b f, buffers (pool (ms_sys (c_map c'))) !! i = Some b → forknum b = Some f → rnode b ≠ r) ∧
    (∀ f blk, cache (pool (ms_sys (c_map c'))) !! (r, f, blk) = None) ∧
    ss_map (w_store (ms_world (c_map c'))) = delete r (ss_map (w_store (ms_world (c_map c)))) ∧
    (∀ r' f blk, r' ≠ r → map_page (c_map c') r' f blk = map_page (c_map c) r' f blk) ∧
    files (c_map c') = files (c_map c) ∧
    c_requests c' = c_requests c ++ [(MapReclaimInitFileTag r InvalidForkNumber InvalidBlockNumber, SYNC_FILTER_REQUEST)].
Proof.
  intros Hsh Hwf Hq. set (sel := λ r', bool_decide (r' = r)).
  apply wp_ok. apply wp_bind, wp_at_ms, wp_bind, wp_on_sys, wp_gets.
  replace (at_sys (c_map c) (ms_sys (c_map c))) with (c_map c) by (by destruct (c_map c)).
  eapply wp_mono; [apply (wp_all_slots sleep sel fuel); [by eapply shared_map|exact Hq|done]| |done].
  intros ? s1 [[Hi Hw Hb Hc Hp _] Hcl]. apply wp_bind, wp_at_world, wp_modify.
  change (c_map (c_at c s1)) with s1. set (w := set_store _ _).
  apply wp_bind, wp_bind, wp_modify, wp_ret, wp_ret. 
  set (s2 := MkMapState w (ms_sys s1) (ms_local s1)).
  match goal with |- context [c_map ?x] => change (c_map x) with s2 end.
  pose proof (shared_same ks bars _ s1 Hsh Hi Hb) as Hs1.
  assert (∀ r' f, trusted_size (w_store w) r' f = if decide (r' = r) then None else trusted_size (w_store (ms_world s1)) r' f) as Hts
    by (intros; by apply deleted_size; rewrite Hw).
  split_and!.
  - apply shared_less; [done|done|]. intros r' f n. rewrite Hts. by case_decide.
  - intros i b f Hbi Hf Er. assert (sel (rnode b) = false) as Hs by (eapply Hcl; [lia|done|done]).
    unfold sel in Hs. by apply bool_decide_eq_false in Hs.
  - intros f blk. apply (clear_cache sel s1); [done|intros j; apply Hcl; lia|by apply bool_decide_eq_true].
  - unfold s2, w. cbn. rewrite Hw. by apply ss_delete_spec.
  - intros r' f blk Hr. unfold map_page, s2, files. cbn [ms_sys ms_world]. rewrite Hts, decide_False by done.
    rewrite Hc by (by apply bool_decide_eq_false). rewrite Hp. change (w_files w) with (w_files (ms_world s1)). by rewrite Hw.
  - unfold files, s2. cbn. by rewrite Hw.
  - done.
Qed.

Lemma demo_unused : unused_pages (λ r', bool_decide (r' = demo_rel)) (c_map demo_c).
Proof.
  assert (forallb (λ b, bool_decide (MAPBUF_GET_REFCOUNT (state b) = 0) && bool_decide (pending_count b = 0))
    (buffers (pool (ms_sys (c_map demo_c)))) = true) as Hall by (vm_compute; exact eq_refl).
  intros i b Hb _ _. rewrite forallb_forall in Hall. apply list_elem_of_lookup_2, list_elem_of_In in Hb.
  apply Hall, andb_true_iff in Hb as [?%bool_decide_eq_true ?%bool_decide_eq_true]. by split.
Qed.

Lemma invalidation_forgets_relation_witness :
  cache (pool (ms_sys (c_map demo_c))) !! (demo_rel, MAIN_FORKNUM, 3) ≠ None ∧
  ∃ c', MapInvalidateRelation id 1 demo_rel demo_c = (Ok tt, c') ∧
    cache (pool (ms_sys (c_map c'))) !! (demo_rel, MAIN_FORKNUM, 3) = None ∧
    ss_map (w_store (ms_world (c_map c'))) !! demo_rel = None.
Proof.
  split; [vm_compute; discriminate|]. destruct demo_c_compactable as [ks Hc].
  destruct (invalidation_forgets_relation id 0 ks [] demo_rel demo_c (cp_shared _ _ _ _ _ _ _ Hc)
    (proj1 (cp_super _ _ _ _ _ _ _ Hc)) demo_unused) as (c' & Hrun & _ & _ & Hca & Hm & _).
  exists c'. split; [exact Hrun|]. split; [exact (Hca _ _)|]. rewrite Hm. apply lookup_delete_eq.
Defined.

Definition demo_leaving : SmgrState MapSuperTable RefFiles := MkSmgr demo_claimed (MkRefFiles ∅) ∅ ∅.

