(* ===== verification/UmbraRedo.v ===== *)
(** * Replay of map records

    [umbra_redo] of [access/transam/umbra_xlog.c] applies the map records of
    [UmbraXlog] during recovery. *)

From S2P Require Import Prelude MapLayout Superblock SuperTable FileLayer SmgrFiles SBlock MapPrealloc.
From S2P Require Import BufState MapBuf MapPage MapInflight UmbraXlog SmgrAccess SmgrExtend UmOs SyncQueue.
From S2P Require Import MapCompact SmgrLife.

Local Open Scope Z_scope.

Section redo.
Context {T F : Type} `{SuperStore T} `{FileLayer F} `{DataFiles F} `{FileRemoval F} (env : Env).
(** As in [SmgrExtend] and [SmgrLife]: what others do during a sleep, the frame
    and the fuel of [MapSBlockEnsurePhysicalNblocks], the fuel of
    [MapInvalidateBuffer]. *)
Context (sleep : MapState T F → MapState T F) (frame : Z) (ensure fuel : nat).
Local Abbreviation MS := (MapState T F).
Local Abbreviation C := (CState T F).

Definition perm (r : RelFileLocator) : SMgrRelation := MkReln r INVALID_PROC_NUMBER.

(** The copy of the old block; whether the new one exists now. *)
Definition redo_copy (r : RelFileLocator) (f : ForkNumber) (old_pblkno new_pblkno : Z) : M MS bool :=
  files ← get_files;
  let nblocks := fl_nblocks_sparse files r f in
  if decide (old_pblkno < nblocks) then
    pagebuf ← lift (fl_read files r f old_pblkno (Z.to_nat BLCKSZ));
    lift_files (λ fs, fl_ctx_extend fs r f new_pblkno pagebuf);;
    mret true
  else mret false.

(** [XLOG_UMBRA_MAP_SET], when the metadata fork is there. *)
Definition redo_map_set (rec : xl_umbra_map_set) (lsn : Z) : M MS unit :=
  let r := ms_rlocator rec in
  let f := ms_forknum rec in
  let new_pblkno := ms_new_pblkno rec in
  copied ← (if decide (ms_old_pblkno rec ≠ InvalidBlockNumber)
            then redo_copy r f (ms_old_pblkno rec) new_pblkno else mret false);
  MapSetMapping env r f (ms_lblkno rec) new_pblkno lsn;;
  on_world (MapSBlockBumpNextFreePhysBlock env r f (u32 (new_pblkno + 1)) lsn);;
  materialized ←
    (if decide (ms_old_pblkno rec = InvalidBlockNumber) then
       lift_files (λ fs, fl_ctx_extend fs r f new_pblkno zero_block);;
       on_world (MapSBlockBumpLogicalNblocks env r f (u32 (ms_lblkno rec + 1)) lsn);;
       mret true
     else mret copied);
  when materialized (on_world (MapSBlockBumpPhysicalNblocks env r f (u32 (new_pblkno + 1)) lsn)).

(** [XLOG_UMBRA_SKIP_WAL_DENSE_MAP]: one fork after the other. *)
Fixpoint redo_dense (entries : list xl_umbra_skip_wal_dense_map_entry) (r : RelFileLocator) (lsn : Z) : M MS unit :=
  match entries with
  | [] => mret tt
  | (f, nblocks) :: entries =>
      if negb (UmbraForkUsesMapTranslation f) || bool_decide (nblocks = InvalidBlockNumber)
      then elog PANIC "invalid UMBRA skip-WAL dense-map record"
      else
        set_identity env (Z.to_nat nblocks) r f 0 lsn;;
        on_world (MapSBlockBumpNextFreePhysBlock env r f nblocks lsn);;
        on_world (MapSBlockBumpPhysicalNblocks env r f nblocks lsn);;
        on_world (MapSBlockSetLogicalNblocks env r f nblocks lsn);;
        redo_dense entries r lsn
  end.

(** Open the relation; [m] unless its metadata fork is gone. *)
Definition redo_existing (r : RelFileLocator) (m : M C unit) : M C unit :=
  at_smgr (smgropen (perm r));;
  here ← at_smgr (UmMetadataExists (perm r));
  if negb (here : bool) then mret tt else m.

(** [XLOG_UMBRA_RECLAIM_UNLINK]; a failure is a warning at most. *)
Definition redo_reclaim (rec : xl_umbra_reclaim_unlink) : M MS unit :=
  lift_files (λ fs, Ok (fl_unlink_segment fs (ru_rlocator rec) (ru_forknum rec) (ru_segno rec)).1).

Definition redo_record (rec : umbra_record) (lsn : Z) : M C unit :=
  match rec with
  | XlMapSet rec => redo_existing (ms_rlocator rec) (at_ms (redo_map_set rec lsn))
  | XlRangeRemap rec =>
      redo_existing (rr_rlocator rec)
        (in_x (UmApplyReservedRangeRemap env frame ensure (perm (rr_rlocator rec)) (rr_forknum rec)
                 (default 0 (fst <$> head (rr_entries rec))) (snd <$> rr_entries rec) lsn))
  | XlRangeRemapCompact rec =>
      redo_existing (rc_rlocator rec)
        (in_x (UmApplyReservedRangeRemap env frame ensure (perm (rc_rlocator rec)) (rc_forknum rec)
                 (rc_first_lblkno rec)
                 ((λ i, u32 (rc_first_pblkno rec + Z.of_nat i)) <$> seq 0 (Z.to_nat (rc_count rec))) lsn))
  | XlSkipWalDenseMap rec =>
      redo_existing (dm_rlocator rec)
        (MapInvalidateRelation sleep fuel (dm_rlocator rec);;
         at_ms (redo_dense (dm_entries rec) (dm_rlocator rec) lsn))
  | XlReclaimUnlink rec => at_ms (redo_reclaim rec)
  end.

(** [info] and [data] of the record at [lsn]. *)
Definition umbra_redo (info : Z) (data : list Z) (lsn : Z) : M C unit :=
  match umbra_read info data with
  | Some rec => redo_record rec lsn
  | None => elog PANIC "umbra_redo: unknown op code"
  end.
End redo.
