(* ===== verification/UmbraRedoSpec.v ===== *)
(** * Replay of map records: what it does

    Replaying the record of a relocation on a recovered state leads to the map
    that the relocation itself led to and keeps every logical block; replaying
    the record of a new block makes the block appear, zeroed, at the end of its
    fork. *)

From S2P Require Import Prelude MapLayout Superblock SuperTable FileLayer SmgrFiles SBlock SBlockInv.
From S2P Require Import MapPrealloc SBlockSafety SBlockSpec MapPreallocSpec.
From S2P Require Import BufState MapBuf MapClock PoolInv MapPage MapPageSpec MapEntries.
From S2P Require Import MapCheckpoint MapCheckpointSpec MapRange MapRangeSpec.
From S2P Require Import MapInflight MapInflightSpec MapReserve UmbraXlog.
From S2P Require Import SmgrAccess SmgrSpec SmgrWriteSpec SmgrExtend SmgrExtendSpec SyncQueue MapCompact.
From S2P Require Import MapCompactSpec MapCompactPass SmgrLife UmbraRedo.

Local Open Scope Z_scope.

(** A sequence of moves, and the replay of a sequence of records. *)
Section sequences.
Context {T F : Type} `{SuperStore T} `{FileLayer F} `{DataFiles F} `{FileRemoval F} (env : Env).

Fixpoint relocate_all (advance : Z → Z → Z) (lock_free : nat → bool) (r : RelFileLocator) (f : ForkNumber)
    (moves : list (Z * Z)) : M (CState T F) unit :=
  match moves with
  | [] => mret tt
  | (l, old) :: moves =>
      MapCompactorRelocateEntry env advance lock_free r f l old;; relocate_all advance lock_free r f moves
  end.

Fixpoint redo_all (sleep : MapState T F → MapState T F) (frame : Z) (ensure fuel : nat)
    (recs : list (Z * umbra_record)) : M (CState T F) unit :=
  match recs with
  | [] => mret tt
  | (lsn, rec) :: recs =>
      redo_record env sleep frame ensure fuel rec lsn;; redo_all sleep frame ensure fuel recs
  end.
End sequences.

Section replay.
Context {T F : Type} `{SuperStoreLaws T} `{FileLayerLaws F} `{!DataFiles F} `{!DataFilesLaws F} `{!FileRemoval F}.
Context (env : Env) (ks : list Backend) (bars : list (nat * Z)).
Local Abbreviation MS := (MapState T F).
Local Abbreviation C := (CState T F).
Implicit Types (s : MS) (r : RelFileLocator) (f : ForkNumber).

(** Why the replay of a record fails: the map page cannot be accessed, or the
    new block cannot be written. *)
Definition redo_error (e : pg_error) : Prop :=
  range_error (F := F) e ∨ ∃ (fs : F) r f b d, fl_ctx_extend fs r f b d = Err e.

Lemma fork_data f : fork_mapped f → f ≠ UMBRA_METADATA_FORKNUM.
Proof. intros Hf E. rewrite E in Hf. by destruct Hf as [?|[?|?]]. Qed.

Lemma zero_block_full : full_block zero_block.
Proof. split; [apply length_replicate|]. apply Forall_replicate. by split. Qed.

(** A bump of the frontier or of the capacity changes neither map nor files. *)
Lemma wp_bump s r f n v bn bc lsn :
  shared ks bars s → super_ready r s → fork_mapped f → trusted_size (w_store (ms_world s)) r f = Some n →
  0 ≤ v ≤ MaxBlockNumber →
  wp (on_world (MapSBlockBumpPhysicalState env r f v bn bc lsn))
    (λ _ s', shared ks bars s' ∧ super_ready r s' ∧ same_pages s s' ∧ ms_local s' = ms_local s ∧
       files s' = files s) (λ _ _, False) s.
Proof.
  intros Hs (Hw & e & He & Hu) Hf Hn Hv.
  destruct (bump_physical_trusted env (ms_world s) r f n v bn bc lsn e)
    as (w & e' & Hrun & Hfs & Hw' & He' & Hu' & _ & Hts); [done..|].
  unfold wp, on_world. rewrite Hrun. split_and!; [by apply shared_world|split; [done|by eauto]| |done|done].
  apply map_inv_world; [by eapply shared_map|done..].
Qed.

(** The write of one block of a data fork. *)
Lemma wp_redo_write s r f p d :
  shared ks bars s → fork_mapped f → full_block d →
  wp (lift_files (λ fs, fl_ctx_extend fs r f p d))
    (λ _ s', ∃ fs, s' = with_files fs s ∧ same_meta (files s) fs ∧ data_but r f p (files s) fs ∧
       fl_content fs r f p = Some d) (λ er _, redo_error er) s.
Proof.
  intros Hs Hf Hd. apply wp_lift_files; [intros er Her; right; by eauto 10|]. intros fs Hext. exists fs.
  destruct (run_frame_but r f p (files s) fs (fork_data f Hf)) as [Hdb Hm]; [by eapply fl_ctx_extend_frame; [|apply fork_data]|].
  split_and!; [done|done|done|by eapply fl_ctx_extend_data].
Qed.

(** ** The record of a relocation *)

Section move.
Context (s : MS) (r : RelFileLocator) (f : ForkNumber) (l blk idx n old p : Z) (pg d : list Z).
Context (Hsh : shared ks bars s) (Hrd : ready s r f l blk idx n pg) (Hln : l < n) (Hsu : super_ready r s).
Context (Hold : 0 ≤ old < fl_nblocks_sparse (files s) r f) (Hoi : old ≠ InvalidBlockNumber).
Context (Hd : fl_content (files s) r f old = Some d).
Context (Hp : 0 ≤ p < InvalidBlockNumber - 1) (Hnz : nonzero (<[Z.to_nat idx := p]> pg)).

Record replayed_move s' : Prop := {
  rm_shared : shared ks bars s';
  rm_super : super_ready r s';
  rm_sizes : ∀ r' g, trusted_size (w_store (ms_world s')) r' g = trusted_size (w_store (ms_world s)) r' g;
  rm_pages : ∀ r' f' blk', map_page s' r' f' blk' =
    if decide ((r', f', blk') = (r, f, blk)) then Some (<[Z.to_nat idx := p]> pg) else map_page s r' f' blk';
  rm_data : data_but r f p (files s) (files s');
  rm_copy : fl_content (files s') r f p = Some d;
  rm_exists : ∀ r', fl_exists (files s') r' UMBRA_METADATA_FORKNUM = fl_exists (files s) r' UMBRA_METADATA_FORKNUM;
}.

Lemma replayed_same s1 s2 :
  replayed_move s1 → shared ks bars s2 → super_ready r s2 → same_pages s1 s2 → files s2 = files s1 → replayed_move s2.
Proof using Type.
  intros [Hs Hr Hz Hm Hdb Hc Hx] Hs2 Hr2 [Hz2 Hm2] Hfs.
  split; [done|done|by intros; rewrite Hz2|by intros; rewrite Hm2|by rewrite Hfs..].
Qed.

(** The copy, with the map as it was. *)
Lemma wp_redo_copy :
  wp (redo_copy r f old p)
    (λ b s', b = true ∧ ∃ fs, s' = with_files fs s ∧ same_meta (files s) fs ∧ data_but r f p (files s) fs ∧
       fl_content fs r f p = Some d) (λ er _, redo_error er) s.
Proof using Hsh Hrd Hold Hd DataFilesLaws0.
  pose proof Hrd as [Hf _ _ _ _]. destruct (fl_content_wf _ _ _ _ _ Hd) as [Hlen Hby].
  apply wp_bind, wp_gets. change (w_files (ms_world s)) with (files s). rewrite decide_True by lia.
  apply wp_bind, (wp_lift _ d).
  { apply fl_read_spec; [unfold BLCKSZ; lia|]. exists d. by rewrite take_ge by lia. }
  apply wp_bind. eapply wp_mono; [by apply wp_redo_write| |done]. intros ? s1 Hs1. by apply wp_ret.
Qed.

Lemma wp_redo_move lsn :
  wp (redo_map_set env (MkMapSet r f l old p) lsn) (λ _ s', replayed_move s') (λ er _, redo_error er) s.
Proof using All.
  pose proof Hrd as [Hf Hl Hloc Hn Hv]. unfold redo_map_set. cbn [ms_rlocator ms_forknum ms_lblkno ms_old_pblkno ms_new_pblkno].
  rewrite decide_True by done. apply wp_bind. eapply wp_mono; [apply wp_redo_copy| |done].
  intros ? s1 (-> & fs & -> & Hmeta & Hdb & Hcp). pose proof (shared_files ks bars s fs Hsh Hmeta) as Hs1.
  assert (is_u32 p) as Hpu by (unfold is_u32, InvalidBlockNumber in *; lia).
  apply wp_bind. eapply wp_mono; [eapply (set_run env (with_files fs s) r f l blk idx n p lsn pg);
    [by eapply shared_map|done|done|done|done|done|done|by rewrite map_page_files|done]| |].
  2: { intros er s2 Her. left. by exists (ms_sys s). }
  intros ? s2 (Hi2 & Hio & Hb2 & Hm2).
  assert (replayed_move s2) as Hr2.
  { pose proof Hio as (Est & _ & Hx & _ & _ & Hdd).
    split; [by eapply shared_same|unfold super_ready, world_ready; by rewrite Est|by intros; rewrite Est| | |
      |intros; rewrite Hx; apply Hmeta].
    - intros. rewrite Hm2. case_decide; [done|]. by rewrite map_page_files.
    - eapply data_but_trans; [exact Hdb|]. by apply data_step_but, same_data_step; [apply fork_data|].
    - rewrite <-Hcp. by apply Hdd, fork_data. }
  unfold InvalidBlockNumber in *. rewrite u32_small by (unfold is_u32; lia).
  assert (0 ≤ p + 1 ≤ MaxBlockNumber) as Hp1 by (unfold MaxBlockNumber; lia).
  apply wp_bind. eapply wp_mono; [eapply (wp_bump s2 r f n); [by apply Hr2|by apply Hr2|done|by rewrite (rm_sizes _ Hr2)|done]| |done].
  intros ? s3 (Hs3 & Hu3 & Hm3 & _ & Hf3). apply wp_bind. rewrite decide_False by done. apply wp_ret, wp_when; [|done]. intros _.
  assert (replayed_move s3) as Hr3 by by eapply replayed_same.
  eapply wp_mono; [eapply (wp_bump s3 r f n); [by apply Hr3|by apply Hr3|done|by rewrite (rm_sizes _ Hr3)|done]| |done].
  intros ? s4 (Hs4 & Hu4 & Hm4 & _ & Hf4). by eapply replayed_same.
Qed.

(** The entries and the blocks afterwards. *)
Lemma replayed_entries s' r' f' l' :
  replayed_move s' → is_u32 l' →
  entry_at s' r' f' l' = if decide ((r', f', l') = (r, f, l)) then p else entry_at s r' f' l'.
Proof using Hsh Hrd.
  intros Hs Hl'. apply (moved_entries s s' r f l blk idx n p pg); [by eapply shared_map|done| |done].
  apply (rm_pages _ Hs).
Qed.

Lemma replayed_logical s' r' f' l' d' :
  replayed_move s' → entry_at s r f l = old → fork_mapped f' → is_u32 l' →
  (r', f') ≠ (r, f) ∨ entry_at s r f l' ≠ p →
  logical_block s r' f' l' = Some d' → logical_block s' r' f' l' = Some d'.
Proof using Hsh Hrd Hoi Hd Hp.
  intros Hs Ho Hf' Hl' Hfresh. destruct (decide ((r', f', l') = (r, f, l))) as [[= -> -> ->]|Hne].
  - unfold logical_block, block_at. replace (entry_at s' r f l) with p by (by rewrite replayed_entries, decide_True).
    rewrite Ho, !decide_False by (done || unfold InvalidBlockNumber in *; lia). rewrite Hd. by rewrite (rm_copy _ Hs).
  - apply (kept_logical s s' r f p); [by eapply shared_map|by apply rm_data|done..|].
    by rewrite replayed_entries, decide_False.
Qed.
End move.

(** ** The record of a new block *)

Section birth.
Context (gucs : MapGucs) (s : MS) (r : RelFileLocator) (f : ForkNumber) (n blk idx p : Z) (pg : list Z).
Context (Hsh : shared ks bars s) (Hrd : ready s r f n blk idx n pg) (Hsu : super_ready r s).
Context (Hp : 0 ≤ p < InvalidBlockNumber - 1) (Hnz : nonzero (<[Z.to_nat idx := p]> pg)).
Context (Hmax : n < MaxBlockNumber).

Record replayed_birth s' : Prop := {
  rb_shared : shared ks bars s';
  rb_super : super_ready r s';
  rb_sizes : grown s r f n (ms_world s');
  rb_pages : remapped s r f blk idx p pg s';
  rb_data : data_but r f p (files s) (files s');
  rb_zero : fl_content (files s') r f p = Some zero_block;
}.

Lemma wp_redo_birth lsn :
  wp (redo_map_set env (MkMapSet r f n InvalidBlockNumber p) lsn) (λ _ s', replayed_birth s') (λ er _, redo_error er) s.
Proof using All.
  pose proof Hrd as [Hf Hl Hloc Hn Hv]. unfold redo_map_set.
  cbn [ms_rlocator ms_forknum ms_lblkno ms_old_pblkno ms_new_pblkno].
  rewrite decide_False by (by intros []). apply wp_bind, wp_ret.
  apply wp_bind. eapply wp_mono; [by eapply (wp_set_unsized env gucs ks bars s r f n blk idx p pg)| |].
  2: { intros er s2 Her. left. by exists (ms_sys s). }
  intros ? s1 (Hu1 & _ & Hd1). apply wp_bind.
  eapply wp_mono; [by eapply (wp_next_unsized env gucs ks bars s r f n blk idx p pg)| |done].
  intros ? s2 (Hu2 & _ & Hf2). apply wp_bind. rewrite decide_True by done. apply wp_bind, wp_lift_files; [intros er Her; right; by eauto 10|]. intros fs Hext.
  destruct (run_frame_but r f p (files s2) fs (fork_data f Hf)) as [Hdb Hm];
    [by eapply fl_ctx_extend_frame; [|apply fork_data]|].
  pose proof (fl_ctx_extend_data _ _ _ _ _ _ Hext zero_block_full) as Hz.
  rewrite (u32_small (n + 1)) by (unfold is_u32, MaxBlockNumber in *; lia). apply wp_bind. eapply wp_mono;
    [eapply (wp_size_unsized env gucs ks bars s r f n blk idx p pg); [done..|exact (unsized_files _ _ _ _ _ _ _ _ _ _ _ fs Hu2 Hm)]| |done].
  intros ? s3 (Hs3 & Hrm3 & Hg3 & Hu3 & _ & _ & Hf3). change (files (with_files fs s2)) with fs in Hf3.
  apply wp_ret, wp_when; [|done]. intros _.
  unfold InvalidBlockNumber in *. rewrite u32_small by (unfold is_u32; lia). eapply wp_mono;
    [eapply (wp_bump s3 r f (n + 1)); [done|done|done|by rewrite Hg3, decide_True|unfold MaxBlockNumber; lia]| |done].
  intros ? s4 (Hs4 & Hu4 & [Hz4 Hm4] & _ & Hf4). split; [done|done|..].
  - intros r' g. by rewrite Hz4.
  - intros r' f' blk' Hb. by rewrite Hm4, Hrm3.
  - rewrite Hf4, Hf3. eapply data_but_trans; [|exact Hdb]. rewrite Hf2. by apply data_step_but, same_data_step; [apply fork_data|].
  - by rewrite Hf4, Hf3.
Qed.

(** The entries and the blocks afterwards. *)
Lemma birth_entries s' r' f' l' :
  replayed_birth s' → is_u32 l' → 0 < page_pos f' (l' / 2048) ≤ MaxBlockNumber →
  entry_at s' r' f' l' = if decide ((r', f', l') = (r, f, n)) then p else entry_at s r' f' l'.
Proof using Hsh Hrd.
  intros Hs Hl' Hpos. apply (moved_entries s s' r f n blk idx n p pg); [by eapply shared_map|done| |done].
  by apply (rb_pages _ Hs).
Qed.

Lemma birth_entry s' : replayed_birth s' → entry_at s' r f n = p.
Proof using Hsh Hrd.
  intros Hs. pose proof Hrd as [Hf Hl Hloc _ _]. destruct (entry_location_ok f n blk idx Hf Hl Hloc) as (Eb & _ & Hpos & _).
  rewrite birth_entries, decide_True by (done || by rewrite <-Eb). done.
Qed.

Lemma mapped_page f' l' : 0 ≤ l' ≤ max_mapped_lblk f' → is_u32 l' ∧ 0 < page_pos f' (l' / 2048) ≤ MaxBlockNumber.
Proof using Type.
  intros Hl'. unfold is_u32, page_pos, max_mapped_lblk, MaxBlockNumber in *. clear - Hl'. destruct f'; ulia.
Qed.

Lemma birth_logical s' r' f' l' d :
  replayed_birth s' → fork_mapped f' → 0 ≤ l' ≤ max_mapped_lblk f' → (r', f', l') ≠ (r, f, n) →
  (r', f') ≠ (r, f) ∨ entry_at s r f l' ≠ p →
  logical_block s r' f' l' = Some d → logical_block s' r' f' l' = Some d.
Proof using Hsh Hrd.
  intros Hs Hf' Hl' Hne Hfresh. destruct (mapped_page f' l' Hl') as [Hu Hpos].
  apply (kept_logical s s' r f p); [by eapply shared_map|by apply rb_data|done..|].
  by rewrite birth_entries, decide_False.
Qed.
End birth.

(** ** Replay of one record *)

Context (sleep : MS → MS) (frame : Z) (ensure fuel : nat).

Lemma wp_redo_existing r (m : M C unit) Q (E : pg_error → C → Prop) (c : C) :
  is_Some (sm_handles (x_smgr (c_x c)) !! perm r) → fl_exists (files (c_map c)) r UMBRA_METADATA_FORKNUM = true →
  wp m Q E c → wp (redo_existing r m) Q E c.
Proof.
  intros [h Hh] Hex Hm. apply wp_bind, wp_in_x, wp_in_state, wp_bind, wp_gets. rewrite Hh. apply wp_ret.
  apply wp_bind, wp_in_x, wp_in_state, wp_gets. destruct c as [[[] ] ].
  change (fl_exists (reln_files _ _) _ _) with (fl_exists (files sm_map) r UMBRA_METADATA_FORKNUM).
  change (fl_exists (files sm_map) r UMBRA_METADATA_FORKNUM = true) in Hex. by rewrite Hex.
Qed.

(** ** Replay of the log of a compaction *)

Section log.
Context (r : RelFileLocator) (f : ForkNumber) (n : Z).
(** The contents of the logical blocks. *)
Context (K : RelFileLocator → ForkNumber → Z → list Z → Prop).

(** The recovering server [cr] has the map and the blocks of the server [c] it
    follows. *)
Record recovered (c cr : C) : Prop := {
  rv_shared : shared ks bars (c_map cr);
  rv_super : super_ready r (c_map cr);
  rv_size : trusted_size (w_store (ms_world (c_map cr))) r f = Some n;
  rv_covered : covered (c_map cr) r f 0 n;
  rv_handle : is_Some (sm_handles (x_smgr (c_x cr)) !! perm r);
  rv_exists : fl_exists (files (c_map cr)) r UMBRA_METADATA_FORKNUM = true;
  rv_entries : ∀ r' f' l', is_u32 l' → entry_at (c_map cr) r' f' l' = entry_at (c_map c) r' f' l';
  rv_range : ∀ r' f' l' d, K r' f' l' d → fork_mapped f' ∧ is_u32 l' ∧ ((r', f') = (r, f) → l' < n);
  rv_blocks : ∀ r' f' l' d, K r' f' l' d →
    logical_block (c_map c) r' f' l' = Some d ∧ logical_block (c_map cr) r' f' l' = Some d;
}.

Lemma mapped_u32 l : 0 < n ≤ max_mapped_lblk f + 1 → 0 ≤ l < n → is_u32 l.
Proof using Type. unfold is_u32, max_mapped_lblk. destruct f; lia. Qed.

(** What the fork is like before the replay of a move. *)
Lemma recovered_ready ks0 bars0 B c cr l p e :
  compactable ks0 bars0 r f n B c → recovered c cr → 0 ≤ l < n →
  ss_map (w_store (ms_world (c_map c))) !! r = Some e → p = fork_reserved e f → 0 ≤ p < InvalidBlockNumber - 1 →
  entry_at (c_map c) r f l ≠ p ∧
  (entry_at (c_map c) r f l ≠ InvalidBlockNumber →
   ∃ pg, ready (c_map cr) r f l (page_pos f (l / 2048)) (l mod 2048) n pg ∧
     nonzero (<[Z.to_nat (l mod 2048) := p]> pg)).
Proof using Type.
  intros Hc Hcr Hl He Hp Hp1. pose proof Hc as [Hf Hr _ _ _ (_ & e0 & He0 & _ & _ & _ & _ & Hbe) _ _].
  assert (e0 = e) as -> by congruence. rewrite <-Hp in Hbe.
  pose proof (mapped_u32 l Hr Hl) as Hlu. destruct (rv_covered _ _ Hcr l) as [pg Hpg]; [lia|].
  assert (ready (c_map cr) r f l (page_pos f (l / 2048)) (l mod 2048) n pg) as Hrd
    by (split; [done|done|apply entry_location_at; [done|done|lia]|by apply Hcr|done]).
  assert (0 < page_pos f (l / 2048)) as Hpos by (unfold page_pos; destruct f; ulia).
  pose proof (map_page_ok _ _ _ _ _ (shared_map _ _ _ (rv_shared _ _ Hcr)) Hpos Hpg) as Hok.
  specialize (Hbe l ltac:(unfold in_pages, map_pages; ulia)). pose proof (entry_at_u32 _ r f l (shared_map _ _ _ (cp_shared _ _ _ _ _ _ _ Hc)) Hlu) as Hu.
  split; [destruct Hbe as [->|?]; unfold InvalidBlockNumber in *; lia|]. intros Hv. exists pg. split; [done|].
  destruct Hbe as [?|Hbe]; [done|]. assert (is_u32 p) as Hpu by (unfold is_u32, InvalidBlockNumber in *; lia).
  apply (nonzero_entry _ (Z.to_nat (l mod 2048)) p); [by apply insert_page_ok| |unfold is_u32 in Hu; lia].
  destruct Hok as [Hlen _]. apply list_lookup_insert_eq. rewrite Hlen. change MAP_ENTRIES_PER_PAGE with 2048. ulia.
Qed.

(** A block with contents, and where it may lie. *)
Definition movable (m : Z * Z) : Prop :=
  0 ≤ m.1 < n ∧ 0 ≤ m.2 ∧ m.2 ≠ InvalidBlockNumber ∧ ∃ d, K r f m.1 d.

(** The physical size of a data fork covers its blocks. *)
Context (Hsparse : ∀ (fs : F) b d, fl_content fs r f b = Some d → b < fl_nblocks_sparse fs r f).

Lemma wp_redo_step ks0 bars0 B c cr c' l old p e lsn :
  compactable ks0 bars0 r f n B c → recovered c cr → movable (l, old) →
  ss_map (w_store (ms_world (c_map c))) !! r = Some e → p = fork_reserved e f → 0 ≤ p < InvalidBlockNumber - 1 →
  keeps_blocks r f n (c_map c) (c_map c') → entry_at (c_map c) r f l = old →
  (∀ r' f' l', is_u32 l' → entry_at (c_map c') r' f' l' =
     if decide ((r', f', l') = (r, f, l)) then p else entry_at (c_map c) r' f' l') →
  wp (redo_record env sleep frame ensure fuel (XlMapSet (MkMapSet r f l old p)) lsn)
    (λ _ cr', recovered c' cr') (λ er _, redo_error er) cr.
Proof using All.
  intros Hc Hcr (Hl & Ho & Hoi & d & HK) He Hp Hp1 Hk Hlo Hent'.
  cbn [fst snd] in *. pose proof Hcr as [Hsh Hsu Hz Hcov Hh Hx Hent Hrg Hbl].
  pose proof (λ l' Hl', recovered_ready ks0 bars0 B c cr l' p e Hc Hcr Hl' He Hp Hp1) as Hready.
  destruct (proj2 (Hready l Hl)) as (pg & Hrd & Hnz); [by rewrite Hlo|].
  assert (entry_at (c_map cr) r f l = old) as Hlo' by (by rewrite Hent by apply Hrd).
  destruct (Hbl _ _ _ _ HK) as [_ Hd].
  unfold logical_block, block_at in Hd. rewrite Hlo', decide_False in Hd by done.
  apply wp_redo_existing; [done|done|]. apply wp_at_ms. eapply wp_mono;
    [eapply (wp_redo_move (c_map cr) r f l _ _ n old p pg d); [done|done|lia|done| |done..]| |done].
  { split; [done|by eapply Hsparse]. }
  intros ? s' Hs'. set (cr' := c_at cr s').
  pose proof (λ r' f' l', replayed_entries (c_map cr) r f l _ _ n p pg d Hsh Hrd s' r' f' l' Hs') as Hae.
  split; change (c_map cr') with s'.
  - by apply Hs'.
  - by apply Hs'.
  - by rewrite (rm_sizes _ _ _ _ _ _ _ _ _ Hs').
  - intros l' Hl'. rewrite (rm_pages _ _ _ _ _ _ _ _ _ Hs'). case_decide; [by eexists|by apply Hcov].
  - done.
  - by rewrite (rm_exists _ _ _ _ _ _ _ _ _ Hs').
  - intros r' f' l' Hl'. rewrite Hae, Hent' by done. case_decide; [done|by apply Hent].
  - done.
  - intros r' f' l' d' HK'. destruct (Hrg _ _ _ _ HK') as (Hf' & Hl' & Hn'), (Hbl _ _ _ _ HK') as [Hb1 Hb2].
    split; [by apply Hk|]. eapply (replayed_logical (c_map cr) r f l); [done..|exact Hs'|done|done|done| |done].
    destruct (decide ((r', f') = (r, f))) as [[= -> ->]|?]; [right|by left].
    rewrite Hent by done. apply Hready. split; [unfold is_u32 in Hl'; lia|by apply Hn'].
Qed.

(** ** A whole log *)

Lemma recovered_idle c c1 cr :
  recovered c cr → keeps_blocks r f n (c_map c) (c_map c1) →
  (∀ r' f' l', is_u32 l' → entry_at (c_map c1) r' f' l' = entry_at (c_map c) r' f' l') → recovered c1 cr.
Proof using Type.
  intros [Hsh Hsu Hz Hcov Hh Hx Hent Hrg Hbl] Hk He. split; [done..| |done|].
  - intros r' f' l' Hl'. by rewrite He, Hent.
  - intros r' f' l' d HK. destruct (Hrg _ _ _ _ HK) as (? & ? & ?), (Hbl _ _ _ _ HK). split; [by apply Hk|done].
Qed.

Lemma redo_relocations env0 advance lock_free ks0 bars0 B moves c c' :
  compactable ks0 bars0 r f n B c → InRecovery env0 = false → Forall movable moves →
  relocate_all env0 advance lock_free r f moves c = (Ok tt, c') →
  ∃ recs, wal_records (x_wal (c_x c')) = wal_records (x_wal (c_x c)) ++ recs ∧
    ∀ cr, recovered c cr →
      wp (redo_all env sleep frame ensure fuel recs) (λ _ cr', recovered c' cr') (λ er _, redo_error er) cr.
Proof using All.
  intros Hc Hrec Hall. revert c Hc. induction Hall as [|[l old] moves Hm _ IH]; intros c Hc.
  { intros [= <-]. exists []. rewrite app_nil_r. split; [done|]. intros cr Hcr. by apply wp_ret. }
  cbn [relocate_all]. unfold mbind, M_bind.
  pose proof Hc as [_ _ _ _ _ (_ & e & He & _) _ _]. pose proof Hm as (Hl & Ho & Hoi & _).
  pose proof (relocation_step env0 advance lock_free ks0 bars0 c r f n B l old e Hc Hrec Hl Ho Hoi He) as Hst.
  destruct (MapCompactorRelocateEntry _ _ _ _ _ _ _ _) as [[moved|er] c1]; [|done].
  destruct Hst as (Hc1 & Hk & Hent & Hlo & Hp & Hw). intros Hrest.
  destruct (IH c1 Hc1 Hrest) as (recs & Ew & Hre). destruct moved.
  - exists ((wal_end (x_wal (c_x c1)), XlMapSet (MkMapSet r f l old (fork_reserved e f))) :: recs). split.
    { rewrite Ew, Hw. cbn. by rewrite <-app_assoc. }
    intros cr Hcr. cbn [redo_all]. apply wp_bind.
    eapply wp_mono; [apply (wp_redo_step ks0 bars0 B c cr c1 l old _ e); try done; [by apply Hp|by apply Hlo|]
      |intros ? cr1; apply Hre|done].
    intros r' f' l' Hl'. rewrite Hent by done. apply decide_ext. clear. by intuition.
  - exists recs. split; [by rewrite Ew, Hw|]. intros cr Hcr. apply Hre. eapply recovered_idle; [done|done|].
    intros r' f' l' Hl'. rewrite Hent by done. by rewrite decide_False by (by intros [? _]).
Qed.
End log.
End replay.

(** ** The properties *)

(** C15: Replay of the log of a compaction: when a sequence of moves of a fork
    succeeds, replaying the records it logged on a recovering server that had
    the same map and the same blocks, ends with an error of the map or file
    layer or with the map that the moves led to and with the contents of every
    logical block. *)
Theorem compaction_log_replays {T F : Type} `{SuperStoreLaws T} `{FileLayerLaws F} `{!DataFiles F}
    `{!DataFilesLaws F} `{!FileRemoval F} env0 env advance lock_free sleep frame ensure fuel ks0 bars0 ks bars
    r f n B K moves (c c' cr : CState T F) :
  (∀ (fs : F) b d, fl_content fs r f b = Some d → b < fl_nblocks_sparse fs r f) →
  compactable ks0 bars0 r f n B c → InRecovery env0 = false → recovered ks bars r f n K c cr →
  Forall (movable r f n K) moves → relocate_all env0 advance lock_free r f moves c = (Ok tt, c') →
  ∃ recs, wal_records (x_wal (c_x c')) = wal_records (x_wal (c_x c)) ++ recs ∧
    match redo_all env sleep frame ensure fuel recs cr with
    | (Ok _, cr') => recovered ks bars r f n K c' cr'
    | (Err er, _) => redo_error (F := F) er
    end.
Proof.
  intros Hsp Hc Hrec Hcr Hm Hrun. edestruct (redo_relocations env ks bars sleep frame ensure fuel r f n K Hsp env0)
    as (recs & Ew & Hre); [done..|]. exists recs. split; [done|]. by apply Hre.
Qed.

(** C16: Replay of the record of a new block at the end of a fork ends with an
    error of the map or file layer, or the fork is one block longer, the block
    is mapped to the place the record names and reads as zeros, and every
    other block that is not at that place keeps its contents. *)
Theorem birth_replay_appends {T F : Type} `{SuperStoreLaws T} `{FileLayerLaws F} `{!DataFiles F}
    `{!DataFilesLaws F} `{!FileRemoval F} env sleep frame ensure fuel ks bars r f n blk idx p pg lsn
    (c : CState T F) :
  shared ks bars (c_map c) → ready (c_map c) r f n blk idx n pg → super_ready r (c_map c) →
  0 ≤ p < InvalidBlockNumber - 1 → nonzero (<[Z.to_nat idx := p]> pg) → n < MaxBlockNumber →
  is_Some (sm_handles (x_smgr (c_x c)) !! perm r) → fl_exists (files (c_map c)) r UMBRA_METADATA_FORKNUM = true →
  match redo_record env sleep frame ensure fuel (XlMapSet (MkMapSet r f n InvalidBlockNumber p)) lsn c with
  | (Ok _, c') =>
      shared ks bars (c_map c') ∧
      (∀ r' g, trusted_size (w_store (ms_world (c_map c'))) r' g =
         if decide ((r', g) = (r, f)) then Some (n + 1) else trusted_size (w_store (ms_world (c_map c))) r' g) ∧
      entry_at (c_map c') r f n = p ∧ logical_block (c_map c') r f n = Some zero_block ∧
      ∀ r' f' l' d, fork_mapped f' → 0 ≤ l' ≤ max_mapped_lblk f' → (r', f', l') ≠ (r, f, n) →
        (r', f') ≠ (r, f) ∨ entry_at (c_map c) r f l' ≠ p →
        logical_block (c_map c) r' f' l' = Some d → logical_block (c_map c') r' f' l' = Some d
  | (Err er, _) => redo_error (F := F) er
  end.
Proof.
  intros Hsh Hrd Hsu Hp Hnz Hmax Hh Hx. set (gucs := MkMapGucs 0 0 0 0 0 0 0 0 0).
  assert (wp (redo_record env sleep frame ensure fuel (XlMapSet (MkMapSet r f n InvalidBlockNumber p)) lsn)
    (λ _ c', replayed_birth ks bars (c_map c) r f n blk idx p pg (c_map c')) (λ er _, redo_error (F := F) er) c) as Hrun.
  { apply wp_redo_existing; [done|done|]. apply wp_at_ms.
    by eapply (wp_redo_birth env ks bars gucs (c_map c) r f n blk idx p pg). }
  unfold wp in Hrun. destruct (redo_record _ _ _ _ _ _ _ _) as [[u|er] c']; [|done].
  assert (entry_at (c_map c') r f n = p) as He by (by eapply birth_entry).
  split_and!; [apply Hrun|apply Hrun|done| |].
  - unfold logical_block, block_at. rewrite He, decide_False by (unfold InvalidBlockNumber in *; lia). apply Hrun.
  - intros. by eapply (birth_logical ks bars (c_map c) r f n).
Qed.

(** ** Witnesses *)

Lemma rf_sparse_covers (fs : RefFiles) r f b d : fl_content fs r f b = Some d → b < fl_nblocks_sparse fs r f.
Proof.
  change (fl_content fs r f b) with (rf_content fs r f b). unfold rf_content, rf_block. cbn.
  destruct (rf_forks fs !! (r, f)) as [m|]; [|done]. cbn.
  destruct (m !! b) as [d0|] eqn:Hb; [|done]. intros _. by eapply rf_nblocks_bound.
Qed.

Definition demo_blocks (r : RelFileLocator) (f : ForkNumber) (l : Z) (d : list Z) : Prop :=
  (r, f, l, d) = (demo_rel, MAIN_FORKNUM, 0, demo_data).

Definition demo_redo_env : Env := MkEnv true 0 100.

Lemma demo_recovered : ∃ ks, compactable ks [] demo_rel MAIN_FORKNUM 2 262144 demo_c ∧
  recovered ks [] demo_rel MAIN_FORKNUM 2 demo_blocks demo_c demo_c.
Proof.
  destruct demo_c_compactable as [ks Hc]. exists ks. split; [exact Hc|].
  pose proof Hc as [Hf Hr Hz Hsh Hcov (Hw & e & He & Hu & _) _ _]. split; [exact Hsh| |exact Hz|exact Hcov|..].
  - split; [exact Hw|]. exists e. split; [exact He|exact Hu].
  - vm_compute. by eexists.
  - vm_compute. exact eq_refl.
  - intros r' f' l' _. exact eq_refl.
  - intros r' f' l' d [= -> -> -> ->]. split; [by left|]. split; [exact (u32_of_bool 0 eq_refl)|]. intros _. exact eq_refl.
  - intros r' f' l' d [= -> -> -> ->].
    assert (logical_block (c_map demo_c) demo_rel MAIN_FORKNUM 0 = Some demo_data) as Hd; [|by split].
    unfold logical_block, block_at. rewrite demo_c_entry by (split; [discriminate|exact eq_refl]).
    vm_compute. exact eq_refl.
Qed.

Lemma compaction_log_replays_witness :
  ∃ c' rec cr', relocate_all demo_env demo_advance (λ _, true) demo_rel MAIN_FORKNUM [(0, 7)] demo_c = (Ok tt, c') ∧
    wal_records (x_wal (c_x c')) = [rec] ∧
    redo_all demo_redo_env id 0 1 1 [rec] demo_c = (Ok tt, cr') ∧
    logical_block (c_map cr') demo_rel MAIN_FORKNUM 0 = Some demo_data ∧
    entry_at (c_map cr') demo_rel MAIN_FORKNUM 0 = entry_at (c_map c') demo_rel MAIN_FORKNUM 0.
Proof.
  destruct demo_recovered as (ks & Hc & Hr).
  set (run := relocate_all demo_env demo_advance (λ _, true) demo_rel MAIN_FORKNUM [(0, 7)] demo_c).
  assert (run.1 = Ok tt) as Hres by (vm_compute; exact eq_refl).
  set (rec := (wal_end (x_wal (c_x run.2)), XlMapSet (MkMapSet demo_rel MAIN_FORKNUM 0 7 262144))).
  assert (wal_records (x_wal (c_x run.2)) = [rec]) as Hw by (vm_compute; exact eq_refl).
  assert ((redo_all demo_redo_env id 0 1 1 [rec] demo_c).1 = Ok tt) as Hredo by (vm_compute; exact eq_refl).
  destruct (compaction_log_replays demo_env demo_redo_env demo_advance (λ _, true) id 0 1 1 ks [] ks []
    demo_rel MAIN_FORKNUM 2 262144 demo_blocks [(0, 7)] demo_c run.2 demo_c
    (λ fs b d, rf_sparse_covers fs demo_rel MAIN_FORKNUM b d) Hc eq_refl Hr) as (recs & Ew & Hre).
  - constructor; [|constructor]. split; [split; [discriminate|exact eq_refl]|]. split; [discriminate|]. split; [discriminate|].
    exists demo_data. exact eq_refl.
  - rewrite <-Hres. exact (surjective_pairing run).
  - change (wal_records (x_wal (c_x demo_c))) with (@nil (Z * umbra_record)) in Ew. rewrite Hw in Ew.
    cbn [app] in Ew. subst recs. exists run.2, rec.
    destruct (redo_all _ _ _ _ _ _ _) as [res cr'] eqn:Hrun. cbn [fst] in Hredo. subst res. exists cr'.
    split; [rewrite <-Hres; exact (surjective_pairing run)|]. split; [exact Hw|]. split; [exact eq_refl|].
    split; [exact (proj2 (rv_blocks _ _ _ _ _ _ _ _ Hre demo_rel MAIN_FORKNUM 0 demo_data eq_refl))|].
    exact (rv_entries _ _ _ _ _ _ _ _ Hre demo_rel MAIN_FORKNUM 0 (u32_of_bool 0 eq_refl)).
Defined.

Lemma birth_replay_appends_witness :
  ∃ c', redo_record demo_redo_env id 0 1 1 (XlMapSet (MkMapSet demo_rel MAIN_FORKNUM 2 InvalidBlockNumber 262144)) 100
      demo_c = (Ok tt, c') ∧
    trusted_size (w_store (ms_world (c_map c'))) demo_rel MAIN_FORKNUM = Some 3 ∧
    logical_block (c_map c') demo_rel MAIN_FORKNUM 2 = Some zero_block.
Proof.
  destruct demo_recovered as (ks & Hc & [Hsh Hsu Hz _ Hh Hx _ _ _]).
  assert (ready (c_map demo_c) demo_rel MAIN_FORKNUM 2 3 2 2 demo_two_page) as Hrd
    by (split; [by left|exact (u32_of_bool 2 eq_refl)|exact eq_refl|exact Hz|exact demo_c_page]).
  assert (nonzero (<[Z.to_nat 2 := 262144]> demo_two_page)) as Hnz by (vm_compute; discriminate).
  pose proof (birth_replay_appends demo_redo_env id 0 1 1 ks [] demo_rel MAIN_FORKNUM 2 3 2 262144 demo_two_page 100
    demo_c Hsh Hrd Hsu ltac:(unfold InvalidBlockNumber; lia) Hnz eq_refl Hh Hx) as Hrun.
  assert ((redo_record demo_redo_env id 0 1 1 (XlMapSet (MkMapSet demo_rel MAIN_FORKNUM 2 InvalidBlockNumber 262144)) 100
      demo_c).1 = Ok tt) as Hres by (vm_compute; exact eq_refl).
  destruct (redo_record _ _ _ _ _ _ _ _) as [res c']. cbn [fst] in Hres. subst res.
  destruct Hrun as (_ & Hts & _ & Hd & _). exists c'. split; [exact eq_refl|]. split; [exact (Hts _ _)|exact Hd].
Defined.

(** The log of a move out of segment 0 and of the removal of that segment. *)
Definition demo_log : list (Z * umbra_record) :=
  [(100, XlMapSet (MkMapSet demo_rel MAIN_FORKNUM 0 7 262144));
   (101, XlReclaimUnlink (MkUnlink demo_rel MAIN_FORKNUM 0))].

