(* ===== verification/UmFile.v ===== *)
(** * The segment files of a relation

    [storage/smgr/umfile.c]: the backend's table of open segments, opening and
    creating them, and the reads, writes, extensions, truncations, syncs and
    removals of blocks.  The physical forks of a mapped relation may have
    missing segments; the metadata and init forks are dense. *)

From S2P Require Import Prelude FileLayer SmgrFiles UmOs.
From stdpp Require Import sorting.

Local Open Scope Z_scope.

Definition UM_EXTENSION_FAIL : Z := Z.shiftl 1 0.
Definition UM_EXTENSION_RETURN_NULL : Z := Z.shiftl 1 1.
Definition UM_EXTENSION_CREATE : Z := Z.shiftl 1 2.
Definition UM_EXTENSION_CREATE_RECOVERY : Z := Z.shiftl 1 3.
Definition UM_EXTENSION_DONT_OPEN : Z := Z.shiftl 1 5.

Inductive UmFileMode := UMFILE_DENSE | UMFILE_SPARSE.

#[global] Instance UmFileMode_eq_dec : EqDecision UmFileMode.
Proof. solve_decision. Defined.

Definition umfile_fork_allows_sparse_segments (k : ForkNumber) : bool :=
  match k with
  | MAIN_FORKNUM | FSM_FORKNUM | VISIBILITYMAP_FORKNUM => true
  | _ => false
  end.

Definition umfile_seg_entry_is_open (v : UmfdVec) : bool := bool_decide (is_Some (umfd_vfd v)).

(** [umfile_seg_entry_reset] *)
Definition closed_seg : UmfdVec := MkSeg None InvalidBlockNumber.

Definition umfile_preallocate_errno_is_unsupported (e : errno) : bool :=
  match e with EINVAL | EOPNOTSUPP | ENOSYS | ENOTSUP => true | _ => false end.

Definition segno_of (blkno : Z) : Z := blkno / RELSEG_SIZE.
Definition seekpos_of (blkno : Z) : Z := BLCKSZ * (blkno mod RELSEG_SIZE).

(** The open segments of a fork; [num_open_segs] is the length. *)
Definition seg_fds (u : UmFiles) (r : RelFileLocator) (k : ForkNumber) : list UmfdVec :=
  default [] (um_registry u !! r ≫= λ c, ctx_fds c !! k).

Definition set_seg_fds (r : RelFileLocator) (k : ForkNumber) (vs : list UmfdVec) (u : UmFiles)
    : UmFiles :=
  let c := default (MkCtx ∅) (um_registry u !! r) in
  with_registry (<[r := MkCtx (<[k := vs]> (ctx_fds c))]> (um_registry u)) u.

Fixpoint uniq (ns : list Z) : list Z :=
  match ns with
  | n :: ((m :: _) as rest) => if decide (n = m) then uniq rest else n :: uniq rest
  | _ => ns
  end.

Section umfile.
Context (fault : syscall → nat → option errno) (chunk : syscall → nat → Z → Z).
(** [temp]: [RelFileLocatorBackendIsTemp]; [data_sync_retry]: the setting behind
    [data_sync_elevel]. *)
Context (temp recovery zero_damaged_pages IsBinaryUpgrade data_sync_retry : bool).
Local Abbreviation U := UmFiles.
Local Abbreviation file_error e msg := (ereport ERROR (errcode_for_file_access e) msg).

(** ** Contexts *)

Definition umfile_ctx_lookup (r : RelFileLocator) : M U (option UmbraFileContext) :=
  g ← gets um_registry; mret (g !! r).

Definition umfile_ctx_acquire (r : RelFileLocator) : M U unit :=
  g ← gets um_registry;
  match g !! r with
  | Some _ => mret tt
  | None => modify (with_registry (<[r := MkCtx ∅]> g))
  end.

(** Closing the entries of a context drops them all. *)
Definition umfile_ctx_forget (r : RelFileLocator) : M U unit :=
  modify (λ u, with_registry (delete r (um_registry u)) u).

Definition umfile_fdvec_resize (r : RelFileLocator) (k : ForkNumber) (nseg : Z) : M U unit :=
  modify (λ u, set_seg_fds r k (resize (Z.to_nat nseg) closed_seg (seg_fds u r k)) u).

Definition put_seg (r : RelFileLocator) (k : ForkNumber) (segno : Z) (v : UmfdVec) : M U unit :=
  modify (λ u, set_seg_fds r k (<[Z.to_nat segno := v]> (seg_fds u r k)) u).

Definition num_open_segs (r : RelFileLocator) (k : ForkNumber) : M U Z :=
  gets (λ u, Z.of_nat (length (seg_fds u r k))).

Definition umfile_v_get (r : RelFileLocator) (k : ForkNumber) (i : Z) : M U UmfdVec :=
  gets (λ u, default closed_seg (seg_fds u r k !! Z.to_nat i)).

Definition umfile_ctx_close_fork (r : RelFileLocator) (k : ForkNumber) : M U unit :=
  umfile_fdvec_resize r k 0.

(** The handle of an entry; using a closed one violates an assertion of [fd.c]. *)
Definition vfd (v : UmfdVec) : M U nat :=
  match umfd_vfd v with Some ino => mret ino | None => throw bad_file end.

Definition umfile_nblocks_in_seg (v : UmfdVec) : M U Z :=
  ino ← vfd v;
  res ← FileSize fault ino;
  match res with
  | inl e => file_error e "could not seek to end of file"
  | inr len => mret (u32 (len / BLCKSZ))
  end.

(** ** Opening segments *)

(** Make room for entry [segno] and fill it; a dense fork opens its segments in
    order. *)
Definition install_seg (r : RelFileLocator) (k : ForkNumber) (segno : Z) (v : UmfdVec) : M U unit :=
  old_nseg ← num_open_segs r k;
  (if umfile_fork_allows_sparse_segments k
   then when (bool_decide (old_nseg ≤ segno)) (umfile_fdvec_resize r k (segno + 1))
   else umfile_fdvec_resize r k (segno + 1));;
  put_seg r k segno v.

(** [inl] is a null pointer with [errno]. *)
Definition umfile_openseg (r : RelFileLocator) (k : ForkNumber) (segno : Z) (creat : bool)
    : M U (errno + UmfdVec) :=
  res ← PathNameOpenFile fault (r, k, segno) creat false;
  match res with
  | inl e => mret (inl e)
  | inr fd =>
      install_seg r k segno (MkSeg (Some fd) segno);;
      mret (inr (MkSeg (Some fd) segno))
  end.

Definition umfile_openfork (r : RelFileLocator) (k : ForkNumber) (behavior : Z)
    : M U (option UmfdVec) :=
  n ← num_open_segs r k;
  if decide (0 < n) then v ← umfile_v_get r k 0; mret (Some v)
  else
    res ← PathNameOpenFile fault (r, k, 0) false false;
    match res with
    | inl e =>
        if has_flag behavior UM_EXTENSION_RETURN_NULL && FILE_POSSIBLY_DELETED e
        then mret None else file_error e "could not open file"
    | inr fd =>
        umfile_fdvec_resize r k 1;;
        put_seg r k 0 (MkSeg (Some fd) 0);;
        mret (Some (MkSeg (Some fd) 0))
    end.

Definition fsync_failed {A} (e : errno) : M U A :=
  ereport (if data_sync_retry then ERROR else PANIC) (errcode_for_file_access e)
    "could not fsync file".

Definition umfile_register_dirty_seg (r : RelFileLocator) (k : ForkNumber) (v : UmfdVec) : M U unit :=
  if bool_decide (relNumber r = 0) || bool_decide (spcOid r = 0)
  then elog PANIC "invalid Umbra relation locator in fsync registration"
  else
    ok ← RegisterSyncRequest fault (SYNC_REQUEST (r, k, umfd_segno v)) false;
    if (ok : bool) then mret tt
    else
      ino ← vfd v;
      res ← FileSync fault ino;
      match res with
      | None => mret tt
      | Some e => fsync_failed e
      end.

Definition umfile_register_unlink_seg (r : RelFileLocator) (k : ForkNumber) (segno : Z) : M U unit :=
  RegisterSyncRequest fault (SYNC_UNLINK_REQUEST (r, k, segno)) true;; mret tt.

Definition umfile_register_forget_seg (r : RelFileLocator) (k : ForkNumber) (segno : Z) : M U unit :=
  RegisterSyncRequest fault (SYNC_FORGET_REQUEST (r, k, segno)) true;; mret tt.

(** The write of [umfile_extend], once the segment is open. *)
Definition extend_seg (r : RelFileLocator) (k : ForkNumber) (v : UmfdVec) (blocknum : Z)
    (buffer : list Z) (skipFsync : bool) : M U unit :=
  ino ← vfd v;
  res ← FileWriteV fault chunk ino (seekpos_of blocknum) buffer;
  match res with
  | inr nbytes =>
      if decide (nbytes = BLCKSZ)
      then when (negb skipFsync && negb temp) (umfile_register_dirty_seg r k v)
      else elog ERROR "could not extend file: wrote only part of the block"
  | inl e => file_error e "could not extend file"
  end.

(** The segment of a block if it is already open. *)
Definition open_seg_of (r : RelFileLocator) (k : ForkNumber) (blkno : Z) : M U (option UmfdVec) :=
  n ← num_open_segs r k;
  if decide (segno_of blkno < n) then
    v ← umfile_v_get r k (segno_of blkno);
    mret (if negb (umfile_fork_allows_sparse_segments k) || umfile_seg_entry_is_open v
          then Some v else None)
  else mret None.

(** Fill the last segment of a dense fork: [umfile_extend] of its last block,
    which finds the segment open. *)
Definition pad_seg (r : RelFileLocator) (k : ForkNumber) (blkno : Z) (skipFsync : bool) : M U unit :=
  o ← open_seg_of r k blkno;
  match o with
  | Some v => extend_seg r k v blkno zero_block skipFsync
  | None => throw bad_file
  end.

Definition may_create (behavior : Z) : bool :=
  has_flag behavior UM_EXTENSION_CREATE ||
  (recovery && has_flag behavior UM_EXTENSION_CREATE_RECOVERY).

(** [n] segments remain to be opened, starting at [nextsegno]; [v] is the one
    before. *)
Fixpoint open_segs (n : nat) (r : RelFileLocator) (k : ForkNumber) (nextsegno : Z) (v : UmfdVec)
    (skipFsync : bool) (behavior : Z) : M U (option UmfdVec) :=
  match n with
  | O => mret (Some v)
  | S n =>
      nblocks ← umfile_nblocks_in_seg v;
      if decide (RELSEG_SIZE < nblocks) then elog FATAL "segment too big"
      else if negb (may_create behavior) && bool_decide (nblocks < RELSEG_SIZE) then
        if has_flag behavior UM_EXTENSION_RETURN_NULL then mret None
        else elog ERROR "could not open file: previous segment is too short"
      else
        when (may_create behavior && bool_decide (nblocks < RELSEG_SIZE))
          (pad_seg r k (u32 (nextsegno * RELSEG_SIZE - 1)) skipFsync);;
        res ← umfile_openseg r k nextsegno (may_create behavior);
        match res with
        | inl e =>
            if has_flag behavior UM_EXTENSION_RETURN_NULL && FILE_POSSIBLY_DELETED e
            then mret None else file_error e "could not open file"
        | inr v => open_segs n r k (nextsegno + 1) v skipFsync behavior
        end
  end.

Definition umfile_getseg (r : RelFileLocator) (k : ForkNumber) (blkno : Z) (skipFsync : bool)
    (behavior : Z) : M U (option UmfdVec) :=
  let targetseg := segno_of blkno in
  o ← open_seg_of r k blkno;
  match o with
  | Some v => mret (Some v)
  | None =>
      if has_flag behavior UM_EXTENSION_DONT_OPEN then mret None
      else if umfile_fork_allows_sparse_segments k then
        res ← umfile_openseg r k targetseg (may_create behavior);
        match res with
        | inr v => mret (Some v)
        | inl e =>
            if has_flag behavior UM_EXTENSION_RETURN_NULL && FILE_POSSIBLY_DELETED e
            then mret None else file_error e "could not open file"
        end
      else
        n ← num_open_segs r k;
        o ← (if decide (0 < n) then v ← umfile_v_get r k (n - 1); mret (Some v)
             else umfile_openfork r k behavior);
        match o with
        | None => mret None
        | Some v =>
            n ← num_open_segs r k;
            open_segs (Z.to_nat (targetseg + 1 - n)) r k n v skipFsync behavior
        end
  end.

(** A call whose behavior excludes a null result dereferences it. *)
Definition got (o : option UmfdVec) : M U UmfdVec :=
  match o with Some v => mret v | None => throw bad_file end.

(** ** Existence and size *)

Definition umfile_fork_has_open_segment (r : RelFileLocator) (k : ForkNumber) : M U bool :=
  gets (λ u, existsb umfile_seg_entry_is_open (seg_fds u r k)).

(** Entries whose name is gone are closed; is any other open? *)
Fixpoint live_segments (n : nat) (i : Z) (r : RelFileLocator) (k : ForkNumber) : M U bool :=
  match n with
  | O => mret false
  | S n =>
      v ← umfile_v_get r k i;
      if umfile_seg_entry_is_open v then
        here ← access fault (r, k, umfd_segno v);
        (if (here : bool) then mret tt else put_seg r k i closed_seg);;
        rest ← live_segments n (i + 1) r k;
        mret (here || rest)
      else live_segments n (i + 1) r k
  end.

Definition umfile_fork_has_open_segment_on_disk (r : RelFileLocator) (k : ForkNumber) : M U bool :=
  n ← num_open_segs r k;
  live_segments (Z.to_nat n) 0 r k.

(** [None]: the directory could not be read. *)
Definition umfile_collect_existing_segnos_by_path (r : RelFileLocator) (k : ForkNumber)
    : M U (option (list Z)) :=
  res ← scan_dir fault r k;
  match res with
  | inl e => mret (if bool_decide (e = ENOENT) then Some [] else None)
  | inr ns => mret (Some (uniq (merge_sort (≤) ns)))
  end.

Definition umfile_any_segment_exists_by_path (r : RelFileLocator) (k : ForkNumber) : M U bool :=
  res ← scan_dir fault r k;
  mret (match res with inl _ | inr [] => false | inr _ => true end).

(** The smallest and the largest segment number. *)
Definition umfile_sparse_fork_scan_segments (r : RelFileLocator) (k : ForkNumber)
    : M U (option (Z * Z)) :=
  o ← umfile_collect_existing_segnos_by_path r k;
  mret (match o with
        | Some (n :: ns) => Some (n, List.last ns n)
        | _ => None
        end).

Definition is_null (o : option UmfdVec) : bool := bool_decide (o = None).

Definition umfile_exists (r : RelFileLocator) (k : ForkNumber) (mode : UmFileMode) : M U bool :=
  has ← umfile_fork_has_open_segment r k;
  live ← (if negb recovery && (has : bool) then
            live ← umfile_fork_has_open_segment_on_disk r k;
            (if (live : bool) then mret tt else umfile_fdvec_resize r k 0);;
            mret live
          else mret false);
  if (live : bool) then mret true
  else
    o ← umfile_openfork r k UM_EXTENSION_RETURN_NULL;
    if decide (mode = UMFILE_SPARSE) then
      if negb (is_null o) then mret true else umfile_any_segment_exists_by_path r k
    else mret (negb (is_null o)).

Definition umfile_ctx_fork_exists := umfile_exists.

Definition umfile_nblocks_sparse (r : RelFileLocator) (k : ForkNumber) : M U Z :=
  o ← umfile_sparse_fork_scan_segments r k;
  match o with
  | None => mret 0
  | Some (_, maxsegno) =>
      n ← num_open_segs r k;
      v0 ← umfile_v_get r k maxsegno;
      v ← (if bool_decide (n ≤ maxsegno) || negb (umfile_seg_entry_is_open v0) then
             res ← umfile_openseg r k maxsegno false;
             match res with
             | inl e => file_error e "could not open file"
             | inr v => mret v
             end
           else mret v0);
      nblocks ← umfile_nblocks_in_seg v;
      if decide (RELSEG_SIZE < nblocks) then elog FATAL "segment too big"
      else mret (u32 (maxsegno * RELSEG_SIZE + nblocks))
  end.

(** [fuel] bounds the segments still to be opened. *)
Fixpoint dense_size (fuel : nat) (r : RelFileLocator) (k : ForkNumber) (segno : Z) (v : UmfdVec)
    : M U Z :=
  nblocks ← umfile_nblocks_in_seg v;
  if decide (RELSEG_SIZE < nblocks) then elog FATAL "segment too big"
  else if decide (nblocks < RELSEG_SIZE) then mret (u32 (segno * RELSEG_SIZE + nblocks))
  else
    match fuel with
    | O => throw bad_file
    | S fuel =>
        res ← umfile_openseg r k (segno + 1) false;
        match res with
        | inl _ => mret (u32 ((segno + 1) * RELSEG_SIZE))
        | inr v => dense_size fuel r k (segno + 1) v
        end
    end.

(** Every segment after the first that the loop opens has a name of its own. *)
Definition segment_fuel (u : U) : nat := S (size (um_dir u)).

Definition umfile_nblocks_dense (r : RelFileLocator) (k : ForkNumber) : M U Z :=
  o ← umfile_openfork r k UM_EXTENSION_RETURN_NULL;
  if is_null o then mret 0
  else
    n ← num_open_segs r k;
    v ← umfile_v_get r k (n - 1);
    fuel ← gets segment_fuel;
    dense_size fuel r k (n - 1) v.

Definition umfile_nblocks (r : RelFileLocator) (k : ForkNumber) (mode : UmFileMode) : M U Z :=
  if decide (mode = UMFILE_SPARSE) then umfile_nblocks_sparse r k else umfile_nblocks_dense r k.

Definition umfile_ctx_get_nblocks := umfile_nblocks.

Definition umfile_ctx_segment_exists (r : RelFileLocator) (k : ForkNumber) (segno : Z) : M U bool :=
  access fault (r, k, segno).

(** A negative answer is not reliable: an entry below the last open one is not
    reopened, and a dense fork is only probed at its next segment. *)
Definition umfile_ctx_block_exists (r : RelFileLocator) (k : ForkNumber) (blkno : Z) : M U bool :=
  let segno := segno_of blkno in
  n ← num_open_segs r k;
  o ← (if decide (segno < n) then
         v ← umfile_v_get r k segno;
         mret (if umfile_seg_entry_is_open v then Some v else None)
       else if negb (umfile_fork_allows_sparse_segments k) && bool_decide (n < segno) then mret None
       else
         res ← umfile_openseg r k segno false;
         mret (match res with inl _ => None | inr v => Some v end));
  match o with
  | None => mret false
  | Some v =>
      segblocks ← umfile_nblocks_in_seg v;
      mret (bool_decide (blkno mod RELSEG_SIZE < segblocks))
  end.

(** ** Creation and removal *)

Definition umfile_create (r : RelFileLocator) (k : ForkNumber) (isRedo : bool) : M U unit :=
  n ← num_open_segs r k;
  if isRedo && bool_decide (0 < n) then mret tt
  else
    umfile_fdvec_resize r k 0;;
    res ← PathNameOpenFile fault (r, k, 0) true true;
    fd ← match res with
         | inr fd => mret fd
         | inl e =>
             res2 ← (if isRedo then PathNameOpenFile fault (r, k, 0) false false else mret (inl e));
             match res2 with
             | inr fd => mret fd
             | inl _ => file_error e "could not create file"
             end
         end;
    umfile_fdvec_resize r k 1;;
    put_seg r k 0 (MkSeg (Some fd) 0);;
    when (negb temp) (umfile_register_dirty_seg r k (MkSeg (Some fd) 0)).

(** [None] is a false result; otherwise whether the file was created. *)
Definition umfile_open_or_create (r : RelFileLocator) (k : ForkNumber) (isRedo : bool)
    : M U (option bool) :=
  o ← (if isRedo then umfile_openfork r k UM_EXTENSION_RETURN_NULL else mret None);
  if negb (is_null o) then mret (Some false)
  else
    umfile_create r k isRedo;;
    o ← umfile_openfork r k UM_EXTENSION_RETURN_NULL;
    mret (if is_null o then None else Some true).

(** The segments of a dense fork that exist, from [segno] on. *)
Fixpoint register_unlinks (fuel : nat) (r : RelFileLocator) (k : ForkNumber) (segno : Z) : M U unit :=
  match fuel with
  | O => throw bad_file
  | S fuel =>
      here ← access fault (r, k, segno);
      if (here : bool) then
        umfile_register_unlink_seg r k segno;; register_unlinks fuel r k (segno + 1)
      else mret tt
  end.

Definition umfile_register_dense_existing_segs_for_unlink (r : RelFileLocator) (k : ForkNumber)
    : M U unit :=
  fuel ← gets segment_fuel; register_unlinks fuel r k 0.

(** The higher segments, up to the first that is missing. *)
Fixpoint unlink_segments (fuel : nat) (r : RelFileLocator) (k : ForkNumber) (segno : Z) : M U unit :=
  match fuel with
  | O => throw bad_file
  | S fuel =>
      ret ← (if temp then mret None
             else
               ret ← pg_truncate fault (r, k, segno) 0;
               umfile_register_forget_seg r k segno;;
               mret ret);
      if bool_decide (ret ≠ None) && bool_decide (ret ≠ Some ENOENT) then mret tt
      else
        ret ← unlink fault (r, k, segno);
        match ret with
        | Some _ => mret tt
        | None => unlink_segments fuel r k (segno + 1)
        end
  end.

Definition unlink_fork (r : RelFileLocator) (k : ForkNumber) (isRedo : bool) : M U unit :=
  if negb isRedo && negb temp && bool_decide (k = UMBRA_METADATA_FORKNUM)
  then umfile_register_dense_existing_segs_for_unlink r k
  else
    ret ← (if isRedo || IsBinaryUpgrade || bool_decide (k ≠ MAIN_FORKNUM) || temp then
             ret ← (if temp then mret None
                    else
                      ret ← pg_truncate fault (r, k, 0) 0;
                      umfile_register_forget_seg r k 0;;
                      mret ret);
             if decide (ret = Some ENOENT) then mret ret else unlink fault (r, k, 0)
           else
             ret ← pg_truncate fault (r, k, 0) 0;
             umfile_register_unlink_seg r k 0;;
             mret ret);
    if decide (ret = Some ENOENT) then mret tt
    else fuel ← gets segment_fuel; unlink_segments fuel r k 1.

Fixpoint unlink_forks (ks : list ForkNumber) (r : RelFileLocator) (isRedo : bool) : M U unit :=
  match ks with
  | [] => mret tt
  | k :: ks => unlink_fork r k isRedo;; unlink_forks ks r isRedo
  end.

Definition all_forks : list ForkNumber :=
  [MAIN_FORKNUM; FSM_FORKNUM; VISIBILITYMAP_FORKNUM; INIT_FORKNUM; UMBRA_METADATA_FORKNUM].

Definition umfile_unlink (r : RelFileLocator) (k : ForkNumber) (isRedo : bool) : M U unit :=
  if decide (k = InvalidForkNumber) then unlink_forks all_forks r isRedo else unlink_fork r k isRedo.

(** ** Extension *)

Definition umfile_extend (r : RelFileLocator) (k : ForkNumber) (blocknum : Z) (buffer : list Z)
    (skipFsync : bool) : M U unit :=
  o ← umfile_getseg r k blocknum skipFsync (Z.lor UM_EXTENSION_FAIL UM_EXTENSION_CREATE);
  v ← got o;
  extend_seg r k v blocknum buffer skipFsync.

(** [n] bounds the rounds: each handles at least one block. *)
Fixpoint zeroextend_runs (n : nat) (r : RelFileLocator) (k : ForkNumber) (blocknum nblocks : Z)
    (skipFsync : bool) : M U unit :=
  match n with
  | O => mret tt
  | S n =>
      if decide (nblocks ≤ 0) then mret tt
      else
        let numblocks := Z.min (Z.min nblocks (RELSEG_SIZE - blocknum mod RELSEG_SIZE)) PG_IOV_MAX in
        o ← umfile_getseg r k blocknum skipFsync (Z.lor UM_EXTENSION_FAIL UM_EXTENSION_CREATE);
        v ← got o;
        ino ← vfd v;
        ret ← FileZero fault ino (seekpos_of blocknum) (BLCKSZ * numblocks);
        match ret with
        | Some e => file_error e "could not extend file"
        | None =>
            when (negb skipFsync && negb temp) (umfile_register_dirty_seg r k v);;
            zeroextend_runs n r k (u32 (blocknum + numblocks)) (nblocks - numblocks) skipFsync
        end
  end.

Definition umfile_zeroextend (r : RelFileLocator) (k : ForkNumber) (blocknum nblocks : Z)
    (skipFsync : bool) : M U unit :=
  zeroextend_runs (Z.to_nat nblocks) r k blocknum nblocks skipFsync.

Definition size_of (ino : nat) : M U Z :=
  res ← FileSize fault ino;
  match res with
  | inl e => file_error e "could not determine file size"
  | inr n => mret n
  end.

(** The Linux variant. *)
Definition umfile_preallocate_fd (ino : nat) (target_bytes : Z) : M U bool :=
  current_bytes ← size_of ino;
  if decide (target_bytes ≤ current_bytes) then mret true
  else
    ret ← fallocate fault ino current_bytes (target_bytes - current_bytes);
    match ret with
    | Some e =>
        if umfile_preallocate_errno_is_unsupported e then mret false
        else file_error e "could not preallocate file"
    | None =>
        current_bytes ← size_of ino;
        if decide (current_bytes < target_bytes) then
          ret ← FileTruncate fault ino target_bytes;
          match ret with
          | Some e => file_error e "could not extend preallocated file"
          | None => mret true
          end
        else mret true
    end.

(** One round per segment. *)
Fixpoint preallocate_segs (n : nat) (r : RelFileLocator) (k : ForkNumber)
    (cur_nblocks target_nblocks : Z) (skipFsync : bool) : M U bool :=
  match n with
  | O => mret true
  | S n =>
      if decide (target_nblocks ≤ cur_nblocks) then mret true
      else
        let seg_start := segno_of cur_nblocks * RELSEG_SIZE in
        let seg_end := Z.min (seg_start + RELSEG_SIZE) target_nblocks in
        let targetseg_nblocks := seg_end - seg_start in
        o ← umfile_getseg r k (seg_start + targetseg_nblocks - 1) skipFsync UM_EXTENSION_CREATE;
        v ← got o;
        ino ← vfd v;
        ok ← umfile_preallocate_fd ino (targetseg_nblocks * BLCKSZ);
        if negb (ok : bool) then mret false
        else
          when (negb skipFsync && negb temp) (umfile_register_dirty_seg r k v);;
          preallocate_segs n r k seg_end target_nblocks skipFsync
  end.

Definition umfile_ctx_preallocate_blocks (r : RelFileLocator) (k : ForkNumber) (mode : UmFileMode)
    (target_nblocks : Z) (skipFsync : bool) : M U bool :=
  here ← umfile_exists r k mode;
  if negb (here : bool) then mret false
  else
    nblocks ← umfile_nblocks r k mode;
    if decide (target_nblocks ≤ nblocks) then mret true
    else if decide (MaxBlockNumber + 1 < target_nblocks) then mret false
    else preallocate_segs (Z.to_nat (target_nblocks / RELSEG_SIZE + 1)) r k nblocks target_nblocks
           skipFsync.

(** ** Whole blocks of the map *)

Definition umfile_ctx_ensure_fork (r : RelFileLocator) (k : ForkNumber) : M U unit :=
  here ← umfile_exists r k (if umfile_fork_allows_sparse_segments k then UMFILE_SPARSE else UMFILE_DENSE);
  if (here : bool) then mret tt else umfile_create r k false.

Definition umfile_ctx_ensure_block_exists (r : RelFileLocator) (k : ForkNumber) (blkno : Z) : M U unit :=
  here ← umfile_ctx_block_exists r k blkno;
  if (here : bool) then mret tt else umfile_zeroextend r k blkno 1 true.

Definition umfile_ctx_read (r : RelFileLocator) (k : ForkNumber) (blkno nbytes : Z) : M U (list Z) :=
  o ← umfile_getseg r k blkno false UM_EXTENSION_FAIL;
  v ← got o;
  ino ← vfd v;
  res ← FileReadV fault chunk ino (seekpos_of blkno) nbytes;
  match res with
  | inl e => file_error e "could not read file"
  | inr bs =>
      if decide (Z.of_nat (length bs) = nbytes) then mret bs
      else ereport ERROR ERRCODE_DATA_CORRUPTED "could not read file: read only part of the block"
  end.

Definition umfile_ctx_write (r : RelFileLocator) (k : ForkNumber) (blkno : Z) (buffer : list Z)
    : M U unit :=
  umfile_ctx_ensure_block_exists r k blkno;;
  o ← umfile_getseg r k blkno true (Z.lor UM_EXTENSION_FAIL UM_EXTENSION_CREATE);
  v ← got o;
  ino ← vfd v;
  res ← FileWriteV fault chunk ino (seekpos_of blkno) buffer;
  match res with
  | inl e => file_error e "could not write file"
  | inr wrote =>
      if decide (wrote = Z.of_nat (length buffer)) then mret tt
      else elog ERROR "could not write file: wrote only part of the block"
  end.

Definition umfile_ctx_extend (r : RelFileLocator) (k : ForkNumber) (blkno : Z) (buffer : list Z)
    : M U unit :=
  umfile_ctx_ensure_fork r k;;
  umfile_extend r k blkno buffer true.

Definition umfile_ctx_register_dirty (r : RelFileLocator) (k : ForkNumber) (blkno : Z)
    (skipFsync isTempRelation : bool) : M U unit :=
  if skipFsync || isTempRelation then mret tt
  else
    o ← umfile_getseg r k blkno false UM_EXTENSION_FAIL;
    v ← got o;
    umfile_register_dirty_seg r k v.

(** ** Vectored transfers *)

(** [acc] has been read; [remaining] bytes from [seekpos] on are missing. *)
Fixpoint read_loop (fuel : nat) (ino : nat) (seekpos remaining : Z) (acc : list Z) : M U (list Z) :=
  match fuel with
  | O => throw bad_file
  | S fuel =>
      res ← FileReadV fault chunk ino seekpos remaining;
      match res with
      | inl e => file_error e "could not read blocks"
      | inr bs =>
          let nbytes := Z.of_nat (length bs) in
          if decide (nbytes = 0) then
            if zero_damaged_pages || recovery then
              let whole := Z.of_nat (length acc) / BLCKSZ * BLCKSZ in
              mret (take (Z.to_nat whole) acc ++
                    replicate (Z.to_nat (Z.of_nat (length acc) + remaining - whole)) 0)
            else ereport ERROR ERRCODE_DATA_CORRUPTED "could not read blocks: read too few bytes"
          else if decide (nbytes = remaining) then mret (acc ++ bs)
          else read_loop fuel ino (seekpos + nbytes) (remaining - nbytes) (acc ++ bs)
      end
  end.

Fixpoint write_loop (fuel : nat) (ino : nat) (seekpos : Z) (bs : list Z) : M U unit :=
  match fuel with
  | O => throw bad_file
  | S fuel =>
      res ← FileWriteV fault chunk ino seekpos bs;
      match res with
      | inl e => file_error e "could not write blocks"
      | inr nbytes =>
          if decide (nbytes = Z.of_nat (length bs)) then mret tt
          else write_loop fuel ino (seekpos + nbytes) (drop (Z.to_nat nbytes) bs)
      end
  end.

Fixpoint split_blocks (n : nat) (bs : list Z) : list (list Z) :=
  match n with
  | O => []
  | S n => take (Z.to_nat BLCKSZ) bs :: split_blocks n (drop (Z.to_nat BLCKSZ) bs)
  end.

(** The blocks one call may transfer. *)
Definition nblocks_this_segment (blocknum nblocks : Z) : Z :=
  Z.min (Z.min nblocks (RELSEG_SIZE - blocknum mod RELSEG_SIZE)) PG_IOV_MAX.

Definition umfile_readv (r : RelFileLocator) (k : ForkNumber) (blocknum : Z) (nblocks : nat)
    : M U (list (list Z)) :=
  let n := Z.of_nat nblocks in
  if decide (n = 0) then mret []
  else
    o ← umfile_getseg r k blocknum false (Z.lor UM_EXTENSION_FAIL UM_EXTENSION_CREATE_RECOVERY);
    v ← got o;
    if decide (nblocks_this_segment blocknum n ≠ n) then elog ERROR "read crosses segment boundary"
    else
      ino ← vfd v;
      bs ← read_loop (Z.to_nat (n * BLCKSZ)) ino (seekpos_of blocknum) (n * BLCKSZ) [];
      mret (split_blocks nblocks bs).

Definition umfile_writev (r : RelFileLocator) (k : ForkNumber) (blocknum : Z)
    (buffers : list (list Z)) (skipFsync : bool) : M U unit :=
  let n := Z.of_nat (length buffers) in
  if decide (n = 0) then mret tt
  else
    o ← umfile_getseg r k blocknum false (Z.lor UM_EXTENSION_FAIL UM_EXTENSION_CREATE_RECOVERY);
    v ← got o;
    if decide (nblocks_this_segment blocknum n ≠ n) then elog ERROR "write crosses segment boundary"
    else
      ino ← vfd v;
      write_loop (Z.to_nat (n * BLCKSZ)) ino (seekpos_of blocknum) (concat buffers);;
      when (negb skipFsync && negb temp) (umfile_register_dirty_seg r k v).

(** A hint to the kernel changes nothing here; a missing segment is an error
    or, in recovery, ends the loop. *)
Fixpoint prefetch_segs (n : nat) (r : RelFileLocator) (k : ForkNumber) (blocknum nblocks : Z)
    : M U bool :=
  match n with
  | O => mret true
  | S n =>
      if decide (nblocks ≤ 0) then mret true
      else
        o ← umfile_getseg r k blocknum false
              (if recovery then UM_EXTENSION_RETURN_NULL else UM_EXTENSION_FAIL);
        if is_null o then mret false
        else
          let m := Z.min nblocks (RELSEG_SIZE - blocknum mod RELSEG_SIZE) in
          prefetch_segs n r k (u32 (blocknum + m)) (nblocks - m)
  end.

Definition umfile_prefetch (r : RelFileLocator) (k : ForkNumber) (blocknum nblocks : Z) : M U bool :=
  if decide (MaxBlockNumber + 1 < blocknum + nblocks) then mret false
  else prefetch_segs (Z.to_nat nblocks) r k blocknum nblocks.

Definition umfile_ctx_prefetch (r : RelFileLocator) (k : ForkNumber) (blkno : Z) : M U unit :=
  umfile_prefetch r k blkno 1;; mret tt.

Fixpoint writeback_segs (n : nat) (r : RelFileLocator) (k : ForkNumber) (blocknum nblocks : Z)
    : M U unit :=
  match n with
  | O => mret tt
  | S n =>
      if decide (nblocks ≤ 0) then mret tt
      else
        o ← umfile_getseg r k blocknum false (Z.lor UM_EXTENSION_FAIL UM_EXTENSION_CREATE_RECOVERY);
        v ← got o;
        vfd v;;
        let nflush := Z.min nblocks (RELSEG_SIZE - blocknum mod RELSEG_SIZE) in
        writeback_segs n r k (u32 (blocknum + nflush)) (nblocks - nflush)
  end.

Definition umfile_writeback (r : RelFileLocator) (k : ForkNumber) (blocknum nblocks : Z) : M U unit :=
  writeback_segs (Z.to_nat nblocks) r k blocknum nblocks.

(** ** Truncation and syncs *)

(** The open segments, from the last down. *)
Fixpoint truncate_segs (curopensegs : nat) (r : RelFileLocator) (k : ForkNumber) (nblocks : Z)
    : M U unit :=
  match curopensegs with
  | O => mret tt
  | S n =>
      let priorblocks := u32 (Z.of_nat n * RELSEG_SIZE) in
      v ← umfile_v_get r k (Z.of_nat n);
      if decide (nblocks < priorblocks) then
        ino ← vfd v;
        ret ← FileTruncate fault ino 0;
        match ret with
        | Some e => file_error e "could not truncate file"
        | None =>
            when (negb temp) (umfile_register_dirty_seg r k v);;
            umfile_fdvec_resize r k (Z.of_nat n);;
            truncate_segs n r k nblocks
        end
      else if decide (nblocks < u32 (priorblocks + RELSEG_SIZE)) then
        ino ← vfd v;
        ret ← FileTruncate fault ino ((nblocks - priorblocks) * BLCKSZ);
        match ret with
        | Some e => file_error e "could not truncate file"
        | None =>
            when (negb temp) (umfile_register_dirty_seg r k v);;
            truncate_segs n r k nblocks
        end
      else mret tt
  end.

Definition umfile_truncate (r : RelFileLocator) (k : ForkNumber) (curnblk nblocks : Z) : M U unit :=
  if decide (curnblk < nblocks) then
    if recovery then mret tt else elog ERROR "could not truncate file: it is shorter now"
  else if decide (nblocks = curnblk) then mret tt
  else
    n ← num_open_segs r k;
    truncate_segs (Z.to_nat n) r k nblocks.

(** An open entry for segment [segno] of a sparse fork. *)
Definition sparse_seg (r : RelFileLocator) (k : ForkNumber) (segno : Z) : M U UmfdVec :=
  n ← num_open_segs r k;
  v ← umfile_v_get r k segno;
  if bool_decide (segno < n) && umfile_seg_entry_is_open v then mret v
  else
    res ← umfile_openseg r k segno false;
    match res with
    | inl e => file_error e "could not open file"
    | inr v => mret v
    end.

Fixpoint for_segnos (f : UmfdVec → M U unit) (segnos : list Z) (r : RelFileLocator) (k : ForkNumber)
    : M U unit :=
  match segnos with
  | [] => mret tt
  | n :: ns => v ← sparse_seg r k n; f v;; for_segnos f ns r k
  end.

(** Opens segments from [segno] on and gives the first number that is missing. *)
Fixpoint open_inactive (fuel : nat) (r : RelFileLocator) (k : ForkNumber) (segno : Z) : M U Z :=
  match fuel with
  | O => throw bad_file
  | S fuel =>
      res ← umfile_openseg r k segno false;
      match res with
      | inl _ => mret segno
      | inr _ => open_inactive fuel r k (segno + 1)
      end
  end.

Fixpoint close_inactive (f : UmfdVec → M U unit) (segno : nat) (r : RelFileLocator) (k : ForkNumber)
    (min_inactive_seg : Z) : M U unit :=
  match segno with
  | O => mret tt
  | S n =>
      v ← umfile_v_get r k (Z.of_nat n);
      f v;;
      when (bool_decide (min_inactive_seg < Z.of_nat segno)) (umfile_fdvec_resize r k (Z.of_nat n));;
      close_inactive f n r k min_inactive_seg
  end.

(** The two syncs differ in what they do with a segment. *)
Definition each_segment (f : UmfdVec → M U unit) (r : RelFileLocator) (k : ForkNumber) : M U unit :=
  if umfile_fork_allows_sparse_segments k then
    o ← umfile_collect_existing_segnos_by_path r k;
    match o with
    | None => mret tt
    | Some segnos => for_segnos f segnos r k
    end
  else
    umfile_nblocks r k UMFILE_DENSE;;
    min_inactive_seg ← num_open_segs r k;
    fuel ← gets segment_fuel;
    segno ← open_inactive fuel r k min_inactive_seg;
    close_inactive f (Z.to_nat segno) r k min_inactive_seg.

Definition umfile_registersync : RelFileLocator → ForkNumber → M U unit :=
  λ r k, each_segment (umfile_register_dirty_seg r k) r k.

Definition umfile_immedsync : RelFileLocator → ForkNumber → M U unit :=
  each_segment (λ v,
    ino ← vfd v;
    ret ← FileSync fault ino;
    match ret with Some e => fsync_failed e | None => mret tt end).

(** The open file and the offset in it. *)
Definition umfile_fd (r : RelFileLocator) (k : ForkNumber) (blocknum : Z) : M U (nat * Z) :=
  (if umfile_fork_allows_sparse_segments k then mret tt
   else umfile_openfork r k UM_EXTENSION_FAIL;; mret tt);;
  o ← umfile_getseg r k blocknum false UM_EXTENSION_FAIL;
  v ← got o;
  ino ← vfd v;
  mret (ino, u32 (seekpos_of blocknum)).
End umfile.
