(* ===== verification/UmFileInv.v ===== *)
(** * What the segment files keep true

    The contents of a fork as a map from block numbers to blocks, the invariant
    that [umfile.c] keeps on the files and on its table of open segments, and
    the changes to files and tables that preserve it. *)

From S2P Require Import Prelude FileLayer SmgrFiles UmOs UmFile.
From stdpp Require Import sorting.

Local Open Scope Z_scope.

Definition SEG_BYTES : Z := RELSEG_SIZE * BLCKSZ.

(** ** The contents of a fork *)

(** Segment [n] of a fork; a missing file is empty. *)
Definition seg_file (d : gmap SegKey nat) (i : gmap nat OsFile) (r : RelFileLocator)
    (k : ForkNumber) (n : Z) : OsFile :=
  default empty_file (d !! (r, k, n) ≫= λ ino, i !! ino).

Definition seg (u : UmFiles) := seg_file (um_dir u) (um_inodes u).

Definition block_in (f : OsFile) (pos : Z) : option (list Z) :=
  if decide (pos + BLCKSZ ≤ of_size f) then Some (read_bytes f pos (Z.to_nat BLCKSZ)) else None.

Definition um_content (u : UmFiles) (r : RelFileLocator) (k : ForkNumber) (b : Z)
    : option (list Z) :=
  if decide (0 ≤ b) then block_in (seg u r k (segno_of b)) (seekpos_of b) else None.

(** Files with the same size and the same bytes. *)
#[global] Instance file_equiv : Equiv OsFile := λ f f',
  of_size f = of_size f' ∧ ∀ p, of_byte f p = of_byte f' p.

#[global] Instance file_equivalence : Equivalence (≡@{OsFile}).
Proof.
  split.
  - by intros f.
  - by intros f f' [Hs Hb].
  - intros f1 f2 f3 [S1 B1] [S2 B2]. split; [congruence|]. intros p. by rewrite B1.
Qed.

(** ** What is kept true *)

(** A segment holds whole blocks and at most [RELSEG_SIZE]; what lies past its
    end is zero. *)
Record file_ok (f : OsFile) : Prop := {
  fo_size : 0 ≤ of_size f ≤ SEG_BYTES;
  fo_whole : of_size f mod BLCKSZ = 0;
  fo_byte : ∀ p, is_byte (of_byte f p);
  fo_zero : ∀ p, of_size f ≤ p → of_byte f p = 0;
}.

Definition fds_of (g : gmap RelFileLocator UmbraFileContext) (r : RelFileLocator) (k : ForkNumber)
    : list UmfdVec :=
  default [] (g !! r ≫= λ c, ctx_fds c !! k).

Record um_inv (d : gmap SegKey nat) (i : gmap nat OsFile)
    (g : gmap RelFileLocator UmbraFileContext) : Prop := {
  ui_file : ∀ r k n ino, d !! (r, k, n) = Some ino → is_Some (i !! ino) ∧ 0 ≤ n ∧ n * RELSEG_SIZE ≤ InvalidBlockNumber;
  ui_inj : ∀ k1 k2 ino, d !! k1 = Some ino → d !! k2 = Some ino → k1 = k2;
  ui_ok : ∀ r k n, file_ok (seg_file d i r k n);
  ui_max : ∀ r k n, 0 < of_size (seg_file d i r k n) →
    n * SEG_BYTES + of_size (seg_file d i r k n) ≤ InvalidBlockNumber * BLCKSZ;
  (** an open entry is the file that has its name *)
  ui_open : ∀ r k j v ino, fds_of g r k !! j = Some v → umfd_vfd v = Some ino →
    umfd_segno v = Z.of_nat j ∧ d !! (r, k, Z.of_nat j) = Some ino;
  ui_dense_open : ∀ r k j v, umfile_fork_allows_sparse_segments k = false →
    fds_of g r k !! j = Some v → is_Some (umfd_vfd v);
  (** the segments of a dense fork are full up to the last *)
  ui_dense : ∀ r k n m, umfile_fork_allows_sparse_segments k = false →
    is_Some (d !! (r, k, n)) → 0 ≤ m < n → of_size (seg_file d i r k m) = SEG_BYTES;
}.

Definition um_ok (u : UmFiles) : Prop := um_inv (um_dir u) (um_inodes u) (um_registry u).

(** ** Growing files *)

(** [f'] has the bytes of [f], and more zeros. *)
Definition extends (f f' : OsFile) : Prop :=
  of_size f ≤ of_size f' ∧ ∀ p, of_byte f' p = of_byte f p.

#[global] Instance extends_refl : Reflexive extends.
Proof. by split. Qed.
#[global] Instance extends_trans : Transitive extends.
Proof. intros f1 f2 f3 [S1 B1] [S2 B2]. split; [lia|]. intros p. by rewrite B2, B1. Qed.

#[global] Instance file_ok_proper : Proper ((≡) ==> iff) file_ok.
Proof.
  assert (∀ f f', f ≡ f' → file_ok f → file_ok f') as Hok.
  { intros f f' [Hs Hb] [A B C D]. split; rewrite <-?Hs; [done|done|..]; intros p; rewrite <-Hb; auto. }
  intros f f' Hf. split; apply Hok; [done|by symmetry].
Qed.

Lemma read_bytes_ext f f' pos n :
  (∀ p, pos ≤ p < pos + Z.of_nat n → of_byte f' p = of_byte f p) →
  read_bytes f' pos n = read_bytes f pos n.
Proof.
  intros Hb. apply list_fmap_ext. intros i x Hx. apply lookup_seq in Hx as [-> Hx]. apply Hb. lia.
Qed.

#[global] Instance block_in_proper : Proper ((≡) ==> (=) ==> (=)) block_in.
Proof.
  intros f f' [Hs Hb] q ? <-. unfold block_in. rewrite Hs. case_decide; [|done]. f_equal.
  by apply read_bytes_ext.
Qed.

Lemma length_read_bytes f pos n : length (read_bytes f pos n) = n.
Proof. unfold read_bytes. by rewrite length_fmap, length_seq. Qed.

Lemma read_bytes_zero f pos n :
  (∀ p, pos ≤ p → of_byte f p = 0) → read_bytes f pos n = replicate n 0.
Proof.
  intros Hz. apply list_eq. intros i. unfold read_bytes. rewrite list_lookup_fmap.
  destruct (decide (i < n)%nat).
  - rewrite lookup_seq_lt, lookup_replicate_2 by lia. cbn. by rewrite Hz by lia.
  - rewrite lookup_seq_ge by lia. symmetry. by apply lookup_replicate_None, Nat.le_ngt.
Qed.

(** A block that a growing file did not have is zero. *)
Lemma block_in_extends f f' pos :
  file_ok f → extends f f' → 0 ≤ pos → pos mod BLCKSZ = 0 →
  block_kept (block_in f pos) (block_in f' pos).
Proof.
  intros [[Hs _] Hw _ Hz] [Hle Hb] Hp Hm. unfold block_in, block_kept.
  destruct (decide (pos + BLCKSZ ≤ of_size f)).
  - rewrite decide_True by lia. left. by rewrite (read_bytes_ext f f').
  - case_decide; [|by left]. right. split; [done|]. f_equal. apply read_bytes_zero.
    intros p Hpp. rewrite Hb. apply Hz. unfold BLCKSZ in *. ulia.
Qed.

(** What the calls on fork [k] of [r] leave alone, and that its files only grow. *)
Record grow (r : RelFileLocator) (k : ForkNumber) (u u' : UmFiles) : Prop := {
  gr_other_dir : ∀ r' k' n, (r', k') ≠ (r, k) → um_dir u' !! (r', k', n) = um_dir u !! (r', k', n);
  gr_other : ∀ r' k' n, (r', k') ≠ (r, k) → seg u' r' k' n = seg u r' k' n;
  gr_fds : ∀ r' k', (r', k') ≠ (r, k) → seg_fds u' r' k' = seg_fds u r' k';
  gr_seg : ∀ n, extends (seg u r k n) (seg u' r k n);
  gr_dir : ∀ n, is_Some (um_dir u !! (r, k, n)) → um_dir u' !! (r, k, n) = um_dir u !! (r, k, n);
  gr_first : umfile_fork_allows_sparse_segments k = false →
    um_dir u' !! (r, k, 0) = um_dir u !! (r, k, 0);
}.

#[global] Instance grow_refl r k : Reflexive (grow r k).
Proof. by split. Qed.
#[global] Instance grow_trans r k : Transitive (grow r k).
Proof.
  intros u1 u2 u3 [D1 O1 F1 S1 N1 Z1] [D2 O2 F2 S2 N2 Z2]. split; intros.
  - by rewrite D2, D1.
  - by rewrite O2, O1.
  - by rewrite F2, F1.
  - etrans; [apply S1|apply S2].
  - rewrite N2, N1; [done|done|]. by rewrite N1.
  - by rewrite Z2, Z1.
Qed.

Lemma tick_grow r k u : grow r k u (tick u).
Proof. by split. Qed.
Lemma event_grow r k e u : grow r k u (add_event e u).
Proof. by split. Qed.

(** ** The table of open segments *)

Lemma seg_fds_set r k vs u r' k' :
  seg_fds (set_seg_fds r k vs u) r' k' = if decide ((r', k') = (r, k)) then vs else seg_fds u r' k'.
Proof.
  unfold seg_fds, set_seg_fds. cbn. destruct (decide (r' = r)) as [->|Hr].
  2: { rewrite lookup_insert_ne by done. by rewrite decide_False by congruence. }
  rewrite lookup_insert_eq. cbn. destruct (decide (k' = k)) as [->|Hk].
  - by rewrite lookup_insert_eq, decide_True.
  - rewrite lookup_insert_ne, decide_False by congruence.
    destruct (um_registry u !! r); [done|]. cbn. by rewrite lookup_empty.
Qed.

(** The entries that a table of segments may have. *)
Record fds_ok (d : gmap SegKey nat) (r : RelFileLocator) (k : ForkNumber) (vs : list UmfdVec) : Prop := {
  fd_open : ∀ j v ino, vs !! j = Some v → umfd_vfd v = Some ino →
    umfd_segno v = Z.of_nat j ∧ d !! (r, k, Z.of_nat j) = Some ino;
  fd_dense : ∀ j v, umfile_fork_allows_sparse_segments k = false →
    vs !! j = Some v → is_Some (umfd_vfd v);
}.

Lemma um_fds_ok u r k : um_ok u → fds_ok (um_dir u) r k (seg_fds u r k).
Proof. intros [? ? ? ? Ho Hd _]. split; [apply Ho|intros; by eapply Hd]. Qed.

Lemma set_fds_ok u r k vs : um_ok u → fds_ok (um_dir u) r k vs → um_ok (set_seg_fds r k vs u).
Proof.
  intros [Hf Hi Hok Hm Ho Hd Hde] [Vo Vd].
  assert (∀ r' k', fds_of (um_registry (set_seg_fds r k vs u)) r' k' =
    if decide ((r', k') = (r, k)) then vs else fds_of (um_registry u) r' k') as E
    by (intros; apply seg_fds_set).
  split; try done; intros r' k'; rewrite E; case_decide as Hc;
    (injection Hc as -> -> || idtac); eauto.
Qed.

Lemma set_fds_grow u r k vs : grow r k u (set_seg_fds r k vs u).
Proof. split; try done. intros r' k' Hne. by rewrite seg_fds_set, decide_False. Qed.

(** ** Creating a file *)

Definition created (key : SegKey) (u : UmFiles) : UmFiles :=
  let ino := fresh (dom (um_inodes u)) in
  with_dir (<[key := ino]> (um_dir u)) (with_inodes (<[ino := empty_file]> (um_inodes u)) u).

Lemma seg_created u key r k n :
  um_ok u → um_dir u !! key = None → seg (created key u) r k n = seg u r k n.
Proof.
  intros Hok Hkey. unfold seg, seg_file, created. cbn.
  assert (um_inodes u !! fresh (dom (um_inodes u)) = None) as Hfr
    by (apply not_elem_of_dom, is_fresh).
  destruct (decide (key = (r, k, n))) as [->|Hne].
  - rewrite lookup_insert_eq, Hkey. cbn. by rewrite lookup_insert_eq.
  - rewrite lookup_insert_ne by done. destruct (um_dir u !! (r, k, n)) as [ino|] eqn:Hd; [|done].
    cbn. rewrite lookup_insert_ne; [done|]. intros <-.
    destruct (ui_file _ _ _ Hok _ _ _ _ Hd) as [[x Hx] _]. congruence.
Qed.

Lemma created_ok u r k n :
  um_ok u → um_dir u !! (r, k, n) = None → 0 ≤ n → n * RELSEG_SIZE ≤ InvalidBlockNumber →
  (umfile_fork_allows_sparse_segments k = false →
     ∀ m, 0 ≤ m < n → of_size (seg u r k m) = SEG_BYTES) →
  um_ok (created (r, k, n) u).
Proof.
  intros Hok Hkey Hn Hmaxn Hfull. pose proof (seg_created u (r, k, n)) as Hseg. unfold seg in Hseg.
  pose proof Hok as [Hf Hi Hfo Hm Ho Hd Hde].
  set (ino := fresh (dom (um_inodes u))).
  assert (um_inodes u !! ino = None) as Hfr by (apply not_elem_of_dom, is_fresh).
  split; cbn -[fresh]; fold ino.
  - intros r' k' n' i'. rewrite lookup_insert_Some. intros [[[= -> -> ->] <-]|[_ Hd']].
    + by rewrite lookup_insert_eq.
    + destruct (Hf _ _ _ _ Hd') as [? ?]. split; [|done]. rewrite lookup_insert_is_Some'. by right.
  - intros k1 k2 i' H1 H2. rewrite lookup_insert_Some in H1, H2.
    destruct H1 as [[<- <-]|[_ H1]], H2 as [[<- E]|[_ H2]]; [done| |subst i'|by eapply Hi].
    + destruct k2 as [[r2 k2] n2]. destruct (Hf _ _ _ _ H2) as [[x Hx] _]. congruence.
    + destruct k1 as [[r1 k1] n1]. destruct (Hf _ _ _ _ H1) as [[x Hx] _]. congruence.
  - intros. by rewrite Hseg.
  - intros r' k' n'. rewrite Hseg by done. apply Hm.
  - intros r' k' j v i' Hj Hv. destruct (Ho _ _ _ _ _ Hj Hv) as [? Hd']. split; [done|].
    rewrite lookup_insert_ne; [done|]. intros E. rewrite E in Hkey. congruence.
  - done.
  - intros r' k' n' m' Hk. rewrite lookup_insert_is_Some', Hseg by done.
    intros [[= <- <- <-]|?]; [by apply Hfull|by apply (Hde r' k' n')].
Qed.

(** ** Opening a segment *)

Lemma set_set_fds r k vs vs' u : set_seg_fds r k vs' (set_seg_fds r k vs u) = set_seg_fds r k vs' u.
Proof.
  unfold set_seg_fds, with_registry. cbn. f_equal. rewrite lookup_insert_eq. cbn.
  by rewrite insert_insert_eq, insert_insert_eq.
Qed.

(** The table once segment [n] is open. *)
Definition open_at (n : nat) (v : UmfdVec) (vs : list UmfdVec) : list UmfdVec :=
  <[n := v]> (if decide (length vs ≤ n)%nat then resize (S n) closed_seg vs else vs).

Lemma length_open_at n v vs : length (open_at n v vs) = Nat.max (S n) (length vs).
Proof. unfold open_at. rewrite length_insert. case_decide; [rewrite length_resize|]; lia. Qed.

Lemma lookup_open_at n v vs j :
  open_at n v vs !! j =
    if decide (j = n) then Some v
    else if decide (j < length vs)%nat then vs !! j
    else if decide (j < n)%nat then Some closed_seg else None.
Proof.
  unfold open_at. case_decide as Hlen.
  - case_decide as Hj; [subst; apply list_lookup_insert_eq; rewrite length_resize; lia|].
    rewrite list_lookup_insert_ne by done. case_decide; [by rewrite lookup_resize by lia|].
    case_decide; [by rewrite lookup_resize_new by lia|by rewrite lookup_resize_old by lia].
  - case_decide as Hj; [subst; apply list_lookup_insert_eq; lia|].
    rewrite list_lookup_insert_ne by done. case_decide; [done|].
    rewrite decide_False by lia. apply lookup_ge_None. lia.
Qed.

Lemma open_at_ok d r k n ino vs :
  fds_ok d r k vs → d !! (r, k, Z.of_nat n) = Some ino →
  (umfile_fork_allows_sparse_segments k = false → n = length vs) →
  fds_ok d r k (open_at n (MkSeg (Some ino) (Z.of_nat n)) vs).
Proof.
  intros [Ho Hd] Hino Hden. split.
  - intros j v i. rewrite lookup_open_at. case_decide as Hj; [subst; intros [= <-] [= <-]; done|].
    case_decide; [apply Ho|]. case_decide; [intros [= <-]; done|done].
  - intros j v Hk. rewrite lookup_open_at. case_decide; [intros [= <-]; eauto|].
    case_decide; [by apply Hd|]. specialize (Hden Hk). case_decide; [lia|done].
Qed.

Definition same_seg (u u' : UmFiles) : Prop := ∀ r k n, seg u' r k n = seg u r k n.

(** [v] is segment [n] of the fork, open on inode [ino]. *)
Definition at_seg (r : RelFileLocator) (k : ForkNumber) (n : Z) (u : UmFiles) (v : UmfdVec)
    (ino : nat) : Prop :=
  v = MkSeg (Some ino) n ∧ um_dir u !! (r, k, n) = Some ino.

(** ** Changing a file *)

(** Segment [n] of the fork now is [f]; nothing else changed on disk. *)
Definition wrote (r : RelFileLocator) (k : ForkNumber) (n : Z) (f : OsFile) (u u' : UmFiles) : Prop :=
  um_dir u' = um_dir u ∧ um_registry u' = um_registry u ∧
  ∀ r' k' n', seg u' r' k' n' = if decide ((r', k', n') = (r, k, n)) then f else seg u r' k' n'.

Lemma set_inode_wrote u r k n ino f :
  um_ok u → um_dir u !! (r, k, n) = Some ino →
  wrote r k n f u (with_inodes (<[ino := f]> (um_inodes u)) u).
Proof.
  intros Hok Hd. split_and!; [done..|]. intros r' k' n'. unfold seg, seg_file. cbn. case_decide as Hc.
  - injection Hc as -> -> ->. rewrite Hd. cbn. by rewrite lookup_insert_eq.
  - destruct (um_dir u !! (r', k', n')) as [ino'|] eqn:Hd'; [|done]. cbn.
    rewrite lookup_insert_ne; [done|]. intros <-. apply Hc. by eapply (ui_inj _ _ _ Hok).
Qed.

(** A new version of a segment that is as good as the old one. *)
Record may_replace (u : UmFiles) (r : RelFileLocator) (k : ForkNumber) (n : Z) (f : OsFile) : Prop := {
  mr_ok : file_ok f;
  mr_max : 0 < of_size f → n * SEG_BYTES + of_size f ≤ InvalidBlockNumber * BLCKSZ;
  mr_later : umfile_fork_allows_sparse_segments k = false → of_size (seg u r k n) = SEG_BYTES →
    of_size f = SEG_BYTES;
}.

Lemma set_inode_ok u r k n ino f :
  um_ok u → um_dir u !! (r, k, n) = Some ino → may_replace u r k n f →
  um_ok (with_inodes (<[ino := f]> (um_inodes u)) u).
Proof.
  intros Hok Hd [Hfo Hmax Hlat]. pose proof (set_inode_wrote u r k n ino f Hok Hd) as (_ & _ & Hseg).
  unfold seg in Hseg. cbn in Hseg. pose proof Hok as [Hf Hi Hfok Hm Ho Hdo Hde].
  split; cbn; try done.
  - intros r' k' n' i' Hd'. destruct (Hf _ _ _ _ Hd'). split; [|done]. rewrite lookup_insert_is_Some'. by right.
  - intros r' k' n'. rewrite Hseg. by case_decide.
  - intros r' k' n'. rewrite Hseg. case_decide as Hc; [injection Hc as -> -> ->; done|apply Hm].
  - intros r' k' n' m Hk Hd' Hlt. rewrite Hseg. case_decide as Hc; [|by apply (Hde r' k' n')].
    injection Hc as -> -> ->. apply Hlat; [done|]. by apply (Hde r k n').
Qed.

Lemma wrote_grow r k n f u u' :
  wrote r k n f u u' → extends (seg u r k n) f → grow r k u u'.
Proof.
  intros (Hd & Hg & Hs) Hx. split; intros; rewrite ?Hd; try done.
  - rewrite Hs, decide_False; [done|congruence].
  - unfold seg_fds. by rewrite Hg.
  - rewrite Hs. case_decide as Hc; [by injection Hc as ->|done].
Qed.

(** Writing whole blocks. *)
Lemma size_write_bytes f pos bs :
  bs ≠ [] → of_size (write_bytes f pos bs) = Z.max (of_size f) (pos + Z.of_nat (length bs)).
Proof. intros. cbn. by rewrite decide_False. Qed.

Lemma write_bytes_ok f pos bs :
  file_ok f → 0 ≤ pos → pos mod BLCKSZ = 0 → Z.of_nat (length bs) mod BLCKSZ = 0 →
  pos + Z.of_nat (length bs) ≤ SEG_BYTES → Forall is_byte bs → file_ok (write_bytes f pos bs).
Proof.
  intros [Hs Hw Hb Hz] Hp Hpm Hlm Hle Hbs. split.
  - cbn. case_decide; lia.
  - cbn. case_decide; [done|]. destruct (Z.max_spec (of_size f) (pos + Z.of_nat (length bs))) as [[_ ->]|[_ ->]];
      [|done]. rewrite Z.add_mod, Hpm, Hlm by done. done.
  - intros p. cbn. case_decide; [|done].
    destruct (bs !! Z.to_nat (p - pos)) as [x|] eqn:Hx; [|split; cbn; lia]. by eapply Forall_lookup_1.
  - intros p. cbn. case_decide as Hn; intros Hp'.
    + rewrite decide_False; [by apply Hz|]. rewrite Hn. cbn. lia.
    + rewrite decide_False by lia. apply Hz. lia.
Qed.

Lemma block_in_write_hit f pos bs q :
  0 ≤ pos → pos ≤ q → q + BLCKSZ ≤ pos + Z.of_nat (length bs) →
  block_in (write_bytes f pos bs) q = Some (take (Z.to_nat BLCKSZ) (drop (Z.to_nat (q - pos)) bs)).
Proof.
  intros Hp Hq Hle. assert (bs ≠ []) as Hne by (intros ->; cbn in Hle; unfold BLCKSZ in *; lia).
  unfold block_in. rewrite size_write_bytes, decide_True by (done || lia). f_equal.
  apply list_eq. intros i. unfold read_bytes. rewrite list_lookup_fmap.
  destruct (decide (i < Z.to_nat BLCKSZ)%nat) as [Hi|Hi].
  - rewrite lookup_seq_lt, lookup_take_lt, lookup_drop by done. cbn. rewrite decide_True by lia.
    replace (Z.to_nat (q + Z.of_nat i - pos)) with (Z.to_nat (q - pos) + i)%nat by lia.
    destruct (lookup_lt_is_Some_2 bs (Z.to_nat (q - pos) + i)) as [x ->]; [lia|done].
  - rewrite lookup_seq_ge, lookup_take_ge by lia. done.
Qed.

Lemma block_in_write_miss f pos bs q :
  file_ok f → 0 ≤ q → q mod BLCKSZ = 0 → q + BLCKSZ ≤ pos ∨ pos + Z.of_nat (length bs) ≤ q →
  block_kept (block_in f q) (block_in (write_bytes f pos bs) q).
Proof.
  intros [[Hs _] Hw _ Hz] Hq Hm Hout. unfold block_in, block_kept.
  assert (∀ p, q ≤ p < q + Z.of_nat (Z.to_nat BLCKSZ) → of_byte (write_bytes f pos bs) p = of_byte f p) as Hb.
  { intros p Hp. cbn. rewrite decide_False; [done|]. unfold BLCKSZ in *. lia. }
  assert (of_size f ≤ of_size (write_bytes f pos bs)) by (cbn; case_decide; lia).
  destruct (decide (q + BLCKSZ ≤ of_size f)).
  - rewrite decide_True by lia. left. by rewrite (read_bytes_ext f).
  - case_decide; [|by left]. right. split; [done|]. f_equal. rewrite (read_bytes_ext f) by done.
    apply read_bytes_zero. intros p Hpp. apply Hz. unfold BLCKSZ in *. ulia.
Qed.

(** The bytes of blocks [b, b + m) of a segment. *)
Lemma write_may_replace u r k b m bs f :
  f ≡ write_bytes (seg u r k (segno_of b)) (seekpos_of b) bs →
  um_ok u → 0 ≤ b → 0 < m → b + m ≤ InvalidBlockNumber → b mod RELSEG_SIZE + m ≤ RELSEG_SIZE →
  Z.of_nat (length bs) = m * BLCKSZ → Forall is_byte bs →
  may_replace u r k (segno_of b) f.
Proof.
  intros Heq Hok Hb Hm Hmax Hseg Hlen Hbs. pose proof (ui_ok _ _ _ Hok r k (segno_of b)) as Hf.
  assert (bs ≠ []) as Hne by (intros ->; cbn in Hlen; unfold BLCKSZ in *; lia).
  pose proof (Z.div_mod b RELSEG_SIZE ltac:(done)) as Hdm.
  pose proof (Z.mod_pos_bound b RELSEG_SIZE ltac:(done)) as Hmb.
  assert (file_ok (write_bytes (seg u r k (segno_of b)) (seekpos_of b) bs)) as Hok'.
  { apply write_bytes_ok; [done|..|done]; unfold seekpos_of, SEG_BYTES; rewrite ?Hlen.
    - unfold BLCKSZ. lia.
    - rewrite Z.mul_comm. by apply Z_mod_mult.
    - by apply Z_mod_mult.
    - unfold BLCKSZ, RELSEG_SIZE in *. nia. }
  split; rewrite ?(proj1 Heq); [by rewrite Heq| |].
  - intros _. rewrite size_write_bytes by done. unfold segno_of, seekpos_of, SEG_BYTES in *.
    rewrite Hlen. destruct (Z.max_spec (of_size (seg u r k (b / RELSEG_SIZE)))
      (BLCKSZ * (b mod RELSEG_SIZE) + m * BLCKSZ)) as [[_ ->]|[Hle ->]].
    + unfold BLCKSZ, RELSEG_SIZE in *. nia.
    + apply (ui_max _ _ _ Hok). unfold BLCKSZ, seg in *. lia.
  - intros _ Hfull. destruct Hok' as [[_ Hle] _ _ _]. rewrite size_write_bytes in * by done. lia.
Qed.

(** The blocks after such a write. *)
Lemma content_wrote_hit u u' r k b m bs f j :
  f ≡ write_bytes (seg u r k (segno_of b)) (seekpos_of b) bs → wrote r k (segno_of b) f u u' →
  0 ≤ b → b mod RELSEG_SIZE + m ≤ RELSEG_SIZE → Z.of_nat (length bs) = m * BLCKSZ → 0 ≤ j < m →
  um_content u' r k (b + j) = Some (take (Z.to_nat BLCKSZ) (drop (Z.to_nat (j * BLCKSZ)) bs)).
Proof.
  intros Heq (_ & _ & Hs) Hb Hseg Hlen Hj. unfold um_content. rewrite decide_True by lia.
  pose proof (Z.mod_pos_bound b RELSEG_SIZE ltac:(done)) as Hmb.
  assert (segno_of (b + j) = segno_of b) as -> by (unfold segno_of, RELSEG_SIZE in *; ulia).
  assert (seekpos_of (b + j) = seekpos_of b + j * BLCKSZ) as Hsk
    by (unfold seekpos_of, RELSEG_SIZE, BLCKSZ in *; ulia).
  rewrite Hs, decide_True by done. rewrite Heq, Hsk.
  assert (0 ≤ seekpos_of b) by (unfold seekpos_of, BLCKSZ; lia).
  rewrite block_in_write_hit by (unfold BLCKSZ in *; nia).
  by replace (seekpos_of b + j * BLCKSZ - seekpos_of b) with (j * BLCKSZ) by lia.
Qed.

Lemma content_wrote_miss u u' r k b m bs f r' k' b' :
  um_ok u → f ≡ write_bytes (seg u r k (segno_of b)) (seekpos_of b) bs →
  wrote r k (segno_of b) f u u' →
  0 ≤ b → b mod RELSEG_SIZE + m ≤ RELSEG_SIZE → Z.of_nat (length bs) = m * BLCKSZ →
  ¬ ((r', k') = (r, k) ∧ b ≤ b' < b + m) →
  if decide ((r', k') = (r, k)) then block_kept (um_content u r' k' b') (um_content u' r' k' b')
  else um_content u' r' k' b' = um_content u r' k' b'.
Proof.
  intros Hok Heq (_ & _ & Hs) Hb Hseg Hlen Hout. unfold um_content. case_decide as Hc.
  - injection Hc as -> ->. case_decide; [|by left]. rewrite Hs. case_decide as Hn; [|by left].
    injection Hn as Hn. rewrite Heq, Hn. pose proof (Z.mod_pos_bound b RELSEG_SIZE ltac:(done)).
    apply block_in_write_miss; [apply (ui_ok _ _ _ Hok)|unfold seekpos_of, BLCKSZ, RELSEG_SIZE; ulia|..].
    + unfold seekpos_of. rewrite Z.mul_comm. by apply Z_mod_mult.
    + rewrite Hlen. assert (b' < b ∨ b + m ≤ b') by (destruct (decide (b ≤ b' < b + m)); [tauto|lia]).
      unfold segno_of, seekpos_of, BLCKSZ, RELSEG_SIZE in *. ulia.
  - case_decide; [|done]. rewrite Hs, decide_False; [done|congruence].
Qed.

Lemma content_grow r k u u' r' k' b :
  um_ok u → grow r k u u' →
  if decide ((r', k') = (r, k)) then block_kept (um_content u r' k' b) (um_content u' r' k' b)
  else um_content u' r' k' b = um_content u r' k' b.
Proof.
  intros Hok Hg. unfold um_content. case_decide as Hc.
  - injection Hc as -> ->. case_decide; [|by left]. apply block_in_extends; [apply (ui_ok _ _ _ Hok)|apply Hg|..].
    + unfold seekpos_of, BLCKSZ, RELSEG_SIZE. ulia.
    + unfold seekpos_of. rewrite Z.mul_comm. by apply Z_mod_mult.
  - case_decide; [|done]. by rewrite (gr_other _ _ _ _ Hg).
Qed.

Lemma content_wf u r k b d :
  um_ok u → um_content u r k b = Some d → length d = Z.to_nat BLCKSZ ∧ Forall is_byte d.
Proof.
  intros Hok. unfold um_content, block_in. case_decide; [|done]. case_decide; [|done]. intros [= <-].
  split; [apply length_read_bytes|]. apply Forall_fmap, Forall_true. intros i.
  apply (fo_byte _ (ui_ok _ _ _ Hok r k (segno_of b))).
Qed.

(** ** Storing blocks *)

(** Blocks [b, b + length ds) now hold [ds]; other blocks of the fork are kept
    and other forks are untouched. *)
Record stored (r : RelFileLocator) (k : ForkNumber) (b : Z) (ds : list (list Z)) (u u' : UmFiles)
    : Prop := {
  st_ok : um_ok u';
  st_data : ∀ i d, ds !! i = Some d → um_content u' r k (b + Z.of_nat i) = Some d;
  st_other : ∀ r' k' b', (r', k') ≠ (r, k) → um_content u' r' k' b' = um_content u r' k' b';
  st_kept : ∀ b', ¬ (b ≤ b' < b + Z.of_nat (length ds)) →
    block_kept (um_content u r k b') (um_content u' r k b');
  st_exists : ∀ r', um_dir u' !! (r', UMBRA_METADATA_FORKNUM, 0) = um_dir u !! (r', UMBRA_METADATA_FORKNUM, 0);
}.

Lemma stored_nil r k b u : um_ok u → stored r k b [] u u.
Proof. by split; [|intros i d; rewrite lookup_nil|..|left|]. Qed.

Lemma block_kept_at o d o' : block_kept o o' → o = Some d → o' = Some d.
Proof. intros [->|[-> _]]; [done|done]. Qed.

Lemma stored_app r k b ds1 ds2 u u1 u2 :
  stored r k b ds1 u u1 → stored r k (b + Z.of_nat (length ds1)) ds2 u1 u2 →
  stored r k b (ds1 ++ ds2) u u2.
Proof.
  intros [O1 D1 T1 K1 X1] [O2 D2 T2 K2 X2]. split; [done|..].
  - intros i d [Hi|[Hle Hi]]%lookup_app_Some.
    + eapply block_kept_at; [apply K2|by apply D1]. apply lookup_lt_Some in Hi. lia.
    + replace (b + Z.of_nat i) with (b + Z.of_nat (length ds1) + Z.of_nat (i - length ds1)) by lia. by apply D2.
  - intros. by rewrite T2, T1.
  - intros b' Hb. rewrite length_app in Hb. eapply block_kept_trans; [apply K1|apply K2]; lia.
  - intros r'. by rewrite X2, X1.
Qed.

Lemma length_concat_blocks (ds : list (list Z)) :
  Forall full_block ds → Z.of_nat (length (concat ds)) = Z.of_nat (length ds) * BLCKSZ.
Proof.
  induction 1 as [|d ds [Hd _] _ IH]; [done|]. cbn [concat length]. rewrite length_app.
  unfold BLCKSZ in *. lia.
Qed.

Lemma concat_bytes (ds : list (list Z)) : Forall full_block ds → Forall is_byte (concat ds).
Proof. induction 1 as [|d ds [_ Hd] _ IH]; [done|]. cbn. by apply Forall_app. Qed.

Lemma nth_block (ds : list (list Z)) i d :
  Forall full_block ds → ds !! i = Some d →
  take (Z.to_nat BLCKSZ) (drop (Z.to_nat (Z.of_nat i * BLCKSZ)) (concat ds)) = d.
Proof.
  intros Hf. revert i. induction Hf as [|d0 ds [Hl _] _ IH]; intros [|i]; cbn [concat]; [done|done|..].
  - intros [= ->]. change (Z.to_nat (Z.of_nat 0 * BLCKSZ)) with 0%nat. rewrite drop_0.
    by rewrite <-Hl, take_app_length.
  - intros Hi. replace (Z.to_nat (Z.of_nat (S i) * BLCKSZ))
      with (length d0 + Z.to_nat (Z.of_nat i * BLCKSZ))%nat by (unfold BLCKSZ in *; lia).
    rewrite drop_app_add. by apply IH.
Qed.

(** A write of whole blocks after the segment was found. *)
Lemma stored_wrote r k b ds f u u1 u2 :
  um_ok u → grow r k u u1 → um_ok u1 → um_ok u2 → Forall full_block ds → 0 ≤ b →
  b mod RELSEG_SIZE + Z.of_nat (length ds) ≤ RELSEG_SIZE →
  f ≡ write_bytes (seg u1 r k (segno_of b)) (seekpos_of b) (concat ds) →
  wrote r k (segno_of b) f u1 u2 → stored r k b ds u u2.
Proof.
  intros Hok Hg Hok1 Hok2 Hds Hb Hseg Heq Hw. pose proof (length_concat_blocks ds Hds) as Hlen. split; [done|..].
  - intros i d Hi. pose proof (lookup_lt_Some _ _ _ Hi).
    erewrite content_wrote_hit; [by erewrite nth_block|done|done|done|exact Hseg|done|lia].
  - intros r' k' b' Hne. pose proof (content_wrote_miss u1 u2 r k b _ _ f r' k' b' Hok1 Heq Hw Hb Hseg Hlen) as Hm.
    pose proof (content_grow r k u u1 r' k' b' Hok Hg) as Hg'.
    rewrite decide_False in Hm, Hg' by done. rewrite Hm; [done|tauto].
  - intros b' Hout. pose proof (content_wrote_miss u1 u2 r k b _ _ f r k b' Hok1 Heq Hw Hb Hseg Hlen) as Hm.
    pose proof (content_grow r k u u1 r k b' Hok Hg) as Hg'.
    rewrite decide_True in Hm, Hg' by done. eapply block_kept_trans; [done|]. apply Hm. tauto.
  - intros r'. destruct Hw as (-> & _). destruct (decide ((r', UMBRA_METADATA_FORKNUM) = (r, k))) as [[= -> <-]|].
    + by apply (gr_first _ _ _ _ Hg).
    + by apply (gr_other_dir _ _ _ _ Hg).
Qed.

(** ** Scanning the directory *)

Lemma dir_segnos_ok u r k n :
  um_ok u → n ∈ dir_segnos (um_dir u) r k → 0 ≤ n ∧ is_Some (um_dir u !! (r, k, n)).
Proof.
  intros Hok Hn. apply list_elem_of_omap in Hn as ([[[r' k'] n'] ino] & Hx & Hs).
  apply elem_of_map_to_list in Hx. cbn in Hs. case_decide as Hc; [|done]. injection Hs as ->.
  injection Hc as -> ->. split; [|eauto]. by apply (ui_file _ _ _ Hok _ _ _ _ Hx).
Qed.

Lemma elem_of_uniq ns n : n ∈ uniq ns → n ∈ ns.
Proof.
  induction ns as [|a [|b ns] IH]; cbn [uniq]; [done|done|]. case_decide; [set_solver|].
  intros [->|Hn]%elem_of_cons; set_solver.
Qed.

Lemma last_elem (ns : list Z) n : List.last ns n ∈ n :: ns.
Proof.
  revert n. induction ns as [|a ns IH]; intros n; cbn [List.last]; [set_solver|].
  destruct ns; [set_solver|]. specialize (IH n). set_solver.
Qed.
