(* ===== verification/UmFileSpec.v ===== *)
(** * The segment files implement the file interface

    Opening and creating segments, padding a dense fork, extending, reading,
    writing and truncating keep the invariant of [UmFileInv] and are the
    operations that [FileLayer] and [SmgrFiles] ask for, whatever calls fail and
    whatever transfers are cut short. *)

From S2P Require Import Prelude FileLayer SmgrFiles UmOs UmFile UmFileInv.
From stdpp Require Import sorting.

Local Open Scope Z_scope.

Section calls.
Context (fault : syscall → nat → option errno) (chunk : syscall → nat → Z → Z).
Context (temp recovery zero_damaged_pages IsBinaryUpgrade data_sync_retry : bool).
Local Abbreviation U := UmFiles.
Implicit Types u : U.

Lemma wp_sys c Q (E : pg_error → U → Prop) u :
  Q (fault c (um_calls u)) (tick u) → wp (sys fault c) Q E u.
Proof. done. Qed.

(** Why an open may fail. *)
Definition open_fails (key : SegKey) (creat excl : bool) u (e : errno) : Prop :=
  fault SysOpen (um_calls u) = Some e ∨
  (e = ENOENT ∧ um_dir u !! key = None ∧ creat = false) ∨
  (e = EEXIST ∧ is_Some (um_dir u !! key) ∧ creat && excl = true).

Lemma wp_open_file key creat excl Q (E : pg_error → U → Prop) u :
  (∀ e, open_fails key creat excl u e → Q (inl e) (tick u)) →
  (∀ ino, um_dir u !! key = Some ino → creat && excl = false → Q (inr ino) (tick u)) →
  (um_dir u !! key = None → creat = true → Q (inr (fresh (dom (um_inodes u)))) (created key (tick u))) →
  wp (PathNameOpenFile fault key creat excl) Q E u.
Proof.
  intros He Hold Hnew. apply wp_bind, wp_sys.
  destruct (fault SysOpen (um_calls u)) as [e|] eqn:Hf; [apply wp_ret, He; by left|].
  apply wp_bind. unfold get, wp. cbn -[fresh]. destruct (um_dir u !! key) as [ino|] eqn:Hd.
  - destruct (creat && excl) eqn:Hx; [|by apply Hold]. apply He. right. right. rewrite Hd. eauto.
  - destruct creat; [by apply Hnew|]. apply He. right. by left.
Qed.

Lemma created_grow u r k n :
  um_ok u → um_dir u !! (r, k, n) = None →
  (umfile_fork_allows_sparse_segments k = false → n ≠ 0) → grow r k u (created (r, k, n) u).
Proof.
  intros Hok Hd Hn. split; cbn -[fresh].
  - intros r' k' n' Hne. rewrite lookup_insert_ne; congruence.
  - intros. by apply seg_created.
  - done.
  - intros m. by rewrite seg_created.
  - intros m Hm. rewrite lookup_insert_ne; [done|]. intros [= ->]. rewrite Hd in Hm. by destruct Hm.
  - intros Hk. rewrite lookup_insert_ne; [done|]. intros [= E]. by apply Hn.
Qed.

Lemma wp_install r k segno v Q (E : pg_error → U → Prop) u :
  0 ≤ segno →
  (umfile_fork_allows_sparse_segments k = false → segno = Z.of_nat (length (seg_fds u r k))) →
  Q tt (set_seg_fds r k (open_at (Z.to_nat segno) v (seg_fds u r k)) u) →
  wp (install_seg r k segno v) Q E u.
Proof.
  intros Hn Hden HQ. apply wp_bind, wp_gets, wp_bind.
  set (w := seg_fds u r k) in *. unfold open_at in HQ.
  assert (umfile_fork_allows_sparse_segments k && negb (bool_decide (Z.of_nat (length w) ≤ segno)) = true ∨
    (length w ≤ Z.to_nat segno)%nat) as [Hopen|Hnew].
  { destruct (umfile_fork_allows_sparse_segments k) eqn:Hk; [|specialize (Hden eq_refl); right; lia].
    case_bool_decide; [right; lia|by left]. }
  - apply andb_true_iff in Hopen as [-> Hb]. zbool. rewrite decide_False in HQ by lia.
    rewrite bool_decide_false by lia. apply wp_ret, wp_modify. exact HQ.
  - rewrite decide_True in HQ by done.
    assert (wp (umfile_fdvec_resize r k (segno + 1)) (λ _, wp (put_seg r k segno v) Q E) E u) as Hw.
    { apply wp_modify, wp_modify. rewrite seg_fds_set, decide_True, set_set_fds by done. fold w.
      by replace (Z.to_nat (segno + 1)) with (S (Z.to_nat segno)) by lia. }
    destruct (umfile_fork_allows_sparse_segments k); [|done]. by rewrite bool_decide_true by lia.
Qed.

Lemma wp_openseg r k segno creat Q (E : pg_error → U → Prop) u :
  um_ok u → 0 ≤ segno →
  (umfile_fork_allows_sparse_segments k = false →
     segno = Z.of_nat (length (seg_fds u r k)) ∧
     (creat = false ∨
      segno ≠ 0 ∧ ∀ m, 0 ≤ m < segno → of_size (seg u r k m) = SEG_BYTES)) →
  (creat = true → segno * RELSEG_SIZE ≤ InvalidBlockNumber) →
  (∀ e, open_fails (r, k, segno) creat false u e → Q (inl e) (tick u)) →
  (∀ u' ino, um_ok u' → grow r k u u' → same_seg u u' →
     at_seg r k segno u' (MkSeg (Some ino) segno) ino →
     seg_fds u' r k = open_at (Z.to_nat segno) (MkSeg (Some ino) segno) (seg_fds u r k) →
     (creat = false → um_dir u' = um_dir u) →
     Q (inr (MkSeg (Some ino) segno)) u') →
  wp (umfile_openseg fault r k segno creat) Q E u.
Proof.
  intros Hok Hn Hden Hmax He HQ. apply wp_bind. set (n := Z.to_nat segno).
  assert (∀ u1 ino, um_ok u1 → grow r k u u1 → same_seg u u1 → um_dir u1 !! (r, k, segno) = Some ino →
    seg_fds u1 r k = seg_fds u r k → (creat = false → um_dir u1 = um_dir u) →
    Q (inr (MkSeg (Some ino) segno))
      (set_seg_fds r k (open_at n (MkSeg (Some ino) segno) (seg_fds u1 r k)) u1)) as Hgo.
  { intros u1 ino Hok1 Hg Hs Hd Hfds Hdir. apply HQ; [| |done|done| |done].
    - apply set_fds_ok; [done|]. pose proof (open_at_ok (um_dir u1) r k n ino (seg_fds u1 r k)) as Hop.
      replace (Z.of_nat n) with segno in Hop by lia. apply Hop; [by apply um_fds_ok|done|].
      intros Hk. destruct (Hden Hk) as [Hl _]. rewrite Hfds. lia.
    - etrans; [done|apply set_fds_grow].
    - by rewrite seg_fds_set, decide_True, Hfds. }
  apply wp_open_file; [intros; by apply wp_ret, He|..].
  - intros ino Hd _. apply wp_bind, wp_install; [done|intros Hk; apply (Hden Hk)|].
    apply wp_ret. by apply (Hgo (tick u)); try done; apply tick_grow.
  - intros Hd ->. apply wp_bind, wp_install; [done|intros Hk; apply (Hden Hk)|]. apply wp_ret.
    apply (Hgo (created (r, k, segno) (tick u))); [| | | |done|done].
    + apply created_ok; try done; [by apply Hmax|]. intros Hk. by destruct (Hden Hk) as [_ [|[_ ?]]].
    + etrans; [apply tick_grow|]. apply created_grow; [done|done|]. intros Hk. by destruct (Hden Hk) as [_ [|[? _]]].
    + intros r' k' n'. by apply (seg_created (tick u)).
    + cbn -[fresh]. by rewrite lookup_insert_eq.
Qed.

(** ** Steps that leave the disk alone *)

Definition quiet u u' : Prop :=
  um_dir u' = um_dir u ∧ um_inodes u' = um_inodes u ∧ um_registry u' = um_registry u.

Lemma quiet_ok u u' : um_ok u → quiet u u' → um_ok u'.
Proof. unfold um_ok. by intros Hok (-> & -> & ->). Qed.

Lemma quiet_seg u u' : quiet u u' → same_seg u u'.
Proof. intros (Hd & Hi & _) r k n. unfold seg. by rewrite Hd, Hi. Qed.

Lemma quiet_grow r k u u' : quiet u u' → grow r k u u'.
Proof.
  intros Hq. pose proof (quiet_seg _ _ Hq) as Hs. destruct Hq as (Hd & Hi & Hg).
  split; intros; rewrite ?Hd, ?Hs; try done. unfold seg_fds. by rewrite Hg.
Qed.

#[global] Instance um_quiet_trans : Transitive quiet.
Proof. intros u1 u2 u3 (D1 & I1 & R1) (D2 & I2 & R2). unfold quiet. by rewrite D2, I2, R2. Qed.

Lemma quiet_content u u' r k b : quiet u u' → um_content u' r k b = um_content u r k b.
Proof. intros Hq. unfold um_content. by rewrite (quiet_seg _ _ Hq). Qed.

(** A storing step after a quiet one. *)
Lemma stored_quiet r k b ds u u1 u2 : quiet u u1 → stored r k b ds u1 u2 → stored r k b ds u u2.
Proof.
  intros Hq [O D T K X]. split; [done|done|..].
  - intros. by rewrite T, (quiet_content _ _ _ _ _ Hq).
  - intros b' Hb. rewrite <-(quiet_content u u1) by done. by apply K.
  - intros r'. rewrite X. by destruct Hq as (-> & _).
Qed.

Lemma quiet_stored r k b ds u u1 u2 : stored r k b ds u u1 → quiet u1 u2 → stored r k b ds u u2.
Proof.
  intros [O D T K X] Hq. split; intros; rewrite ?(quiet_content _ _ _ _ _ Hq); auto.
  - by eapply quiet_ok.
  - destruct Hq as (-> & _). apply X.
Qed.

Lemma quiet_tick u : quiet u (tick u).
Proof. done. Qed.

(** The next checkpoint syncs the segment, or it has just been synced. *)
Definition sync_due (r : RelFileLocator) (k : ForkNumber) (n : Z) (ino : nat) u : Prop :=
  SYNC_REQUEST (r, k, n) ∈ um_events u ∨ Fsync ino ∈ um_events u.

Definition no_faults : Prop := ∀ c n, fault c n = None.
Definition valid_rel (r : RelFileLocator) : Prop := relNumber r ≠ 0 ∧ spcOid r ≠ 0.

Lemma wp_register_dirty r k n ino Q (E : pg_error → U → Prop) u :
  (∀ u', quiet u u' → sync_due r k n ino u' → Q tt u') →
  (∀ e u', quiet u u' → ¬ (no_faults ∧ valid_rel r) → E e u') →
  wp (umfile_register_dirty_seg fault data_sync_retry r k (MkSeg (Some ino) n)) Q E u.
Proof.
  intros HQ HE. unfold umfile_register_dirty_seg. destruct (_ || _) eqn:Hv.
  { apply wp_throw, HE; [done|]. intros [_ [Hr Hs]]. rewrite !bool_decide_false in Hv by done. done. }
  apply wp_bind. unfold RegisterSyncRequest. apply wp_bind, wp_sys.
  destruct (fault SysQueue _).
  - apply wp_ret, wp_bind, wp_ret, wp_bind. unfold FileSync. apply wp_bind, wp_sys.
    destruct (fault SysSync _) eqn:Hf; [apply wp_ret, wp_throw, HE; [done|]|].
    { intros [Hn _]. by rewrite Hn in Hf. }
    apply wp_bind, wp_modify, wp_ret, wp_ret, HQ; [done|]. right. apply elem_of_app. right. by left.
  - apply wp_bind, wp_modify, wp_ret, wp_ret, HQ; [done|]. left. apply elem_of_app. right. by left.
Qed.

Lemma wp_when_register skip r k n ino Q (E : pg_error → U → Prop) u :
  (∀ u', quiet u u' → (skip = false → temp = false → sync_due r k n ino u') → Q tt u') →
  (∀ e u', quiet u u' → ¬ (no_faults ∧ valid_rel r) → E e u') →
  wp (when (negb skip && negb temp)
       (umfile_register_dirty_seg fault data_sync_retry r k (MkSeg (Some ino) n))) Q E u.
Proof.
  intros HQ HE. apply wp_when.
  - intros _. apply wp_register_dirty; [|done]. intros u' Hq Hd. by apply HQ.
  - intros Hb. apply HQ; [done|]. intros -> ->. done.
Qed.

(** ** Transfers *)

Lemma at_seg_inode r k n u v ino :
  um_ok u → at_seg r k n u v ino → um_inodes u !! ino = Some (seg u r k n).
Proof.
  intros Hok [_ Hd]. destruct (ui_file _ _ _ Hok _ _ _ _ Hd) as [[f Hf] _].
  unfold seg, seg_file. rewrite Hd. cbn. by rewrite Hf.
Qed.

Lemma wp_write ino off bs f Q (E : pg_error → U → Prop) u :
  um_inodes u !! ino = Some f →
  (∀ e, Q (inl e) (tick u)) →
  (∀ m, m = Z.max 0 (Z.min (Z.of_nat (length bs)) (chunk SysWrite (S (um_calls u)) (Z.of_nat (length bs)))) →
     Q (inr m) (with_inodes (<[ino := write_bytes f off (take (Z.to_nat m) bs)]> (um_inodes u)) (tick u))) →
  wp (FileWriteV fault chunk ino off bs) Q E u.
Proof.
  intros Hf He HQ. apply wp_bind, wp_sys. destruct (fault SysWrite _); [apply wp_ret, He|].
  apply wp_bind. unfold inode. apply wp_bind, wp_gets. cbn [tick um_inodes]. rewrite Hf.
  apply wp_ret, wp_bind, wp_bind, wp_gets, wp_ret, wp_bind, wp_modify, wp_ret. by apply HQ.
Qed.

Lemma wp_size r k n ino v Q (E : pg_error → U → Prop) u :
  um_ok u → at_seg r k n u v ino →
  (∀ e, fault SysSize (um_calls u) = Some e → Q (inl e) (tick u)) →
  Q (inr (of_size (seg u r k n))) (tick u) → wp (FileSize fault ino) Q E u.
Proof.
  intros Hok Hat He HQ. apply wp_bind, wp_sys. destruct (fault SysSize _) eqn:Hf; [by apply wp_ret, He|].
  apply wp_bind. unfold inode. apply wp_bind, wp_gets. cbn [tick um_inodes].
  rewrite (at_seg_inode _ _ _ _ _ _ Hok Hat). by apply wp_ret, wp_ret.
Qed.

Lemma seg_size_blocks u r k n :
  um_ok u → ∃ b, 0 ≤ b ≤ RELSEG_SIZE ∧ of_size (seg u r k n) = b * BLCKSZ ∧
    u32 (of_size (seg u r k n) / BLCKSZ) = b.
Proof.
  intros Hok. destruct (ui_ok _ _ _ Hok r k n) as [Hs Hw _ _]. fold (seg u r k n) in *.
  unfold SEG_BYTES, RELSEG_SIZE, BLCKSZ in *. exists (of_size (seg u r k n) / 8192). ulia.
Qed.

(** The number of blocks of an open segment. *)
Lemma wp_nblocks_in_seg r k n ino v Q (E : pg_error → U → Prop) u :
  um_ok u → at_seg r k n u v ino →
  (∀ e er, fault SysSize (um_calls u) = Some e → E er (tick u)) →
  (∀ b, 0 ≤ b ≤ RELSEG_SIZE → of_size (seg u r k n) = b * BLCKSZ → Q b (tick u)) →
  wp (umfile_nblocks_in_seg fault v) Q E u.
Proof.
  intros Hok Hat He HQ. pose proof Hat as [-> _]. apply wp_bind, wp_ret, wp_bind.
  apply (wp_size r k n ino (MkSeg (Some ino) n)); [done|done|intros e Hf; by eapply wp_throw, He|].
  destruct (seg_size_blocks u r k n Hok) as (b & Hb & Hs & ->). by apply wp_ret, HQ.
Qed.

Lemma wp_extend_seg r k b v ino buf skip Q (E : pg_error → U → Prop) u :
  um_ok u → at_seg r k (segno_of b) u v ino → 0 ≤ b < InvalidBlockNumber →
  Z.of_nat (length buf) = BLCKSZ → Forall is_byte buf →
  (∀ u', um_ok u' →
     wrote r k (segno_of b) (write_bytes (seg u r k (segno_of b)) (seekpos_of b) buf) u u' →
     (skip = false → temp = false → sync_due r k (segno_of b) ino u') → Q tt u') →
  (∀ e u', E e u') →
  wp (extend_seg fault chunk temp data_sync_retry r k v b buf skip) Q E u.
Proof.
  intros Hok Hat Hb Hlen Hbs HQ HE. pose proof Hat as [-> Hd]. apply wp_bind, wp_ret, wp_bind.
  eapply wp_write; [by eapply at_seg_inode|intros; by apply wp_throw, HE|].
  intros m Hm. case_decide as Hall; [|apply wp_throw, HE].
  rewrite take_ge by lia. set (u1 := with_inodes _ _).
  pose proof (Z.mod_pos_bound b RELSEG_SIZE ltac:(done)).
  pose proof (write_may_replace u r k b 1 buf _ (reflexivity _)) as Hmr.
  pose proof (set_inode_wrote (tick u) r k (segno_of b) ino
    (write_bytes (seg u r k (segno_of b)) (seekpos_of b) buf) Hok Hd) as (Wd & Wr & Ws).
  assert (um_ok u1) as Hok1.
  { apply (set_inode_ok (tick u) r k (segno_of b)); [done|done|]. destruct Hmr; try done; lia. }
  apply wp_when_register; [|intros; apply HE]. intros u' Hq Hdue. apply HQ; [by eapply quiet_ok| |done].
  pose proof (quiet_seg _ _ Hq) as Hs. destruct Hq as (Qd & _ & Qr).
  split_and!; [by rewrite Qd|by rewrite Qr|]. intros r' k' n'. rewrite Hs. apply Ws.
Qed.

(** ** Finding a segment *)

Lemma fds_at_seg r k j v u :
  um_ok u → seg_fds u r k !! j = Some v → is_Some (umfd_vfd v) →
  ∃ ino, at_seg r k (Z.of_nat j) u v ino.
Proof.
  intros Hok Hj [ino Hv]. exists ino. destruct (ui_open _ _ _ Hok r k j v ino Hj Hv) as [Hs Hd].
  split; [|done]. destruct v as [vfd sno]. cbn in *. by rewrite Hv, Hs.
Qed.

Lemma wp_open_seg_of r k b Q (E : pg_error → U → Prop) u :
  um_ok u → 0 ≤ b →
  (∀ v ino, at_seg r k (segno_of b) u v ino → Q (Some v) u) →
  ((umfile_fork_allows_sparse_segments k = false → Z.of_nat (length (seg_fds u r k)) ≤ segno_of b) → Q None u) →
  wp (open_seg_of r k b) Q E u.
Proof.
  intros Hok Hb Hyes Hno. apply wp_bind, wp_gets.
  assert (0 ≤ segno_of b) as Hs0 by (by apply Z.div_pos).
  case_decide as Hlt; [|apply wp_ret, Hno; lia]. apply wp_bind, wp_gets, wp_ret.
  destruct (lookup_lt_is_Some_2 (seg_fds u r k) (Z.to_nat (segno_of b))) as [v Hv]; [lia|].
  rewrite Hv. cbn. destruct (umfile_seg_entry_is_open v) eqn:Hop.
  - rewrite orb_true_r. apply bool_decide_eq_true in Hop.
    destruct (fds_at_seg _ _ _ _ _ Hok Hv Hop) as [ino Hat]. eapply Hyes. by rewrite Z2Nat.id in Hat by done.
  - rewrite orb_false_r. destruct (umfile_fork_allows_sparse_segments k) eqn:Hk; cbn; [by apply Hno|].
    apply bool_decide_eq_false in Hop. destruct Hop. by eapply (ui_dense_open _ _ _ Hok).
Qed.

Lemma zero_block_bytes : Forall is_byte zero_block.
Proof. apply Forall_replicate. split; cbn; lia. Qed.

(** Filling the last segment of a dense fork with zeros. *)
Lemma wp_pad r k next skip Q (E : pg_error → U → Prop) u :
  um_ok u → umfile_fork_allows_sparse_segments k = false →
  Z.of_nat (length (seg_fds u r k)) = next → 1 ≤ next → next * RELSEG_SIZE ≤ InvalidBlockNumber →
  of_size (seg u r k (next - 1)) < SEG_BYTES →
  (∀ u', um_ok u' → grow r k u u' → seg_fds u' r k = seg_fds u r k → um_dir u' = um_dir u →
     of_size (seg u' r k (next - 1)) = SEG_BYTES → Q tt u') →
  (∀ e u', E e u') →
  wp (pad_seg fault chunk temp data_sync_retry r k (u32 (next * RELSEG_SIZE - 1)) skip) Q E u.
Proof.
  intros Hok Hk Hlen Hn Hmax Hsz HQ HE.
  assert (u32 (next * RELSEG_SIZE - 1) = next * RELSEG_SIZE - 1) as ->
    by (unfold InvalidBlockNumber, RELSEG_SIZE in *; ulia).
  set (b := next * RELSEG_SIZE - 1). assert (segno_of b = next - 1) as Hseg
    by (unfold segno_of, b, RELSEG_SIZE; ulia).
  assert (seekpos_of b = SEG_BYTES - BLCKSZ) as Hpos
    by (unfold seekpos_of, b, SEG_BYTES, RELSEG_SIZE, BLCKSZ; ulia).
  assert (0 ≤ b) by (unfold b, RELSEG_SIZE; lia).
  apply wp_bind, wp_open_seg_of; [done|done| |intros Hc; specialize (Hc Hk); lia].
  intros v ino Hat. apply (wp_extend_seg r k b v ino); [done|done|lia|done|apply zero_block_bytes| |done].
  intros u' Hok' Hw _. rewrite Hseg in Hw. destruct (ui_ok _ _ _ Hok r k (next - 1)) as [Hs Hwh _ Hz].
  fold (seg u r k (next - 1)) in *.
  assert (of_size (seg u r k (next - 1)) ≤ SEG_BYTES - BLCKSZ)
    by (unfold SEG_BYTES, RELSEG_SIZE, BLCKSZ in *; ulia).
  apply HQ; [done| | |apply Hw|].
  - eapply wrote_grow; [done|]. split; [cbn; case_decide; lia|]. intros p. cbn. rewrite Hpos.
    case_decide as Hp; [|done]. rewrite Hz by lia.
    destruct (zero_block !! _) as [x|] eqn:Hx; [|done]. by apply lookup_replicate in Hx as [-> _].
  - unfold seg_fds. by rewrite (proj1 (proj2 Hw)).
  - rewrite (proj2 (proj2 Hw)), decide_True by done. rewrite size_write_bytes by done.
    change (Z.of_nat (length zero_block)) with BLCKSZ. rewrite Hpos. unfold SEG_BYTES, RELSEG_SIZE, BLCKSZ in *. lia.
Qed.

(** What a search for a segment does to the files. *)
Definition found (r : RelFileLocator) (k : ForkNumber) (create : bool) u u' : Prop :=
  um_ok u' ∧ grow r k u u' ∧ (create = false → same_seg u u' ∧ um_dir u' = um_dir u).

Lemma found_trans r k c u1 u2 u3 : found r k c u1 u2 → found r k c u2 u3 → found r k c u1 u3.
Proof.
  intros (O1 & G1 & S1) (O2 & G2 & S2). split_and!; [done|by etrans|]. intros Hc.
  destruct (S1 Hc) as [A1 B1], (S2 Hc) as [A2 B2]. split; [|congruence]. intros ???. by rewrite A2, A1.
Qed.

Lemma found_quiet r k c u u' : um_ok u → quiet u u' → found r k c u u'.
Proof.
  intros Hok Hq. split_and!; [by eapply quiet_ok|by apply quiet_grow|].
  intros _. split; [by apply quiet_seg|apply Hq].
Qed.

Lemma full_below u r k n ino :
  um_ok u → umfile_fork_allows_sparse_segments k = false → um_dir u !! (r, k, n) = Some ino →
  of_size (seg u r k n) = SEG_BYTES → ∀ m, 0 ≤ m < n + 1 → of_size (seg u r k m) = SEG_BYTES.
Proof.
  intros Hok Hk Hd Hf m Hm. destruct (decide (m = n)) as [->|]; [done|].
  apply (ui_dense _ _ _ Hok r k n); [done|by rewrite Hd|lia].
Qed.

(** The calls that only look at files succeed. *)
Definition calm_faults : Prop := ∀ c n, c ∈ [SysOpen; SysSize; SysRead; SysAccess] → fault c n = None.

Lemma calm_open c n e : c ∈ [SysOpen; SysSize; SysRead; SysAccess] → calm_faults → fault c n ≠ Some e.
Proof. intros Hc Hf. by rewrite (Hf c n Hc). Qed.

(** A search that must succeed: nothing is created and the segment is there. *)
Definition sure (r : RelFileLocator) (k : ForkNumber) (create : bool) (n : Z) u : Prop :=
  calm_faults ∧ create = false ∧ is_Some (um_dir u !! (r, k, n)).

Lemma sure_found r k c n u u' : sure r k c n u → grow r k u u' → sure r k c n u'.
Proof. intros (Hf & Hc & Hd) Hg. split_and!; [done|done|]. by rewrite (gr_dir _ _ _ _ Hg). Qed.

Lemma dir_of_size u r k n : 0 < of_size (seg u r k n) → is_Some (um_dir u !! (r, k, n)).
Proof. unfold seg, seg_file. destruct (um_dir u !! (r, k, n)); [eauto|]. cbn. lia. Qed.

Lemma sure_opens r k c n m u e :
  um_ok u → umfile_fork_allows_sparse_segments k = false → sure r k c n u → 0 ≤ m ≤ n →
  ¬ open_fails (r, k, m) c false u e.
Proof.
  intros Hok Hk (Hf & -> & Hd) Hm [He|[(_ & Hn & _)|(_ & _ & ?)]]; [|..|done].
  - eapply calm_open; [|done|exact He]. set_solver.
  - assert (is_Some (um_dir u !! (r, k, m))) as [? ?]; [|congruence].
    destruct (decide (m = n)) as [->|]; [done|]. apply dir_of_size.
    unfold seg. rewrite (ui_dense _ _ _ Hok r k n m) by (done || lia). done.
Qed.

Lemma wp_open_segs n r k next v ino skip beh Q (E : pg_error → U → Prop) u :
  um_ok u → umfile_fork_allows_sparse_segments k = false →
  Z.of_nat (length (seg_fds u r k)) = next → 1 ≤ next → at_seg r k (next - 1) u v ino →
  (next + Z.of_nat n - 1) * RELSEG_SIZE ≤ InvalidBlockNumber →
  (∀ u' v' ino', found r k (may_create recovery beh) u u' →
     at_seg r k (next + Z.of_nat n - 1) u' v' ino' → Q (Some v') u') →
  (∀ u', found r k (may_create recovery beh) u u' → has_flag beh UM_EXTENSION_RETURN_NULL = true → Q None u') →
  (∀ e u', ¬ sure r k (may_create recovery beh) (next + Z.of_nat n - 1) u → E e u') →
  wp (open_segs fault chunk temp recovery data_sync_retry n r k next v skip beh) Q E u.
Proof.
  intros Hok Hk. revert next v ino u Hok. induction n as [|n IH];
    intros next v ino u Hok Hlen Hn Hat Hmax Hyes Hno HE; cbn [open_segs].
  { apply wp_ret. eapply Hyes; [by apply found_quiet|]. by rewrite Z.add_0_r. }
  set (t := next + Z.of_nat (S n) - 1) in *.
  apply wp_bind. eapply wp_nblocks_in_seg; [done|done| |].
  { intros e er He. apply HE. intros [Hf _]. eapply calm_open; [|done|exact He]. set_solver. }
  intros nb Hnb Hsz. rewrite decide_False by lia. set (c := may_create recovery beh) in *.
  destruct (negb c && bool_decide (nb < RELSEG_SIZE)) eqn:Hshort.
  { destruct (has_flag beh _) eqn:Hf; [apply wp_ret, Hno; [by apply found_quiet|done]|].
    apply wp_throw, HE. intros (_ & _ & Hd). zbool.
    assert (of_size (seg u r k (next - 1)) = SEG_BYTES) as Hfull
      by (apply (ui_dense _ _ _ Hok r k t); [done|done|lia]).
    unfold SEG_BYTES, BLCKSZ in *. lia. }
  assert (∀ u1, found r k c u u1 → seg_fds u1 r k = seg_fds u r k →
    of_size (seg u1 r k (next - 1)) = SEG_BYTES →
    wp (res ← umfile_openseg fault r k next c;
        match res with
        | inl e => if has_flag beh UM_EXTENSION_RETURN_NULL && FILE_POSSIBLY_DELETED e
                   then mret None else ereport ERROR (errcode_for_file_access e) "could not open file"
        | inr v => open_segs fault chunk temp recovery data_sync_retry n r k (next + 1) v skip beh
        end) Q E u1) as Hgo.
  { intros u1 Hf1 Hfd Hfull. pose proof Hf1 as (Hok1 & Hg1 & _).
    assert (∃ i, um_dir u1 !! (r, k, next - 1) = Some i) as [i Hi].
    { destruct Hat as [_ Hd]. exists ino. rewrite (gr_dir _ _ _ _ Hg1); [done|by rewrite Hd]. }
    apply wp_bind, wp_openseg; [done|lia| |intros _; unfold RELSEG_SIZE in *; lia| |].
    - intros _. rewrite Hfd. split; [lia|]. right. split; [lia|]. intros m Hm.
      eapply (full_below u1 r k (next - 1)); [done|done|done|done|lia].
    - intros e He. assert (¬ sure r k c t u) as Hns.
      { intros Hs. eapply (sure_opens r k c t next u1); [done|done|by eapply sure_found|lia|done]. }
      destruct (has_flag beh _) eqn:Hf; [|by apply wp_throw, HE]. cbn.
      destruct (FILE_POSSIBLY_DELETED e); [|by apply wp_throw, HE]. apply wp_ret, Hno; [|done].
      eapply found_trans; [done|by apply found_quiet].
    - intros u2 ino2 Hok2 Hg2 Hs2 Hat2 Hfd2 Hd2.
      assert (found r k c u u2) as Hf2.
      { eapply found_trans; [done|]. split_and!; [done|done|]. intros Hc. by split; [|apply Hd2]. }
      apply (IH (next + 1) _ ino2 u2); [done| |lia|by rewrite Z.add_simpl_r|lia|..];
        replace (next + 1 + Z.of_nat n - 1) with t by lia.
      + rewrite Hfd2, length_open_at, Hfd. lia.
      + intros u' v' ino' Hf' Hat'. apply (Hyes u' v' ino'); [by eapply found_trans|done].
      + intros u' Hf' Hb. apply Hno; [by eapply found_trans|done].
      + intros e u' Hns. apply HE. intros Hs. apply Hns. by eapply sure_found; [|apply Hf2]. }
  apply wp_bind, wp_when.
  - intros [Hc Hlt]%andb_true_iff. apply bool_decide_eq_true in Hlt.
    apply wp_pad; [done|done|done|lia|unfold RELSEG_SIZE in *; lia| | |].
    + change (seg (tick u)) with (seg u). unfold SEG_BYTES, BLCKSZ in *. lia.
    + intros u1 Hok1 Hg1 Hfd1 _ Hfull. apply Hgo; [|done|done].
      split_and!; [done|etrans; [apply tick_grow|done]|by rewrite Hc].
    + intros e u' . apply HE. intros (_ & Hc' & _). congruence.
  - intros Hno'. apply Hgo; [by apply found_quiet|done|]. change (seg (tick u)) with (seg u).
    destruct c; cbn in *; zbool; unfold SEG_BYTES; rewrite Hsz; f_equal; lia.
Qed.

Lemma wp_openfork r k beh Q (E : pg_error → U → Prop) u :
  um_ok u →
  (∀ v, seg_fds u r k !! 0%nat = Some v → Q (Some v) u) →
  (∀ u' ino, seg_fds u r k = [] → um_ok u' → grow r k u u' → same_seg u u' → um_dir u' = um_dir u →
     seg_fds u' r k = [MkSeg (Some ino) 0] → at_seg r k 0 u' (MkSeg (Some ino) 0) ino →
     Q (Some (MkSeg (Some ino) 0)) u') →
  (∀ e, seg_fds u r k = [] → open_fails (r, k, 0) false false u e →
     if has_flag beh UM_EXTENSION_RETURN_NULL && FILE_POSSIBLY_DELETED e
     then Q None (tick u) else ∀ er, E er (tick u)) →
  wp (umfile_openfork fault r k beh) Q E u.
Proof.
  intros Hok Hold Hnew Hfail. apply wp_bind, wp_gets.
  destruct (seg_fds u r k) as [|v0 vs] eqn:Hfd.
  2: { rewrite decide_True by (cbn; lia). apply wp_bind, wp_gets, wp_ret. rewrite Hfd. by apply Hold. }
  rewrite decide_False by (cbn; lia). apply wp_bind, wp_open_file; [..|done].
  - intros e He. specialize (Hfail e eq_refl He). destruct (_ && _); [by apply wp_ret|apply wp_throw, Hfail].
  - intros ino Hd _. apply wp_bind, wp_modify, wp_bind, wp_modify, wp_ret.
    rewrite seg_fds_set, decide_True, set_set_fds by done. change (seg_fds (tick u)) with (seg_fds u).
    rewrite Hfd. cbn [resize]. set (v := MkSeg (Some ino) 0).
    assert (fds_ok (um_dir (tick u)) r k [v]) as Hv.
    { pose proof (open_at_ok (um_dir u) r k 0 ino []) as Hop. rewrite <-Hfd in Hop at 1.
      apply Hop; [by apply um_fds_ok|done|done]. }
    apply Hnew; try done.
    + by apply set_fds_ok.
    + etrans; [apply tick_grow|apply set_fds_grow].
    + by rewrite seg_fds_set, decide_True.
Qed.

Lemma segno_bounds b : 0 ≤ b < InvalidBlockNumber → 0 ≤ segno_of b ∧ segno_of b * RELSEG_SIZE ≤ b.
Proof. unfold segno_of, RELSEG_SIZE, InvalidBlockNumber. ulia. Qed.

(** [umfile_getseg] finds or makes the segment of a block. *)
Lemma wp_getseg r k b skip beh Q (E : pg_error → U → Prop) u :
  um_ok u → 0 ≤ b < InvalidBlockNumber → has_flag beh UM_EXTENSION_DONT_OPEN = false →
  (∀ u' v ino, found r k (may_create recovery beh) u u' → at_seg r k (segno_of b) u' v ino → Q (Some v) u') →
  (∀ u', found r k (may_create recovery beh) u u' → has_flag beh UM_EXTENSION_RETURN_NULL = true → Q None u') →
  (∀ e u', ¬ sure r k (may_create recovery beh) (segno_of b) u → E e u') →
  wp (umfile_getseg fault chunk temp recovery data_sync_retry r k b skip beh) Q E u.
Proof.
  intros Hok Hb Hopen Hyes Hno HE. destruct (segno_bounds b Hb) as [Hs0 Hsb].
  apply wp_bind, wp_open_seg_of; [done|lia| |].
  { intros v ino Hat. apply wp_ret. eapply Hyes; [by apply found_quiet|done]. }
  intros Hlen. rewrite Hopen. destruct (umfile_fork_allows_sparse_segments k) eqn:Hk.
  - apply wp_bind, wp_openseg; [done|done|by rewrite Hk|lia| |].
    + intros e He. assert (¬ sure r k (may_create recovery beh) (segno_of b) u) as Hns.
      { intros (Hf & Hc & Hd). destruct He as [He|[(_ & Hn & _)|(_ & _ & Hx)]].
        - eapply calm_open; [|done|exact He]. set_solver.
        - rewrite Hn in Hd. by destruct Hd.
        - by rewrite andb_false_r in Hx. }
      destruct (has_flag beh UM_EXTENSION_RETURN_NULL) eqn:Hf; [|by apply wp_throw, HE]. cbn.
      destruct (FILE_POSSIBLY_DELETED e); [|by apply wp_throw, HE].
      apply wp_ret, Hno; [by apply found_quiet|done].
    + intros u' ino Hok' Hg Hs Hat Hfd Hd. apply wp_ret. eapply Hyes; [|done].
      split_and!; [done|done|]. intros Hc. by split; [|apply Hd].
  - specialize (Hlen eq_refl). apply wp_bind, wp_gets, wp_bind.
    assert (∀ u1 v ino, found r k false u u1 → 1 ≤ Z.of_nat (length (seg_fds u1 r k)) ≤ segno_of b + 1 →
      at_seg r k (Z.of_nat (length (seg_fds u1 r k)) - 1) u1 v ino →
      wp (n ← num_open_segs r k;
          open_segs fault chunk temp recovery data_sync_retry (Z.to_nat (segno_of b + 1 - n)) r k n v skip beh)
        Q E u1) as Hgo.
    { intros u1 v ino (Hok1 & Hg1 & Hs1) Hl1 Hat1. apply wp_bind, wp_gets.
      set (n := Z.of_nat (length (seg_fds u1 r k))) in *.
      assert (n + Z.of_nat (Z.to_nat (segno_of b + 1 - n)) - 1 = segno_of b) as Ht by lia.
      assert (found r k (may_create recovery beh) u u1) as Hf1 by (split_and!; auto).
      apply (wp_open_segs (Z.to_nat (segno_of b + 1 - n)) r k n v ino); [done|done|done|lia|done|..];
        rewrite ?Ht; [lia|..].
      - intros u' v' ino' Hf' Hat'. eapply Hyes; [by eapply found_trans|done].
      - intros u' Hf' Hb'. apply Hno; [by eapply found_trans|done].
      - intros e u' Hns. apply HE. intros Hsu. apply Hns. by eapply sure_found. }
    case_decide as Hpos.
    + apply wp_bind, wp_gets, wp_ret.
      destruct (lookup_lt_is_Some_2 (seg_fds u r k) (Z.to_nat (Z.of_nat (length (seg_fds u r k)) - 1)))
        as [v Hv]; [lia|]. rewrite Hv. cbn.
      destruct (fds_at_seg _ _ _ _ _ Hok Hv) as [ino Hat]; [by eapply (ui_dense_open _ _ _ Hok)|].
      eapply Hgo; [by apply found_quiet|lia|]. by rewrite Z2Nat.id in Hat by lia.
    + assert (seg_fds u r k = []) as Hnil by (apply nil_length_inv; lia).
      apply wp_openfork; [done|by rewrite Hnil| |].
      * intros u1 ino _ Hok1 Hg1 Hs1 Hd1 Hfd1 Hat1. eapply Hgo; [|by rewrite Hfd1; cbn; lia|by rewrite Hfd1].
        by split_and!.
      * intros e _ He. assert (¬ sure r k (may_create recovery beh) (segno_of b) u) as Hns.
        { intros Hsu. pose proof Hsu as (_ & Hc & _).
          eapply (sure_opens r k false (segno_of b) 0 u e); [done|done|by rewrite <-Hc|lia|done]. }
        destruct (has_flag beh UM_EXTENSION_RETURN_NULL) eqn:Hf; cbn [andb]; [|intros er; by apply HE].
        destruct (FILE_POSSIBLY_DELETED e); [|intros er; by apply HE].
        apply wp_ret. apply Hno; [by apply found_quiet|done].
Qed.
End calls.
