(* ===== verification/UmFileOps.v ===== *)
(** * Reading and writing blocks of segment files

    What the operations of [umfile.c] do to the blocks of a fork.  Transfers
    that are cut short are continued; an extension or a write stores its blocks
    and keeps the others; a read returns the blocks. *)

From S2P Require Import Prelude FileLayer SmgrFiles UmOs UmFile UmFileInv UmFileSpec.

Local Open Scope Z_scope.

Section ops.
Context (fault : syscall → nat → option errno) (chunk : syscall → nat → Z → Z).
Context (temp recovery zero_damaged_pages IsBinaryUpgrade data_sync_retry : bool).
Local Abbreviation U := UmFiles.
Implicit Types u : U.

(** ** Transfers that are cut short *)

(** A transfer that does not fail moves something. *)
Definition moves : Prop := ∀ c n x, 0 < x → 0 < chunk c n x.

Lemma write_bytes_app f pos a c :
  write_bytes (write_bytes f pos a) (pos + Z.of_nat (length a)) c ≡ write_bytes f pos (a ++ c).
Proof.
  split.
  - cbn. rewrite length_app. destruct a as [|x a], c as [|y c]; cbn [app];
      repeat case_decide; try done; cbn [length]; lia.
  - intros p. cbn. rewrite length_app.
    destruct (decide (pos + Z.of_nat (length a) ≤ p < pos + Z.of_nat (length a) + Z.of_nat (length c))).
    + rewrite (decide_True (P := pos ≤ p < pos + Z.of_nat (length a + length c))) by lia.
      rewrite lookup_app_r by lia. do 2 f_equal. lia.
    + destruct (decide (pos ≤ p < pos + Z.of_nat (length a))).
      * rewrite decide_True by lia. by rewrite lookup_app_l by lia.
      * by rewrite decide_False by lia.
Qed.

(** The file after the writes, whatever pieces they come in. *)
Definition rewritten (ino : nat) (f : OsFile) u u' : Prop :=
  um_dir u' = um_dir u ∧ um_registry u' = um_registry u ∧
  ∃ f', f' ≡ f ∧ um_inodes u' = <[ino := f']> (um_inodes u).

Lemma wp_write_loop fuel ino pos bs f Q (E : pg_error → U → Prop) u :
  moves → um_inodes u !! ino = Some f → bs ≠ [] → (length bs ≤ fuel)%nat →
  (∀ u', rewritten ino (write_bytes f pos bs) u u' → Q tt u') →
  (∀ e u', (∃ n er, fault SysWrite n = Some er) → E e u') →
  wp (write_loop fault chunk fuel ino pos bs) Q E u.
Proof.
  intros Hmv. revert pos bs f u. induction fuel as [|fuel IH]; intros pos bs f u Hf Hne Hlen HQ HE.
  { destruct bs; [done|cbn in *; lia]. }
  cbn [write_loop]. apply wp_bind. unfold FileWriteV. apply wp_bind, wp_sys.
  destruct (fault SysWrite (um_calls u)) eqn:Hfl; [apply wp_ret, wp_throw, HE; eauto|].
  apply wp_bind. unfold inode. apply wp_bind, wp_gets. cbn [tick um_inodes]. rewrite Hf.
  apply wp_ret, wp_bind, wp_bind, wp_gets, wp_ret, wp_bind, wp_modify, wp_ret.
  set (x := Z.of_nat (length bs)). set (m := Z.max 0 _).
  assert (0 < x) by (destruct bs; [done|cbn in *; lia]).
  assert (0 < m ≤ x) as Hm by (specialize (Hmv SysWrite (um_calls (tick u)) x); lia).
  set (u1 := with_inodes _ _). case_decide as Hall.
  - apply wp_ret, HQ. split_and!; [done|done|]. eexists. split; [|done]. by rewrite take_ge by lia.
  - apply (IH _ _ (write_bytes f pos (take (Z.to_nat m) bs))).
    + cbn. by rewrite lookup_insert_eq.
    + intros Hnil%(f_equal length). rewrite length_drop in Hnil. cbn in Hnil. lia.
    + rewrite length_drop. lia.
    + intros u' (Hd & Hg & f' & Hf' & Hi). apply HQ. split_and!; [done|done|]. exists f'.
      split; [|by rewrite Hi; cbn; rewrite insert_insert_eq]. rewrite Hf'.
      pose proof (write_bytes_app f pos (take (Z.to_nat m) bs) (drop (Z.to_nat m) bs)) as Hsp.
      rewrite take_drop, length_take in Hsp.
      by replace (Z.of_nat (Z.to_nat m `min` length bs)) with m in Hsp by lia.
    + done.
Qed.

(** ** Storing blocks *)

Lemma rewritten_wrote r k n v ino f u u' :
  um_ok u → at_seg r k n u v ino → rewritten ino f u u' →
  ∃ f', f' ≡ f ∧ wrote r k n f' u u' ∧ (may_replace u r k n f' → um_ok u').
Proof.
  intros Hok [_ Hd] (Ed & Eg & f' & Hf & Ei). exists f'. split; [done|].
  pose proof (set_inode_wrote u r k n ino f' Hok Hd) as Hw. split.
  - destruct Hw as (_ & _ & Hs). split_and!; [done|done|]. intros r' k' n'. rewrite <-Hs.
    unfold seg. cbn. by rewrite Ed, Ei.
  - intros Hmr. unfold um_ok. rewrite Ed, Eg, Ei. by apply (set_inode_ok u r k n ino f').
Qed.

Definition extend_flags : Z := Z.lor UM_EXTENSION_FAIL UM_EXTENSION_CREATE.
Definition access_flags : Z := Z.lor UM_EXTENSION_FAIL UM_EXTENSION_CREATE_RECOVERY.

(** The segment is found or an error is raised: these behaviours never give a
    null result. *)
Lemma wp_getseg_got r k b skip beh {A} (rest : UmfdVec → M U A) Q (E : pg_error → U → Prop) u :
  um_ok u → 0 ≤ b < InvalidBlockNumber → has_flag beh UM_EXTENSION_DONT_OPEN = false →
  has_flag beh UM_EXTENSION_RETURN_NULL = false →
  (∀ u' v ino, found r k (may_create recovery beh) u u' → at_seg r k (segno_of b) u' v ino →
     wp (rest v) Q E u') →
  (∀ e u', ¬ sure fault r k (may_create recovery beh) (segno_of b) u → E e u') →
  wp (o ← umfile_getseg fault chunk temp recovery data_sync_retry r k b skip beh;
      v ← got o; rest v) Q E u.
Proof.
  intros Hok Hb Hd Hn Hrest HE. apply wp_bind, wp_getseg; [done|done|done|..|done].
  - intros u' v ino Hf Hat. apply wp_bind, wp_ret. by eapply Hrest.
  - intros u' _ Hc. congruence.
Qed.

Lemma full_block_one d : full_block d → Forall full_block [d].
Proof. by constructor; [|constructor]. Qed.

(** [umfile_extend] *)
Lemma wp_extend r k b d skip Q (E : pg_error → U → Prop) u :
  um_ok u → 0 ≤ b < InvalidBlockNumber → full_block d →
  (∀ u', stored r k b [d] u u' →
     (skip = false → temp = false → ∃ ino, sync_due r k (segno_of b) ino u') → Q tt u') →
  (∀ e u', E e u') →
  wp (umfile_extend fault chunk temp recovery data_sync_retry r k b d skip) Q E u.
Proof.
  intros Hok Hb Hd HQ HE. apply wp_getseg_got; [done|done|done|done| |by intros; apply HE].
  intros u1 v ino (Hok1 & Hg1 & _) Hat. pose proof Hd as [Hl Hbs].
  apply (wp_extend_seg fault chunk temp data_sync_retry r k b v ino); [done|done|done|unfold BLCKSZ in *; lia|done| |done].
  intros u2 Hok2 Hw Hdue. apply HQ; [|intros; exists ino; auto].
  pose proof (Z.mod_pos_bound b RELSEG_SIZE ltac:(done)).
  eapply (stored_wrote r k b [d] _ u u1 u2); [done|done|done|done|by apply full_block_one|lia|cbn; lia| |done].
  cbn [concat]. by rewrite app_nil_r.
Qed.

Lemma concat_zeros n m : concat (replicate n (replicate m 0)) = replicate (n * m) 0.
Proof. induction n as [|n IH]; [done|]. cbn. by rewrite IH, <-replicate_add. Qed.

Lemma zero_blocks_full n : Forall full_block (replicate n zero_block).
Proof. apply Forall_replicate. split; [apply length_replicate|apply zero_block_bytes]. Qed.

Lemma seg_room b n :
  0 ≤ b → 0 < n → 0 < nblocks_this_segment b n ≤ n ∧
    b mod RELSEG_SIZE + nblocks_this_segment b n ≤ RELSEG_SIZE.
Proof. unfold nblocks_this_segment, PG_IOV_MAX, RELSEG_SIZE. ulia. Qed.

Lemma wp_zero ino off n f Q (E : pg_error → U → Prop) u :
  um_inodes u !! ino = Some f →
  (∀ e, Q (Some e) (tick u)) →
  (∀ u', rewritten ino (write_bytes f off (replicate (Z.to_nat n) 0)) u u' → Q None u') →
  wp (FileZero fault ino off n) Q E u.
Proof.
  intros Hf He HQ. apply wp_bind, wp_sys. destruct (fault SysZero _); [apply wp_ret, He|].
  apply wp_bind. unfold inode. apply wp_bind, wp_gets. cbn [tick um_inodes]. rewrite Hf.
  apply wp_ret, wp_bind, wp_modify, wp_ret, HQ. split_and!; [done|done|]. by eexists.
Qed.

(** [umfile_zeroextend] *)
Lemma wp_zeroextend_runs fuel r k b n skip Q (E : pg_error → U → Prop) u :
  um_ok u → 0 ≤ b → 0 ≤ n → n ≤ Z.of_nat fuel → b + n ≤ InvalidBlockNumber →
  (∀ u', stored r k b (replicate (Z.to_nat n) zero_block) u u' → Q tt u') → (∀ e u', E e u') →
  wp (zeroextend_runs fault chunk temp recovery data_sync_retry fuel r k b n skip) Q E u.
Proof.
  revert b n u Q. induction fuel as [|fuel IH]; intros b n u Q Hok Hb Hn Hfu Hmax HQ HE; cbn [zeroextend_runs].
  { apply wp_ret. replace n with 0 in * by lia. by apply HQ, stored_nil. }
  case_decide; [apply wp_ret; replace n with 0 in * by lia; by apply HQ, stored_nil|].
  fold (nblocks_this_segment b n). set (m := nblocks_this_segment b n).
  destruct (seg_room b n) as [Hm Hroom]; [lia|lia|]. fold m in Hm, Hroom.
  apply wp_getseg_got; [done|unfold InvalidBlockNumber in *; lia|done|done| |by intros; apply HE].
  intros u1 v ino (Hok1 & Hg1 & _) Hat. pose proof Hat as [-> _]. apply wp_bind, wp_ret, wp_bind.
  eapply wp_zero; [by eapply at_seg_inode|intros; apply wp_throw, HE|]. intros u2 Hw.
  destruct (rewritten_wrote _ _ _ _ _ _ _ _ Hok1 Hat Hw) as (f & Hf & Hwr & Hok2).
  assert (replicate (Z.to_nat (BLCKSZ * m)) 0 = concat (replicate (Z.to_nat m) zero_block)) as Hz.
  { unfold zero_block. rewrite concat_zeros. f_equal. unfold BLCKSZ. lia. }
  assert (um_ok u2) as Hok2'.
  { apply Hok2, (write_may_replace u1 r k b m (replicate (Z.to_nat (BLCKSZ * m)) 0)); try done.
    - lia.
    - lia.
    - rewrite length_replicate. unfold BLCKSZ. lia.
    - apply Forall_replicate. split; cbn; lia. }
  assert (stored r k b (replicate (Z.to_nat m) zero_block) u u2) as Hst.
  { eapply stored_wrote; [done|done|done|done|apply zero_blocks_full|done| |by rewrite <-Hz|done].
    rewrite length_replicate. lia. }
  apply wp_bind, wp_when_register; [|intros; apply HE]. intros u3 Hq _.
  assert (u32 (b + m) = b + m) as -> by (unfold InvalidBlockNumber in *; ulia).
  apply IH; [by eapply quiet_ok|lia|lia|lia|lia| |done]. intros u' Hst'. apply HQ.
  replace (Z.to_nat n) with (Z.to_nat m + Z.to_nat (n - m))%nat by lia. rewrite replicate_add.
  eapply stored_app; [done|]. rewrite length_replicate. replace (Z.of_nat (Z.to_nat m)) with m by lia.
  by eapply stored_quiet.
Qed.

(** ** Vectored writes and reads *)

(** A run that one call can transfer. *)
Definition one_call (b n : Z) : Prop := 0 < n ∧ b mod RELSEG_SIZE + n ≤ RELSEG_SIZE ∧ n ≤ PG_IOV_MAX.

Lemma one_call_fits b n : one_call b n → nblocks_this_segment b n = n.
Proof. unfold one_call, nblocks_this_segment. lia. Qed.

(** Nothing fails, outside recovery, on a segment that is there. *)
Definition undisturbed (r : RelFileLocator) (k : ForkNumber) (b : Z) u : Prop :=
  no_faults fault ∧ valid_rel r ∧ recovery = false ∧ is_Some (um_dir u !! (r, k, segno_of b)).

Lemma undisturbed_sure r k b u :
  undisturbed r k b u → sure fault r k (may_create recovery access_flags) (segno_of b) u.
Proof. intros (Hf & _ & -> & Hd). split_and!; [by intros c n _|done|done]. Qed.

Lemma may_create_access : may_create recovery access_flags = recovery.
Proof. by destruct recovery. Qed.

Lemma wp_writev r k b ds skip Q (E : pg_error → U → Prop) u :
  moves → um_ok u → 0 ≤ b → b + Z.of_nat (length ds) ≤ InvalidBlockNumber → Forall full_block ds →
  (∀ u', stored r k b ds u u' →
     (ds ≠ [] → skip = false → temp = false → ∃ ino, sync_due r k (segno_of b) ino u') → Q tt u') →
  (∀ e u', ¬ (undisturbed r k b u ∧ one_call b (Z.of_nat (length ds))) → E e u') →
  wp (umfile_writev fault chunk temp recovery data_sync_retry r k b ds skip) Q E u.
Proof.
  intros Hmv Hok Hb Hmax Hds HQ HE. unfold umfile_writev. case_decide as Hz.
  { assert (ds = []) as -> by (apply nil_length_inv; lia). apply wp_ret, HQ; [by apply stored_nil|done]. }
  set (n := Z.of_nat (length ds)) in *.
  apply wp_getseg_got; [done|lia|done|done| |].
  2: { intros e u' Hns. apply HE. intros [Hu _]. by apply Hns, undisturbed_sure. }
  intros u1 v ino (Hok1 & Hg1 & _) Hat. case_decide as Hfit.
  { apply wp_throw, HE. intros [_ Hone%one_call_fits]. done. }
  destruct (seg_room b n Hb ltac:(lia)) as [_ Hroom]. rewrite Hfit in Hroom.
  pose proof Hat as [-> _]. pose proof (length_concat_blocks ds Hds) as Hlen.
  apply wp_bind, wp_ret, wp_bind. eapply wp_write_loop; [done|by eapply at_seg_inode| | | |].
  - intros Hnil. rewrite Hnil in Hlen. cbn in Hlen. unfold BLCKSZ in *. lia.
  - fold n in Hlen. lia.
  - intros u2 Hw. destruct (rewritten_wrote _ _ _ _ _ _ _ _ Hok1 Hat Hw) as (f & Hf & Hwr & Hok2).
    assert (um_ok u2) as Hok2'.
    { apply Hok2, (write_may_replace u1 r k b n (concat ds)); try done; [lia|by apply concat_bytes]. }
    assert (stored r k b ds u u2) as Hst by (by eapply stored_wrote).
    apply wp_when_register.
    + intros u3 Hq Hdue. apply HQ; [by eapply quiet_stored|]. intros _ Hs Ht. exists ino. auto.
    + intros e u' _ Hns. apply HE. intros [(Hnf & Hv & _) _]. tauto.
  - intros e u' (m & er & Hfl). apply HE. intros [(Hnf & _) _]. by rewrite Hnf in Hfl.
Qed.

Lemma read_bytes_app f pos n m :
  read_bytes f pos (n + m) = read_bytes f pos n ++ read_bytes f (pos + Z.of_nat n) m.
Proof.
  unfold read_bytes. rewrite seq_app, fmap_app. f_equal. 
  rewrite (Nat.add_comm 0 n), <-fmap_add_seq, <-list_fmap_compose.
  apply list_fmap_ext. intros i x _. cbn. f_equal. lia.
Qed.

(** A read past the end is padded with the zeros that are there anyway. *)
Lemma read_bytes_end f pos n a :
  file_ok f → 0 ≤ pos → pos mod BLCKSZ = 0 → (a ≤ n)%nat →
  of_size f ≤ pos + Z.of_nat a → (a = 0%nat ∨ pos + Z.of_nat a ≤ of_size f) →
  let whole := Z.of_nat a / BLCKSZ * BLCKSZ in
  take (Z.to_nat whole) (read_bytes f pos a) ++ replicate (Z.to_nat (Z.of_nat n - whole)) 0 = read_bytes f pos n.
Proof.
  intros [[Hs _] Hw _ Hz] Hp Hpm Hle Hend Hor whole.
  assert (whole = Z.of_nat a) as -> by (unfold whole, BLCKSZ in *; destruct Hor as [->|]; ulia).
  rewrite Nat2Z.id, take_ge by (by rewrite length_read_bytes).
  replace n with (a + (n - a))%nat at 2 by lia. rewrite read_bytes_app. f_equal.
  replace (Z.to_nat (Z.of_nat n - Z.of_nat a)) with (n - a)%nat by lia. symmetry. apply read_bytes_zero.
  intros p Hpp. apply Hz. lia.
Qed.

Lemma wp_read_loop fuel ino f pos n a Q (E : pg_error → U → Prop) u :
  moves → file_ok f → um_inodes u !! ino = Some f → 0 ≤ pos → pos mod BLCKSZ = 0 →
  (a < n)%nat → (n - a ≤ fuel)%nat → (a = 0%nat ∨ pos + Z.of_nat a ≤ of_size f) →
  (∀ u', quiet u u' →
     pos + Z.of_nat n ≤ of_size f ∨ zero_damaged_pages || recovery = true → Q (read_bytes f pos n) u') →
  (∀ e u', (∃ m er, fault SysRead m = Some er) ∨ of_size f < pos + Z.of_nat n → E e u') →
  wp (read_loop fault chunk recovery zero_damaged_pages fuel ino (pos + Z.of_nat a)
        (Z.of_nat (n - a)) (read_bytes f pos a)) Q E u.
Proof.
  intros Hmv Hfo. revert a u. induction fuel as [|fuel IH]; intros a u Hf Hp Hpm Ha Hfu Hor HQ HE; [lia|].
  cbn [read_loop]. apply wp_bind. unfold FileReadV. apply wp_bind, wp_sys.
  destruct (fault SysRead (um_calls u)) eqn:Hfl; [apply wp_ret, wp_throw, HE; left; eauto|].
  apply wp_bind. unfold inode. apply wp_bind, wp_gets. cbn [tick um_inodes]. rewrite Hf.
  apply wp_ret, wp_bind, wp_bind, wp_gets, wp_ret, wp_ret.
  set (m := Z.max 0 _). assert (0 < m ≤ Z.of_nat (n - a)) as Hm
    by (specialize (Hmv SysRead (um_calls (tick u)) (Z.of_nat (n - a))); lia).
  set (got := Z.to_nat (Z.min m (of_size f - (pos + Z.of_nat a)))). cbn zeta.
  rewrite !length_read_bytes. case_decide as Hz.
  - assert (of_size f ≤ pos + Z.of_nat a) as Hend by lia.
    destruct (zero_damaged_pages || recovery) eqn:Hl; [|apply wp_throw, HE; right; lia]. apply wp_ret.
    replace (Z.of_nat a + Z.of_nat (n - a)) with (Z.of_nat n) by lia.
    rewrite (read_bytes_end f pos n a) by (done || lia). by apply HQ; [|right].
  - assert (read_bytes f pos a ++ read_bytes f (pos + Z.of_nat a) got = read_bytes f pos (a + got)) as ->
      by (by rewrite read_bytes_app).
    case_decide as Hall.
    + apply wp_ret. replace (a + got)%nat with n by lia. apply HQ; [done|]. left. lia.
    + replace (pos + Z.of_nat a + Z.of_nat got) with (pos + Z.of_nat (a + got)) by lia.
      replace (Z.of_nat (n - a) - Z.of_nat got) with (Z.of_nat (n - (a + got))) by lia.
      apply IH; [done|done|done|lia|lia|right; lia| |done].
      intros u' Hq. apply HQ. by etrans; [|done].
Qed.

Lemma split_read f pos n :
  split_blocks n (read_bytes f pos (n * Z.to_nat BLCKSZ)) =
    (λ i, read_bytes f (pos + Z.of_nat i * BLCKSZ) (Z.to_nat BLCKSZ)) <$> seq 0 n.
Proof.
  revert pos. induction n as [|n IH]; intros pos; [done|]. cbn [split_blocks].
  replace (S n * Z.to_nat BLCKSZ)%nat with (Z.to_nat BLCKSZ + n * Z.to_nat BLCKSZ)%nat by lia.
  rewrite read_bytes_app, take_app_length', drop_app_length' by (by rewrite length_read_bytes).
  rewrite IH, <-cons_seq. cbn [fmap list_fmap]. f_equal.
  - f_equal. lia.
  - rewrite <-fmap_S_seq, <-list_fmap_compose. apply list_fmap_ext. intros i x _. cbn. f_equal. unfold BLCKSZ. lia.
Qed.

Lemma found_exists r k c u u' r' :
  found r k c u u' →
  um_dir u' !! (r', UMBRA_METADATA_FORKNUM, 0) = um_dir u !! (r', UMBRA_METADATA_FORKNUM, 0).
Proof.
  intros (_ & Hg & _). destruct (decide ((r', UMBRA_METADATA_FORKNUM) = (r, k))) as [[= -> <-]|].
  - by apply (gr_first _ _ _ _ Hg).
  - by apply (gr_other_dir _ _ _ _ Hg).
Qed.

(** Block [b] of a segment, at its place in the file. *)
Lemma content_block u r k b i :
  0 ≤ b → 0 ≤ i → b mod RELSEG_SIZE + i < RELSEG_SIZE →
  um_content u r k (b + i) = block_in (seg u r k (segno_of b)) (seekpos_of b + i * BLCKSZ).
Proof.
  intros Hb Hi Hr. unfold um_content. rewrite decide_True by lia. f_equal.
  - f_equal. unfold segno_of, RELSEG_SIZE in *. ulia.
  - unfold seekpos_of, RELSEG_SIZE, BLCKSZ in *. ulia.
Qed.

(** What a read of [n] blocks may return. *)
Definition blocks_read (r : RelFileLocator) (k : ForkNumber) (b : Z) (n : nat) u (ds : list (list Z)) : Prop :=
  length ds = n ∧ ∀ i d, ds !! i = Some d →
    um_content u r k (b + Z.of_nat i) = Some d ∨
    (zero_damaged_pages || recovery = true ∧ um_content u r k (b + Z.of_nat i) = None ∧ d = zero_block).

(** Reading what lies past the end gives zeros. *)
Lemma blocks_of_bytes r k b n f u :
  file_ok f → 0 ≤ b → b mod RELSEG_SIZE + Z.of_nat n ≤ RELSEG_SIZE → extends (seg u r k (segno_of b)) f →
  um_ok u →
  seekpos_of b + Z.of_nat n * BLCKSZ ≤ of_size (seg u r k (segno_of b)) ∨ zero_damaged_pages || recovery = true →
  blocks_read r k b n u (split_blocks n (read_bytes f (seekpos_of b) (n * Z.to_nat BLCKSZ))).
Proof.
  intros Hfo Hb Hr [Hle Hbyte] Hok Hor. rewrite split_read. split; [by rewrite length_fmap, length_seq|].
  intros i d. rewrite list_lookup_fmap. destruct (decide (i < n)%nat) as [Hi|Hi]; [|by rewrite lookup_seq_ge by lia].
  rewrite lookup_seq_lt by done. cbn [fmap option_fmap option_map]. intros [= <-].
  rewrite (content_block u r k b (Z.of_nat i)) by lia.
  assert (read_bytes f (seekpos_of b + Z.of_nat i * BLCKSZ) (Z.to_nat BLCKSZ) =
    read_bytes (seg u r k (segno_of b)) (seekpos_of b + Z.of_nat i * BLCKSZ) (Z.to_nat BLCKSZ)) as ->
    by (by apply read_bytes_ext).
  unfold block_in. case_decide as Hin; [by left|]. right. split; [|split; [done|]].
  - destruct Hor as [Hor|]; [|done]. unfold BLCKSZ in *. lia.
  - destruct (ui_ok _ _ _ Hok r k (segno_of b)) as [_ Hw _ Hz]. fold (seg u r k (segno_of b)) in *.
    apply read_bytes_zero. intros p Hp. apply Hz. unfold seekpos_of, BLCKSZ in *. ulia.
Qed.

(** [umfile_readv] *)
Lemma wp_readv r k b n Q (E : pg_error → U → Prop) u :
  moves → um_ok u → 0 ≤ b → b + Z.of_nat n ≤ InvalidBlockNumber →
  (∀ u' ds, found r k recovery u u' → blocks_read r k b n u ds → Q ds u') →
  (∀ e u', ¬ (undisturbed r k b u ∧ one_call b (Z.of_nat n) ∧
              ∀ i, (i < n)%nat → is_Some (um_content u r k (b + Z.of_nat i))) → E e u') →
  wp (umfile_readv fault chunk temp recovery zero_damaged_pages data_sync_retry r k b n) Q E u.
Proof.
  intros Hmv Hok Hb Hmax HQ HE. unfold umfile_readv. cbn zeta. case_decide as Hz.
  { assert (n = 0%nat) as -> by lia. apply wp_ret, HQ; [by apply found_quiet|]. by split. }
  apply wp_getseg_got; [done|lia|done|done| |].
  2: { intros e u' Hns. apply HE. intros [Hu _]. by apply Hns, undisturbed_sure. }
  intros u1 v ino Hf Hat. fold access_flags in Hf. rewrite may_create_access in Hf. pose proof Hf as (Hok1 & Hg1 & Hsame).
  case_decide as Hfit; [apply wp_throw, HE; intros (_ & Hone%one_call_fits & _); done|].
  destruct (seg_room b (Z.of_nat n) Hb ltac:(lia)) as [_ Hroom]. rewrite Hfit in Hroom.
  pose proof Hat as [-> _]. apply wp_bind, wp_ret, wp_bind.
  pose proof (gr_seg _ _ _ _ Hg1 (segno_of b)) as Hx.
  replace (seekpos_of b) with (seekpos_of b + Z.of_nat 0) at 1 by lia.
  replace (Z.of_nat n * BLCKSZ) with (Z.of_nat (n * Z.to_nat BLCKSZ - 0)) at 2 by (unfold BLCKSZ; lia).
  change (@nil Z) with (read_bytes (seg u1 r k (segno_of b)) (seekpos_of b) 0).
  assert (0 ≤ seekpos_of b) by (unfold seekpos_of, BLCKSZ, RELSEG_SIZE; ulia).
  eapply wp_read_loop; [done|apply (ui_ok _ _ _ Hok1)|by eapply at_seg_inode|done| | | |by left|..].
  - unfold seekpos_of. rewrite Z.mul_comm. by apply Z_mod_mult.
  - unfold BLCKSZ. lia.
  - unfold BLCKSZ. lia.
  - intros u2 Hq Hor. apply wp_ret, HQ; [eapply found_trans; [exact Hf|by apply found_quiet]|].
    apply blocks_of_bytes; [apply (ui_ok _ _ _ Hok1)|done|done|done|done|].
    destruct Hor as [Hor|]; [|by right]. destruct (recovery) eqn:Hrec; [right; apply orb_true_r|].
    destruct (Hsame eq_refl) as [Hs _]. rewrite Hs in Hor. left. unfold BLCKSZ in *. lia.
  - intros e u' Herr. apply HE. intros ((Hnf & _ & Hrec & _) & _ & Hall). destruct Herr as [(m & er & Hfl)|Hshort].
    { by rewrite Hnf in Hfl. }
    destruct (Hsame Hrec) as [Hs _]. rewrite Hs in Hshort.
    destruct (Hall (n - 1)%nat ltac:(lia)) as [d Hd]. rewrite content_block in Hd by lia.
    unfold block_in in Hd. case_decide; [|done]. unfold BLCKSZ in *. lia.
Qed.
End ops.
