(* ===== verification/UmFileLaws.v ===== *)
(** * Blocks, sizes, creation, preallocation and truncation

    The remaining operations of [umfile.c] that the map and the storage manager
    call: single blocks, whether a fork exists and how long it is, creating a
    fork, preallocating and truncating one.  Calls that open, measure or read a
    file are taken not to fail. *)

From S2P Require Import Prelude FileLayer SmgrFiles UmOs UmFile UmFileInv UmFileSpec UmFileOps.
From stdpp Require Import sorting.

Local Open Scope Z_scope.

Section laws.
Context (fault : syscall → nat → option errno) (chunk : syscall → nat → Z → Z).
Context (temp recovery data_sync_retry : bool).
Local Abbreviation U := UmFiles.
Implicit Types u : U.

(** Reads of existing bytes are not cut short. *)
Definition whole_reads : Prop := ∀ n x, x ≤ chunk SysRead n x.

Hypothesis Hcalm : calm_faults fault.

Lemma calm_none c n : c ∈ [SysOpen; SysSize; SysRead; SysAccess] → fault c n = None.
Proof. apply Hcalm. Qed.

Lemma content_dir u r k b d : um_content u r k b = Some d → is_Some (um_dir u !! (r, k, segno_of b)).
Proof.
  unfold um_content, block_in. case_decide; [|done]. case_decide; [|done]. intros _. apply dir_of_size.
  unfold seekpos_of, BLCKSZ, RELSEG_SIZE in *. ulia.
Qed.

Lemma seekpos_ok b : 0 ≤ seekpos_of b ∧ seekpos_of b mod BLCKSZ = 0.
Proof.
  split; [unfold seekpos_of, BLCKSZ, RELSEG_SIZE; ulia|].
  unfold seekpos_of. rewrite Z.mul_comm. by apply Z_mod_mult.
Qed.

Lemma take_read_bytes f pos n m : (n ≤ m)%nat → take n (read_bytes f pos m) = read_bytes f pos n.
Proof.
  intros Hn. replace m with (n + (m - n))%nat by lia. rewrite read_bytes_app.
  apply take_app_length'. by rewrite length_read_bytes.
Qed.

(** ** Single blocks *)

Lemma wp_ctx_read r k b n u :
  whole_reads → um_ok u → 0 ≤ b < InvalidBlockNumber → 0 < n ≤ BLCKSZ →
  wp (umfile_ctx_read fault chunk temp recovery data_sync_retry r k b n)
    (λ d u', um_ok u' ∧ ∃ d0, um_content u r k b = Some d0 ∧ d = take (Z.to_nat n) d0)
    (λ _ _, um_content u r k b = None) u.
Proof using Hcalm.
  intros Hwhole Hok Hb Hn. apply wp_getseg_got; [done|done|done|done|..].
  2: { intros e u' Hns. destruct (um_content u r k b) eqn:Hc; [|done]. exfalso. apply Hns.
       split_and!; [done|by destruct recovery|by eapply content_dir]. }
  intros u1 v ino (Hok1 & _ & Hsame) Hat. destruct Hsame as [Hs _]; [by destruct recovery|].
  pose proof Hat as [-> _]. apply wp_bind, wp_ret, wp_bind. unfold FileReadV. apply wp_bind, wp_sys.
  rewrite calm_none by set_solver. apply wp_bind. unfold inode. apply wp_bind, wp_gets. cbn [tick um_inodes].
  rewrite (at_seg_inode _ _ _ _ _ _ Hok1 Hat). apply wp_ret, wp_bind, wp_bind, wp_gets, wp_ret, wp_ret.
  rewrite Hs, length_read_bytes. set (f := seg u r k (segno_of b)).
  assert (um_content u r k b = block_in f (seekpos_of b)) as ->.
  { unfold um_content. by rewrite decide_True by lia. }
  specialize (Hwhole (um_calls (tick u1)) n). destruct (seekpos_ok b) as [Hp Hpm].
  destruct (ui_ok _ _ _ Hok r k (segno_of b)) as [[Hs0 _] Hw _ _]. fold (seg u r k (segno_of b)) in *. fold f in Hs0, Hw.
  unfold block_in. case_decide as Hlen; case_decide as Hin.
  - apply wp_ret. split; [done|]. eexists. split; [done|]. rewrite take_read_bytes by (unfold BLCKSZ in *; lia).
    f_equal. lia.
  - exfalso. unfold BLCKSZ in *. ulia.
  - exfalso. unfold BLCKSZ in *. lia.
  - by apply wp_throw.
Qed.

(** A segment that is not opened is reported as missing: only a positive answer
    says something. *)
Lemma wp_block_exists r k b Q (E : pg_error → U → Prop) u :
  um_ok u → 0 ≤ b < InvalidBlockNumber →
  (∀ u' here, found r k false u u' → (here = true → is_Some (um_content u r k b)) → Q here u') →
  (∀ e u', E e u') → wp (umfile_ctx_block_exists fault r k b) Q E u.
Proof using Hcalm.
  intros Hok Hb HQ HE. destruct (segno_bounds b Hb) as [Hs0 _]. apply wp_bind, wp_gets, wp_bind.
  assert (∀ u1 v ino, found r k false u u1 → at_seg r k (segno_of b) u1 v ino →
    wp (segblocks ← umfile_nblocks_in_seg fault v;
        mret (bool_decide (b mod RELSEG_SIZE < segblocks))) Q E u1) as Hgo.
  { intros u1 v ino Hf Hat. pose proof Hf as (Hok1 & _ & Hsame). destruct (Hsame eq_refl) as [Hs _].
    apply wp_bind. eapply wp_nblocks_in_seg; [done|done|intros; apply HE|]. intros nb Hnb Hsz.
    apply wp_ret, HQ; [eapply found_trans; [done|by apply found_quiet]|]. intros Hlt%bool_decide_eq_true.
    unfold um_content, block_in. rewrite decide_True by lia. rewrite Hs in Hsz.
    rewrite decide_True; [eauto|]. unfold seekpos_of, BLCKSZ in *. lia. }
  assert (Q false u) as Hno by (apply HQ; [by apply found_quiet|done]).
  case_decide as Hlt.
  - apply wp_bind, wp_gets, wp_ret.
    destruct (lookup_lt_is_Some_2 (seg_fds u r k) (Z.to_nat (segno_of b))) as [v Hv]; [lia|]. rewrite Hv. cbn.
    destruct (umfile_seg_entry_is_open v) eqn:Hop; [|by apply wp_ret].
    apply bool_decide_eq_true in Hop. destruct (fds_at_seg _ _ _ _ _ Hok Hv Hop) as [ino Hat].
    eapply Hgo; [by apply found_quiet|]. by rewrite Z2Nat.id in Hat by done.
  - destruct (negb _ && _) eqn:Hskip; [by apply wp_ret, wp_ret|]. apply wp_bind, wp_openseg; [done|done|..].
    + intros Hk. rewrite Hk in Hskip. cbn in Hskip. zbool. split; [lia|by left].
    + done.
    + intros e _. apply wp_ret, wp_ret, HQ; [by apply found_quiet|done].
    + intros u1 ino Hok1 Hg Hs Hat _ Hd. apply wp_ret. eapply Hgo; [|done].
      split_and!; [done|done|]. intros _. by split; [|apply Hd].
Qed.

(** Storing the same blocks again, and storing after a search. *)
Lemma stored_again r k b ds1 ds2 u u1 u2 :
  stored r k b ds1 u u1 → stored r k b ds2 u1 u2 → length ds1 = length ds2 → stored r k b ds2 u u2.
Proof.
  intros [O1 D1 T1 K1 X1] [O2 D2 T2 K2 X2] Hl. split; [done|done|..].
  - intros. by rewrite T2, T1.
  - intros b' Hb. eapply block_kept_trans; [apply K1|apply K2]; congruence.
  - intros r'. by rewrite X2, X1.
Qed.

Lemma found_stored r k b ds c u u1 u2 :
  um_ok u → found r k c u u1 → stored r k b ds u1 u2 → stored r k b ds u u2.
Proof.
  intros Hok Hf [O D T K X]. pose proof Hf as (_ & Hg & _). split; [done|done|..].
  - intros r' k' b' Hne. rewrite T by done. pose proof (content_grow r k u u1 r' k' b' Hok Hg) as Hc.
    by rewrite decide_False in Hc.
  - intros b' Hb. eapply block_kept_trans; [|by apply K].
    pose proof (content_grow r k u u1 r k b' Hok Hg) as Hc. by rewrite decide_True in Hc.
  - intros r'. rewrite X. by eapply found_exists.
Qed.

Lemma found_some r k c u u' b :
  um_ok u → found r k c u u' → is_Some (um_content u r k b) → is_Some (um_content u' r k b).
Proof.
  intros Hok (_ & Hg & _) [d Hd]. pose proof (content_grow r k u u' r k b Hok Hg) as Hc.
  rewrite decide_True in Hc by done. exists d. by eapply block_kept_at.
Qed.

(** [umfile_ctx_ensure_block_exists] *)
Lemma wp_ensure_block r k b Q (E : pg_error → U → Prop) u :
  um_ok u → 0 ≤ b < InvalidBlockNumber →
  (∀ u', is_Some (um_content u' r k b) →
     (found r k false u u' ∨ stored r k b [zero_block] u u') → um_ok u' → Q tt u') →
  (∀ e u', E e u') →
  wp (umfile_ctx_ensure_block_exists fault chunk temp recovery data_sync_retry r k b) Q E u.
Proof using Hcalm.
  intros Hok Hb HQ HE. apply wp_bind, wp_block_exists; [done|done| |done].
  intros u1 [|] Hf Hs; pose proof Hf as (Hok1 & _).
  - apply wp_ret, HQ; [|by left|done]. apply (found_some r k false u u1); [done|done|by apply Hs].
  - apply (wp_zeroextend_runs _ _ _ _ _ 1 r k b 1); [done|lia|lia|lia|lia| |done].
    intros u2 Hst. apply HQ; [|right; by eapply found_stored|by apply Hst].
    exists zero_block. pose proof (st_data _ _ _ _ _ _ Hst 0%nat zero_block eq_refl) as Hd. by rewrite Z.add_0_r in Hd.
Qed.

(** Writing the first bytes of a block that is there. *)
Lemma partial_write f pos data :
  pos + BLCKSZ ≤ of_size f → Z.of_nat (length data) ≤ BLCKSZ → 0 ≤ pos →
  write_bytes f pos data ≡
  write_bytes f pos (data ++ drop (length data) (read_bytes f pos (Z.to_nat BLCKSZ))).
Proof.
  intros Hs Hl Hp. set (old := read_bytes f pos (Z.to_nat BLCKSZ)).
  assert (length (data ++ drop (length data) old) = Z.to_nat BLCKSZ) as Hlen.
  { rewrite length_app, length_drop. unfold old. rewrite length_read_bytes. unfold BLCKSZ in *. lia. }
  split.
  - cbn. rewrite Hlen. rewrite (decide_False (P := data ++ _ = [])).
    2: { intros Hn%(f_equal length). rewrite Hlen in Hn. done. }
    unfold BLCKSZ in *. case_decide; lia.
  - intros p. cbn. rewrite Hlen. destruct (decide (pos ≤ p < pos + Z.of_nat (length data))).
    + rewrite decide_True by (unfold BLCKSZ in *; lia). by rewrite lookup_app_l by lia.
    + case_decide as Hin; [|done]. rewrite lookup_app_r, lookup_drop by lia.
      replace (length data + (Z.to_nat (p - pos) - length data))%nat with (Z.to_nat (p - pos)) by lia.
      unfold old, read_bytes. rewrite list_lookup_fmap, lookup_seq_lt by (unfold BLCKSZ in *; lia). cbn. f_equal. lia.
Qed.

(** [umfile_ctx_write] *)
Lemma wp_ctx_write r k b data Q (E : pg_error → U → Prop) u :
  um_ok u → 0 ≤ b < InvalidBlockNumber → Z.of_nat (length data) ≤ BLCKSZ → Forall is_byte data →
  (∀ u' d, stored r k b [d] u u' → take (length data) d = data → Q tt u') → (∀ e u', E e u') →
  wp (umfile_ctx_write fault chunk temp recovery data_sync_retry r k b data) Q E u.
Proof using Hcalm.
  intros Hok Hb Hl Hby HQ HE. apply wp_bind, wp_ensure_block; [done|done| |done].
  intros u1 Hsome Hor Hok1. apply wp_getseg_got; [done|done|done|done| |by intros; apply HE].
  intros u2 v ino Hf Hat. pose proof Hf as (Hok2 & Hg2 & _). pose proof Hat as [-> _].
  pose proof (found_some _ _ _ _ _ _ Hok1 Hf Hsome) as [old Hold].
  pose proof (content_wf _ _ _ _ _ Hok2 Hold) as [_ Holdb].
  unfold um_content in Hold. rewrite decide_True in Hold by lia. unfold block_in in Hold.
  case_decide as Hin; [|done]. injection Hold as <-. set (f := seg u2 r k (segno_of b)) in *.
  destruct (seekpos_ok b) as [Hp _]. pose proof (partial_write f (seekpos_of b) data Hin Hl Hp) as Heq.
  set (d := data ++ _) in Heq. assert (full_block d) as Hd.
  { split; [|apply Forall_app; split; [done|by apply Forall_drop]]. unfold d. rewrite length_app, length_drop, length_read_bytes.
    unfold BLCKSZ in *. lia. }
  apply wp_bind, wp_ret, wp_bind. eapply wp_write; [by eapply at_seg_inode|intros; apply wp_throw, HE|].
  intros m Hm. case_decide as Hall; [|apply wp_throw, HE]. apply wp_ret.
  rewrite take_ge by lia. set (u3 := with_inodes _ _).
  pose proof (set_inode_wrote (tick u2) r k (segno_of b) ino (write_bytes f (seekpos_of b) data) Hok2 (proj2 Hat)) as Hw.
  pose proof (Z.mod_pos_bound b RELSEG_SIZE ltac:(done)).
  assert (um_ok u3) as Hok3.
  { apply (set_inode_ok (tick u2) r k (segno_of b)); [done|apply Hat|].
    destruct Hd as [Hdl Hdb]. apply (write_may_replace (tick u2) r k b 1 d); [done|done|lia|lia|lia|lia| |done].
    unfold BLCKSZ in *. lia. }
  apply (HQ u3 d); [|by apply take_app_length].
  assert (stored r k b [d] u1 u3) as Hst.
  { eapply (found_stored r k b [d] _ u1 (tick u2)); [done|eapply found_trans; [exact Hf|by apply found_quiet]|].
    eapply stored_wrote; [done|reflexivity|done|done|by apply full_block_one|lia|cbn; lia| |exact Hw].
    cbn [concat]. by rewrite app_nil_r. }
  destruct Hor as [Hf0|Hst0]; [by eapply found_stored|by eapply stored_again].
Qed.

(** ** Existence and size *)

Lemma wp_live n i r k Q (E : pg_error → U → Prop) u :
  um_ok u → (i + n = length (seg_fds u r k))%nat →
  (∀ u', quiet u u' → Q (existsb umfile_seg_entry_is_open (drop i (seg_fds u r k))) u') →
  wp (live_segments fault n (Z.of_nat i) r k) Q E u.
Proof using Hcalm.
  revert i u Q. induction n as [|n IH]; intros i u Q Hok Hlen HQ; cbn [live_segments].
  { apply wp_ret. specialize (HQ u). rewrite drop_ge in HQ by lia. by apply HQ. }
  destruct (lookup_lt_is_Some_2 (seg_fds u r k) i) as [v Hv]; [lia|]. rewrite (drop_S _ _ _ Hv) in HQ. cbn in HQ.
  apply wp_bind, wp_gets. rewrite Nat2Z.id, Hv. change (default closed_seg (Some v)) with v.
  replace (Z.of_nat i + 1) with (Z.of_nat (S i)) by lia.
  destruct (umfile_seg_entry_is_open v) eqn:Hop; [|apply IH; [done|lia|done]].
  pose proof Hop as Ho%bool_decide_eq_true. destruct (fds_at_seg _ _ _ _ _ Hok Hv Ho) as (ino & -> & Hd).
  apply wp_bind. unfold access. apply wp_bind, wp_sys. apply wp_bind, wp_gets, wp_ret.
  rewrite calm_none by set_solver. cbn [umfd_segno tick um_dir]. rewrite Hd, bool_decide_true by eauto.
  apply wp_bind, wp_ret, wp_bind. apply IH; [done|change (seg_fds (tick u)) with (seg_fds u); lia|].
  intros u' Hq. apply wp_ret. by apply HQ.
Qed.

(** What [umfile_exists] answers for a dense probe. *)
Definition fork_there (u : U) (r : RelFileLocator) (k : ForkNumber) : Prop :=
  seg_fds u r k ≠ [] ∨ is_Some (um_dir u !! (r, k, 0)).

#[global] Instance fork_there_dec u r k : Decision (fork_there u r k).
Proof. unfold fork_there. apply _. Defined.

Lemma wp_exists r k mode Q (E : pg_error → U → Prop) u :
  um_ok u →
  (∀ u' here, found r k false u u' → (mode = UMFILE_DENSE → here = bool_decide (fork_there u r k)) → Q here u') →
  wp (umfile_exists fault recovery r k mode) Q E u.
Proof using Hcalm.
  intros Hok HQ. apply wp_bind, wp_gets, wp_bind.
  assert (∀ u1, quiet u u1 →
    wp (o ← umfile_openfork fault r k UM_EXTENSION_RETURN_NULL;
        if decide (mode = UMFILE_SPARSE) then
          if negb (is_null o) then mret true else umfile_any_segment_exists_by_path fault r k
        else mret (negb (is_null o))) Q E u1) as Hgo.
  { intros u1 Hq. assert (um_ok u1) as Hok1 by (by eapply quiet_ok).
    assert (seg_fds u1 r k = seg_fds u r k) as Hfd by (unfold seg_fds; by destruct Hq as (_ & _ & ->)).
    assert (um_dir u1 = um_dir u) as Hdir by apply Hq.
    assert (∀ u2, found r k false u u2 → fork_there u r k → Q true u2) as Hyes.
    { intros u2 Hf Ht. apply HQ; [done|]. intros _. by rewrite bool_decide_true. }
    apply wp_bind, wp_openfork; [done|..].
    - intros v Hv. assert (Q true u1) as Hq1.
      { apply Hyes; [by apply found_quiet|]. left. rewrite <-Hfd. by intros Hn; rewrite Hn in Hv. }
      unfold is_null. rewrite bool_decide_false by done. by case_decide; apply wp_ret.
    - intros u2 ino _ Hok2 Hg Hs Hd _ [_ Hat]. assert (Q true u2) as Hq2.
      { apply Hyes; [eapply found_trans; [by apply found_quiet|]; by split_and!|]. right.
        rewrite <-Hdir, <-Hd, Hat. eauto. }
      unfold is_null. rewrite bool_decide_false by done. by case_decide; apply wp_ret.
    - intros e Hnil [He|[(-> & Hn & _)|(_ & _ & ?)]]; [by rewrite calm_none in He by set_solver| |done].
      change (_ && _) with true. assert (¬ fork_there u r k) as Hnt.
      { intros [Hx|Hx]; [by rewrite Hfd in Hnil|]. rewrite <-Hdir, Hn in Hx. by destruct Hx. }
      case_decide as Hm.
      + change (is_null None) with true. cbn [negb]. unfold umfile_any_segment_exists_by_path, scan_dir. apply wp_bind, wp_bind, wp_sys.
        destruct (fault SysReadDir _); [apply wp_ret|apply wp_bind, wp_gets, wp_ret]; apply wp_ret, HQ;
          (by eapply found_quiet; [|etrans]) || by rewrite Hm.
      + apply wp_ret, HQ; [by eapply found_quiet; [|etrans]|]. intros _. by rewrite bool_decide_false. }
  destruct (negb recovery && existsb _ _) eqn:Hh; [|by apply wp_ret, Hgo].
  apply andb_true_iff in Hh as [_ Hh]. apply wp_bind, wp_bind, wp_gets. rewrite Nat2Z.id.
  change 0 with (Z.of_nat 0) at 1. apply wp_live; [done|done|]. intros u1 Hq. rewrite drop_0, Hh.
  apply wp_bind, wp_ret, wp_ret, wp_ret, HQ; [by apply found_quiet|]. intros _.
  rewrite bool_decide_true; [done|]. left. intros Hn. by rewrite Hn in Hh.
Qed.

(** The names of segments [0..n] are different. *)
Lemma dir_count u r k (n : nat) :
  (∀ m, (m ≤ n)%nat → is_Some (um_dir u !! (r, k, Z.of_nat m))) → (S n ≤ size (um_dir u))%nat.
Proof.
  intros Hd. set (keys := (λ m, (r, k, Z.of_nat m)) <$> seq 0 (S n)).
  assert (NoDup keys) as Hnd.
  { apply NoDup_fmap_2_strong; [|apply NoDup_seq]. intros x y _ _ [= E]. lia. }
  assert (list_to_set keys ⊆@{gset SegKey} dom (um_dir u)) as Hsub.
  { intros x Hx%elem_of_list_to_set. apply list_elem_of_fmap in Hx as (m & -> & Hm%elem_of_seq).
    apply elem_of_dom, Hd. lia. }
  apply subseteq_size in Hsub. rewrite size_list_to_set in Hsub by done. rewrite size_dom in Hsub.
  unfold keys in Hsub. by rewrite length_fmap, length_seq in Hsub.
Qed.

Definition covers (u : U) (r : RelFileLocator) (k : ForkNumber) (n : Z) : Prop :=
  0 ≤ n ∧ ∀ b d, um_content u r k b = Some d → b < n.

(** The segments of a dense fork end where its last segment is short or the
    next one is missing. *)
Lemma dense_covers u r k segno nb :
  um_ok u → umfile_fork_allows_sparse_segments k = false → 0 ≤ nb ≤ RELSEG_SIZE → 0 ≤ segno →
  of_size (seg u r k segno) = nb * BLCKSZ → is_Some (um_dir u !! (r, k, segno)) →
  (nb < RELSEG_SIZE ∨ um_dir u !! (r, k, segno + 1) = None) →
  u32 (segno * RELSEG_SIZE + nb) = segno * RELSEG_SIZE + nb ∧ covers u r k (segno * RELSEG_SIZE + nb).
Proof.
  intros Hok Hk Hnb Hs Hsz Hd Hend. split.
  - assert (segno * RELSEG_SIZE + nb ≤ InvalidBlockNumber) as Hle.
    { destruct (decide (nb = 0)) as [->|].
      - destruct (decide (segno = 0)) as [->|]; [done|].
        assert (of_size (seg u r k (segno - 1)) = SEG_BYTES) as Hf
          by (apply (ui_dense _ _ _ Hok r k segno); [done|done|lia]).
        pose proof (ui_max _ _ _ Hok r k (segno - 1)) as Hm. fold (seg u r k (segno - 1)) in Hm. rewrite Hf in Hm.
        specialize (Hm ltac:(done)). unfold SEG_BYTES, BLCKSZ, RELSEG_SIZE in *. lia.
      - pose proof (ui_max _ _ _ Hok r k segno) as Hm. fold (seg u r k segno) in Hm. rewrite Hsz in Hm.
        unfold SEG_BYTES, BLCKSZ, RELSEG_SIZE in *. lia. }
    unfold RELSEG_SIZE, InvalidBlockNumber in *. ulia.
  - split; [unfold RELSEG_SIZE; lia|]. intros b d Hc. pose proof (content_dir _ _ _ _ _ Hc) as Hdb.
    assert (segno_of b ≤ segno) as Hle.
    { destruct (decide (segno_of b ≤ segno)) as [|Hgt]; [done|]. exfalso. destruct Hend as [Hlt|Hnone].
      - assert (of_size (seg u r k segno) = SEG_BYTES) as Hf
          by (apply (ui_dense _ _ _ Hok r k (segno_of b)); [done|done|lia]).
        unfold SEG_BYTES, BLCKSZ in *. lia.
      - destruct (decide (segno_of b = segno + 1)) as [E|]; [rewrite E, Hnone in Hdb; by destruct Hdb|].
        assert (of_size (seg u r k (segno + 1)) = SEG_BYTES) as Hf
          by (apply (ui_dense _ _ _ Hok r k (segno_of b)); [done|done|lia]).
        assert (is_Some (um_dir u !! (r, k, segno + 1))) as [? ?] by (apply dir_of_size; by rewrite Hf).
        congruence. }
    unfold um_content in Hc. case_decide as Hb; [|done]. unfold block_in in Hc. case_decide as Hin; [|done].
    destruct (decide (segno_of b = segno)) as [E|].
    + rewrite E, Hsz in Hin. unfold segno_of, seekpos_of, BLCKSZ, RELSEG_SIZE in *. ulia.
    + unfold segno_of, RELSEG_SIZE in *. ulia.
Qed.

Lemma wp_dense_size fuel r k v ino Q (E : pg_error → U → Prop) u (j : nat) :
  um_ok u → umfile_fork_allows_sparse_segments k = false → at_seg r k (Z.of_nat j) u v ino →
  length (seg_fds u r k) = S j → (size (um_dir u) ≤ fuel + j)%nat →
  (∀ n u', found r k false u u' → covers u r k n → Q n u') →
  wp (dense_size fault fuel r k (Z.of_nat j) v) Q E u.
Proof using Hcalm.
  intros Hok Hk. revert v ino u j Hok. induction fuel as [|fuel IH]; intros v ino u j Hok Hat Hlen Hfu HQ.
  all: cbn [dense_size]; apply wp_bind; (eapply wp_nblocks_in_seg; [done|done|..]).
  1,3: intros e er He; by rewrite calm_none in He by set_solver.
  all: intros nb Hnb Hsz; rewrite (decide_False (P := RELSEG_SIZE < nb)) by lia; case_decide as Hlt.
  1,3: apply wp_ret; destruct (dense_covers u r k (Z.of_nat j) nb) as [-> Hc]; auto;
       [lia|rewrite (proj2 Hat); eauto|]; by apply HQ; [apply found_quiet|].
  all: assert (nb = RELSEG_SIZE) as -> by lia.
  { exfalso. enough (S j ≤ size (um_dir u))%nat by lia. apply (dir_count u r k). intros m Hm.
    destruct (decide (m = j)) as [->|]; [rewrite (proj2 Hat); eauto|]. apply dir_of_size.
    unfold seg. rewrite (ui_dense _ _ _ Hok r k (Z.of_nat j)) by (done || lia || rewrite (proj2 Hat); eauto). done. }
  apply wp_bind, wp_openseg; [done|lia| |done| |].
  - intros _. change (seg_fds (tick u)) with (seg_fds u). split; [lia|by left].
  - intros e [He|[(_ & Hn & _)|(_ & _ & ?)]]; [by rewrite calm_none in He by set_solver| |done].
    apply wp_ret. replace ((Z.of_nat j + 1) * RELSEG_SIZE) with (Z.of_nat j * RELSEG_SIZE + RELSEG_SIZE) by lia.
    destruct (dense_covers u r k (Z.of_nat j) RELSEG_SIZE) as [-> Hc]; auto; [lia|rewrite (proj2 Hat); eauto|].
    apply HQ; [by apply found_quiet|done].
  - intros u1 ino1 Hok1 Hg1 Hs1 Hat1 Hfd1 Hd1. replace (Z.of_nat j + 1) with (Z.of_nat (S j)) in * by lia.
    apply (IH _ ino1 u1 (S j)); [done|done| | |].
    + rewrite Hfd1, length_open_at. change (seg_fds (tick u)) with (seg_fds u). lia.
    + rewrite Hd1 by done. cbn [tick um_dir]. lia.
    + intros n u' Hf Hc. apply HQ.
      * eapply found_trans; [|done]. split_and!; [done|etrans; [apply tick_grow|done]|].
        intros _. by split; [|apply Hd1].
      * split; [apply Hc|]. intros b d Hbd. apply (proj2 Hc b d). unfold um_content in *. by rewrite Hs1.
Qed.

Lemma wp_nblocks_dense r k Q (E : pg_error → U → Prop) u :
  um_ok u → umfile_fork_allows_sparse_segments k = false →
  (∀ n u', found r k false u u' → covers u r k n → Q n u') →
  wp (umfile_nblocks_dense fault r k) Q E u.
Proof using Hcalm.
  intros Hok Hk HQ.
  assert (∀ u1, found r k false u u1 → seg_fds u1 r k ≠ [] →
    wp (n ← num_open_segs r k; v ← umfile_v_get r k (n - 1);
        fuel ← gets segment_fuel; dense_size fault fuel r k (n - 1) v) Q E u1) as Hgo.
  { intros u1 Hf Hne. pose proof Hf as (Hok1 & _ & Hsame). destruct (Hsame eq_refl) as [Hs Hd].
    apply wp_bind, wp_gets, wp_bind, wp_gets, wp_bind, wp_gets.
    destruct (seg_fds u1 r k) as [|v0 vs] eqn:Hfd; [done|]. set (j := length vs).
    destruct (lookup_lt_is_Some_2 (seg_fds u1 r k) j) as [v Hv]; [rewrite Hfd; cbn; lia|].
    replace (Z.of_nat (length (v0 :: vs)) - 1) with (Z.of_nat j) by (cbn; lia). rewrite Nat2Z.id, <-Hfd, Hv.
    change (default closed_seg (Some v)) with v.
    destruct (fds_at_seg _ _ _ _ _ Hok1 Hv) as [ino Hat]; [by eapply (ui_dense_open _ _ _ Hok1)|].
    eapply wp_dense_size; [done|done|done|by rewrite Hfd|unfold segment_fuel; lia|].
    intros n u' Hf' Hc. apply HQ; [by eapply found_trans|]. split; [apply Hc|].
    intros b d Hbd. apply (proj2 Hc b d).
    unfold um_content in *. by rewrite Hs. }
  apply wp_bind, wp_openfork; [done|..].
  - intros v Hv. apply (Hgo u); [by apply found_quiet|]. by intros Hn; rewrite Hn in Hv.
  - intros u1 ino _ Hok1 Hg Hs Hd Hfd _. apply (Hgo u1); [by split_and!|by rewrite Hfd].
  - intros e Hnil [He|[(-> & Hn & _)|(_ & _ & ?)]]; [by rewrite calm_none in He by set_solver| |done].
    change (_ && _) with true. apply wp_ret, HQ; [by apply found_quiet|]. split; [done|]. intros b d Hc. exfalso.
    pose proof (content_dir _ _ _ _ _ Hc) as Hdb. unfold um_content in Hc. case_decide as Hb; [|done].
    assert (is_Some (um_dir u !! (r, k, 0))) as [? ?]; [|congruence].
    destruct (decide (segno_of b = 0)) as [E'|]; [by rewrite <-E'|]. apply dir_of_size.
    unfold seg. rewrite (ui_dense _ _ _ Hok r k (segno_of b)); [done|done|done|].
    unfold segno_of, RELSEG_SIZE in *. ulia.
Qed.

(** ** Creation *)

(** No block changes and no other fork comes or goes. *)
Definition other_forks (r : RelFileLocator) (k : ForkNumber) u u' : Prop :=
  ∀ r' k', (r', k') ≠ (r, k) →
    seg_fds u' r' k' = seg_fds u r' k' ∧ ∀ n, um_dir u' !! (r', k', n) = um_dir u !! (r', k', n).

Lemma other_forks_there r k u u' r' k' :
  other_forks r k u u' → (r', k') ≠ (r, k) → fork_there u' r' k' ↔ fork_there u r' k'.
Proof. intros Ho Hne. destruct (Ho r' k' Hne) as [Hf Hd]. unfold fork_there. by rewrite Hf, Hd. Qed.

Lemma other_forks_trans r k u1 u2 u3 : other_forks r k u1 u2 → other_forks r k u2 u3 → other_forks r k u1 u3.
Proof.
  intros O1 O2 r' k' Hne. destruct (O1 r' k' Hne) as [F1 D1], (O2 r' k' Hne) as [F2 D2].
  split; [congruence|]. intros n. by rewrite D2, D1.
Qed.

Lemma other_forks_grow r k u u' : grow r k u u' → other_forks r k u u'.
Proof. intros Hg r' k' Hne. split; [by apply (gr_fds _ _ _ _ Hg)|]. intros n. by apply (gr_other_dir _ _ _ _ Hg). Qed.

Definition made (r : RelFileLocator) (k : ForkNumber) u u' : Prop :=
  um_ok u' ∧ same_seg u u' ∧ other_forks r k u u' ∧ fork_there u' r k.

Lemma made_quiet r k u u1 u2 : made r k u u1 → quiet u1 u2 → made r k u u2.
Proof.
  intros (O & S & T & X) Hq. split_and!; [by eapply quiet_ok| | |].
  - intros r' k' n. by rewrite (quiet_seg _ _ Hq), S.
  - eapply other_forks_trans; [done|]. by apply other_forks_grow, quiet_grow.
  - unfold fork_there, seg_fds in *. by destruct Hq as (-> & _ & ->).
Qed.

(** The first segment of a fork, opened in an empty table. *)
Lemma first_open u u1 r k ino :
  um_ok u1 → same_seg u u1 → other_forks r k u u1 → um_dir u1 !! (r, k, 0) = Some ino →
  made r k u (set_seg_fds r k [MkSeg (Some ino) 0] u1).
Proof.
  intros Hok Hs Ho Hd. split_and!.
  - apply set_fds_ok; [done|]. apply (open_at_ok _ _ _ 0 ino []); [|done|done]. by split.
  - done.
  - eapply other_forks_trans; [done|]. apply other_forks_grow, set_fds_grow.
  - left. by rewrite seg_fds_set, decide_True.
Qed.

Lemma wp_create r k redo Q (E : pg_error → U → Prop) u :
  um_ok u → (∀ u', made r k u u' → Q tt u') → (∀ e u', E e u') →
  wp (umfile_create fault temp data_sync_retry r k redo) Q E u.
Proof.
  intros Hok HQ HE. apply wp_bind, wp_gets. destruct (redo && bool_decide _) eqn:Hr.
  { apply wp_ret, HQ. zbool. split_and!; [done|done|by intros r' k' _|]. left. intros Hn. rewrite Hn in *. done. }
  apply wp_bind, wp_modify. rewrite resize_0. set (u0 := set_seg_fds r k [] u).
  assert (um_ok u0) as Hok0 by (apply set_fds_ok; [done|by split]).
  assert (other_forks r k u u0) as Ho0 by (apply other_forks_grow, set_fds_grow).
  assert (∀ u1 ino, um_ok u1 → same_seg u u1 → other_forks r k u u1 → um_dir u1 !! (r, k, 0) = Some ino →
    seg_fds u1 r k = [] →
    wp (umfile_fdvec_resize r k 1;; put_seg r k 0 (MkSeg (Some ino) 0);;
        when (negb temp) (umfile_register_dirty_seg fault data_sync_retry r k (MkSeg (Some ino) 0))) Q E u1) as Hgo.
  { intros u1 ino Hok1 Hs1 Ho1 Hd1 Hfd. apply wp_bind, wp_modify, wp_bind, wp_modify.
    rewrite seg_fds_set, decide_True, set_set_fds, Hfd by done.
    change (<[_:=_]> _) with [MkSeg (Some ino) 0].
    apply (wp_when_register fault temp data_sync_retry false r k 0 ino); [|intros; apply HE].
    intros u2 Hq _. apply HQ. eapply made_quiet; [|done]. by apply first_open. }
  assert (seg_fds u0 r k = []) as Hfd0 by (unfold u0; by rewrite seg_fds_set, decide_True).
  apply wp_bind, wp_open_file.
  - intros e _. apply wp_bind, wp_bind. destruct redo; [|apply wp_ret, wp_throw, HE].
    apply wp_open_file; [intros; apply wp_throw, HE| |done].
    intros ino Hd _. by apply wp_ret, (Hgo (tick (tick u0))).
  - intros ino _ Hx. done.
  - intros Hd _. apply wp_bind, wp_ret. apply Hgo.
    + apply (created_ok (tick u0)); try done. intros; lia.
    + intros r' k' n. by apply (seg_created (tick u0)).
    + eapply other_forks_trans; [exact Ho0|]. intros r' k' Hne. split; [done|]. intros n. cbn -[fresh].
      rewrite lookup_insert_ne; [done|congruence].
    + cbn -[fresh]. by rewrite lookup_insert_eq.
    + done.
Qed.

Lemma wp_open_or_create r k redo Q (E : pg_error → U → Prop) u :
  um_ok u → (∀ u' c, made r k u u' → Q (Some c) u') → (∀ u', Q None u') → (∀ e u', E e u') →
  wp (umfile_open_or_create fault temp data_sync_retry r k redo) Q E u.
Proof using Hcalm.
  intros Hok HQ HN HE. apply wp_bind.
  assert (∀ u1, um_ok u1 → same_seg u u1 → other_forks r k u u1 →
    wp (umfile_create fault temp data_sync_retry r k redo;;
        o ← umfile_openfork fault r k UM_EXTENSION_RETURN_NULL;
        mret (if is_null o then None else Some true)) Q E u1) as Hgo.
  { intros u1 Hok1 Hs1 Ho1. apply wp_bind, wp_create; [done| |done]. intros u2 (Hok2 & Hs2 & Ho2 & Ht2).
    assert (made r k u u2) as Hm.
    { split_and!; [done| |by eapply other_forks_trans|done]. intros r' k' n. by rewrite Hs2, Hs1. }
    apply wp_bind, wp_openfork; [done|..].
    - intros v _. by apply wp_ret, HQ.
    - intros u3 ino _ Hok3 Hg3 Hs3 _ Hfd3 _. apply wp_ret, HQ. split_and!; [done| | |by left; rewrite Hfd3].
      + intros r' k' n. by rewrite Hs3, Hs2, Hs1.
      + eapply other_forks_trans; [apply Hm|by apply other_forks_grow].
    - intros e _ _. destruct (_ && _); [by apply wp_ret|done]. }
  destruct redo; [|by apply wp_ret, Hgo]. apply wp_openfork; [done|..].
  - intros v Hv. apply wp_ret, HQ. split_and!; [done|done|by intros r' k' _|].
    left. by intros Hn; rewrite Hn in Hv.
  - intros u3 ino _ Hok3 Hg3 Hs3 _ Hfd3 _. apply wp_ret, HQ.
    split_and!; [done|done|by apply other_forks_grow|by left; rewrite Hfd3].
  - intros e _ _. destruct (_ && _); [|done]. by apply (Hgo (tick u)).
Qed.

(** The fork is there, whatever it took. *)
Definition ensured (r : RelFileLocator) (k : ForkNumber) u u' : Prop :=
  um_ok u' ∧ same_seg u u' ∧ other_forks r k u u'.

Lemma found_ensured r k u u' : found r k false u u' → ensured r k u u'.
Proof. intros (Hok & Hg & Hs). split_and!; [done|by apply Hs|by apply other_forks_grow]. Qed.

Lemma ensured_trans r k u1 u2 u3 : ensured r k u1 u2 → ensured r k u2 u3 → ensured r k u1 u3.
Proof.
  intros (O1 & S1 & T1) (O2 & S2 & T2). split_and!; [done| |by eapply other_forks_trans].
  intros r' k' n. by rewrite S2, S1.
Qed.

Lemma wp_ensure_fork r k Q (E : pg_error → U → Prop) u :
  um_ok u → (∀ u', ensured r k u u' → Q tt u') → (∀ e u', E e u') →
  wp (umfile_ctx_ensure_fork fault temp recovery data_sync_retry r k) Q E u.
Proof using Hcalm.
  intros Hok HQ HE. apply wp_bind, wp_exists; [done|]. intros u1 here Hf _.
  assert (ensured r k u u1) as He by (by apply found_ensured).
  destruct here; [by apply wp_ret, HQ|]. apply wp_create; [apply He| |done].
  intros u2 (O & S & T & _). apply HQ. by eapply ensured_trans.
Qed.

(** ** Preallocation *)

Lemma wp_prealloc_fd r k n v ino nb Q (E : pg_error → U → Prop) u :
  um_ok u → at_seg r k n u v ino → 0 ≤ nb ≤ RELSEG_SIZE → n * RELSEG_SIZE + nb ≤ InvalidBlockNumber →
  (∀ u' ok, um_ok u' → grow r k u u' → Q ok u') → (∀ e u', E e u') →
  wp (umfile_preallocate_fd fault ino (nb * BLCKSZ)) Q E u.
Proof using Hcalm.
  intros Hok Hat Hnb Hmax HQ HE. pose proof Hat as [_ Hd]. set (f := seg u r k n).
  apply wp_bind. unfold size_of. apply wp_bind.
  apply (wp_size fault r k n ino v); [done|done|intros; apply wp_throw, HE|]. apply wp_ret. fold f.
  case_decide as Hle; [apply wp_ret, HQ; [done|apply tick_grow]|]. apply wp_bind. unfold fallocate.
  apply wp_bind, wp_sys. destruct (fault SysAllocate _) as [e|].
  { apply wp_ret. destruct (umfile_preallocate_errno_is_unsupported e); [|apply wp_throw, HE].
    apply wp_ret, HQ; [done|etrans; apply tick_grow]. }
  apply wp_bind. unfold inode. apply wp_bind, wp_gets. cbn [tick um_inodes].
  rewrite (at_seg_inode _ _ _ _ _ _ Hok Hat). apply wp_ret, wp_bind, wp_modify, wp_ret. fold f.
  set (f' := MkOsFile _ _). set (u1 := with_inodes _ _).
  destruct (ui_ok _ _ _ Hok r k n) as [[Hs0 _] Hw Hb Hz]. fold (seg u r k n) in *. fold f in Hs0, Hw, Hb, Hz.
  assert (of_size f' = nb * BLCKSZ) as Hsz by (cbn; unfold BLCKSZ in *; lia).
  assert (may_replace (tick (tick u)) r k n f') as Hmr.
  { split; rewrite ?Hsz.
    - split; rewrite ?Hsz; [unfold SEG_BYTES, BLCKSZ in *; nia|by apply Z_mod_mult|done|].
      intros p Hp. apply Hz. unfold BLCKSZ in *. lia.
    - intros _. unfold SEG_BYTES, BLCKSZ in *. lia.
    - intros _ Hfull. change (seg (tick (tick u)) r k n) with f in Hfull. unfold SEG_BYTES, BLCKSZ in *. nia. }
  assert (um_ok u1) as Hok1 by (by apply (set_inode_ok (tick (tick u)) r k n)).
  assert (wrote r k n f' (tick (tick u)) u1) as Hwr by (by apply set_inode_wrote).
  assert (grow r k u u1) as Hg1.
  { etrans; [apply tick_grow|]. etrans; [apply tick_grow|]. eapply wrote_grow; [done|]. split; [|done].
    change (seg (tick (tick u)) r k n) with f. rewrite Hsz. lia. }
  apply wp_bind, wp_bind. apply (wp_size fault r k n ino v); [done|by split; [apply Hat|]|intros; apply wp_throw, HE|].
  apply wp_ret.
  rewrite (proj2 (proj2 Hwr)), (decide_True (P := (r, k, n) = (r, k, n))), Hsz, decide_False by (done || lia).
  apply wp_ret, HQ; [done|]. etrans; [done|apply tick_grow].
Qed.

Lemma wp_prealloc_segs fuel r k cur target skip Q (E : pg_error → U → Prop) u :
  um_ok u → 0 ≤ cur → target ≤ InvalidBlockNumber →
  (∀ u' ok, um_ok u' → grow r k u u' → Q ok u') → (∀ e u', E e u') →
  wp (preallocate_segs fault chunk temp recovery data_sync_retry fuel r k cur target skip) Q E u.
Proof using Hcalm.
  revert cur u Q. induction fuel as [|fuel IH]; intros cur u Q Hok Hcur Hmax HQ HE; cbn [preallocate_segs].
  { by apply wp_ret, HQ. }
  case_decide as Hle; [by apply wp_ret, HQ|].
  set (start := segno_of cur * RELSEG_SIZE). set (fin := Z.min (start + RELSEG_SIZE) target).
  assert (start ≤ cur < start + RELSEG_SIZE ∧ 0 ≤ segno_of cur) as [Hst Hs0]
    by (unfold start, segno_of, RELSEG_SIZE; ulia).
  assert (cur < fin) by lia. set (b := start + (fin - start) - 1).
  assert (segno_of b = segno_of cur) as Hseg by (unfold b, segno_of, start, RELSEG_SIZE in *; ulia).
  apply wp_getseg_got; [done|lia|done|done| |by intros; apply HE].
  intros u1 v ino (Hok1 & Hg1 & _) Hat. pose proof Hat as [-> _]. rewrite Hseg in Hat.
  apply wp_bind, wp_ret, wp_bind. eapply wp_prealloc_fd; [done|exact Hat|lia|fold start; lia| |done].
  intros u2 [|] Hok2 Hg2; cbn [negb]; [|apply wp_ret, HQ; [done|by etrans]].
  apply wp_bind, wp_when_register; [|intros; apply HE]. intros u3 Hq _.
  apply IH; [by eapply quiet_ok|lia|done| |done]. intros u' ok Hok' Hg'. apply HQ; [done|].
  etrans; [done|]. etrans; [done|]. etrans; [by apply quiet_grow|done].
Qed.

Lemma wp_nblocks_sparse r k Q (E : pg_error → U → Prop) u :
  um_ok u → umfile_fork_allows_sparse_segments k = true →
  (∀ n u', found r k false u u' → 0 ≤ n → Q n u') → (∀ e u', E e u') →
  wp (umfile_nblocks_sparse fault r k) Q E u.
Proof using Hcalm chunk.
  intros Hok Hk HQ HE. assert (Q 0 (tick u)) as H0 by (apply HQ; [by apply found_quiet|done]).
  apply wp_bind, wp_bind. unfold umfile_collect_existing_segnos_by_path, scan_dir. apply wp_bind, wp_bind, wp_sys.
  destruct (fault SysReadDir _) as [e|].
  { apply wp_ret, wp_ret, wp_ret. by destruct (bool_decide _); apply wp_ret. }
  apply wp_bind, wp_gets, wp_ret, wp_ret, wp_ret. destruct (uniq _) as [|n ns] eqn:Hu; [by apply wp_ret|].
  set (m := List.last ns n). destruct (dir_segnos_ok u r k m) as [Hm0 Hmd]; [done| |].
  { rewrite <-(merge_sort_Permutation (≤)). apply elem_of_uniq. cbn [tick um_dir] in Hu. rewrite Hu. apply last_elem. }
  assert (∀ u1 v ino, found r k false u u1 → at_seg r k m u1 v ino →
    wp (nblocks ← umfile_nblocks_in_seg fault v;
        if decide (RELSEG_SIZE < nblocks) then elog FATAL "segment too big"
        else mret (u32 (m * RELSEG_SIZE + nblocks))) Q E u1) as Hgo.
  { intros u1 v ino Hf Hat. pose proof Hf as (Hok1 & _). apply wp_bind.
    eapply wp_nblocks_in_seg; [done|done|intros; apply HE|]. intros nb Hnb _. rewrite decide_False by lia.
    apply wp_ret, HQ; [eapply found_trans; [done|by apply found_quiet]|]. unfold u32. ulia. }
  apply wp_bind, wp_gets, wp_bind, wp_gets, wp_bind. change (seg_fds (tick u)) with (seg_fds u).
  destruct (bool_decide _ || _) eqn:Hop.
  - apply wp_bind, wp_openseg; [done|done|by rewrite Hk|done|intros; apply wp_throw, HE|].
    intros u1 ino Hok1 Hg Hs Hat _ Hd. apply wp_ret. eapply Hgo; [|done].
    split_and!; [done|by etrans; [apply tick_grow|]|]. intros _. by split; [|apply Hd].
  - apply orb_false_iff in Hop as [Hlt Hv]. apply bool_decide_eq_false in Hlt. apply negb_false_iff, bool_decide_eq_true in Hv.
    apply wp_ret. destruct (lookup_lt_is_Some_2 (seg_fds u r k) (Z.to_nat m)) as [v Hlv]; [lia|]. rewrite Hlv in Hv |- *.
    destruct (fds_at_seg _ _ _ _ _ Hok Hlv Hv) as [ino Hat]. rewrite Z2Nat.id in Hat by done.
    eapply (Hgo (tick u)); [by apply found_quiet|exact Hat].
Qed.

Definition mode_of (k : ForkNumber) : UmFileMode :=
  if umfile_fork_allows_sparse_segments k then UMFILE_SPARSE else UMFILE_DENSE.

Lemma wp_ctx_preallocate r k n skip Q (E : pg_error → U → Prop) u :
  um_ok u → (∀ u' ok, um_ok u' → grow r k u u' → Q ok u') → (∀ e u', E e u') →
  wp (umfile_ctx_preallocate_blocks fault chunk temp recovery data_sync_retry r k (mode_of k) n skip) Q E u.
Proof using Hcalm.
  intros Hok HQ HE. apply wp_bind, wp_exists; [done|]. intros u1 here Hf _. pose proof Hf as (Hok1 & Hg1 & _).
  destruct here; [|by apply wp_ret, HQ]. cbn [negb].
  assert (∀ m u2, found r k false u1 u2 → 0 ≤ m →
    wp (if decide (n ≤ m) then mret true
        else if decide (MaxBlockNumber + 1 < n) then mret false
        else preallocate_segs fault chunk temp recovery data_sync_retry (Z.to_nat (n / RELSEG_SIZE + 1)) r k m n skip)
      Q E u2) as Hgo.
  { intros m u2 (Hok2 & Hg2 & _) Hm. assert (grow r k u u2) by (by etrans).
    case_decide; [by apply wp_ret, HQ|]. case_decide; [by apply wp_ret, HQ|].
    apply wp_prealloc_segs; [done|done| |intros; apply HQ; [done|by etrans]|done].
    unfold MaxBlockNumber, InvalidBlockNumber in *. lia. }
  apply wp_bind. unfold umfile_nblocks, mode_of. destruct (umfile_fork_allows_sparse_segments k) eqn:Hk.
  - rewrite decide_True by done. apply wp_nblocks_sparse; [done|done|auto|done].
  - rewrite decide_False by done. apply wp_nblocks_dense; [done|done|].
    intros m u2 Hf2 Hm. apply Hgo; [done|apply Hm].
Qed.

(** ** Truncation of a sparse fork *)

(** Blocks below [n] are kept; so is everything outside the fork. *)
Record cut (r : RelFileLocator) (k : ForkNumber) (n : Z) u u' : Prop := {
  cu_ok : um_ok u';
  cu_dir : um_dir u' = um_dir u;
  cu_other : ∀ r' k' b, (r', k') ≠ (r, k) → um_content u' r' k' b = um_content u r' k' b;
  cu_kept : ∀ b, b < n → block_kept (um_content u r k b) (um_content u' r k b);
}.

Lemma cut_refl r k n u : um_ok u → cut r k n u u.
Proof. by split; [..|left]. Qed.

Lemma cut_trans r k n u1 u2 u3 : cut r k n u1 u2 → cut r k n u2 u3 → cut r k n u1 u3.
Proof.
  intros [O1 D1 T1 K1] [O2 D2 T2 K2]. split; [done|congruence|..].
  - intros. by rewrite T2, T1.
  - intros b Hb. eapply block_kept_trans; [by apply K1|by apply K2].
Qed.

Lemma cut_quiet r k n u u' : um_ok u → quiet u u' → cut r k n u u'.
Proof.
  intros Hok Hq. split; [by eapply quiet_ok|apply Hq|..].
  - intros. by apply quiet_content.
  - intros b _. left. by apply quiet_content.
Qed.

Lemma cut_file_ok f n : file_ok f → 0 ≤ n ≤ SEG_BYTES → n mod BLCKSZ = 0 → file_ok (cut_file f n).
Proof.
  intros [_ _ Hb Hz] Hn Hm. split; [done|done|..].
  - intros p. cbn. case_decide; [done|]. unfold is_byte. lia.
  - intros p Hp. cbn in *. by rewrite decide_False by lia.
Qed.

Lemma block_in_cut f n pos :
  file_ok f → 0 ≤ pos → pos mod BLCKSZ = 0 → n mod BLCKSZ = 0 → pos < n →
  block_kept (block_in f pos) (block_in (cut_file f n) pos).
Proof.
  intros [[Hs _] Hw _ Hz] Hp Hpm Hnm Hlt. unfold block_in, block_kept. cbn [of_size cut_file].
  rewrite (decide_True (P := _ ≤ n)) by (unfold BLCKSZ in *; ulia).
  assert (read_bytes (cut_file f n) pos (Z.to_nat BLCKSZ) = read_bytes f pos (Z.to_nat BLCKSZ)) as ->.
  { apply read_bytes_ext. intros p Hpp. cbn. rewrite decide_True; [done|]. unfold BLCKSZ in *. ulia. }
  case_decide; [by left|]. right. split; [done|]. f_equal. apply read_bytes_zero. intros p Hpp. apply Hz.
  unfold BLCKSZ in *. ulia.
Qed.

(** Cutting the file of segment [n] at block [m] of the segment. *)
Lemma wp_cut_seg r k n ino v m nblocks Q (E : pg_error → U → Prop) u :
  um_ok u → umfile_fork_allows_sparse_segments k = true → at_seg r k n u v ino →
  0 ≤ m ≤ RELSEG_SIZE → (0 < m → n * RELSEG_SIZE + m ≤ InvalidBlockNumber) → nblocks ≤ n * RELSEG_SIZE + m →
  (∀ o u', cut r k nblocks u u' → um_registry u' = um_registry u → Q o u') →
  wp (FileTruncate fault ino (m * BLCKSZ)) Q E u.
Proof.
  intros Hok Hk Hat Hm Hmax Hn HQ. pose proof Hat as [_ Hd]. apply wp_bind, wp_sys.
  destruct (fault SysTruncate _); [apply wp_ret, HQ; [by apply cut_quiet|done]|].
  apply wp_bind. unfold inode. apply wp_bind, wp_gets. cbn [tick um_inodes].
  rewrite (at_seg_inode _ _ _ _ _ _ Hok Hat). apply wp_ret, wp_bind, wp_modify, wp_ret.
  pose proof (ui_ok _ _ _ Hok r k n) as Hfo. fold (seg u r k n) in Hfo. set (f := seg u r k n) in *.
  assert (m * BLCKSZ mod BLCKSZ = 0) as Hmm by by apply Z_mod_mult.
  pose proof (set_inode_wrote (tick u) r k n ino (cut_file f (m * BLCKSZ)) Hok Hd) as (_ & _ & Hs).
  apply HQ; [|done]. split; [|done|intros r' k' b Hne|intros b Hb].
  - apply (set_inode_ok (tick u) r k n); [done|done|]. split; cbn [of_size cut_file].
    + apply cut_file_ok; [done| |done]. unfold SEG_BYTES, BLCKSZ in *. lia.
    + intros Hpos. unfold SEG_BYTES, BLCKSZ in *. lia.
    + by rewrite Hk.
  - unfold um_content. case_decide; [|done]. by rewrite Hs, decide_False by congruence.
  - unfold um_content. case_decide as Hb0; [|by left]. rewrite Hs. case_decide as Hc; [|by left].
    injection Hc as Hc. rewrite Hc. fold f. destruct (seekpos_ok b) as [Hp Hpm]. apply block_in_cut; [done..|].
    unfold segno_of, seekpos_of, BLCKSZ, RELSEG_SIZE in *. ulia.
Qed.

Lemma wp_truncate_segs j r k n Q (E : pg_error → U → Prop) u :
  um_ok u → umfile_fork_allows_sparse_segments k = true → 0 ≤ n → (j ≤ length (seg_fds u r k))%nat →
  (∀ u', cut r k n u u' → Q tt u') → (∀ e u', E e u') →
  wp (truncate_segs fault temp data_sync_retry j r k n) Q E u.
Proof using Hcalm chunk.
  revert u Q. induction j as [|j IH]; intros u Q Hok Hk Hn Hj HQ HE; cbn [truncate_segs].
  { by apply wp_ret, HQ, cut_refl. }
  apply wp_bind, wp_gets. rewrite Nat2Z.id.
  destruct (lookup_lt_is_Some_2 (seg_fds u r k) j) as [v Hv]; [lia|]. rewrite Hv.
  change (default closed_seg (Some v)) with v. set (prior := u32 _).
  assert (∀ m (rest : M U unit), 0 ≤ m ≤ RELSEG_SIZE →
    (∀ ino, at_seg r k (Z.of_nat j) u v ino →
       (0 < m → Z.of_nat j * RELSEG_SIZE + m ≤ InvalidBlockNumber) ∧ n ≤ Z.of_nat j * RELSEG_SIZE + m) →
    (∀ u1, cut r k n u u1 → seg_fds u1 r k = seg_fds u r k → wp rest Q E u1) →
    wp (ino ← vfd v; ret ← FileTruncate fault ino (m * BLCKSZ);
        match ret with
        | Some e => ereport ERROR (errcode_for_file_access e) "could not truncate file"
        | None => when (negb temp) (umfile_register_dirty_seg fault data_sync_retry r k v);; rest
        end) Q E u) as Hgo.
  { intros m rest Hm Hlim Hrest. apply wp_bind. destruct (umfd_vfd v) as [ino0|] eqn:Hvfd.
    2: { unfold vfd. rewrite Hvfd. apply wp_throw, HE. }
    destruct (fds_at_seg _ _ _ _ _ Hok Hv) as [ino Hat]; [by rewrite Hvfd|]. destruct (Hlim ino Hat) as [Hmx Hle].
    pose proof Hat as [-> _]. apply wp_ret, wp_bind. eapply wp_cut_seg; [done|done|exact Hat|done|done|done|].
    intros [e|] u1 Hc Hg; [apply wp_throw, HE|]. apply wp_bind.
    apply (wp_when_register fault temp data_sync_retry false); [|intros; apply HE]. intros u2 Hq _. apply Hrest.
    - eapply cut_trans; [done|]. apply cut_quiet; [by destruct Hc|done].
    - unfold seg_fds. destruct Hq as (_ & _ & ->). by rewrite Hg. }
  assert (∀ ino, at_seg r k (Z.of_nat j) u v ino → prior = Z.of_nat j * RELSEG_SIZE ∧ prior ≤ InvalidBlockNumber) as Hprior.
  { intros ino [_ Hd]. destruct (ui_file _ _ _ Hok _ _ _ _ Hd) as (_ & ? & Hmx). unfold prior.
    unfold InvalidBlockNumber, RELSEG_SIZE in *. ulia. }
  case_decide as Hlt; [|case_decide as Hin; [|by apply wp_ret, HQ, cut_refl]].
  - apply (Hgo 0); [done|intros ino Hat; destruct (Hprior ino Hat); lia|].
    intros u1 Hc Hfd. apply wp_bind, wp_modify. rewrite Nat2Z.id. set (u2 := set_seg_fds _ _ _ _).
    assert (cut r k n u u2) as Hc2.
    { destruct Hc as [O D T K]. split; [|done|done|done]. apply set_fds_ok; [done|]. split.
      - intros i w ino Hi. apply (um_fds_ok u1 r k O). rewrite Hfd in *. rewrite resize_le in Hi by lia.
        by apply lookup_take_Some in Hi as [? _].
      - by rewrite Hk. }
    apply IH; [apply Hc2|done|done| |intros; apply HQ; by eapply cut_trans|done].
    unfold u2. rewrite seg_fds_set, decide_True, length_resize by done. lia.
  - apply Hgo.
    + assert (0 ≤ prior) by (unfold prior; ulia). unfold u32 in Hin. unfold RELSEG_SIZE in *. ulia.
    + intros ino Hat. destruct (Hprior ino Hat) as [<- Hp]. split; [|lia]. intros _.
      unfold u32 in Hin. unfold InvalidBlockNumber, RELSEG_SIZE in *. ulia.
    + intros u1 Hc Hfd. apply IH; [apply Hc|done|done|rewrite Hfd; lia|intros; apply HQ; by eapply cut_trans|done].
Qed.

Lemma wp_umfile_truncate r k old n Q (E : pg_error → U → Prop) u :
  um_ok u → umfile_fork_allows_sparse_segments k = true → 0 ≤ n →
  (∀ u', cut r k n u u' → Q tt u') → (∀ e u', E e u') →
  wp (umfile_truncate fault temp recovery data_sync_retry r k old n) Q E u.
Proof using Hcalm chunk.
  intros Hok Hk Hn HQ HE. assert (Q tt u) by (by apply HQ, cut_refl). unfold umfile_truncate.
  case_decide; [destruct recovery; [by apply wp_ret|apply wp_throw, HE]|]. case_decide; [by apply wp_ret|].
  apply wp_bind, wp_gets. apply wp_truncate_segs; [done|done|done|lia|done|done].
Qed.
End laws.
