(* ===== verification/UmFileStore.v ===== *)
(** * The file interface, discharged

    The segment files of [umfile.c] as an instance of the interfaces [FileLayer]
    and [DataFiles]: what the theorems about the map and the storage manager
    assume of files holds of this file layer, whatever calls for space, writes
    and syncs fail.  The interfaces forget two things that [UmFile] has: a
    query there changes the table of open segments, and a failed call may have
    done part of its work. *)

From S2P Require Import Prelude FileLayer SmgrFiles UmOs UmFile UmFileInv UmFileSpec UmFileOps UmFileLaws.

Local Open Scope Z_scope.

#[global] Instance is_byte_dec b : Decision (is_byte b).
Proof. unfold is_byte. apply _. Defined.
#[global] Instance full_block_dec d : Decision (full_block d).
Proof. unfold full_block. apply _. Defined.

(** ** Calls on files that are as they should be *)

Definition UmStore : Type := {u : UmFiles | um_ok u}.

Definition keeps {A} (m : M UmFiles A) : Prop :=
  ∀ u, um_ok u → wp m (λ _ u', um_ok u') (λ _ _, True) u.

Definition run_on {A} (m : M UmFiles A) (Hm : keeps m) (s : UmStore) : result (UmStore * A) :=
  match m (`s) as x
    return match x with (Ok _, u') => um_ok u' | (Err _, _) => True end → result (UmStore * A)
  with
  | (Ok a, u') => λ H, Ok (exist _ u' H, a)
  | (Err e, _) => λ _, Err e
  end (Hm (`s) (proj2_sig s)).

Lemma run_on_post {A} (m : M UmFiles A) Hm Q E s s' a :
  wp m Q E (`s) → run_on m Hm s = Ok (s', a) → Q a (`s').
Proof.
  unfold run_on, wp. generalize (Hm (`s) (proj2_sig s)). unfold wp.
  destruct (m (`s)) as [[a0|e] u0]; [|done]. by intros H HQ [= <- <-].
Qed.

Definition store_only {A} (x : result (UmStore * A)) : result UmStore := p ← x; Ok p.1.

Lemma store_only_ok {A} (x : result (UmStore * A)) s : store_only x = Ok s → ∃ a, x = Ok (s, a).
Proof. destruct x as [[s' a]|e]; [|done]. cbn. intros [= <-]. eauto. Qed.

Lemma answer_post {A} (m : M UmFiles A) Q E u a : wp m Q E u → (m u).1 = Ok a → ∃ u', Q a u'.
Proof. unfold wp. destruct (m u) as [[a0|e] u0]; [|done]. intros H [= <-]. eauto. Qed.

(** A call on a relation: its context is looked up or made, then the arguments
    must be block numbers and blocks. *)
Definition out_of_range : pg_error := PgError ERROR ERRCODE_INTERNAL_ERROR "block out of range".

Definition on_ctx {A} (P : Prop) `{!Decision P} (r : RelFileLocator) (m : M UmFiles A) : M UmFiles A :=
  umfile_ctx_acquire r;; if decide P then m else throw out_of_range.

Lemma wp_on_ctx {A} P `{!Decision P} r (m : M UmFiles A) k Q (E : pg_error → UmFiles → Prop) u :
  um_ok u → (∀ u', found r k false u u' → (∀ r' k', seg_fds u' r' k' = seg_fds u r' k') → P → wp m Q E u') →
  (∀ u', ¬ P → E out_of_range u') → wp (on_ctx P r m) Q E u.
Proof.
  intros Hok Hm HE. apply wp_bind, wp_bind, wp_gets.
  assert (∀ u', found r k false u u' → (∀ r' k', seg_fds u' r' k' = seg_fds u r' k') →
    wp (if decide P then m else throw out_of_range) Q E u') as Hgo.
  { intros u' Hf Hs. case_decide; [by apply Hm|by apply wp_throw, HE]. }
  destruct (um_registry u !! r) as [c|] eqn:Hr; [apply wp_ret, Hgo; [by apply found_quiet|done]|].
  apply wp_modify. set (u' := with_registry _ u).
  assert (∀ r' k', seg_fds u' r' k' = seg_fds u r' k') as Hs.
  { intros r' k'. unfold seg_fds, u'. cbn. destruct (decide (r' = r)) as [->|].
    - rewrite lookup_insert_eq, Hr. cbn. by rewrite lookup_empty.
    - by rewrite lookup_insert_ne. }
  apply Hgo; [|done]. split_and!; [|by split|done]. destruct Hok as [A1 A2 A3 A4 A5 A6 A7].
  split; try done; intros r' k' j v; change (fds_of (um_registry u') r' k') with (seg_fds u' r' k'); rewrite Hs;
    [apply A5|apply A6].
Qed.

Section store.
Context (fault : syscall → nat → option errno) (chunk : syscall → nat → Z → Z).
Context (temp recovery data_sync_retry skipFsync : bool).
Local Abbreviation U := UmFiles.
Implicit Types (u : U) (s : UmStore).

Hypothesis Hcalm : calm_faults fault.
Hypothesis Hwhole : whole_reads chunk.
Hypothesis Hmoves : moves chunk.

(** ** The calls *)

Local Abbreviation is_block b := (0 ≤ b < InvalidBlockNumber).

Definition op_exists r k mode : M U bool := on_ctx True r (umfile_exists fault recovery r k mode).

Definition op_nblocks r k : M U Z := on_ctx True r (umfile_nblocks fault r k UMFILE_DENSE).

Definition op_read r k b n : M U (list Z) :=
  on_ctx (is_block b ∧ 0 < n ≤ BLCKSZ) r (umfile_ctx_read fault chunk temp recovery data_sync_retry r k b n).

Definition op_block_exists r k b : M U bool :=
  on_ctx (is_block b) r (umfile_ctx_block_exists fault r k b).

Definition op_write r k b data : M U unit :=
  on_ctx (is_block b ∧ Z.of_nat (length data) ≤ BLCKSZ ∧ Forall is_byte data) r
    (umfile_ctx_write fault chunk temp recovery data_sync_retry r k b data;;
     umfile_ctx_register_dirty fault chunk temp recovery data_sync_retry r k b skipFsync temp).

Definition op_zeroextend r k b n : M U unit :=
  on_ctx (0 ≤ b ∧ 0 ≤ n ∧ b + n ≤ InvalidBlockNumber) r
    (umfile_zeroextend fault chunk temp recovery data_sync_retry r k b n skipFsync).

Definition op_preallocate r k n : M U bool :=
  on_ctx True r
    (umfile_ctx_preallocate_blocks fault chunk temp recovery data_sync_retry r k (mode_of k) n skipFsync).

Definition op_create r k redo : M U bool :=
  on_ctx True r
    (o ← umfile_open_or_create fault temp data_sync_retry r k redo;
     match o with Some c => mret c | None => throw out_of_range end).

Definition op_readv (lenient : bool) r k b n : M U (list (list Z)) :=
  on_ctx (0 ≤ b ∧ b + Z.of_nat n ≤ InvalidBlockNumber) r
    (umfile_readv fault chunk temp lenient false data_sync_retry r k b n).

Definition op_writev (lenient : bool) r k b ds : M U unit :=
  on_ctx (0 ≤ b ∧ b + Z.of_nat (length ds) ≤ InvalidBlockNumber ∧ Forall full_block ds) r
    (umfile_writev fault chunk temp lenient data_sync_retry r k b ds skipFsync).

Definition op_extend r k b d : M U unit :=
  on_ctx (is_block b ∧ full_block d) r
    (umfile_extend fault chunk temp recovery data_sync_retry r k b d skipFsync).

Definition op_ctx_extend r k b d : M U unit :=
  on_ctx (is_block b ∧ full_block d) r
    (umfile_ctx_extend fault chunk temp recovery data_sync_retry r k b d;;
     umfile_ctx_register_dirty fault chunk temp recovery data_sync_retry r k b false false).

Definition op_nblocks_sparse r k : M U Z := on_ctx True r (umfile_nblocks fault r k UMFILE_SPARSE).

Definition op_segment_exists r k segno : M U bool :=
  on_ctx True r (umfile_ctx_segment_exists fault r k segno).

Definition op_truncate (lenient : bool) r k old n : M U unit :=
  on_ctx (umfile_fork_allows_sparse_segments k = true ∧ 0 ≤ n) r
    (umfile_truncate fault temp lenient data_sync_retry r k old n).

(** ** What they do *)

Lemma stored_found r k b ds u u1 u2 : stored r k b ds u u1 → found r k false u1 u2 → stored r k b ds u u2.
Proof.
  intros [O D T K X] (O2 & _ & Hs). destruct (Hs eq_refl) as [Hs2 Hd2].
  assert (∀ r' k' b', um_content u2 r' k' b' = um_content u1 r' k' b') as C
    by (intros; unfold um_content; by rewrite Hs2).
  split; intros; rewrite ?C, ?Hd2; eauto.
Qed.

Lemma wp_ctx_register_dirty r k b ds skip temp' u u1 :
  stored r k b ds u u1 → 0 ≤ b < InvalidBlockNumber →
  wp (umfile_ctx_register_dirty fault chunk temp recovery data_sync_retry r k b skip temp')
    (λ _ u', stored r k b ds u u') (λ _ _, True) u1.
Proof using Hcalm Hwhole Hmoves.
  intros Hst Hb. unfold umfile_ctx_register_dirty.
  destruct (_ || _); [by apply wp_ret|]. apply wp_getseg_got; [apply Hst|done|done|done| |done].
  intros u3 v ino Hf3 Hat. assert (may_create recovery UM_EXTENSION_FAIL = false) as Hmc by (by destruct recovery).
  rewrite Hmc in Hf3. pose proof Hat as [-> _]. apply wp_register_dirty; [|done]. intros u4 Hq _.
  eapply quiet_stored; [|done]. by eapply stored_found.
Qed.

Lemma op_write_post r k b data u :
  um_ok u →
  wp (op_write r k b data)
    (λ _ u', ∃ d, stored r k b [d] u u' ∧ take (length data) d = data) (λ _ _, True) u.
Proof using Hcalm Hwhole Hmoves.
  intros Hok. apply (wp_on_ctx _ _ _ k); [done| |done]. intros u1 Hf _ (Hb & Hl & Hby). pose proof Hf as (Hok1 & _).
  apply wp_bind, wp_ctx_write; [done..| |done]. intros u2 d Hst Hd.
  assert (stored r k b [d] u u2) as Hst' by (by eapply found_stored).
  eapply wp_mono; [by apply wp_ctx_register_dirty|cbn; eauto|done].
Qed.

Lemma op_zeroextend_post r k b n u :
  um_ok u →
  wp (op_zeroextend r k b n) (λ _ u', stored r k b (replicate (Z.to_nat n) zero_block) u u') (λ _ _, True) u.
Proof using Hcalm Hwhole Hmoves.
  intros Hok. apply (wp_on_ctx _ _ _ k); [done| |done]. intros u1 Hf _ (Hb & Hn & Hm). pose proof Hf as (Hok1 & _).
  apply wp_zeroextend_runs; [done|done|done|lia|done| |done]. intros u2 Hst. by eapply found_stored.
Qed.

Lemma op_preallocate_post r k n u :
  um_ok u → wp (op_preallocate r k n) (λ _ u', um_ok u' ∧ grow r k u u') (λ _ _, True) u.
Proof using Hcalm Hwhole Hmoves.
  intros Hok. apply (wp_on_ctx _ _ _ k); [done| |done]. intros u1 (Hok1 & Hg & _) _ _.
  apply wp_ctx_preallocate; [done..| |done]. intros u2 ok Hok2 Hg2. split; [done|by etrans].
Qed.

Lemma op_create_post r k redo u :
  um_ok u → wp (op_create r k redo) (λ _ u', made r k u u') (λ _ _, True) u.
Proof using Hcalm Hwhole Hmoves.
  intros Hok. apply (wp_on_ctx _ _ _ k); [done| |done]. intros u1 (Hok1 & Hg & Hs) _ _.
  apply wp_bind, wp_open_or_create; [done..| |by intros; apply wp_throw|done].
  intros u2 c (O & S & T & X). apply wp_ret. split_and!; [done| | |done].
  - intros r' k' n. by rewrite S, (proj1 (Hs eq_refl)).
  - eapply other_forks_trans; [|done]. by apply other_forks_grow.
Qed.

Lemma op_readv_post lenient r k b n u :
  um_ok u →
  wp (op_readv lenient r k b n) (λ ds u', found r k lenient u u' ∧ blocks_read lenient false r k b n u ds)
    (λ _ _, True) u.
Proof using Hcalm Hwhole Hmoves.
  intros Hok. apply (wp_on_ctx _ _ _ k); [done| |done]. intros u1 Hf _ (Hb & Hm). pose proof Hf as (Hok1 & Hg & Hs).
  apply wp_readv; [done..| |done]. intros u2 ds Hf2 Hr. split.
  - eapply found_trans; [|done]. split_and!; [done|done|]. intros _. by apply Hs.
  - destruct Hr as [Hl Hr]. split; [done|]. intros i d Hi. specialize (Hr i d Hi). unfold um_content in *.
    by rewrite (proj1 (Hs eq_refl)) in Hr.
Qed.

Lemma op_writev_post lenient r k b ds u :
  um_ok u → wp (op_writev lenient r k b ds) (λ _ u', stored r k b ds u u') (λ _ _, True) u.
Proof using Hcalm Hwhole Hmoves.
  intros Hok. apply (wp_on_ctx _ _ _ k); [done| |done]. intros u1 Hf _ (Hb & Hm & Hds). pose proof Hf as (Hok1 & _).
  apply wp_writev; [done..| |done]. intros u2 Hst _. by eapply found_stored.
Qed.

Lemma op_extend_post r k b d u :
  um_ok u → wp (op_extend r k b d) (λ _ u', stored r k b [d] u u') (λ _ _, True) u.
Proof using Hcalm Hwhole Hmoves.
  intros Hok. apply (wp_on_ctx _ _ _ k); [done| |done]. intros u1 Hf _ (Hb & Hd). pose proof Hf as (Hok1 & _).
  apply wp_extend; [done..| |done]. intros u2 Hst _. by eapply found_stored.
Qed.

(** The fork first, then the block. *)
Lemma op_ctx_extend_post r k b d u :
  um_ok u →
  wp (op_ctx_extend r k b d) (λ _ u', ∃ u1, ensured r k u u1 ∧ stored r k b [d] u1 u') (λ _ _, True) u.
Proof using Hcalm Hwhole Hmoves.
  intros Hok. apply (wp_on_ctx _ _ _ k); [done| |done]. intros u1 Hf _ (Hb & Hd). pose proof Hf as (Hok1 & _).
  apply wp_bind, wp_bind, wp_ensure_fork; [done|done| |done]. intros u2 He. pose proof He as (Hok2 & _).
  apply wp_extend; [done..| |done]. intros u3 Hst _.
  eapply wp_mono; [by apply wp_ctx_register_dirty|cbn|done]. intros _ u4 Hst4. exists u2. split; [|done].
  eapply ensured_trans; [by apply found_ensured|done].
Qed.

Lemma op_truncate_post lenient r k old n u :
  um_ok u → wp (op_truncate lenient r k old n) (λ _ u', cut r k n u u') (λ _ _, True) u.
Proof using Hcalm Hwhole Hmoves.
  intros Hok. apply (wp_on_ctx _ _ _ k); [done| |done]. intros u1 (Hok1 & _ & Hs) _ (Hk & Hn).
  apply (wp_umfile_truncate fault chunk); [done..| |done]. intros u2 [O D T K]. destruct (Hs eq_refl) as [Hs1 Hd1].
  assert (∀ r' k' b', um_content u1 r' k' b' = um_content u r' k' b') as C
    by (intros; unfold um_content; by rewrite Hs1).
  split; [done|congruence|..].
  - intros. rewrite <-C. by apply T.
  - intros. rewrite <-C. by apply K.
Qed.

(** ** The instances *)

Lemma keeps_of {A} (m : M U A) (Q : U → A → U → Prop) :
  (∀ u, um_ok u → wp m (Q u) (λ _ _, True) u) → (∀ u a u', Q u a u' → um_ok u') → keeps m.
Proof. intros Hm HQ u Hok. eapply wp_mono; [by apply Hm|cbn; intros; by eapply HQ|done]. Qed.

Lemma keeps_write r k b data : keeps (op_write r k b data).
Proof using Hcalm Hwhole Hmoves. eapply keeps_of; [apply op_write_post|]. by intros u _ u' (d & [] & _). Qed.
Lemma keeps_zeroextend r k b n : keeps (op_zeroextend r k b n).
Proof using Hcalm Hwhole Hmoves. eapply keeps_of; [apply op_zeroextend_post|]. by intros u _ u' []. Qed.
Lemma keeps_preallocate r k n : keeps (op_preallocate r k n).
Proof using Hcalm Hwhole Hmoves. eapply keeps_of; [apply op_preallocate_post|]. by intros u _ u' []. Qed.
Lemma keeps_create r k redo : keeps (op_create r k redo).
Proof using Hcalm Hwhole Hmoves. eapply keeps_of; [apply op_create_post|]. by intros u _ u' []. Qed.
Lemma keeps_readv lenient r k b n : keeps (op_readv lenient r k b n).
Proof using Hcalm Hwhole Hmoves. eapply keeps_of; [apply op_readv_post|]. by intros u _ u' [[] _]. Qed.
Lemma keeps_writev lenient r k b ds : keeps (op_writev lenient r k b ds).
Proof using Hcalm Hwhole Hmoves. eapply keeps_of; [apply op_writev_post|]. by intros u _ u' []. Qed.
Lemma keeps_extend r k b d : keeps (op_extend r k b d).
Proof using Hcalm Hwhole Hmoves. eapply keeps_of; [apply op_extend_post|]. by intros u _ u' []. Qed.
Lemma keeps_ctx_extend r k b d : keeps (op_ctx_extend r k b d).
Proof using Hcalm Hwhole Hmoves. eapply keeps_of; [apply op_ctx_extend_post|]. by intros u _ u' (u1 & _ & []). Qed.
Lemma keeps_truncate lenient r k old n : keeps (op_truncate lenient r k old n).
Proof using Hcalm Hwhole Hmoves. eapply keeps_of; [apply op_truncate_post|]. by intros u _ u' []. Qed.

Definition answer {A} (d : A) (m : M U A) s : A := match (m (`s)).1 with Ok a => a | Err _ => d end.

Local Instance um_file_layer : FileLayer UmStore := {
  fl_exists s r k := answer false (op_exists r k UMFILE_DENSE) s;
  fl_exists_sparse s r k := answer false (op_exists r k UMFILE_SPARSE) s;
  fl_nblocks s r k := answer 0 (op_nblocks r k) s;
  fl_read s r k b n := (op_read r k b (Z.of_nat n) (`s)).1;
  fl_write s r k b data := store_only (run_on (op_write r k b data) (keeps_write r k b data) s);
  fl_zeroextend s r k b n := store_only (run_on (op_zeroextend r k b n) (keeps_zeroextend r k b n) s);
  fl_block_exists s r k b := answer false (op_block_exists r k b) s;
  fl_preallocate s r k n := run_on (op_preallocate r k n) (keeps_preallocate r k n) s;
  fl_create s r k redo := run_on (op_create r k redo) (keeps_create r k redo) s;
}.

Local Instance um_data_files : DataFiles UmStore := {
  fl_readv lenient s r k b n := run_on (op_readv lenient r k b n) (keeps_readv lenient r k b n) s;
  fl_writev lenient s r k b ds :=
    store_only (run_on (op_writev lenient r k b ds) (keeps_writev lenient r k b ds) s);
  fl_extend s r k b d := store_only (run_on (op_extend r k b d) (keeps_extend r k b d) s);
  fl_ctx_extend s r k b d := store_only (run_on (op_ctx_extend r k b d) (keeps_ctx_extend r k b d) s);
  fl_nblocks_sparse s r k := answer 0 (op_nblocks_sparse r k) s;
  fl_segment_exists s r k segno := answer false (op_segment_exists r k segno) s;
  fl_truncate lenient s r k old n :=
    store_only (run_on (op_truncate lenient r k old n) (keeps_truncate lenient r k old n) s);
  fl_prefetch s r k b n :=
    (on_ctx True r (umfile_prefetch fault chunk temp recovery data_sync_retry r k b n) (`s)).1;
  fl_writeback s r k b n :=
    (on_ctx True r (umfile_writeback fault chunk temp recovery data_sync_retry r k b n) (`s)).1;
}.

(** What a successful call did. *)
Lemma write_done s r k b data s' :
  fl_write s r k b data = Ok s' → ∃ d, stored r k b [d] (`s) (`s') ∧ take (length data) d = data.
Proof. intros [a Ha]%store_only_ok. exact (run_on_post _ _ _ _ _ _ _ (op_write_post r k b data _ (proj2_sig s)) Ha). Qed.

Lemma zeroextend_done s r k b n s' :
  fl_zeroextend s r k b n = Ok s' → stored r k b (replicate (Z.to_nat n) zero_block) (`s) (`s').
Proof. intros [a Ha]%store_only_ok. exact (run_on_post _ _ _ _ _ _ _ (op_zeroextend_post r k b n _ (proj2_sig s)) Ha). Qed.

Lemma preallocate_done s r k n s' ok :
  fl_preallocate s r k n = Ok (s', ok) → um_ok (`s') ∧ grow r k (`s) (`s').
Proof. intros Ha. exact (run_on_post _ _ _ _ _ _ _ (op_preallocate_post r k n _ (proj2_sig s)) Ha). Qed.

Lemma create_done s r k redo s' c : fl_create s r k redo = Ok (s', c) → made r k (`s) (`s').
Proof. intros Ha. exact (run_on_post _ _ _ _ _ _ _ (op_create_post r k redo _ (proj2_sig s)) Ha). Qed.

Lemma readv_done lenient s r k b n s' ds :
  fl_readv lenient s r k b n = Ok (s', ds) →
  found r k lenient (`s) (`s') ∧ blocks_read lenient false r k b n (`s) ds.
Proof. intros Ha. exact (run_on_post _ _ _ _ _ _ _ (op_readv_post lenient r k b n _ (proj2_sig s)) Ha). Qed.

Lemma writev_done lenient s r k b ds s' :
  fl_writev lenient s r k b ds = Ok s' → stored r k b ds (`s) (`s').
Proof. intros [a Ha]%store_only_ok. exact (run_on_post _ _ _ _ _ _ _ (op_writev_post lenient r k b ds _ (proj2_sig s)) Ha). Qed.

Lemma extend_done s r k b d s' : fl_extend s r k b d = Ok s' → stored r k b [d] (`s) (`s').
Proof. intros [a Ha]%store_only_ok. exact (run_on_post _ _ _ _ _ _ _ (op_extend_post r k b d _ (proj2_sig s)) Ha). Qed.

Lemma ctx_extend_done s r k b d s' :
  fl_ctx_extend s r k b d = Ok s' → ∃ u1, ensured r k (`s) u1 ∧ stored r k b [d] u1 (`s').
Proof. intros [a Ha]%store_only_ok. exact (run_on_post _ _ _ _ _ _ _ (op_ctx_extend_post r k b d _ (proj2_sig s)) Ha). Qed.

Lemma truncate_done lenient s r k old n s' :
  fl_truncate lenient s r k old n = Ok s' → cut r k n (`s) (`s').
Proof. intros [a Ha]%store_only_ok. exact (run_on_post _ _ _ _ _ _ _ (op_truncate_post lenient r k old n _ (proj2_sig s)) Ha). Qed.

(** ** The laws *)

Lemma exists_exact s r k : fl_exists s r k = bool_decide (fork_there (`s) r k).
Proof.
  assert (wp (op_exists r k UMFILE_DENSE) (λ here _, here = bool_decide (fork_there (`s) r k)) (λ _ _, False) (`s)) as Hw.
  { apply (wp_on_ctx _ _ _ k); [apply (proj2_sig s)| |done]. intros u1 (Hok1 & _ & Hs) Hfd _.
    apply wp_exists; [done|done|]. intros u2 here _ Hh. rewrite (Hh eq_refl). apply bool_decide_ext.
    unfold fork_there. rewrite Hfd. by destruct (Hs eq_refl) as [_ ->]. }
  cbn. unfold answer. unfold wp in Hw. destruct (op_exists r k UMFILE_DENSE (`s)) as [[a|e] u']; [done|by destruct Hw].
Qed.

(** The metadata fork is there when its first segment is. *)
Lemma meta_there u r :
  um_ok u → fork_there u r UMBRA_METADATA_FORKNUM ↔ is_Some (um_dir u !! (r, UMBRA_METADATA_FORKNUM, 0)).
Proof.
  intros Hok. split; [|by right]. intros [Hne|?]; [|done].
  destruct (seg_fds u r UMBRA_METADATA_FORKNUM) as [|v vs] eqn:Hfd; [done|].
  assert (seg_fds u r UMBRA_METADATA_FORKNUM !! 0%nat = Some v) as Hv by by rewrite Hfd.
  destruct (ui_dense_open _ _ _ Hok r UMBRA_METADATA_FORKNUM 0 v eq_refl Hv) as [ino Hino].
  destruct (ui_open _ _ _ Hok _ _ _ _ _ Hv Hino) as [_ Hd]. eauto.
Qed.

Lemma meta_same s s' r :
  um_dir (`s') !! (r, UMBRA_METADATA_FORKNUM, 0) = um_dir (`s) !! (r, UMBRA_METADATA_FORKNUM, 0) →
  fl_exists s' r UMBRA_METADATA_FORKNUM = fl_exists s r UMBRA_METADATA_FORKNUM.
Proof.
  intros Hd. rewrite !exists_exact. apply bool_decide_ext. rewrite !meta_there by apply proj2_sig. by rewrite Hd.
Qed.

Lemma grow_meta r k u u' r' :
  grow r k u u' →
  um_dir u' !! (r', UMBRA_METADATA_FORKNUM, 0) = um_dir u !! (r', UMBRA_METADATA_FORKNUM, 0).
Proof.
  intros Hg. destruct (decide ((r', UMBRA_METADATA_FORKNUM) = (r, k))) as [[= -> <-]|].
  - by apply (gr_first _ _ _ _ Hg).
  - by apply (gr_other_dir _ _ _ _ Hg).
Qed.

Lemma content_range u r k b d : um_ok u → um_content u r k b = Some d → 0 ≤ b < InvalidBlockNumber.
Proof.
  intros Hok. unfold um_content. case_decide as Hb; [|done]. unfold block_in. case_decide as Hin; [|done]. intros _.
  destruct (seekpos_ok b) as [Hp _]. pose proof (ui_max _ _ _ Hok r k (segno_of b)) as Hm. fold (seg u r k (segno_of b)) in Hm.
  unfold seekpos_of, segno_of, SEG_BYTES, BLCKSZ, RELSEG_SIZE in *. ulia.
Qed.

Lemma read_exact s r k b n d :
  (0 < n ≤ Z.to_nat BLCKSZ)%nat →
  fl_read s r k b n = Ok d ↔ ∃ d0, um_content (`s) r k b = Some d0 ∧ d = take n d0.
Proof.
  intros Hn.
  assert (wp (op_read r k b (Z.of_nat n))
    (λ d _, ∃ d0, um_content (`s) r k b = Some d0 ∧ d = take n d0)
    (λ _ _, um_content (`s) r k b = None) (`s)) as Hw.
  { apply (wp_on_ctx _ _ _ k); [apply (proj2_sig s)| |].
    - intros u1 (Hok1 & _ & Hs) _ [Hb Hn']. assert (um_content u1 r k b = um_content (`s) r k b) as <-.
      { unfold um_content. by rewrite (proj1 (Hs eq_refl)). }
      eapply wp_mono; [by apply wp_ctx_read|cbn|done]. intros d' u' [_ ?]. by rewrite Nat2Z.id in *.
    - intros u' Hno. destruct (um_content (`s) r k b) as [d0|] eqn:Hc; [|done]. exfalso. apply Hno.
      split; [by eapply content_range; [apply (proj2_sig s)|]|]. unfold BLCKSZ in *. lia. }
  cbn. unfold wp in Hw. destruct (op_read r k b (Z.of_nat n) (`s)) as [[a|e] u']; cbn; split.
  - by intros [= <-].
  - intros (d0 & Hd & ->). destruct Hw as (d1 & Hd1 & ->). congruence.
  - done.
  - intros (d0 & Hd & ->). congruence.
Qed.

Lemma nblocks_exact s r b d :
  um_content (`s) r UMBRA_METADATA_FORKNUM b = Some d → b < fl_nblocks s r UMBRA_METADATA_FORKNUM.
Proof.
  intros Hc. assert (wp (op_nblocks r UMBRA_METADATA_FORKNUM) (λ n _, b < n) (λ _ _, False) (`s)) as Hw.
  { apply (wp_on_ctx _ _ _ UMBRA_METADATA_FORKNUM); [apply (proj2_sig s)| |done]. intros u1 (Hok1 & _ & Hs) _ _.
    apply wp_nblocks_dense; [done|done|done|]. intros n u2 _ [_ Hcov]. apply (Hcov b d). rewrite <-Hc.
    unfold um_content. by rewrite (proj1 (Hs eq_refl)). }
  cbn. unfold answer. unfold wp in Hw. destruct (op_nblocks _ _ (`s)) as [[a|e] u']; [done|by destruct Hw].
Qed.

Lemma block_exists_exact s r k b : fl_block_exists s r k b = true → is_Some (um_content (`s) r k b).
Proof.
  assert (wp (op_block_exists r k b) (λ here _, here = true → is_Some (um_content (`s) r k b)) (λ _ _, True) (`s)) as Hw.
  { apply (wp_on_ctx _ _ _ k); [apply (proj2_sig s)| |done]. intros u1 (Hok1 & _ & Hs) _ Hb.
    apply wp_block_exists; [done|done|done| |done]. intros u2 here _ Hh. unfold um_content in *.
    by rewrite (proj1 (Hs eq_refl)) in Hh. }
  cbn. unfold answer. unfold wp in Hw. destruct (op_block_exists r k b (`s)) as [[a|e] u']; done.
Qed.

Lemma stored_frame r k b ds s s' :
  stored r k b ds (`s) (`s') →
  (∀ r' k' b', (r', k') ≠ (r, k) → um_content (`s') r' k' b' = um_content (`s) r' k' b') ∧
  (∀ b', ¬ (b ≤ b' < b + Z.of_nat (length ds)) → block_kept (um_content (`s) r k b') (um_content (`s') r k b')) ∧
  (∀ r', fl_exists s' r' UMBRA_METADATA_FORKNUM = fl_exists s r' UMBRA_METADATA_FORKNUM).
Proof. intros [O D T K X]. split_and!; [done|done|]. intros r'. apply meta_same, X. Qed.

Lemma stored_zero r k b n s s' b' :
  stored r k b (replicate (Z.to_nat n) zero_block) (`s) (`s') → b ≤ b' < b + n →
  um_content (`s') r k b' = Some zero_block.
Proof.
  intros Hst Hb. replace b' with (b + Z.of_nat (Z.to_nat (b' - b))) by lia. apply (st_data _ _ _ _ _ _ Hst).
  apply lookup_replicate_2. lia.
Qed.

Local Instance um_file_laws : FileLayerLaws UmStore.
Proof.
  refine {| fl_content s := um_content (`s) |}.
  - intros s r k b d. apply content_wf, proj2_sig.
  - apply read_exact.
  - intros s r b d Hc _. by eapply nblocks_exact.
  - intros s r k b data s' _ _ (d & Hst & Hd)%write_done. exists d. split; [|done].
    pose proof (st_data _ _ _ _ _ _ Hst 0%nat d eq_refl) as Hx. by rewrite Z.add_0_r in Hx.
  - intros s r k b data s' r' k' b' (d & Hst & _)%write_done Hne. apply stored_frame in Hst as (T & K & _).
    destruct (decide ((r', k') = (r, k))) as [[= -> ->]|]; [|left; by apply T].
    apply K. cbn. intros ?. apply Hne. f_equal. lia.
  - intros s r k b data s' r' k' b' (d & Hst & _)%write_done. apply (stored_frame _ _ _ _ _ _ Hst).
  - intros s r k b data s' r' (d & Hst & _)%write_done. apply (stored_frame _ _ _ _ _ _ Hst).
  - intros s r k b n s' r' k' b' Hst%zeroextend_done. apply (stored_frame _ _ _ _ _ _ Hst).
  - intros s r k b n s' r' Hst%zeroextend_done. apply (stored_frame _ _ _ _ _ _ Hst).
  - intros s r k b n s' b' Hst%zeroextend_done Hb. erewrite stored_zero by done. eauto.
  - intros s r k b n s' b' Hst%zeroextend_done [d Hd]. destruct (decide (b ≤ b' < b + n)).
    { erewrite stored_zero by done. eauto. }
    apply stored_frame in Hst as (_ & K & _). exists d. eapply block_kept_at; [apply K|done].
    rewrite length_replicate. lia.
  - intros s r k b n s' b' Hst%zeroextend_done Hb _. by eapply stored_zero.
  - intros s r k b n s' b' Hst%zeroextend_done Hb. apply (stored_frame _ _ _ _ _ _ Hst).
    rewrite length_replicate. lia.
  - apply block_exists_exact.
  - intros s r k n s' ok r' k' b' [_ Hg]%preallocate_done Hne.
    pose proof (content_grow r k _ _ r' k' b' (proj2_sig s) Hg) as Hc. by rewrite decide_False in Hc.
  - intros s r k n s' ok r' [_ Hg]%preallocate_done. by eapply meta_same, grow_meta.
  - intros s r k n s' ok b' [_ Hg]%preallocate_done _.
    pose proof (content_grow r k _ _ r k b' (proj2_sig s) Hg) as Hc. by rewrite decide_True in Hc.
  - intros s r k redo s' c r' k' b' (_ & Hs & _)%create_done. unfold um_content. by rewrite Hs.
  - intros s r k redo s' c r' k' (_ & _ & Ho & Ht)%create_done. rewrite !exists_exact.
    destruct (decide ((r', k') = (r, k))) as [[= -> ->]|Hne].
    + rewrite (bool_decide_true (fork_there _ _ _)), (bool_decide_true (_ = _)) by done. by rewrite orb_true_r.
    + rewrite (bool_decide_false (_ = _)), orb_false_r by done. apply bool_decide_ext. by eapply other_forks_there.
Defined.

Local Instance um_data_laws : DataFilesLaws UmStore.
Proof.
  split.
  - intros lenient s r k b n s' ds [_ Hr]%readv_done. exact Hr.
  - intros s r k b n s' ds r' k' b' [(_ & _ & Hs) _]%readv_done. cbn. unfold um_content. by rewrite (proj1 (Hs eq_refl)).
  - intros lenient s r k b n s' ds r' [(_ & Hg & _) _]%readv_done. by eapply meta_same, grow_meta.
  - intros lenient s r k b ds s' Hst%writev_done _. apply (st_data _ _ _ _ _ _ Hst).
  - intros lenient s r k b ds s' Hst%writev_done. by apply stored_frame.
  - intros s r k b d s' Hst%extend_done _. pose proof (st_data _ _ _ _ _ _ Hst 0%nat d eq_refl) as Hx.
    by rewrite Z.add_0_r in Hx.
  - intros s r k b d s' Hst%extend_done. exact (stored_frame _ _ _ [d] _ _ Hst).
  - intros s r k b d s' (u1 & _ & Hst)%ctx_extend_done _.
    pose proof (st_data _ _ _ _ _ _ Hst 0%nat d eq_refl) as Hx. by rewrite Z.add_0_r in Hx.
  - intros s r k b d s' (u1 & (_ & Hs & Ho) & [_ _ T K X])%ctx_extend_done Hk.
    assert (∀ r' k' b', um_content u1 r' k' b' = um_content (`s) r' k' b') as C
      by (intros; unfold um_content; by rewrite Hs).
    split_and!; [intros r' k' b' Hne; cbn; by rewrite T, C|intros b' Hout; cbn; rewrite <-C; by apply K|].
    intros r'. apply meta_same. rewrite X. apply Ho. congruence.
  - intros lenient s r k old n s' b' Hc%truncate_done. apply (cu_kept _ _ _ _ _ Hc).
  - intros lenient s r k old n s' r' k' b' Hc%truncate_done. apply (cu_other _ _ _ _ _ Hc).
Qed.
End store.

(** ** What the layers above rely on *)

(** C10: [umfile.c] over segment files keeps the contract that the map and
    the storage manager are proved against.  With the block contents read off
    the segment files, every law of [FileLayer] and of [DataFiles] holds of the
    calls run on well-formed files - reads and sizes are exact, writes and
    extensions change the named blocks and otherwise only add zero blocks,
    creating and preallocating keep every block, truncation keeps the blocks
    below the new end - whichever writes, syncs, allocations, truncations,
    unlinks and directory scans fail and however writes are cut short. *)
Theorem segment_files_implement_interface fault chunk temp recovery data_sync_retry skipFsync
    (Hcalm : calm_faults fault) (Hwhole : whole_reads chunk) (Hmoves : moves chunk) :
  ∃ L : @FileLayerLaws UmStore
          (um_file_layer fault chunk temp recovery data_sync_retry skipFsync Hcalm Hwhole Hmoves),
    (∀ s, @fl_content _ _ L s = um_content (`s)) ∧
    @DataFilesLaws UmStore _ L
      (um_data_files fault chunk temp recovery data_sync_retry skipFsync Hcalm Hwhole Hmoves).
Proof.
  refine (ex_intro _ (um_file_laws fault chunk temp recovery data_sync_retry skipFsync Hcalm Hwhole Hmoves) _).
  split; [done|]. apply um_data_laws.
Qed.

(** A disk that is sometimes full, whose writes move at most 512 bytes. *)
Definition full_disk (c : syscall) (n : nat) : option errno :=
  match c with
  | SysWrite | SysAllocate => if bool_decide (n mod 7 = 0)%nat then Some ENOSPC else None
  | _ => None
  end.
Definition small_writes (c : syscall) (n : nat) (x : Z) : Z :=
  match c with SysWrite => Z.min x 512 | _ => x end.

Lemma full_disk_calm : calm_faults full_disk.
Proof. intros c n Hc. destruct c; try done; exfalso; set_solver. Qed.
Lemma small_writes_whole : whole_reads small_writes.
Proof. intros n x. cbn. lia. Qed.
Lemma small_writes_moves : moves small_writes.
Proof. intros c n x Hx. destruct c; cbn; lia. Qed.

Lemma segment_files_implement_interface_witness :
  ∃ L : @FileLayerLaws UmStore (um_file_layer full_disk small_writes false false false false
          full_disk_calm small_writes_whole small_writes_moves),
    (∀ s, @fl_content _ _ L s = um_content (`s)) ∧
    @DataFilesLaws UmStore _ L (um_data_files full_disk small_writes false false false false
      full_disk_calm small_writes_whole small_writes_moves).
Proof.
  exact (segment_files_implement_interface full_disk small_writes false false false false
           full_disk_calm small_writes_whole small_writes_moves).
Defined.

(** C11: blocks that [umfile_writev] writes are the blocks that
    [umfile_readv] reads.  When no call fails, outside recovery, on a segment
    that exists, a run of at most [PG_IOV_MAX] blocks inside a segment is written
    completely however the transfers are cut into pieces, and reads back as it
    was written; every other block and fork keeps its contents; and unless the
    caller or a temporary relation waives it, a sync of the segment is due. *)
Theorem writev_readv fault chunk temp zero_damaged_pages data_sync_retry r k b ds skip u
    (Hmoves : moves chunk) (Hok : um_ok u) (Hb : 0 ≤ b)
    (Hmax : b + Z.of_nat (length ds) ≤ InvalidBlockNumber) (Hds : Forall full_block ds)
    (Hone : one_call b (Z.of_nat (length ds))) (Hcalm : undisturbed fault false r k b u) :
  wp (umfile_writev fault chunk temp false data_sync_retry r k b ds skip)
    (λ _ u1, stored r k b ds u u1 ∧
       (skip = false → temp = false → ∃ ino, sync_due r k (segno_of b) ino u1) ∧
       wp (umfile_readv fault chunk temp false zero_damaged_pages data_sync_retry r k b (length ds))
         (λ ds' u2, ds' = ds ∧ ∀ r' k' b', um_content u2 r' k' b' = um_content u1 r' k' b')
         (λ _ _, False) u1)
    (λ _ _, False) u.
Proof.
  apply wp_writev; [done..| |by intros e u' []]. intros u1 Hst Hsync. pose proof Hst as [Hok1 Hdata _ _ _].
  assert (∀ i, (i < length ds)%nat → is_Some (um_content u1 r k (b + Z.of_nat i))) as Hall.
  { intros i [d Hd]%lookup_lt_is_Some_2. rewrite (Hdata i d Hd). eauto. }
  split_and!; [done|intros ??; apply Hsync; [|done|done]; destruct Hone; by destruct ds|].
  apply wp_readv; [done..| |].
  - intros u2 ds' (_ & _ & Hs) [Hlen Hread]. split; [|intros; unfold um_content; by rewrite (proj1 (Hs eq_refl))].
    apply list_eq_same_length with (length ds); [done|done|]. intros i d' d Hi Hd' Hd.
    pose proof (Hdata i d Hd) as Hc. destruct (Hread i d' Hd') as [Hc'|(_ & Hc' & _)]; congruence.
  - intros e u2 Hno. apply Hno. destruct Hcalm as (Hf & Hv & _ & _). split_and!; [|done|done].
    split_and!; [done|done|done|]. destruct Hone as [Hpos _]. destruct (Hall 0%nat) as [d Hd]; [lia|].
    rewrite Z.add_0_r in Hd. by eapply content_dir.
Qed.

(** An empty main fork. *)
Definition no_um_files : UmFiles := MkUm ∅ ∅ 0 ∅ [].
Definition demo_um_rel : RelFileLocator := MkRel 1663 5 16384.
Definition demo_um : UmFiles := created (demo_um_rel, MAIN_FORKNUM, 0) no_um_files.

Lemma no_um_files_ok : um_ok no_um_files.
Proof.
  split; cbn.
  - intros r k n ino. by rewrite lookup_empty.
  - intros k1 k2 ino. by rewrite lookup_empty.
  - intros r k n. unfold seg_file. rewrite lookup_empty. split; [done|done|done|done].
  - intros r k n. unfold seg_file. rewrite lookup_empty. cbn. lia.
  - intros r k j v ino. unfold fds_of. rewrite lookup_empty. done.
  - intros r k j v _. unfold fds_of. rewrite lookup_empty. done.
  - intros r k n m _ [x Hx]. by rewrite lookup_empty in Hx.
Qed.

Lemma demo_um_ok : um_ok demo_um.
Proof. apply created_ok; [apply no_um_files_ok|apply lookup_empty|done|done|done]. Qed.

Lemma writev_readv_witness :
  wp (umfile_writev (λ _ _, None) small_writes false false false demo_um_rel MAIN_FORKNUM 3
        [zero_block; zero_block] false)
    (λ _ u1, stored demo_um_rel MAIN_FORKNUM 3 [zero_block; zero_block] demo_um u1 ∧
       (false = false → false = false → ∃ ino, sync_due demo_um_rel MAIN_FORKNUM (segno_of 3) ino u1) ∧
       wp (umfile_readv (λ _ _, None) small_writes false false false false demo_um_rel MAIN_FORKNUM 3 2)
         (λ ds' u2, ds' = [zero_block; zero_block] ∧
            ∀ r' k' b', um_content u2 r' k' b' = um_content u1 r' k' b')
         (λ _ _, False) u1)
    (λ _ _, False) demo_um.
Proof.
  apply (writev_readv (λ _ _, None) small_writes false false false demo_um_rel MAIN_FORKNUM 3
    [zero_block; zero_block] false demo_um).
  - exact small_writes_moves.
  - exact demo_um_ok.
  - done.
  - done.
  - exact (zero_blocks_full 2).
  - done.
  - split_and!; [done|done|done|]. eexists. apply lookup_insert_eq.
Defined.
